(** * Home_Inspection: the media pipeline of [logic.py] and [app.py]

    A shallow embedding of [HomeInspector] (src/logic.py) and of the
    structured-data export of src/app.py, together with the properties of the
    ingestion and synthesis pipeline that the specification states.

    Conventions.
    - A Python [str] is a list of code points ([N]); [py "..."] writes one.
    - A Python [dict] is an association list in insertion order with
      pairwise distinct keys; [dict_set] is [d[k] = v].
    - The collaborators outside the repository (the video decoder, the
      remote ingestion and analysis service) are records of oracles; every
      call to them is logged, so that statements can speak about which calls
      were made.
    - Exceptions are values of [exn]; a method returns an [outcome]. *)

From Stdlib Require Import ZArith NArith QArith Qround Qabs List Lia Bool String Ascii.
From Stdlib Require Import DecimalString DecimalZ DecimalPos DecimalFacts.
Import ListNotations.
Open Scope Z_scope.

Set Implicit Arguments.

(** ** Python strings *)

Module Py.

Definition str := list N.

Definition py (s : string) : str := map N_of_ascii (list_ascii_of_string s).

(** A text written with ['] where it has a double quote. *)
Definition pyq (s : string) : str :=
  map (fun c => if N.eqb c 39 then 34%N else c) (py s).

Fixpoint str_eqb (a b : str) : bool :=
  match a, b with
  | [], [] => true
  | x :: a', y :: b' => N.eqb x y && str_eqb a' b'
  | _, _ => false
  end.

(** [str(n)] and the [{n}] of an f-string, for an [int]. *)
Definition str_of_int (z : Z) : str := py (NilZero.string_of_int (Z.to_int z)).

(** [s.lower()] on the ASCII letters.  The only use in the source is a
    membership test in a set of ASCII extensions, which the lowering of the
    other letters cannot change. *)
Definition lower_char (c : N) : N :=
  if (65 <=? c)%N && (c <=? 90)%N then (c + 32)%N else c.

Definition lower (s : str) : str := map lower_char s.

(** [x in xs] for a set or list of strings. *)
Definition str_in (x : str) (xs : list str) : bool := existsb (str_eqb x) xs.

(** [sep.join(xs)] *)
Fixpoint join (sep : str) (xs : list str) : str :=
  match xs with
  | [] => []
  | [x] => x
  | x :: xs' => x ++ sep ++ join sep xs'
  end.

(** [s.rfind(c)]: the index of the last occurrence of [c], if any. *)
Fixpoint rfind (c : N) (s : str) : option nat :=
  match s with
  | [] => None
  | x :: s' =>
      match rfind c s' with
      | Some i => Some (S i)
      | None => if N.eqb x c then Some 0%nat else None
      end
  end.

(** [int(x)] for a float: truncation towards zero. *)
Definition int_of_float (q : Q) : Z := Z.quot (Qnum q) (Zpos (Qden q)).

(** *** Floats

    A finite [float] is kept as the rational that it denotes.  An
    operation on floats gives the double nearest to the exact result, ties
    going to the even significand (IEEE 754 binary64, the arithmetic of
    CPython); a result whose magnitude, so rounded, reaches 2^1024 is an
    infinity. *)

(** The nearest integer, ties to the even one. *)
Definition round_half_even (q : Q) : Z :=
  let f := Qfloor q in
  match Qcompare (q - inject_Z f) (1 # 2) with
  | Lt => f
  | Gt => f + 1
  | Eq => if Z.even f then f else f + 1
  end.

(** The exponent of the last place of the double nearest to [q], for
    [q] other than zero: [2^52 <= |q| / 2^e < 2^53], and -1074 at least
    (the subnormal numbers). *)
Definition ulp_exponent (q : Q) : Z :=
  let k := Z.log2 (Z.abs (Qnum q)) - Z.log2 (Zpos (Qden q)) in
  let e := if Qle_bool (2 ^ k) (Qabs q) then k - 52 else k - 53 in
  Z.max e (-1074).

(** The double nearest to [q], with no upper bound on its exponent. *)
Definition round_double (q : Q) : Q :=
  if Qeq_bool q 0 then 0%Q
  else
    let e := ulp_exponent q in
    (inject_Z (round_half_even (q / 2 ^ e)) * 2 ^ e)%Q.

(** Whether a result is an infinity. *)
Definition is_inf (q : Q) : bool := Qle_bool (2 ^ 1024) (Qabs q).

(** [a / b] for two floats, [b] other than zero. *)
Definition float_div (a b : Q) : Q := round_double (a / b).

(** [range(start, stop, step)] for a positive step. *)
Definition range_len (start stop step : Z) : nat :=
  if stop <=? start then 0%nat else Z.to_nat ((stop - start + step - 1) / step).

Definition range (start stop step : Z) : list Z :=
  map (fun i => start + step * Z.of_nat i) (seq 0 (range_len start stop step)).

(** *** Dictionaries *)

Definition dict (V : Type) := list (str * V).

Fixpoint dict_get {V} (d : dict V) (k : str) : option V :=
  match d with
  | [] => None
  | (k', v) :: d' => if str_eqb k' k then Some v else dict_get d' k
  end.

(** [d[k] = v]: an existing key keeps its place and takes the new value, a
    new key goes to the end. *)
Fixpoint dict_set {V} (d : dict V) (k : str) (v : V) : dict V :=
  match d with
  | [] => [(k, v)]
  | (k', v') :: d' =>
      if str_eqb k' k then (k', v) :: d' else (k', v') :: dict_set d' k v
  end.

Definition keys {V} (d : dict V) : list str := map fst d.
Definition values {V} (d : dict V) : list V := map snd d.

(** [dict(pairs)] *)
Definition dict_of_pairs {V} (ps : list (str * V)) : dict V :=
  fold_left (fun d kv => dict_set d (fst kv) (snd kv)) ps [].

(** *** Paths ([pathlib.PurePosixPath]) *)

Definition slash : N := 47.
Definition dot : N := 46.

(** [s.split('/')] *)
Fixpoint split_slash (s : str) : list str :=
  match s with
  | [] => [[]]
  | c :: s' =>
      if N.eqb c slash then [] :: split_slash s'
      else match split_slash s' with
           | [] => [[c]]
           | w :: ws => (c :: w) :: ws
           end
  end.

Record Path := { root : str; parts : list str }.

Definition is_part (x : str) : bool :=
  negb (str_eqb x []) && negb (str_eqb x [dot]).

(** Two leading slashes are a root of their own, any other number of
    leading slashes is the root ["/"]. *)
Definition parse_root (s : str) : str :=
  match s with
  | a :: b :: c :: _ =>
      if N.eqb a slash then
        if N.eqb b slash then
          if N.eqb c slash then [slash] else [slash; slash]
        else [slash]
      else []
  | [a; b] =>
      if N.eqb a slash then
        if N.eqb b slash then [slash; slash] else [slash]
      else []
  | [a] => if N.eqb a slash then [slash] else []
  | [] => []
  end.

Definition mkPath (s : str) : Path :=
  {| root := parse_root s; parts := filter is_part (split_slash s) |}.

(** [str(p)] *)
Definition Path_str (p : Path) : str :=
  match root p, parts p with
  | [], [] => [dot]
  | r, ps => r ++ join [slash] ps
  end.

(** [p / s] *)
Definition Path_div (p : Path) (s : str) : Path :=
  match parse_root s with
  | [] => {| root := root p; parts := parts p ++ filter is_part (split_slash s) |}
  | _ => mkPath s
  end.

(** [p.name] *)
Definition Path_name (p : Path) : str := last (parts p) [].

(** [p.suffix] *)
Definition Path_suffix (p : Path) : str :=
  let name := Path_name p in
  match rfind dot name with
  | Some i =>
      if ((0 <? i)%nat && (i <? List.length name - 1)%nat)%bool then skipn i name else []
  | None => []
  end.

End Py.

Import Py.

(** ** Exceptions and outcomes *)

(** The exceptions that reach the code of the repository.  [Exception msg]
    is any exception raised inside a collaborator (an upload that fails, a
    service call that fails), [msg] being its [str(e)].  A
    [JSONDecodeError] is kept with the document it could not decode (its
    [doc] attribute); its message and position are not modelled. *)
Inductive exn : Type :=
| ValueError (msg : str)
| ZeroDivisionError
| OverflowError (msg : str)
| OSError (msg : str)
| JSONDecodeError (doc : str)
| AttributeError (msg : str)
| RecursionError (msg : str)
| Exception (msg : str).

(** What running a method gives.  [Running] is the answer of a loop that
    has not finished within the steps it was given. *)
Inductive outcome (A : Type) : Type :=
| Return (a : A)
| Raise (e : exn)
| Running.

Arguments Return {A} a.
Arguments Raise {A} e.
Arguments Running {A}.


(** ** JSON values and the [json] module

    [json.loads] and [json.dumps] belong to the Python library, not to the
    repository; they are embedded here as far as the code uses them:
    [json.loads(text)] with the default decoder and
    [json.dumps(obj, indent=4)] with the default encoder.

    The decoder comes in two layers.  The grammar ([parse_value],
    [parse_items], [parse_members], [parse_text]) says which texts are JSON
    documents and what value each denotes.  The decoder of the interpreter
    ([scan_once], [scan_array], [scan_object], [decode], [loads]) reads by
    that grammar and meets two limits of the interpreter on its way: the
    recursion limit, when arrays and objects are nested too deep, and the
    limit on the number of digits of an integer. *)

Module Json.

(** What [json.loads] builds.  An object is a [dict]; a float is kept as
    the literal it was read from (["NaN"], ["Infinity"] and ["-Infinity"]
    included), its value as a double is not modelled. *)
#[local] Unset Elimination Schemes.

Inductive json : Type :=
| JNull
| JBool (b : bool)
| JInt (z : Z)
| JFloat (literal : str)
| JStr (s : str)
| JArr (items : list json)
| JObj (members : dict json).

#[local] Set Elimination Schemes.

(** *** Encoding *)

(** ["0123456789abcdef"[d]] *)
Definition hexdigit (d : N) : N := if (d <? 10)%N then (48 + d)%N else (87 + d)%N.

(** ['{0:04x}'.format(n)] for [n < 0x10000] *)
Definition hex4 (n : N) : str :=
  [hexdigit (n / 4096 mod 16)%N; hexdigit (n / 256 mod 16)%N;
   hexdigit (n / 16 mod 16)%N; hexdigit (n mod 16)%N].

(** The replacement of one character by [py_encode_basestring_ascii]:
    the short escapes, the printable ASCII characters as they are, and
    [\uXXXX] for the rest, as a surrogate pair above the basic plane. *)
Definition escape_char (c : N) : str :=
  if N.eqb c 34 then [92; 34]%N
  else if N.eqb c 92 then [92; 92]%N
  else if N.eqb c 10 then [92; 110]%N
  else if N.eqb c 13 then [92; 114]%N
  else if N.eqb c 9 then [92; 116]%N
  else if N.eqb c 12 then [92; 102]%N
  else if N.eqb c 8 then [92; 98]%N
  else if ((32 <=? c) && (c <=? 126))%N then [c]
  else if (c <? 0x10000)%N then (92 :: 117 :: hex4 c)%N
  else
    let n := (c - 0x10000)%N in
    let s1 := N.lor 0xd800 (N.land (N.shiftr n 10) 0x3ff) in
    let s2 := N.lor 0xdc00 (N.land n 0x3ff) in
    (92 :: 117 :: hex4 s1 ++ 92 :: 117 :: hex4 s2)%N.

Definition encode_basestring_ascii (s : str) : str :=
  (34 :: flat_map escape_char s ++ [34])%N.

Section Encoder.

(** [float.__repr__] of the double read from a literal: outside the model. *)
Variable float_repr : str -> str.

(** The number of spaces of one level of indentation. *)
Variable indent : nat.

Definition newline_indent (level : nat) : str :=
  (10 :: repeat 32 (indent * level))%N.

(** [_iterencode(o, level)] with [_indent] set: the item separator is
    [","] and the key separator [": "]. *)
Fixpoint iterencode (level : nat) (o : json) : str :=
  match o with
  | JStr s => encode_basestring_ascii s
  | JNull => py "null"
  | JBool true => py "true"
  | JBool false => py "false"
  | JInt z => str_of_int z
  | JFloat literal => float_repr literal
  | JArr [] => py "[]"
  | JArr items =>
      py "[" ++ newline_indent (S level)
      ++ join (py "," ++ newline_indent (S level))
              (map (iterencode (S level)) items)
      ++ newline_indent level ++ py "]"
  | JObj [] => py "{}"
  | JObj members =>
      py "{" ++ newline_indent (S level)
      ++ join (py "," ++ newline_indent (S level))
              (map (fun kv => encode_basestring_ascii (fst kv) ++ py ": "
                              ++ iterencode (S level) (snd kv))
                   members)
      ++ newline_indent level ++ py "}"
  end.

End Encoder.

(** [json.dumps(obj, indent=n)] *)
Definition dumps (float_repr : str -> str) (indent : nat) (obj : json) : str :=
  iterencode float_repr indent 0 obj.

(** *** Decoding *)

Definition is_ws (c : N) : bool :=
  N.eqb c 32 || N.eqb c 9 || N.eqb c 10 || N.eqb c 13.

Fixpoint skip_ws (s : str) : str :=
  match s with
  | c :: s' => if is_ws c then skip_ws s' else s
  | [] => []
  end.

Definition hexval (c : N) : option N :=
  if ((48 <=? c) && (c <=? 57))%N then Some (c - 48)%N
  else if ((97 <=? c) && (c <=? 102))%N then Some (c - 87)%N
  else if ((65 <=? c) && (c <=? 70))%N then Some (c - 55)%N
  else None.

(** The four hexadecimal digits of a [\uXXXX] escape. *)
Definition hexval4 (a b c d : N) : option N :=
  match hexval a, hexval b, hexval c, hexval d with
  | Some x, Some y, Some z, Some w => Some (((x * 16 + y) * 16 + z) * 16 + w)%N
  | _, _, _, _ => None
  end.

(** The table [BACKSLASH] of the one-letter escapes. *)
Definition BACKSLASH (esc : N) : option N :=
  if N.eqb esc 34 then Some 34%N
  else if N.eqb esc 92 then Some 92%N
  else if N.eqb esc 47 then Some 47%N
  else if N.eqb esc 98 then Some 8%N
  else if N.eqb esc 102 then Some 12%N
  else if N.eqb esc 110 then Some 10%N
  else if N.eqb esc 114 then Some 13%N
  else if N.eqb esc 116 then Some 9%N
  else None.

Definition is_high_surrogate (c : N) : bool := ((0xd800 <=? c) && (c <=? 0xdbff))%N.
Definition is_low_surrogate (c : N) : bool := ((0xdc00 <=? c) && (c <=? 0xdfff))%N.

Definition join_surrogates (uni uni2 : N) : N :=
  (0x10000 + N.lor (N.shiftl (uni - 0xd800) 10) (uni2 - 0xdc00))%N.

Definition add_char (c : N) (r : option (str * str)) : option (str * str) :=
  match r with
  | Some (content, rest) => Some (c :: content, rest)
  | None => None
  end.

(** [scanstring(s, end, strict=True)], from the character after the
    opening quote: the string and what follows its closing quote, or
    [None] where it raises. *)
Fixpoint scanstring (s : str) : option (str * str) :=
  match s with
  | [] => None
  | c :: s1 =>
      if N.eqb c 34 then Some ([], s1)
      else if N.eqb c 92 then
        match s1 with
        | [] => None
        | esc :: s2 =>
            if N.eqb esc 117 then
              match s2 with
              | a :: b :: c0 :: d :: s3 =>
                  match hexval4 a b c0 d with
                  | None => None
                  | Some uni =>
                      if is_high_surrogate uni then
                        match s3 with
                        | bs :: u :: x1 :: x2 :: x3 :: x4 :: s4 =>
                            if N.eqb bs 92 && N.eqb u 117 then
                              match hexval4 x1 x2 x3 x4 with
                              | None => None
                              | Some uni2 =>
                                  if is_low_surrogate uni2
                                  then add_char (join_surrogates uni uni2) (scanstring s4)
                                  else add_char uni (scanstring s3)
                              end
                            else add_char uni (scanstring s3)
                        | _ => add_char uni (scanstring s3)
                        end
                      else add_char uni (scanstring s3)
                  end
              | _ => None
              end
            else
              match BACKSLASH esc with
              | None => None
              | Some ch => add_char ch (scanstring s2)
              end
        end
      else if (c <? 32)%N then None
      else add_char c (scanstring s1)
  end.

Definition is_digit (c : N) : bool := ((48 <=? c) && (c <=? 57))%N.

(** The longest run of digits at the head of [s], and the rest. *)
Fixpoint take_digits (s : str) : str * str :=
  match s with
  | c :: s' =>
      if is_digit c then let '(ds, r) := take_digits s' in (c :: ds, r)
      else ([], s)
  | [] => ([], [])
  end.

(** The integer part of a number: an optional minus sign, then either
    [0] or a digit other than [0] followed by any digits. *)
Definition match_integer (s : str) : option (str * str) :=
  let '(sign, s1) :=
    match s with
    | c :: s' => if N.eqb c 45 then ([45%N], s') else ([], s)
    | [] => ([], [])
    end in
  match s1 with
  | [] => None
  | d :: s2 =>
      if N.eqb d 48 then Some (sign ++ [d], s2)
      else if is_digit d then
        let '(ds, r) := take_digits s2 in Some (sign ++ d :: ds, r)
      else None
  end.

(** The optional fraction: a point and one digit or more. *)
Definition match_frac (s : str) : str * str :=
  match s with
  | p :: d :: s' =>
      if N.eqb p 46 && is_digit d then
        let '(ds, r) := take_digits s' in (p :: d :: ds, r)
      else ([], s)
  | _ => ([], s)
  end.

(** The optional exponent: [e] or [E], an optional sign, one digit or
    more. *)
Definition match_exp (s : str) : str * str :=
  match s with
  | e :: sg :: s' =>
      if N.eqb e 101 || N.eqb e 69 then
        if is_digit sg then
          let '(ds, r) := take_digits s' in (e :: sg :: ds, r)
        else if N.eqb sg 43 || N.eqb sg 45 then
          match s' with
          | d :: s'' =>
              if is_digit d then
                let '(ds, r) := take_digits s'' in (e :: sg :: d :: ds, r)
              else ([], s)
          | [] => ([], s)
          end
        else ([], s)
      else ([], s)
  | _ => ([], s)
  end.

(** [int(digits)] for a run of digits, most significant first. *)
Definition nat_of_digits (ds : str) : Z :=
  fold_left (fun acc c => 10 * acc + (Z.of_N c - 48)) ds 0.

(** [int(integer)] for a match of [match_integer]. *)
Definition int_of_literal (integer : str) : Z :=
  match integer with
  | c :: ds => if N.eqb c 45 then - nat_of_digits ds else nat_of_digits integer
  | [] => 0
  end.

Fixpoint starts_with (prefix s : str) : bool :=
  match prefix, s with
  | [], _ => true
  | p :: prefix', c :: s' => N.eqb p c && starts_with prefix' s'
  | _ :: _, [] => false
  end.

(** The result of reading by the grammar: a value and the rest of the
    text; [Invalid], where the text is no JSON; [OutOfFuel], where the
    reading was not given steps enough. *)
Inductive scan (A : Type) : Type :=
| Scanned (a : A) (rest : str)
| Invalid
| OutOfFuel.

Arguments Scanned {A} a rest.
Arguments Invalid {A}.
Arguments OutOfFuel {A}.

(** The cases of [parse_value] that are not a string, an object or an
    array: the three names, a number, and the three float constants. *)
Definition scan_atom (s : str) : scan json :=
  if starts_with (py "null") s then Scanned JNull (skipn 4 s)
  else if starts_with (py "true") s then Scanned (JBool true) (skipn 4 s)
  else if starts_with (py "false") s then Scanned (JBool false) (skipn 5 s)
  else
    match match_integer s with
    | Some (integer, r) =>
        let '(frac, r1) := match_frac r in
        let '(exp, r2) := match_exp r1 in
        match frac, exp with
        | [], [] => Scanned (JInt (int_of_literal integer)) r2
        | _, _ => Scanned (JFloat (integer ++ frac ++ exp)) r2
        end
    | None =>
        if starts_with (py "NaN") s then Scanned (JFloat (py "NaN")) (skipn 3 s)
        else if starts_with (py "Infinity") s
        then Scanned (JFloat (py "Infinity")) (skipn 8 s)
        else if starts_with (py "-Infinity") s
        then Scanned (JFloat (py "-Infinity")) (skipn 9 s)
        else Invalid
    end.

(** The grammar of a value, of the items of an array (from its first
    value on) and of the members of an object (from the character after
    the opening quote of a key on). *)
Fixpoint parse_value (fuel : nat) (s : str) {struct fuel} : scan json :=
  match fuel with
  | O => OutOfFuel
  | S fuel' =>
      match s with
      | [] => Invalid
      | c :: s1 =>
          if N.eqb c 34 then
            match scanstring s1 with
            | Some (x, r) => Scanned (JStr x) r
            | None => Invalid
            end
          else if N.eqb c 123 then
            match skip_ws s1 with
            | c1 :: r1 =>
                if N.eqb c1 125 then Scanned (JObj []) r1
                else if N.eqb c1 34 then
                  match parse_members fuel' r1 with
                  | Scanned pairs r => Scanned (JObj (dict_of_pairs pairs)) r
                  | Invalid => Invalid
                  | OutOfFuel => OutOfFuel
                  end
                else Invalid
            | [] => Invalid
            end
          else if N.eqb c 91 then
            match skip_ws s1 with
            | c1 :: r1 =>
                if N.eqb c1 93 then Scanned (JArr []) r1
                else
                  match parse_items fuel' (c1 :: r1) with
                  | Scanned values r => Scanned (JArr values) r
                  | Invalid => Invalid
                  | OutOfFuel => OutOfFuel
                  end
            | [] => Invalid
            end
          else scan_atom s
      end
  end

with parse_items (fuel : nat) (s : str) {struct fuel} : scan (list json) :=
  match fuel with
  | O => OutOfFuel
  | S fuel' =>
      match parse_value fuel' s with
      | Scanned value r =>
          match skip_ws r with
          | c :: r1 =>
              if N.eqb c 93 then Scanned [value] r1
              else if N.eqb c 44 then
                match parse_items fuel' (skip_ws r1) with
                | Scanned values r2 => Scanned (value :: values) r2
                | Invalid => Invalid
                | OutOfFuel => OutOfFuel
                end
              else Invalid
          | [] => Invalid
          end
      | Invalid => Invalid
      | OutOfFuel => OutOfFuel
      end
  end

with parse_members (fuel : nat) (s : str) {struct fuel} : scan (list (str * json)) :=
  match fuel with
  | O => OutOfFuel
  | S fuel' =>
      match scanstring s with
      | None => Invalid
      | Some (key, r) =>
          match skip_ws r with
          | c :: r1 =>
              if N.eqb c 58 then
                match parse_value fuel' (skip_ws r1) with
                | Scanned value r2 =>
                    match skip_ws r2 with
                    | c1 :: r3 =>
                        if N.eqb c1 125 then Scanned [(key, value)] r3
                        else if N.eqb c1 44 then
                          match skip_ws r3 with
                          | q :: r4 =>
                              if N.eqb q 34 then
                                match parse_members fuel' r4 with
                                | Scanned pairs r5 => Scanned ((key, value) :: pairs) r5
                                | Invalid => Invalid
                                | OutOfFuel => OutOfFuel
                                end
                              else Invalid
                          | [] => Invalid
                          end
                        else Invalid
                    | [] => Invalid
                    end
                | Invalid => Invalid
                | OutOfFuel => OutOfFuel
                end
              else Invalid
          | [] => Invalid
          end
      end
  end.

(** The steps that scanning a text can take. *)
Definition fuel_for (s : str) : nat := 2 * List.length s + 2.

(** A text as a JSON document: white space, one value, white space, the
    end. *)
Definition parse_text (s : str) : scan json :=
  match parse_value (fuel_for s) (skip_ws s) with
  | Scanned obj r =>
      match skip_ws r with
      | [] => Scanned obj []
      | _ :: _ => Invalid
      end
  | Invalid => Invalid
  | OutOfFuel => OutOfFuel
  end.

(** *** The decoder of the interpreter *)

(** The limits that the decoder meets: the number of arrays and objects,
    one inside the other, that it may enter before the recursion limit is
    reached (the limit less the depth of the stack at the call of
    [json.loads]), and [sys.get_int_max_str_digits()], 0 for no limit. *)
Record Limits := {
  max_depth : nat;
  int_max_str_digits : nat
}.

(** What the decoder does with a text: a value and the rest of the text;
    [DecodeError], where it raises [JSONDecodeError]; [TooDeep], where
    entering an array ([in_object = false]) or an object raises
    [RecursionError]; [TooLong], where [int] refuses an integer of that many
    digits; [Unfinished], where the scan was not given steps enough. *)
Inductive result (A : Type) : Type :=
| Value (a : A) (rest : str)
| DecodeError
| TooDeep (in_object : bool)
| TooLong (digits : nat)
| Unfinished.

Arguments Value {A} a rest.
Arguments DecodeError {A}.
Arguments TooDeep {A} in_object.
Arguments TooLong {A} digits.
Arguments Unfinished {A}.

Section Decoder.

Variable limits : Limits.

(** The digits of a match of [match_integer], its sign apart. *)
Definition digit_count (integer : str) : nat :=
  match integer with
  | c :: ds => if N.eqb c 45 then List.length ds else List.length integer
  | [] => 0%nat
  end.

(** [int(integer)] raises [ValueError] for more digits than the limit,
    when there is a limit; no count below 640 is checked. *)
Definition exceeds (digits : nat) : bool :=
  (640 <? digits)%nat && (0 <? int_max_str_digits limits)%nat
  && (int_max_str_digits limits <? digits)%nat.

(** The integer at the head of a text, if there is one (a number with
    neither fraction nor exponent). *)
Definition integer_at (s : str) : option str :=
  match match_integer s with
  | Some (integer, r) =>
      let '(frac, r1) := match_frac r in
      let '(exp, r2) := match_exp r1 in
      match frac, exp with
      | [], [] => Some integer
      | _, _ => None
      end
  | None => None
  end.

(** The cases of [scan_once] that are not a string, an object or an
    array: as the grammar has them, but for an integer of too many
    digits. *)
Definition scan_number (s : str) : result json :=
  match scan_atom s with
  | Scanned (JInt z) r =>
      match integer_at s with
      | Some integer =>
          if exceeds (digit_count integer) then TooLong (digit_count integer)
          else Value (JInt z) r
      | None => Value (JInt z) r
      end
  | Scanned v r => Value v r
  | Invalid => DecodeError
  | OutOfFuel => Unfinished
  end.

(** [scan_once], [JSONArray] (from its first value on) and [JSONObject]
    (from the character after the opening quote of a key on); [depth] is
    the number of arrays and objects that may still be entered. *)
Fixpoint scan_once (fuel depth : nat) (s : str) {struct fuel} : result json :=
  match fuel with
  | O => Unfinished
  | S fuel' =>
      match s with
      | [] => DecodeError
      | c :: s1 =>
          if N.eqb c 34 then
            match scanstring s1 with
            | Some (x, r) => Value (JStr x) r
            | None => DecodeError
            end
          else if N.eqb c 123 then
            match depth with
            | O => TooDeep true
            | S depth' =>
                match skip_ws s1 with
                | c1 :: r1 =>
                    if N.eqb c1 125 then Value (JObj []) r1
                    else if N.eqb c1 34 then
                      match scan_object fuel' depth' r1 with
                      | Value pairs r => Value (JObj (dict_of_pairs pairs)) r
                      | DecodeError => DecodeError
                      | TooDeep o => TooDeep o
                      | TooLong n => TooLong n
                      | Unfinished => Unfinished
                      end
                    else DecodeError
                | [] => DecodeError
                end
            end
          else if N.eqb c 91 then
            match depth with
            | O => TooDeep false
            | S depth' =>
                match skip_ws s1 with
                | c1 :: r1 =>
                    if N.eqb c1 93 then Value (JArr []) r1
                    else
                      match scan_array fuel' depth' (c1 :: r1) with
                      | Value values r => Value (JArr values) r
                      | DecodeError => DecodeError
                      | TooDeep o => TooDeep o
                      | TooLong n => TooLong n
                      | Unfinished => Unfinished
                      end
                | [] => DecodeError
                end
            end
          else scan_number s
      end
  end

with scan_array (fuel depth : nat) (s : str) {struct fuel} : result (list json) :=
  match fuel with
  | O => Unfinished
  | S fuel' =>
      match scan_once fuel' depth s with
      | Value value r =>
          match skip_ws r with
          | c :: r1 =>
              if N.eqb c 93 then Value [value] r1
              else if N.eqb c 44 then
                match scan_array fuel' depth (skip_ws r1) with
                | Value values r2 => Value (value :: values) r2
                | DecodeError => DecodeError
                | TooDeep o => TooDeep o
                | TooLong n => TooLong n
                | Unfinished => Unfinished
                end
              else DecodeError
          | [] => DecodeError
          end
      | DecodeError => DecodeError
      | TooDeep o => TooDeep o
      | TooLong n => TooLong n
      | Unfinished => Unfinished
      end
  end

with scan_object (fuel depth : nat) (s : str) {struct fuel}
  : result (list (str * json)) :=
  match fuel with
  | O => Unfinished
  | S fuel' =>
      match scanstring s with
      | None => DecodeError
      | Some (key, r) =>
          match skip_ws r with
          | c :: r1 =>
              if N.eqb c 58 then
                match scan_once fuel' depth (skip_ws r1) with
                | Value value r2 =>
                    match skip_ws r2 with
                    | c1 :: r3 =>
                        if N.eqb c1 125 then Value [(key, value)] r3
                        else if N.eqb c1 44 then
                          match skip_ws r3 with
                          | q :: r4 =>
                              if N.eqb q 34 then
                                match scan_object fuel' depth r4 with
                                | Value pairs r5 => Value ((key, value) :: pairs) r5
                                | DecodeError => DecodeError
                                | TooDeep o => TooDeep o
                                | TooLong n => TooLong n
                                | Unfinished => Unfinished
                                end
                              else DecodeError
                          | [] => DecodeError
                          end
                        else DecodeError
                    | [] => DecodeError
                    end
                | DecodeError => DecodeError
                | TooDeep o => TooDeep o
                | TooLong n => TooLong n
                | Unfinished => Unfinished
                end
              else DecodeError
          | [] => DecodeError
          end
      end
  end.

(** [JSONDecoder.decode]: white space, one value, white space, the end. *)
Definition decode (s : str) : result json :=
  match scan_once (fuel_for s) (max_depth limits) (skip_ws s) with
  | Value obj r =>
      match skip_ws r with
      | [] => Value obj []
      | _ :: _ => DecodeError
      end
  | DecodeError => DecodeError
  | TooDeep o => TooDeep o
  | TooLong n => TooLong n
  | Unfinished => Unfinished
  end.

(** The message of the [RecursionError]. *)
Definition recursion_message (in_object : bool) : str :=
  py "maximum recursion depth exceeded while decoding a JSON "
  ++ (if in_object then py "object" else py "array")
  ++ py " from a unicode string".

(** The message of the [ValueError] of [int]. *)
Definition digits_message (digits : nat) : str :=
  py "Exceeds the limit (" ++ str_of_int (Z.of_nat (int_max_str_digits limits))
  ++ py " digits) for integer string conversion: value has "
  ++ str_of_int (Z.of_nat digits)
  ++ py " digits; use sys.set_int_max_str_digits() to increase the limit".

(** [json.loads(s)] *)
Definition loads (s : str) : outcome json :=
  match decode s with
  | Value obj _ => Return obj
  | DecodeError => Raise (JSONDecodeError s)
  | TooDeep o => Raise (RecursionError (recursion_message o))
  | TooLong n => Raise (ValueError (digits_message n))
  | Unfinished => Running
  end.

End Decoder.

(** The depth to which the arrays and objects of a value are nested. *)
Fixpoint depth (v : json) : nat :=
  match v with
  | JArr items => S (fold_right (fun x m => Nat.max (depth x) m) 0%nat items)
  | JObj members =>
      S (fold_right (fun kv m => Nat.max (depth (snd kv)) m) 0%nat members)
  | _ => 0%nat
  end.

(** The integers of a value. *)
Fixpoint integers (v : json) : list Z :=
  match v with
  | JInt z => [z]
  | JArr items => flat_map integers items
  | JObj members => flat_map (fun kv => integers (snd kv)) members
  | _ => []
  end.

(** A value whose integers [int] accepts, each by its numeral. *)
Definition accepted (limits : Limits) (v : json) : bool :=
  forallb (fun z => negb (exceeds limits (digit_count (str_of_int z))))
    (integers v).

(** A value whose encoding is decoded within the limits: it is nested no
    deeper than the decoder may go, and [int] accepts its integers. *)
Definition fits (limits : Limits) (v : json) : bool :=
  (depth v <=? max_depth limits)%nat && accepted limits v.

(** The opening brackets and braces of a text, those inside its strings
    among them. *)
Definition opens (s : str) : nat :=
  List.length (filter (fun c => N.eqb c 91 || N.eqb c 123) s).

(** The longest run of digits of a text. *)
Fixpoint longest_run (s : str) : nat :=
  match s with
  | [] => 0%nat
  | _ :: s' => Nat.max (List.length (fst (take_digits s))) (longest_run s')
  end.


(** [r] is what is left of [s] after some of it was read. *)
Definition suffix (r s : str) : Prop := exists p, s = p ++ r.

End Json.

Import Json.

(** ** The report *)

Module Report.

(** Modelled from the spec: the source holds a report as the dictionary
    that [json.loads] returned and declares no type for it; the records
    below are the Report of the data model (section 3), with the keys of
    the JSON skeleton of the prompt. *)
Inductive ComplianceStatus : Type :=
| Compliant
| NonCompliant
| Unknown.

Record Finding := {
  area : str;
  mediaReference : option str;
  timestamp : option str;
  condition : str;
  complianceStatus : ComplianceStatus;
  issuesFound : list str;
  referenceDoc : option str;
  referenceSection : option str;
  recommendation : option str
}.

Record ExecutiveSummary := {
  overallCondition : str;
  criticalIssues : list str;
  recommendedActions : list str
}.

Record ScheduleEntry := {
  frequency : str;
  tasks : list str
}.

Record MaintenanceNotes := {
  recurringIssues : list str;
  preventiveRecommendations : list str;
  maintenanceSchedule : list ScheduleEntry;
  costConsiderations : list str
}.

Record Report := {
  detailedInspection : list Finding;
  executiveSummary : ExecutiveSummary;
  maintenanceNotes : MaintenanceNotes
}.

(** *** A report as the dictionary the code holds *)

Definition json_of_strings (xs : list str) : json := JArr (map JStr xs).

Definition json_of_optional (x : option str) : json :=
  match x with
  | Some s => JStr s
  | None => JNull
  end.

Definition status_name (c : ComplianceStatus) : str :=
  match c with
  | Compliant => py "Compliant"
  | NonCompliant => py "Non-compliant"
  | Unknown => py "Unknown"
  end.

Definition json_of_finding (f : Finding) : json :=
  JObj [ (py "area", JStr (area f));
         (py "mediaReference", json_of_optional (mediaReference f));
         (py "timestamp", json_of_optional (timestamp f));
         (py "condition", JStr (condition f));
         (py "complianceStatus", JStr (status_name (complianceStatus f)));
         (py "issuesFound", json_of_strings (issuesFound f));
         (py "referenceDoc", json_of_optional (referenceDoc f));
         (py "referenceSection", json_of_optional (referenceSection f));
         (py "recommendation", json_of_optional (recommendation f)) ].

Definition json_of_summary (e : ExecutiveSummary) : json :=
  JObj [ (py "overallCondition", JStr (overallCondition e));
         (py "criticalIssues", json_of_strings (criticalIssues e));
         (py "recommendedActions", json_of_strings (recommendedActions e)) ].

Definition json_of_entry (e : ScheduleEntry) : json :=
  JObj [ (py "frequency", JStr (frequency e));
         (py "tasks", json_of_strings (tasks e)) ].

Definition json_of_notes (m : MaintenanceNotes) : json :=
  JObj [ (py "recurringIssues", json_of_strings (recurringIssues m));
         (py "preventiveRecommendations",
          json_of_strings (preventiveRecommendations m));
         (py "maintenanceSchedule",
          JArr (map json_of_entry (maintenanceSchedule m)));
         (py "costConsiderations", json_of_strings (costConsiderations m)) ].

Definition json_of_report (r : Report) : json :=
  JObj [ (py "detailedInspection",
          JArr (map json_of_finding (detailedInspection r)));
         (py "executiveSummary", json_of_summary (executiveSummary r));
         (py "maintenanceNotes", json_of_notes (maintenanceNotes r)) ].

(** *** The validation the spec asks of synthesis

    Modelled from the spec (section 4.4): the source has no validation.
    A response is valid when it has the required keys with values of the
    required shape, and every [mediaReference] is the id of a frame
    extracted in the session. *)














End Report.
(** ** The video decoder (cv2) *)

Definition image := list N.

(** An opened capture as the code sees it: whether it opened, the two
    properties read from it, and the frame that [cap.read()] yields once the
    position has been set to a time in milliseconds ([None] when [ret] is
    false).  The two properties are finite floats, kept as the rationals
    that they denote. *)
Record VideoCapture := {
  isOpened : bool;
  CAP_PROP_FPS : Q;
  CAP_PROP_FRAME_COUNT : Q;
  read_at : Z -> option image
}.

Record Cv2 := {
  cv2_VideoCapture : str -> VideoCapture;
  (** [Path(d).mkdir(exist_ok=True)]: [Some msg] when it raises. *)
  fs_mkdir : str -> option str
}.

Inductive cv_call : Type :=
| CallMkdir (dir : str)
| CallVideoCapture (path : str)
| CallSet (msec : Z)
| CallRead
| CallImwrite (path : str) (frame : image)
| CallRelease.

(** ** [HomeInspector.process_video] *)

Definition frame_filename (timestamp : Z) : str :=
  py "frame_" ++ str_of_int timestamp ++ py ".jpg".

Definition frame_key (timestamp : Z) : str :=
  py "video_" ++ str_of_int timestamp ++ py "s".

Definition frame_path_of (output_dir : str) (timestamp : Z) : str :=
  Path_str (Path_div (mkPath output_dir) (frame_filename timestamp)).

(** The body of [for timestamp in range(0, int(duration), 5)]. *)
Fixpoint extract_frames (cap : VideoCapture) (output_dir : str)
    (timestamps : list Z) (frame_paths : dict str) : dict str * list cv_call :=
  match timestamps with
  | [] => (frame_paths, [])
  | timestamp :: rest =>
      match read_at cap (timestamp * 1000) with
      | Some frame =>
          let frame_path := frame_path_of output_dir timestamp in
          let '(d, tr) :=
            extract_frames cap output_dir rest
              (dict_set frame_paths (frame_key timestamp) frame_path) in
          (d, CallSet (timestamp * 1000) :: CallRead
              :: CallImwrite frame_path frame :: tr)
      | None =>
          let '(d, tr) := extract_frames cap output_dir rest frame_paths in
          (d, CallSet (timestamp * 1000) :: CallRead :: tr)
      end
  end.

(** [frame_count = int(cap.get(CAP_PROP_FRAME_COUNT))] and
    [duration = frame_count / fps], for a non-zero [fps]: the division of
    two floats, rounded to the nearest double.  ([frame_count], the
    truncation of a float, is a float itself.)  The value is the duration
    as long as it is no infinity. *)
Definition duration_of (cap : VideoCapture) : Q :=
  float_div (inject_Z (int_of_float (CAP_PROP_FRAME_COUNT cap))) (CAP_PROP_FPS cap).

Definition process_video (cv : Cv2) (video_path output_dir : str)
  : outcome (dict str) * list cv_call :=
  match fs_mkdir cv output_dir with
  | Some msg => (Raise (OSError msg), [CallMkdir output_dir])
  | None =>
      let cap := cv2_VideoCapture cv video_path in
      if negb (isOpened cap) then
        (Raise (ValueError (py "Could not open video file: " ++ video_path)),
         [CallMkdir output_dir; CallVideoCapture video_path])
      else
        let fps := CAP_PROP_FPS cap in
        if Qeq_bool fps 0 then
          (Raise ZeroDivisionError,
           [CallMkdir output_dir; CallVideoCapture video_path])
        else
          let duration := duration_of cap in
          if is_inf duration then
            (* int(duration) of an infinity *)
            (Raise (OverflowError (py "cannot convert float infinity to integer")),
             [CallMkdir output_dir; CallVideoCapture video_path])
          else
            let '(frame_paths, tr) :=
              extract_frames cap output_dir (range 0 (int_of_float duration) 5) [] in
            (Return frame_paths,
             CallMkdir output_dir :: CallVideoCapture video_path :: tr ++ [CallRelease])
  end.

(** The offsets, in seconds, at which a trace of decoder calls sought. *)
Fixpoint attempted_offsets (tr : list cv_call) : list Z :=
  match tr with
  | [] => []
  | CallSet msec :: tr' => msec / 1000 :: attempted_offsets tr'
  | _ :: tr' => attempted_offsets tr'
  end.

(** The files a trace of decoder calls wrote. *)
Fixpoint written_files (tr : list cv_call) : list (str * image) :=
  match tr with
  | [] => []
  | CallImwrite p f :: tr' => (p, f) :: written_files tr'
  | _ :: tr' => written_files tr'
  end.

(** ** The remote service (google.generativeai) and the file tree *)

Inductive FileState : Type :=
| STATE_UNSPECIFIED
| PROCESSING
| ACTIVE
| FAILED.

(** [state.name] *)
Definition state_name (s : FileState) : str :=
  match s with
  | STATE_UNSPECIFIED => py "STATE_UNSPECIFIED"
  | PROCESSING => py "PROCESSING"
  | ACTIVE => py "ACTIVE"
  | FAILED => py "FAILED"
  end.

(** The handle of an uploaded file. *)
Record File := {
  file_name : str;
  file_uri : str;
  file_state : FileState
}.

(** A part of a chat message: a text or an uploaded file. *)
Inductive part : Type :=
| Text (text : str)
| Doc (doc : File).

Record CachedContent := {
  cc_model : str;
  cc_display_name : str;
  cc_system_instruction : str;
  cc_contents : list File;
  cc_ttl : Z;            (* seconds *)
  cc_create_time : Z     (* seconds on the session clock *)
}.

Record GenerativeModel := {
  cached_content : CachedContent;
  max_output_tokens : Z;
  response_mime_type : str
}.

(** The collaborators, over a state [W] of their own.  A call answers
    [inl msg] when it raises an exception [e] with [str(e) = msg]. *)
Record Collab (W : Type) := {
  (** [dir.rglob('*')], in the order of enumeration *)
  fs_rglob : Path -> list Path;
  upload_file : str -> W -> (str + File) * W;
  get_file : str -> W -> (str + File) * W;
  (** [time.sleep(secs)] as the service sees it *)
  sleep : Z -> W -> W;
  (** [caching.CachedContent.create(contents=...)] *)
  cache_create : list File -> W -> option str * W;
  (** [model.start_chat(history).send_message(msg).text] *)
  send_message : GenerativeModel -> list part -> str -> W -> (str + str) * W;
  (** the limits of the interpreter where [generate_report] calls
      [json.loads]: the depth of recursion that is left, and
      [sys.get_int_max_str_digits()] *)
  interpreter : Limits
}.

Arguments fs_rglob {W} _ _.
Arguments upload_file {W} _ _ _.
Arguments get_file {W} _ _ _.
Arguments sleep {W} _ _ _.
Arguments cache_create {W} _ _ _.
Arguments send_message {W} _ _ _ _ _.
Arguments interpreter {W} _.

Inductive call : Type :=
| CallUpload (path : str)
| CallGetFile (name : str)
| CallSleep (secs : Z)
| CallCacheCreate (contents : list File)
| CallSendMessage (model : GenerativeModel) (history : list part) (msg : str).

(** What a session does with an inspector once it is built: wait, upload
    media, ask for a report.  ([process_video] and the renderers touch
    neither the inspector nor the service.) *)
Inductive op : Type :=
| Idle (secs : Z)
| UploadUserMedia (fuel : nat) (media_paths : list str)
| GenerateReport.

(** ** The state of a session *)

(** The collaborators' state, the clock, what was printed, the calls made,
    and the attributes of the [HomeInspector] object ([cache] and [model]
    are set at the end of [_initialize_model]). *)
Record state (W : Type) := {
  remote : W;
  now : Z;
  stdout : list str;
  calls : list call;
  building_standards : dict File;
  example1 : dict File;
  example2 : dict File;
  user_data : dict File;
  cache : option CachedContent;
  model : option GenerativeModel
}.

Arguments remote {W} _.
Arguments now {W} _.
Arguments stdout {W} _.
Arguments calls {W} _.
Arguments building_standards {W} _.
Arguments example1 {W} _.
Arguments example2 {W} _.
Arguments user_data {W} _.
Arguments cache {W} _.
Arguments model {W} _.

(** The attributes as [__init__] sets them before [_initialize_model]
    runs, with the collaborators in state [w] at time [t]. *)
Definition new_state {W} (w : W) (t : Z) : state W :=
  {| remote := w; now := t; stdout := []; calls := [];
     building_standards := []; example1 := []; example2 := [];
     user_data := []; cache := None; model := None |}.

Section Methods.

Context {W : Type} (E : Collab W).

Definition M (A : Type) : Type := state W -> outcome A * state W.

Definition ret {A} (a : A) : M A := fun s => (Return a, s).

Definition bind {A B} (c : M A) (k : A -> M B) : M B :=
  fun s =>
    match c s with
    | (Return a, s') => k a s'
    | (Raise e, s') => (Raise e, s')
    | (Running, s') => (Running, s')
    end.

Definition raise {A} (e : exn) : M A := fun s => (Raise e, s).

Notation "x <- c ;; k" := (bind c (fun x => k))
  (at level 61, c at next level, right associativity).
Notation "c ;;; k" := (bind c (fun _ => k))
  (at level 61, right associativity).

Definition print (line : str) : M unit :=
  fun s =>
    (Return tt,
     {| remote := remote s; now := now s; stdout := stdout s ++ [line];
        calls := calls s; building_standards := building_standards s;
        example1 := example1 s; example2 := example2 s;
        user_data := user_data s; cache := cache s; model := model s |}).

(** The state after a call to a collaborator: its new state and the call
    added to the log. *)
Definition called (c : call) (w : W) (dt : Z) (s : state W) : state W :=
  {| remote := w; now := now s + dt; stdout := stdout s;
     calls := calls s ++ [c]; building_standards := building_standards s;
     example1 := example1 s; example2 := example2 s;
     user_data := user_data s; cache := cache s; model := model s |}.

(** [genai.upload_file(path)], raising what the collaborator raises. *)
Definition genai_upload_file (path : str) : M File :=
  fun s =>
    match upload_file E path (remote s) with
    | (inr f, w) => (Return f, called (CallUpload path) w 0 s)
    | (inl msg, w) => (Raise (Exception msg), called (CallUpload path) w 0 s)
    end.

(** [genai.get_file(name)] *)
Definition genai_get_file (name : str) : M File :=
  fun s =>
    match get_file E name (remote s) with
    | (inr f, w) => (Return f, called (CallGetFile name) w 0 s)
    | (inl msg, w) => (Raise (Exception msg), called (CallGetFile name) w 0 s)
    end.

(** [time.sleep(secs)] *)
Definition time_sleep (secs : Z) : M unit :=
  fun s => (Return tt, called (CallSleep secs) (sleep E secs (remote s)) secs s).

Definition set_building_standards (d : dict File) : M unit :=
  fun s =>
    (Return tt,
     {| remote := remote s; now := now s; stdout := stdout s;
        calls := calls s; building_standards := d;
        example1 := example1 s; example2 := example2 s;
        user_data := user_data s; cache := cache s; model := model s |}).

Definition set_example1 (d : dict File) : M unit :=
  fun s =>
    (Return tt,
     {| remote := remote s; now := now s; stdout := stdout s;
        calls := calls s; building_standards := building_standards s;
        example1 := d; example2 := example2 s;
        user_data := user_data s; cache := cache s; model := model s |}).

Definition set_example2 (d : dict File) : M unit :=
  fun s =>
    (Return tt,
     {| remote := remote s; now := now s; stdout := stdout s;
        calls := calls s; building_standards := building_standards s;
        example1 := example1 s; example2 := d;
        user_data := user_data s; cache := cache s; model := model s |}).

Definition set_user_data (d : dict File) : M unit :=
  fun s =>
    (Return tt,
     {| remote := remote s; now := now s; stdout := stdout s;
        calls := calls s; building_standards := building_standards s;
        example1 := example1 s; example2 := example2 s;
        user_data := d; cache := cache s; model := model s |}).

Definition get {A} (f : state W -> A) : M A := fun s => (Return (f s), s).

(** [for x in xs: body(x)] *)
Fixpoint for_each {A} (xs : list A) (body : A -> M unit) : M unit :=
  match xs with
  | [] => ret tt
  | x :: xs' => body x ;;; for_each xs' body
  end.

(** *** Loading the reference documents *)

Definition SUPPORTED_EXTENSIONS : list str :=
  [py ".txt"; py ".pdf"; py ".doc"; py ".docx"; py ".jpg"; py ".jpeg"; py ".png"].

Definition supported (file_path : Path) : bool :=
  str_in (lower (Path_suffix file_path)) SUPPORTED_EXTENSIONS.

(** The [try]/[except Exception] around an upload: what the upload raises
    is printed and goes no further. *)
Definition load_standard (file_path : Path) : M unit :=
  if supported file_path then
    fun s =>
      match upload_file E (Path_str file_path) (remote s) with
      | (inr uploaded_file, w) =>
          set_building_standards
            (dict_set (building_standards s) (Path_name file_path) uploaded_file)
            (called (CallUpload (Path_str file_path)) w 0 s)
      | (inl msg, w) =>
          print (py "Error loading standard " ++ Path_name file_path
                 ++ py ": " ++ msg)
            (called (CallUpload (Path_str file_path)) w 0 s)
      end
  else ret tt.

Definition _load_standards (standards_dir : Path) : M unit :=
  for_each (fs_rglob E standards_dir) load_standard.

(** [p.parent] *)
Definition Path_parent (p : Path) : Path :=
  {| root := root p; parts := removelast (parts p) |}.

Definition load_example (file_path : Path) : M unit :=
  if supported file_path then
    let subfolder := Path_name (Path_parent file_path) in
    if str_in subfolder [py "example1"; py "example2"] then
      fun s =>
        match upload_file E (Path_str file_path) (remote s) with
        | (inr uploaded_file, w) =>
            let s' := called (CallUpload (Path_str file_path)) w 0 s in
            if str_eqb subfolder (py "example1") then
              set_example1
                (dict_set (example1 s) (Path_name file_path) uploaded_file) s'
            else
              set_example2
                (dict_set (example2 s) (Path_name file_path) uploaded_file) s'
        | (inl msg, w) =>
            print (py "Error loading example " ++ Path_name file_path
                   ++ py ": " ++ msg)
              (called (CallUpload (Path_str file_path)) w 0 s)
        end
    else ret tt
  else ret tt.

Definition _load_examples (examples_dir : Path) : M unit :=
  for_each (fs_rglob E examples_dir) load_example.

(** *** [_initialize_model] and [__init__] *)

Definition system_instruction : str :=
  py "You are an expert at analysing residential building and producing detailed inspection reports."
  ++ py "Your job is to analyse the user provided media and produce a detailed inspection report based on the reference standards you have access to.".

(** [datetime.timedelta(minutes=60)], in seconds *)
Definition cache_ttl : Z := 60 * 60.

(** [caching.CachedContent.create(...)]; the entry is stamped with the time
    of its creation. *)
Definition CachedContent_create (contents : list File) : M CachedContent :=
  fun s =>
    match cache_create E contents (remote s) with
    | (None, w) =>
        (Return {| cc_model := py "models/gemini-1.5-flash-002";
                   cc_display_name := py "home_inspection_cache";
                   cc_system_instruction := system_instruction;
                   cc_contents := contents;
                   cc_ttl := cache_ttl;
                   cc_create_time := now s |},
         called (CallCacheCreate contents) w 0 s)
    | (Some msg, w) =>
        (Raise (Exception msg), called (CallCacheCreate contents) w 0 s)
    end.

Definition set_cache_model (c : CachedContent) (m : GenerativeModel) : M unit :=
  fun s =>
    (Return tt,
     {| remote := remote s; now := now s; stdout := stdout s;
        calls := calls s; building_standards := building_standards s;
        example1 := example1 s; example2 := example2 s;
        user_data := user_data s; cache := Some c; model := Some m |}).

Definition _initialize_model (standards_dir examples_dir : Path) : M unit :=
  _load_standards standards_dir ;;;
  _load_examples examples_dir ;;;
  docs <- get (fun s => values (building_standards s)) ;;
  c <- CachedContent_create docs ;;
  set_cache_model c
    {| cached_content := c;
       max_output_tokens := 8192;
       response_mime_type := py "application/json" |}.

(** [HomeInspector(api_key, standards_dir, examples_dir)], started when the
    collaborators are in state [w] at time [t]. *)
Definition init (standards_dir examples_dir : str) (w : W) (t : Z)
  : outcome unit * state W :=
  _initialize_model (mkPath standards_dir) (mkPath examples_dir) (new_state w t).

(** *** Uploading the user's media *)

(** [while video_file.state.name == "PROCESSING": ...], run for at most
    [fuel] rounds. *)
Fixpoint wait_processing (fuel : nat) (video_file : File) : M File :=
  if str_eqb (state_name (file_state video_file)) (py "PROCESSING") then
    match fuel with
    | O => fun s => (Running, s)
    | S fuel' =>
        print (py "Waiting for video to be processed.") ;;;
        time_sleep 10 ;;;
        video_file' <- genai_get_file (file_name video_file) ;;
        wait_processing fuel' video_file'
    end
  else ret video_file.

Definition _upload_video (fuel : nat) (video_path : str) : M unit :=
  print (py "Uploading video file...") ;;;
  video_file <- genai_upload_file video_path ;;
  print (py "Completed upload: " ++ file_uri video_file) ;;;
  video_file <- wait_processing fuel video_file ;;
  if str_eqb (state_name (file_state video_file)) (py "FAILED") then
    raise (ValueError (state_name (file_state video_file)))
  else
    print (py "Video processing complete: " ++ file_uri video_file) ;;;
    d <- get user_data ;;
    set_user_data (dict_set d (Path_name (mkPath video_path)) video_file).

Definition VIDEO_EXTENSIONS : list str := [py ".mp4"; py ".mov"; py ".avi"].

Definition is_video (file_path : Path) : bool :=
  str_in (lower (Path_suffix file_path)) VIDEO_EXTENSIONS.

Definition upload_one (fuel : nat) (path : str) : M unit :=
  let file_path := mkPath path in
  if supported file_path then
    fun s =>
      match upload_file E (Path_str file_path) (remote s) with
      | (inr uploaded_file, w) =>
          set_user_data
            (dict_set (user_data s) (Path_name file_path) uploaded_file)
            (called (CallUpload (Path_str file_path)) w 0 s)
      | (inl msg, w) =>
          print (py "Error loading user media " ++ Path_name file_path
                 ++ py ": " ++ msg)
            (called (CallUpload (Path_str file_path)) w 0 s)
      end
  else if is_video file_path then
    _upload_video fuel (Path_str file_path)
  else ret tt.

Definition upload_user_media (fuel : nat) (media_paths : list str) : M unit :=
  for_each media_paths (upload_one fuel).

(** *** [generate_report] *)

(** The instruction text, written with ['] for the double quotes of its
    JSON skeleton. *)
Definition prompt : str := pyq "
You have been supplied with a set of building standards and manufacturer specifications to evaluate the photos and videos against.
Please be specific about any violations of building codes or manufacturer specifications found in the documentation.

Analyze the uploaded photos and videos of the building and generate a detailed inspection report in JSON format.
Be exhaustive in your inspection and cover all aspects of the building shown in the media.

The response should be a valid JSON object with the following structure:

{
  'detailedInspection': [
    {
      'area': 'string',
      'mediaReference': 'string',
      'timestamp': 'string',
      'condition': 'string',
      'complianceStatus': 'string',
      'issuesFound': ['string'],
      'referenceDoc': 'string',
      'referenceSection': 'string',
      'recommendation': 'string'
    }
  ],
  'executiveSummary': {
    'overallCondition': 'string',
    'criticalIssues': ['string'],
    'recommendedActions': ['string']
  },
  'maintenanceNotes': {
    'recurringIssues': ['string'],
    'preventiveRecommendations': ['string'],
    'maintenanceSchedule': [
      {
        'frequency': 'string',
        'tasks': ['string']
      }
    ],
    'costConsiderations': ['string']
  }
}

Ensure the response is a valid JSON object that can be parsed.
".

Definition report_request : str :=
  py "Please generate a detailed building report. "
  ++ py "Please provide a detailed answer with elaboration on the report and reference material.".

(** The parts of the one history message: the prompt, then every entry of
    [user_data] under its name. *)
Definition report_content (user_data : dict File) : list part :=
  Text prompt :: Text (py "User provided media:")
  :: flat_map (fun kv => [Text (py "User Document: " ++ fst kv); Doc (snd kv)])
       user_data.

Definition generate_report : M json :=
  fun s =>
    match model s with
    | None =>
        (Raise (AttributeError (py "'HomeInspector' object has no attribute 'model'")), s)
    | Some m =>
        let content := report_content (user_data s) in
        match send_message E m content report_request (remote s) with
        | (inr text, w) =>
            (loads (interpreter E) text, called (CallSendMessage m content report_request) w 0 s)
        | (inl msg, w) =>
            (Raise (Exception msg),
             called (CallSendMessage m content report_request) w 0 s)
        end
    end.

(** *** A session *)

(** Time that passes between two operations. *)
Definition idle (secs : Z) : M unit :=
  fun s =>
    (Return tt,
     {| remote := sleep E secs (remote s); now := now s + secs;
        stdout := stdout s; calls := calls s;
        building_standards := building_standards s;
        example1 := example1 s; example2 := example2 s;
        user_data := user_data s; cache := cache s; model := model s |}).

Definition run_op (o : op) (s : state W) : state W :=
  match o with
  | Idle secs => snd (idle secs s)
  | UploadUserMedia fuel media_paths => snd (upload_user_media fuel media_paths s)
  | GenerateReport => snd (generate_report s)
  end.

(** The state after a sequence of operations, whatever each returned. *)
Definition run_session (ops : list op) (s : state W) : state W :=
  fold_left (fun s o => run_op o s) ops s.
End Methods.

(** ** Reading a run of uploads *)

Section Runs.

Context {W : Type} (E : Collab W).

(** The answers of the service to the uploads of the supported files of a
    list, in the order of the list, from the state [w] of the service. *)
Fixpoint upload_results (files : list Path) (w : W) : list (Path * (str + File)) :=
  match files with
  | [] => []
  | p :: rest =>
      if supported p then
        let '(r, w') := upload_file E (Path_str p) w in
        (p, r) :: upload_results rest w'
      else upload_results rest w
  end.

End Runs.

(** The uploads that succeeded, each under the name of its file. *)
Definition successes (rs : list (Path * (str + File))) : list (str * File) :=
  flat_map (fun pr => match snd pr with
                      | inr f => [(Path_name (fst pr), f)]
                      | inl _ => []
                      end) rs.

(** The lines printed for the uploads that failed. *)
Definition failure_lines (label : str) (rs : list (Path * (str + File))) : list str :=
  flat_map (fun pr => match snd pr with
                      | inl msg => [label ++ Path_name (fst pr) ++ py ": " ++ msg]
                      | inr _ => []
                      end) rs.

(** The number of cache entries that a log of calls created. *)
Definition cache_creations (cs : list call) : nat :=
  List.length (filter (fun c => match c with CallCacheCreate _ => true | _ => false end) cs).

(** A string as the decoder builds it from a text that holds no surrogate
    code point, as any text decoded from UTF-8 is: its code points are below
    0x110000 and no low surrogate follows a high surrogate. *)
Fixpoint str_ok (s : str) : bool :=
  match s with
  | [] => true
  | c :: s' =>
      (c <? 0x110000)%N
      && negb (is_high_surrogate c
               && match s' with
                  | c' :: _ => is_low_surrogate c'
                  | [] => false
                  end)
      && str_ok s'
  end.

(** Pairwise distinct keys. *)
Fixpoint nodupb (ks : list str) : bool :=
  match ks with
  | [] => true
  | k :: ks' => negb (str_in k ks') && nodupb ks'
  end.

(** The values that the round trip below is about: no float, strings as
    [str_ok] has them, and the keys of an object pairwise distinct, as the
    keys of a [dict] are. *)
Fixpoint json_ok (v : json) : bool :=
  match v with
  | JNull | JBool _ | JInt _ => true
  | JFloat _ => false
  | JStr s => str_ok s
  | JArr items => forallb json_ok items
  | JObj members =>
      forallb (fun kv => str_ok (fst kv) && json_ok (snd kv)) members
      && nodupb (keys members)
  end.

(** The steps that scanning the encoding of a value takes at most. *)
Fixpoint size (v : json) : nat :=
  match v with
  | JArr items => S (List.length items + list_sum (map size items))
  | JObj members =>
      S (List.length members + list_sum (map (fun kv => size (snd kv)) members))
  | _ => 1
  end.

(** A text that does not go on as a number would: it is empty or begins
    with no digit, point or exponent mark. *)
Definition number_end (rest : str) : bool :=
  match rest with
  | [] => true
  | c :: _ => negb (is_digit c) && negb (N.eqb c 46)
              && negb (N.eqb c 101) && negb (N.eqb c 69)
  end.

(** The strings of a report. *)
Definition optional_string (x : option str) : list str :=
  match x with Some s => [s] | None => [] end.

Definition finding_strings (f : Report.Finding) : list str :=
  Report.area f :: Report.condition f :: Report.issuesFound f
  ++ optional_string (Report.mediaReference f)
  ++ optional_string (Report.timestamp f)
  ++ optional_string (Report.referenceDoc f)
  ++ optional_string (Report.referenceSection f)
  ++ optional_string (Report.recommendation f).

Definition report_strings (r : Report.Report) : list str :=
  flat_map finding_strings (Report.detailedInspection r)
  ++ Report.overallCondition (Report.executiveSummary r)
  :: Report.criticalIssues (Report.executiveSummary r)
  ++ Report.recommendedActions (Report.executiveSummary r)
  ++ Report.recurringIssues (Report.maintenanceNotes r)
  ++ Report.preventiveRecommendations (Report.maintenanceNotes r)
  ++ flat_map (fun e => Report.frequency e :: Report.tasks e)
       (Report.maintenanceSchedule (Report.maintenanceNotes r))
  ++ Report.costConsiderations (Report.maintenanceNotes r).

(** A report all of whose strings are as [str_ok] has them. *)
Definition report_ok (r : Report.Report) : bool :=
  forallb str_ok (report_strings r).

(** [json.dumps(report, indent=4)], the structured-data export of app.py *)
Definition toStructuredData (float_repr : str -> str) (report : json) : str :=
  dumps float_repr 4 report.

(** ** Concrete scenarios *)

Module Scenario.

(** A 12-second video at 30 frames per second whose every position
    decodes; the frame is named after the position. *)
Definition cap_12s : VideoCapture :=
  {| isOpened := true;
     CAP_PROP_FPS := 30;
     CAP_PROP_FRAME_COUNT := 360;
     read_at := fun msec => Some [Z.to_N msec] |}.

(** A 10.5-second video: 21 frames at 2 frames per second. *)
Definition cap_10s5 : VideoCapture :=
  {| isOpened := true;
     CAP_PROP_FPS := 2;
     CAP_PROP_FRAME_COUNT := 21;
     read_at := fun msec => Some [Z.to_N msec] |}.

(** A video of 144000 frames at 24000/1001 frames per second: the rate
    is the double nearest to that number, 23.976023976023978. *)
Definition cap_ntsc : VideoCapture :=
  {| isOpened := true;
     CAP_PROP_FPS := 6748650790265479 # 281474976710656;
     CAP_PROP_FRAME_COUNT := 144000;
     read_at := fun msec => Some [Z.to_N msec] |}.

(** A video that opens and holds no frame. *)
Definition cap_empty : VideoCapture :=
  {| isOpened := true;
     CAP_PROP_FPS := 30;
     CAP_PROP_FRAME_COUNT := 0;
     read_at := fun _ => None |}.

(** A file that does not open. *)
Definition cap_closed : VideoCapture :=
  {| isOpened := false;
     CAP_PROP_FPS := 0;
     CAP_PROP_FRAME_COUNT := 0;
     read_at := fun _ => None |}.

Definition cv_of (cap : VideoCapture) : Cv2 :=
  {| cv2_VideoCapture := fun _ => cap; fs_mkdir := fun _ => None |}.

(** The handle the service below gives to an upload. *)
Definition uploaded (path : str) (st : FileState) : File :=
  {| file_name := py "files/" ++ path;
     file_uri := py "https://files/" ++ path;
     file_state := st |}.

(** An interpreter with its default limits, some fifty calls deep where
    it decodes a response. *)
Definition cpython : Limits :=
  {| max_depth := 950; int_max_str_digits := 4300 |}.

(** A service over the number of polls it has answered.  Its file tree
    is [tree]; the uploads of the paths in [failing] fail; a video is in
    state [video_state n] after [n] polls; the analysis answers [reply]. *)
Definition service (tree failing : list str) (video_state : nat -> FileState)
    (reply : str) : Collab nat :=
  {| fs_rglob := fun _ => map mkPath tree;
     upload_file := fun path polls =>
       if str_in path failing then (inl (py "upload failed"), polls)
       else (inr (uploaded path (if is_video (mkPath path)
                                 then video_state polls else ACTIVE)),
             polls);
     get_file := fun name polls =>
       (inr {| file_name := name;
               file_uri := py "https://" ++ name;
               file_state := video_state (S polls) |},
        S polls);
     sleep := fun _ polls => polls;
     cache_create := fun _ polls => (None, polls);
     send_message := fun _ _ _ polls => (inr reply, polls);
     interpreter := cpython |}.

(** Five reference standards, of which the third fails to upload. *)
Definition five_standards : Collab nat :=
  service [py "standards/electrical.pdf"; py "standards/plumbing.pdf";
           py "standards/roofing.docx"; py "standards/fire.txt";
           py "standards/hvac.pdf"]
          [py "standards/roofing.docx"]
          (fun _ => ACTIVE) (py "{}").

(** Two reference standards of the same name in two folders, and a third
    that fails to upload. *)
Definition same_name_standards : Collab nat :=
  service [py "standards/2019/code.pdf"; py "standards/2023/code.pdf";
           py "standards/notes.txt"]
          [py "standards/notes.txt"]
          (fun _ => ACTIVE) (py "{}").

(** A service that reports a video as failed at the second poll. *)
Definition failing_video : Collab nat :=
  service [] [] (fun polls => if (polls <? 2)%nat then PROCESSING else FAILED)
          (py "{}").

(** A service that reports a video as processing at every poll. *)
Definition always_processing : Collab nat :=
  service [] [] (fun _ => PROCESSING) (py "{}").


(** The five standards, and an analysis that answers [reply]. *)
Definition answering (reply : str) : Collab nat :=
  service [py "standards/electrical.pdf"; py "standards/plumbing.pdf";
           py "standards/roofing.docx"; py "standards/fire.txt";
           py "standards/hvac.pdf"]
          [] (fun _ => ACTIVE) reply.

(** The session of a 12-second video: the inspector is built, the video
    and its three frames are uploaded. *)
Definition session_12s (E : Collab nat) : state nat :=
  snd (upload_user_media E 5
         [py "walk.mp4"; py "extracted_frames/frame_0.jpg";
          py "extracted_frames/frame_5.jpg"; py "extracted_frames/frame_10.jpg"]
         (snd (init E (py "standards") (py "examples") 0%nat 0))).

(** A report with a quotation mark, a line feed, an accented letter and a
    character above the basic plane in its strings. *)
Definition sample_report : Report.Report :=
  {| Report.detailedInspection :=
       [ {| Report.area := py "Roof";
            Report.mediaReference := Some (py "frame_5.jpg");
            Report.timestamp := None;
            Report.condition := [87; 111; 114; 110; 34; 10; 233; 128512]%N;
            Report.complianceStatus := Report.NonCompliant;
            Report.issuesFound := [py "Missing shingles"; py "Moss \ debris"];
            Report.referenceDoc := Some (py "roofing.docx");
            Report.referenceSection := Some (py "4.2");
            Report.recommendation := None |} ];
     Report.executiveSummary :=
       {| Report.overallCondition := py "Fair";
          Report.criticalIssues := [py "Roof"];
          Report.recommendedActions := [] |};
     Report.maintenanceNotes :=
       {| Report.recurringIssues := [];
          Report.preventiveRecommendations := [py "Clean gutters"];
          Report.maintenanceSchedule :=
            [ {| Report.frequency := py "Yearly";
                 Report.tasks := [py "Inspect roof"] |} ];
          Report.costConsiderations := [] |} |}.

End Scenario.

(** ** More readings of a run *)

(** Whether the decoder yields a frame at an offset in seconds. *)
Definition decodes (cap : VideoCapture) (t : Z) : bool :=
  match read_at cap (t * 1000) with
  | Some _ => true
  | None => false
  end.

(** The entry that [process_video] returns for an offset. *)
Definition frame_entry (output_dir : str) (t : Z) : str * str :=
  (frame_key t, frame_path_of output_dir t).

(** The file that [process_video] writes for an offset, if any. *)
Definition frame_file (cap : VideoCapture) (output_dir : str) (t : Z)
  : list (str * image) :=
  match read_at cap (t * 1000) with
  | Some frame => [(frame_path_of output_dir t, frame)]
  | None => []
  end.

Section MoreRuns.

Context {W : Type} (E : Collab W).

(** The answers of the service to the uploads of the files of a list,
    all of them, in order, from the state [w] of the service. *)
Fixpoint uploads_of (files : list Path) (w : W) : list (Path * (str + File)) :=
  match files with
  | [] => []
  | p :: rest =>
      let '(r, w') := upload_file E (Path_str p) w in
      (p, r) :: uploads_of rest w'
  end.

(** The state of the service after these uploads. *)
Fixpoint remote_after (files : list Path) (w : W) : W :=
  match files with
  | [] => w
  | p :: rest => remote_after rest (snd (upload_file E (Path_str p) w))
  end.

(** The handle that [_upload_video] holds when its loop ends: the answer
    of the service to the upload, or to the last poll (lines 127 to 134
    of logic.py). *)
Definition awaited (fuel : nat) (video_path : str) : M File :=
  bind (print (py "Uploading video file...")) (fun _ =>
  bind (genai_upload_file E video_path) (fun video_file =>
  bind (print (py "Completed upload: " ++ file_uri video_file)) (fun _ =>
  wait_processing E fuel video_file))).

(** What the service answers to the media of a list, in the order of the
    list, along a run of [upload_user_media] from the state [s]: for a
    supported file the answer to its upload, under its path; for a video
    that the service processes without failure the handle awaited, under
    the path that [_upload_video] is given; nothing for another file.  A
    video that the service refuses, fails to process or never finishes
    ends the run. *)
Fixpoint media_results (fuel : nat) (media_paths : list str) (s : state W)
  : list (Path * (str + File)) :=
  match media_paths with
  | [] => []
  | path :: rest =>
      let file_path := mkPath path in
      let s' := snd (upload_one E fuel path s) in
      if supported file_path then
        (file_path, fst (upload_file E (Path_str file_path) (remote s)))
        :: media_results fuel rest s'
      else if is_video file_path then
        match fst (awaited fuel (Path_str file_path) s) with
        | Return video_file =>
            if str_eqb (state_name (file_state video_file)) (py "FAILED") then []
            else (mkPath (Path_str file_path), inr video_file)
                 :: media_results fuel rest s'
        | _ => []
        end
      else media_results fuel rest s'
  end.

End MoreRuns.

(** The lines that [_upload_video] prints on the progress of a video. *)
Definition video_line (line : str) : bool :=
  str_eqb line (py "Uploading video file...")
  || starts_with (py "Completed upload: ") line
  || str_eqb line (py "Waiting for video to be processed.")
  || starts_with (py "Video processing complete: ") line.

(** The folder of an example file: the name of its parent. *)
Definition subfolder (p : Path) : str := Path_name (Path_parent p).

(** The example files that [_load_examples] uploads. *)
Definition recognised (p : Path) : bool :=
  supported p && str_in (subfolder p) [py "example1"; py "example2"].

(** The calls of a log that ask for an analysis. *)
Definition analysis_calls (cs : list call) : nat :=
  List.length (filter (fun c => match c with CallSendMessage _ _ _ => true | _ => false end) cs).

(** The number of report requests among the operations of a session. *)
Definition report_requests (ops : list op) : nat :=
  List.length (filter (fun o => match o with GenerateReport => true | _ => false end) ops).

(** The polls and the sleeps of a log of calls. *)
Definition polls (cs : list call) : nat :=
  List.length (filter (fun c => match c with CallGetFile _ => true | _ => false end) cs).

Definition sleeps (cs : list call) : list Z :=
  flat_map (fun c => match c with CallSleep secs => [secs] | _ => [] end) cs.

(** The paths of the uploads of a log of calls. *)
Definition upload_paths (cs : list call) : list str :=
  flat_map (fun c => match c with CallUpload path => [path] | _ => [] end) cs.

(** A path that [upload_user_media] uploads, as a document or as a video. *)
Definition uploadable (path : str) : bool :=
  supported (mkPath path) || is_video (mkPath path).

(** ** The ingestion of app.py

    [frame_paths = inspector.process_video(video_path)] and then
    [inspector.upload_user_media([video_path] + list(frame_paths.values()))],
    with the default output directory of [process_video]. *)
Definition ingest_video {W} (cv : Cv2) (E : Collab W) (fuel : nat)
    (video_path : str) (s : state W) : outcome (dict str) * state W :=
  match fst (process_video cv video_path (py "extracted_frames")) with
  | Return frame_paths =>
      match upload_user_media E fuel (video_path :: values frame_paths) s with
      | (Return _, s') => (Return frame_paths, s')
      | (Raise e, s') => (Raise e, s')
      | (Running, s') => (Running, s')
      end
  | Raise e => (Raise e, s)
  | Running => (Running, s)
  end.

(** Whether a result of the uploads of the examples lies in a folder. *)
Definition in_folder (name : str) (pr : Path * (str + File)) : bool :=
  str_eqb (subfolder (fst pr)) name.

(** What uploading keeps: the model and the number of analysis calls. *)
Definition same_analysis {W} (s s' : state W) : Prop :=
  model s' = model s /\ analysis_calls (calls s') = analysis_calls (calls s).

(** ** Texts and values of the decoder *)

(** A text of Unicode scalar values: code points below 0x110000 that are
    no surrogates, as any text decoded from UTF-8 is. *)
Definition is_scalar (c : N) : bool :=
  (c <? 0x110000)%N && negb (is_high_surrogate c) && negb (is_low_surrogate c).

Definition text_ok (s : str) : bool := forallb is_scalar s.

(** A value that holds no float. *)
Fixpoint float_free (v : json) : bool :=
  match v with
  | JFloat _ => false
  | JArr items => forallb float_free items
  | JObj members => forallb (fun kv => float_free (snd kv)) members
  | _ => true
  end.

(** A value whose strings are as [str_ok] has them and whose objects have
    pairwise distinct keys. *)
Fixpoint strings_ok (v : json) : bool :=
  match v with
  | JStr s => str_ok s
  | JArr items => forallb strings_ok items
  | JObj members =>
      forallb (fun kv => str_ok (fst kv) && strings_ok (snd kv)) members
      && nodupb (keys members)
  | _ => true
  end.

(** Whether a string begins with a low surrogate. *)
Definition head_low (s : str) : bool :=
  match s with
  | c :: _ => is_low_surrogate c
  | [] => false
  end.

Module Cases.

(** A 22-second video whose frame at 5 seconds and whose frame at 15
    seconds do not decode. *)
Definition cap_gaps : VideoCapture :=
  {| isOpened := true;
     CAP_PROP_FPS := 25;
     CAP_PROP_FRAME_COUNT := 550;
     read_at := fun msec =>
       if (msec =? 5000) || (msec =? 15000) then None else Some [Z.to_N msec] |}.

(** A file that opens and reports a frame rate of zero. *)
Definition cap_no_rate : VideoCapture :=
  {| isOpened := true;
     CAP_PROP_FPS := 0;
     CAP_PROP_FRAME_COUNT := 100;
     read_at := fun msec => Some [Z.to_N msec] |}.

(** An examples tree: two recognised folders, a file in a third folder, a
    file at the top, an upload that fails. *)
Definition examples_tree : Collab nat :=
  Scenario.service
    [py "examples/example1/report.pdf"; py "examples/example2/photo.JPG";
     py "examples/drafts/idea.pdf"; py "examples/readme.txt";
     py "examples/example1/broken.docx"; py "examples/example2/notes.md"]
    [py "examples/example1/broken.docx"]
    (fun _ => ACTIVE) (py "{}").

(** A service whose cache creation fails. *)
Definition no_cache : Collab nat :=
  {| fs_rglob := fs_rglob Scenario.five_standards;
     upload_file := upload_file Scenario.five_standards;
     get_file := get_file Scenario.five_standards;
     sleep := sleep Scenario.five_standards;
     cache_create := fun _ polls => (Some (py "cached content is too small"), polls);
     send_message := send_message Scenario.five_standards;
     interpreter := interpreter Scenario.five_standards |}.

(** A service that reports a video as ready at the third poll. *)
Definition ready_at_third : Collab nat :=
  Scenario.service [] []
    (fun polls => if (polls <? 3)%nat then PROCESSING else ACTIVE) (py "{}").

(** A response with escapes in its strings, among them a pair of
    surrogates, and with whole numbers. *)
Definition response_escaped : str :=
  pyq "{'score': 7, 'note': 'caf\u00e9 \ud83d\ude00 \n', 'items': [true, null, -12, {'k': []}]}".

End Cases.

(** ** The Word report ([generate_word_report])

    The renderer reads the report as the dictionary that [json.loads]
    returned, with the operations of Python on such values, and builds a
    document through the python-docx library.  The library is outside the
    repository: the document is kept as the blocks that the calls add, and
    what the library, the clock and the file system decide is a record of
    oracles. *)

Module Word.

(** The exceptions that can end a rendering. *)
Inductive error : Type :=
| KeyError (key : str)
| TypeError
| AttributeError
| LibraryError (msg : str).

(** *** Python on the values of a report *)

(** [v[key]] *)
Definition getitem (v : json) (key : str) : error + json :=
  match v with
  | JObj d =>
      match dict_get d key with
      | Some x => inr x
      | None => inl (KeyError key)
      end
  | _ => inl TypeError
  end.

(** [v.get(key, default)]; [v.get(key)] is [v.get(key, None)]. *)
Definition get (v : json) (key : str) (default : json) : error + json :=
  match v with
  | JObj d =>
      match dict_get d key with
      | Some x => inr x
      | None => inr default
      end
  | _ => inl AttributeError
  end.

(** [for x in v]: the items of a list, the characters of a string, the
    keys of a dictionary. *)
Definition iter (v : json) : error + list json :=
  match v with
  | JArr items => inr items
  | JStr s => inr (map (fun c => JStr [c]) s)
  | JObj d => inr (map JStr (keys d))
  | _ => inl TypeError
  end.

(** [v == literal] for a string literal *)
Definition eq_literal (v : json) (literal : str) : bool :=
  match v with
  | JStr s => str_eqb s literal
  | _ => false
  end.

(** [v.startswith(prefix)] *)
Definition startswith (v : json) (prefix : str) : error + bool :=
  match v with
  | JStr s => inr (starts_with prefix s)
  | _ => inl AttributeError
  end.

(** [os.path.join(a, b)] (posixpath) *)
Definition os_path_join (a b : str) : str :=
  match b with
  | c :: _ => if N.eqb c slash then b
              else match a with
                   | [] => b
                   | _ => if N.eqb (last a 0%N) slash then a ++ b
                          else a ++ slash :: b
                   end
  | [] => match a with
          | [] => []
          | _ => if N.eqb (last a 0%N) slash then a else a ++ [slash]
          end
  end.

(** *** The document *)

Inductive rgb : Type := RGBColor (r g b : N).

Definition red : rgb := RGBColor 255 0 0.
Definition green : rgb := RGBColor 0 128 0.

(** A run as [add_run(text)] makes it ([None] for [add_run()]), with the
    attributes that the code sets on it. *)
Record Run := {
  run_text : option json;
  run_bold : bool;
  run_color : option rgb
}.

Definition plain (text : json) : Run :=
  {| run_text := Some text; run_bold := false; run_color := None |}.

Definition bold (text : json) : Run :=
  {| run_text := Some text; run_bold := true; run_color := None |}.

Inductive Block : Type :=
| Heading (text : str) (level : nat) (centered : bool)
| Paragraph (text : option json) (style : option str) (centered : bool)
    (runs : list Run)
| PageBreak
| Picture (path : str) (width_inches : Z).

(** The field that [_add_footer] puts in the footer. *)
Inductive FooterItem : Type :=
| FldChar (fldCharType : str)
| InstrText (text : str).

Record Document := {
  body : list Block;
  footer : list FooterItem;
  footer_centered : bool
}.

(** What lies outside the repository. *)
Record Library := {
  (** [datetime.datetime.now().strftime('%B %d, %Y')] *)
  today : str;
  (** [os.path.exists] *)
  path_exists : str -> bool;
  (** [doc.add_picture(path, ...)]: [Some msg] when it raises *)
  add_picture : str -> option str;
  (** a text that the library refuses, with the message of what it raises *)
  rejects : json -> option str;
  (** [doc.save(path)]: [Some msg] when it raises *)
  save : str -> option str;
  (** the text of a float, a list or a dictionary in an f-string *)
  repr : json -> str;
  (** [bool(x)] for the float of a literal *)
  float_truth : str -> bool
}.

Section Renderer.

Variable L : Library.

(** [bool(v)] *)
Definition truthy (v : json) : bool :=
  match v with
  | JNull => false
  | JBool b => b
  | JInt z => negb (z =? 0)
  | JFloat literal => float_truth L literal
  | JStr s => match s with [] => false | _ :: _ => true end
  | JArr items => match items with [] => false | _ :: _ => true end
  | JObj d => match d with [] => false | _ :: _ => true end
  end.

(** The text of [{v}] in an f-string. *)
Definition format (v : json) : str :=
  match v with
  | JStr s => s
  | JInt z => str_of_int z
  | JNull => py "None"
  | JBool true => py "True"
  | JBool false => py "False"
  | _ => repr L v
  end.

(** What a procedure gives: the lines it printed, and the exception that
    ended it or its value. *)
Definition R (A : Type) : Type := list str * (error + A).

Definition ret {A} (a : A) : R A := ([], inr a).

Definition bind {A B} (m : R A) (k : A -> R B) : R B :=
  match m with
  | (printed, inr a) => let '(printed', r) := k a in (printed ++ printed', r)
  | (printed, inl e) => (printed, inl e)
  end.

Definition lift {A} (x : error + A) : R A := ([], x).

Notation "x <- c ;; k" := (bind c (fun x => k))
  (at level 61, c at next level, right associativity).

(** A call of the library with a text. *)
Definition accept (text : json) : R unit :=
  match rejects L text with
  | Some msg => ([], inl (LibraryError msg))
  | None => ret tt
  end.

(** [doc.add_heading(text, level)] *)
Definition add_heading (text : str) (level : nat) : R (list Block) :=
  _ <- accept (JStr text) ;; ret [Heading text level false].

(** [doc.add_paragraph(text, style='List Bullet')] *)
Definition add_bullet (text : json) : R (list Block) :=
  _ <- accept text ;; ret [Paragraph (Some text) (Some (py "List Bullet")) false []].

(** [for x in items: body(x)], the blocks in order *)
Fixpoint for_blocks (items : list json) (body : json -> R (list Block))
  : R (list Block) :=
  match items with
  | [] => ret []
  | x :: rest =>
      bs <- body x ;; bs' <- for_blocks rest body ;; ret (bs ++ bs')
  end.

Definition _add_report_header : R (list Block) :=
  ret [ Heading (py "HOME INSPECTION REPORT") 1 true;
        Paragraph None None true [plain (JStr (py "Date: " ++ today L))];
        Paragraph None None true
          [plain (JStr (py "Prepared by: AI Home Inspection System"))];
        Paragraph None None false [] ].

Definition _add_executive_summary (report_data : json) : R (list Block) :=
  summary <- lift (getitem report_data (py "executiveSummary")) ;;
  overall <- lift (getitem summary (py "overallCondition")) ;;
  _ <- accept overall ;;
  summary <- lift (getitem report_data (py "executiveSummary")) ;;
  critical <- lift (getitem summary (py "criticalIssues")) ;;
  issues <- lift (iter critical) ;;
  critical_blocks <-
    for_blocks issues (fun issue =>
      _ <- accept issue ;;
      ret [Paragraph None (Some (py "List Bullet")) false
             [bold issue;
              {| run_text := None; run_bold := false; run_color := Some red |}]]) ;;
  summary <- lift (getitem report_data (py "executiveSummary")) ;;
  recommended <- lift (getitem summary (py "recommendedActions")) ;;
  actions <- lift (iter recommended) ;;
  action_blocks <- for_blocks actions add_bullet ;;
  ret ([ Heading (py "Executive Summary") 1 false;
         Paragraph None None false
           [bold (JStr (py "Overall Condition: ")); plain overall];
         Heading (py "Critical Issues") 2 false ]
       ++ critical_blocks
       ++ [Heading (py "Recommended Actions") 2 false]
       ++ action_blocks
       ++ [PageBreak]).

(** The [try] of the image of a finding, once the file was found: the
    picture, its caption, a blank paragraph; an exception in it is printed
    and goes no further, what was added before it stays in the document. *)
Definition add_image (frame_path : str) (area timestamp : json) : R (list Block) :=
  match add_picture L frame_path with
  | Some msg => ([py "Error adding image to Word doc: " ++ msg], inr [])
  | None =>
      let caption := py "Figure: " ++ format area ++ py " at " ++ format timestamp in
      match rejects L (JStr caption) with
      | Some msg =>
          ([py "Error adding image to Word doc: " ++ msg], inr [Picture frame_path 4])
      | None =>
          ret [ Picture frame_path 4;
                Paragraph (Some (JStr caption)) (Some (py "Caption")) false [];
                Paragraph None None false [] ]
      end
  end.

Definition image_of (finding area : json) : R (list Block) :=
  media <- lift (get finding (py "mediaReference") JNull) ;;
  if truthy media then
    is_frame <- lift (startswith media (py "frame_")) ;;
    if is_frame then
      let frame_path := os_path_join (py "extracted_frames") (format media) in
      if path_exists L frame_path then
        timestamp <- lift (get finding (py "timestamp") (JStr (py "unknown time"))) ;;
        add_image frame_path area timestamp
      else ret []
    else ret []
  else ret [].

Definition status_color (status : json) : rgb :=
  if eq_literal status (py "Non-compliant") then red else green.

Definition render_finding (finding : json) : R (list Block) :=
  area <- lift (getitem finding (py "area")) ;;
  condition <- lift (getitem finding (py "condition")) ;;
  heading <- add_heading (format area ++ py " - " ++ format condition) 2 ;;
  image <- image_of finding area ;;
  status <- lift (getitem finding (py "complianceStatus")) ;;
  _ <- accept status ;;
  issues <- lift (get finding (py "issuesFound") JNull) ;;
  issue_blocks <-
    (if truthy issues then
       items <- lift (iter issues) ;;
       bullets <- for_blocks items add_bullet ;;
       ret (Heading (py "Issues Found") 3 false :: bullets)
     else ret []) ;;
  reference_doc <- lift (get finding (py "referenceDoc") JNull) ;;
  reference_section <- lift (get finding (py "referenceSection") JNull) ;;
  reference_blocks <-
    (if truthy reference_doc && truthy reference_section then
       let text := format reference_doc ++ py " - " ++ format reference_section in
       _ <- accept (JStr text) ;;
       ret [Paragraph None None false
              [bold (JStr (py "Standard Reference: ")); plain (JStr text)]]
     else ret []) ;;
  recommendation <- lift (get finding (py "recommendation") JNull) ;;
  recommendation_blocks <-
    (if truthy recommendation then
       _ <- accept recommendation ;;
       ret [Paragraph None None false
              [bold (JStr (py "Recommendation: ")); plain recommendation]]
     else ret []) ;;
  ret (heading ++ image
       ++ [Paragraph None None false
             [bold (JStr (py "Compliance Status: "));
              {| run_text := Some status; run_bold := false;
                 run_color := Some (status_color status) |}]]
       ++ issue_blocks ++ reference_blocks ++ recommendation_blocks
       ++ [Paragraph None None false []]).

Definition _add_detailed_findings (report_data : json) : R (list Block) :=
  detailed <- lift (getitem report_data (py "detailedInspection")) ;;
  findings <- lift (iter detailed) ;;
  blocks <- for_blocks findings render_finding ;;
  ret (Heading (py "Detailed Inspection Findings") 1 false :: blocks).

Definition render_schedule (schedule : json) : R (list Block) :=
  frequency <- lift (getitem schedule (py "frequency")) ;;
  heading <- add_heading (format frequency ++ py " Tasks") 2 ;;
  tasks <- lift (getitem schedule (py "tasks")) ;;
  items <- lift (iter tasks) ;;
  bullets <- for_blocks items add_bullet ;;
  ret (heading ++ bullets).

Definition _add_maintenance_schedule (report_data : json) : R (list Block) :=
  notes <- lift (getitem report_data (py "maintenanceNotes")) ;;
  schedules <- lift (getitem notes (py "maintenanceSchedule")) ;;
  entries <- lift (iter schedules) ;;
  schedule_blocks <- for_blocks entries render_schedule ;;
  notes <- lift (getitem report_data (py "maintenanceNotes")) ;;
  costs <- lift (get notes (py "costConsiderations") JNull) ;;
  cost_blocks <-
    (if truthy costs then
       items <- lift (iter costs) ;;
       bullets <- for_blocks items add_bullet ;;
       ret (Heading (py "Cost Considerations") 2 false :: bullets)
     else ret []) ;;
  ret (Heading (py "Maintenance Schedule") 1 false :: schedule_blocks ++ cost_blocks).

(** The page-number field of [_add_footer]. *)
Definition page_field : list FooterItem :=
  [FldChar (py "begin"); InstrText (py "PAGE"); FldChar (py "end")].

(** [generate_word_report(report_data, output_path)]: the document that
    was saved, when it returns. *)
Definition generate_word_report (report_data : json) (output_path : str)
  : R Document :=
  header <- _add_report_header ;;
  summary <- _add_executive_summary report_data ;;
  findings <- _add_detailed_findings report_data ;;
  maintenance <- _add_maintenance_schedule report_data ;;
  let doc := {| body := header ++ summary ++ findings ++ maintenance;
                footer := page_field; footer_centered := true |} in
  match save L output_path with
  | Some msg => ([], inl (LibraryError msg))
  | None => ret doc
  end.

End Renderer.

(** The runs of a block. *)
Definition runs_of (b : Block) : list Run :=
  match b with
  | Paragraph _ _ _ runs => runs
  | _ => []
  end.

(** The paths of the pictures of a list of blocks. *)
Definition pictures (bs : list Block) : list str :=
  flat_map (fun b => match b with Picture path _ => [path] | _ => [] end) bs.

(** The colour of a run, if it has one, is that of a compliance status,
    on a run that is not bold, or red on a run without text. *)
Definition colour_ok (run : Run) : Prop :=
  match run_color run with
  | None => True
  | Some c =>
      match run_text run with
      | None => c = red
      | Some status => run_bold run = false /\ c = status_color status
      end
  end.

(** A picture of the document: a file that exists, in the folder
    extracted_frames, under a name that begins with frame_. *)
Definition frame_picture (L : Library) (path : str) : Prop :=
  exists ref,
    starts_with (py "frame_") ref = true /\
    path = os_path_join (py "extracted_frames") ref /\
    path_exists L path = true.

(** What a block of a report is. *)
Definition block_ok (L : Library) (b : Block) : Prop :=
  match b with
  | Heading _ _ _ => True
  | Paragraph _ _ _ runs => Forall colour_ok runs
  | PageBreak => True
  | Picture path width_inches => frame_picture L path /\ width_inches = 4
  end.

End Word.

Module WordCases.

(** A library that accepts every text, adds every picture and saves,
    over a file system that holds the files of a list. *)
Definition library (files : list str) : Word.Library :=
  {| Word.today := py "November 03, 2026";
     Word.path_exists := fun path => str_in path files;
     Word.add_picture := fun _ => None;
     Word.rejects := fun _ => None;
     Word.save := fun _ => None;
     Word.repr := fun _ => py "<repr>";
     Word.float_truth := fun _ => true |}.

(** The report of the scenarios, as the dictionary the code holds. *)
Definition report : json := Report.json_of_report Scenario.sample_report.

End WordCases.

(** * Properties *)

(** ** Strings, dictionaries, paths *)

Lemma str_eqb_eq (a b : str) : str_eqb a b = true <-> a = b.
Proof.
  revert b; induction a as [|x a IH]; intros [|y b]; simpl;
    try (split; [discriminate | discriminate]); try tauto.
  rewrite andb_true_iff, N.eqb_eq, IH.
  split; [intros [-> ->]; reflexivity | intros H; inversion H; auto].
Qed.

Lemma str_eqb_refl (a : str) : str_eqb a a = true.
Proof. apply str_eqb_eq; reflexivity. Qed.

Lemma str_eqb_neq (a b : str) : str_eqb a b = false <-> a <> b.
Proof.
  rewrite <- str_eqb_eq. destruct (str_eqb a b); split; congruence.
Qed.

Lemma str_in_In (x : str) (xs : list str) : str_in x xs = true <-> In x xs.
Proof.
  unfold str_in. rewrite existsb_exists. split.
  - intros (y & Hy & E). apply str_eqb_eq in E. subst; assumption.
  - intros H. exists x. split; [assumption | apply str_eqb_refl].
Qed.

Lemma py_inj (a b : string) : py a = py b -> a = b.
Proof.
  unfold py. intros H.
  rewrite <- (string_of_list_ascii_of_string a), <- (string_of_list_ascii_of_string b).
  f_equal. revert H.
  generalize (list_ascii_of_string a) (list_ascii_of_string b).
  induction l as [|x l IH]; intros [|y l']; simpl; try discriminate; auto.
  intros H. inversion H as [[Hx Hl]].
  f_equal; [| apply IH; assumption].
  rewrite <- (ascii_N_embedding x), <- (ascii_N_embedding y), Hx. reflexivity.
Qed.

Lemma str_of_int_inj (a b : Z) : str_of_int a = str_of_int b -> a = b.
Proof.
  unfold str_of_int. intros H. apply py_inj in H.
  assert (Hn : forall z, Z.to_int z <> Decimal.Pos Decimal.Nil
                         /\ Z.to_int z <> Decimal.Neg Decimal.Nil).
  { intros [|p|p]; simpl; split; try discriminate;
      intros E; inversion E as [E']; apply Unsigned.to_uint_nonnil in E'; exact E'. }
  assert (E : Some (Z.to_int a) = Some (Z.to_int b)).
  { rewrite <- (NilZero.isi (Z.to_int a)), <- (NilZero.isi (Z.to_int b)) by apply Hn.
    rewrite H. reflexivity. }
  inversion E as [E'].
  rewrite <- (DecimalZ.of_to a), <- (DecimalZ.of_to b), E'. reflexivity.
Qed.

(** The characters of a decimal numeral are digits or the sign. *)
Definition numeral_char (c : N) : bool :=
  ((48 <=? c)%N && (c <=? 57)%N) || N.eqb c 45.

Lemma string_of_uint_chars (u : Decimal.uint) :
  forallb numeral_char (py (NilEmpty.string_of_uint u)) = true.
Proof.
  induction u; simpl; try reflexivity; unfold py in *; simpl; assumption.
Qed.

Lemma str_of_int_chars (z : Z) : forallb numeral_char (str_of_int z) = true.
Proof.
  assert (H : forall u, forallb numeral_char (py (NilZero.string_of_uint u)) = true).
  { intros u. destruct u; try reflexivity;
      apply (string_of_uint_chars (_ u)) || apply string_of_uint_chars. }
  unfold str_of_int. destruct (Z.to_int z) as [u|u]; simpl.
  - apply H.
  - change (forallb numeral_char (45%N :: py (NilZero.string_of_uint u)) = true).
    simpl. apply H.
Qed.

Lemma str_of_int_nonempty (z : Z) : str_of_int z <> [].
Proof.
  unfold str_of_int. intros H.
  change [] with (py "") in H. apply py_inj in H.
  destruct (Z.to_int z) as [u|u] eqn:E; simpl in H; try discriminate.
  destruct u; simpl in H; discriminate.
Qed.

(** *** Dictionaries *)

Lemma dict_get_set_same {V} (d : dict V) k v : dict_get (dict_set d k v) k = Some v.
Proof.
  induction d as [|[k' v'] d IH]; simpl.
  - rewrite str_eqb_refl. reflexivity.
  - destruct (str_eqb k' k) eqn:E; simpl; rewrite E; auto.
Qed.

Lemma dict_get_set_other {V} (d : dict V) k k' v :
  k <> k' -> dict_get (dict_set d k v) k' = dict_get d k'.
Proof.
  intros Hne. induction d as [|[k0 v0] d IH]; simpl.
  - destruct (str_eqb k k') eqn:E; [apply str_eqb_eq in E; contradiction | reflexivity].
  - destruct (str_eqb k0 k) eqn:E; simpl.
    + apply str_eqb_eq in E. subst k0.
      destruct (str_eqb k k') eqn:E'; [apply str_eqb_eq in E'; contradiction | reflexivity].
    + rewrite IH. reflexivity.
Qed.

Lemma dict_get_None_keys {V} (d : dict V) k : dict_get d k = None <-> ~ In k (keys d).
Proof.
  induction d as [|[k' v'] d IH]; simpl.
  - tauto.
  - destruct (str_eqb k' k) eqn:E.
    + apply str_eqb_eq in E. split; [discriminate | intros H; exfalso; apply H; auto].
    + apply str_eqb_neq in E. rewrite IH. tauto.
Qed.

Lemma keys_dict_set_in {V} (d : dict V) k v :
  In k (keys d) -> keys (dict_set d k v) = keys d.
Proof.
  induction d as [|[k' v'] d IH]; simpl; [tauto|].
  intros H. destruct (str_eqb k' k) eqn:E; simpl; [reflexivity|].
  apply str_eqb_neq in E. f_equal. apply IH. destruct H; [contradiction | assumption].
Qed.

Lemma keys_dict_set_new {V} (d : dict V) k v :
  ~ In k (keys d) -> dict_set d k v = d ++ [(k, v)].
Proof.
  induction d as [|[k' v'] d IH]; simpl; [reflexivity|].
  intros H. destruct (str_eqb k' k) eqn:E.
  - apply str_eqb_eq in E. exfalso; apply H; auto.
  - f_equal. apply IH. tauto.
Qed.

Lemma keys_dict_set_NoDup {V} (d : dict V) k v :
  NoDup (keys d) -> NoDup (keys (dict_set d k v)).
Proof.
  intros H. destruct (in_dec (list_eq_dec N.eq_dec) k (keys d)) as [Hin|Hnin].
  - rewrite keys_dict_set_in; assumption.
  - rewrite keys_dict_set_new by assumption. unfold keys. rewrite map_app. simpl.
    apply NoDup_app; [assumption | repeat constructor; simpl; tauto |].
    intros x Hx [<-|[]]. contradiction.
Qed.

Lemma In_keys_dict_set {V} (d : dict V) k v k' :
  In k' (keys (dict_set d k v)) <-> k' = k \/ In k' (keys d).
Proof.
  induction d as [|[k0 v0] d IH]; simpl.
  - intuition.
  - destruct (str_eqb k0 k) eqn:E; simpl.
    + apply str_eqb_eq in E. subst. intuition.
    + rewrite IH. intuition.
Qed.

(** *** Paths *)

Definition slash_free (x : str) : bool := forallb (fun c => negb (N.eqb c slash)) x.

Definition good_part (x : str) : bool := slash_free x && is_part x.

Lemma split_slash_free (x : str) : slash_free x = true -> split_slash x = [x].
Proof.
  induction x as [|c x IH]; simpl; [reflexivity|].
  rewrite andb_true_iff, negb_true_iff. intros [Hc Hx].
  rewrite Hc, (IH Hx). reflexivity.
Qed.

Lemma split_slash_app (x y : str) :
  slash_free x = true -> split_slash (x ++ slash :: y) = x :: split_slash y.
Proof.
  induction x as [|c x IH]; simpl.
  - intros _. reflexivity.
  - rewrite andb_true_iff, negb_true_iff. intros [Hc Hx].
    rewrite Hc, (IH Hx). reflexivity.
Qed.

Lemma split_slash_parts (s : str) : forallb slash_free (split_slash s) = true.
Proof.
  induction s as [|c s IH]; simpl; [reflexivity|].
  destruct (N.eqb c slash) eqn:E; simpl; [assumption|].
  destruct (split_slash s) as [|w ws]; simpl in *.
  - rewrite E. reflexivity.
  - rewrite E. simpl. assumption.
Qed.

Lemma split_join (ps : list str) :
  ps <> [] -> forallb slash_free ps = true ->
  split_slash (join [slash] ps) = ps.
Proof.
  induction ps as [|p ps IH]; [congruence|]. intros _. simpl forallb.
  rewrite andb_true_iff. intros [Hp Hps].
  destruct ps as [|q ps].
  - simpl. apply split_slash_free; assumption.
  - change (join [slash] (p :: q :: ps)) with (p ++ slash :: join [slash] (q :: ps)).
    rewrite split_slash_app by assumption. f_equal. apply IH; [discriminate | assumption].
Qed.

Lemma filter_all {A} (f : A -> bool) (l : list A) :
  forallb f l = true -> filter f l = l.
Proof.
  induction l as [|x l IH]; simpl; [reflexivity|].
  rewrite andb_true_iff. intros [Hx Hl]. rewrite Hx, (IH Hl). reflexivity.
Qed.

Lemma forallb_filter_both {A} (f g : A -> bool) (l : list A) :
  forallb f l = true -> forallb (fun x => f x && g x) (filter g l) = true.
Proof.
  induction l as [|x l IH]; simpl; [reflexivity|].
  rewrite andb_true_iff. intros [Hx Hl].
  destruct (g x) eqn:E; simpl; [rewrite Hx, E; simpl|]; auto.
Qed.

Lemma mkPath_parts_good (s : str) : forallb good_part (parts (mkPath s)) = true.
Proof.
  simpl. apply (forallb_filter_both slash_free is_part), split_slash_parts.
Qed.

Lemma parse_root_cases (s : str) :
  parse_root s = [] \/ parse_root s = [slash] \/ parse_root s = [slash; slash].
Proof.
  destruct s as [|a [|b [|c s]]]; simpl; auto;
    repeat match goal with |- context [N.eqb ?x ?y] => destruct (N.eqb x y) end; auto.
Qed.

Lemma good_parts_split (ps : list str) :
  forallb good_part ps = true ->
  forallb slash_free ps = true /\ forallb is_part ps = true.
Proof.
  induction ps as [|p ps IH]; simpl; [auto|].
  unfold good_part at 1. rewrite !andb_true_iff. intuition.
Qed.

(** Reading back the text of a path gives its components. *)
Lemma parts_mkPath_Path_str (p : Path) :
  parts p <> [] -> forallb good_part (parts p) = true ->
  (root p = [] \/ root p = [slash] \/ root p = [slash; slash]) ->
  parts (mkPath (Path_str p)) = parts p.
Proof.
  destruct p as [r ps]. simpl. intros Hne Hgood Hroot.
  destruct (good_parts_split _ Hgood) as [Hfree Hpart].
  assert (Hstr : Path_str {| root := r; parts := ps |} = r ++ join [slash] ps).
  { unfold Path_str; simpl. destruct r; destruct ps; try reflexivity; congruence. }
  rewrite Hstr.
  assert (Hj : filter is_part (split_slash (join [slash] ps)) = ps).
  { rewrite split_join by assumption. apply filter_all; assumption. }
  destruct Hroot as [-> | [-> | ->]]; simpl; assumption.
Qed.

Lemma last_app_single {A} (l : list A) (x d : A) : last (l ++ [x]) d = x.
Proof. induction l as [|y [|z l] IH]; simpl in *; auto. Qed.

Lemma numeral_slash_free (l : str) :
  forallb numeral_char l = true -> slash_free l = true.
Proof.
  unfold slash_free. induction l as [|c l IH]; simpl; [reflexivity|].
  rewrite !andb_true_iff. intros [Hc Hl]. split; [| auto].
  unfold numeral_char in Hc. unfold slash.
  destruct (N.eqb_spec c 47); [subst; discriminate | reflexivity].
Qed.

Lemma slash_free_app (a b : str) :
  slash_free (a ++ b) = slash_free a && slash_free b.
Proof. apply forallb_app. Qed.

Lemma frame_filename_free (t : Z) : slash_free (frame_filename t) = true.
Proof.
  unfold frame_filename. rewrite !slash_free_app.
  rewrite (numeral_slash_free _ (str_of_int_chars t)). reflexivity.
Qed.

Lemma frame_filename_part (t : Z) : is_part (frame_filename t) = true.
Proof. reflexivity. Qed.

Lemma frame_filename_relative (t : Z) : parse_root (frame_filename t) = [].
Proof. reflexivity. Qed.

(** The path a frame is written to lies in the output directory. *)
Lemma frame_path_parts (output_dir : str) (t : Z) :
  parts (mkPath (frame_path_of output_dir t))
  = parts (mkPath output_dir) ++ [frame_filename t].
Proof.
  unfold frame_path_of, Path_div. rewrite frame_filename_relative.
  rewrite (split_slash_free _ (frame_filename_free t)).
  change (filter is_part [frame_filename t]) with [frame_filename t].
  rewrite parts_mkPath_Path_str.
  - reflexivity.
  - simpl. destruct (filter is_part (split_slash output_dir)); discriminate.
  - simpl parts. rewrite forallb_app. apply andb_true_iff. split.
    + apply mkPath_parts_good.
    + simpl. unfold good_part. rewrite frame_filename_free. reflexivity.
  - simpl. apply parse_root_cases.
Qed.

Lemma frame_path_name (output_dir : str) (t : Z) :
  Path_name (mkPath (frame_path_of output_dir t)) = frame_filename t.
Proof.
  unfold Path_name. rewrite frame_path_parts. apply last_app_single.
Qed.

(** ** Frame sampling *)

Lemma range_In (n t : Z) : In t (range 0 n 5) <-> 0 <= t < n /\ t mod 5 = 0.
Proof.
  unfold range, range_len. rewrite in_map_iff. split.
  - intros (i & <- & Hi). apply in_seq in Hi.
    destruct (Z.leb_spec n 0); [simpl in Hi; lia|].
    assert (Z.of_nat i < (n - 0 + 5 - 1) / 5) by lia.
    split; [| rewrite Z.add_0_l, Z.mul_comm; apply Z.mod_mul; lia].
    Z.to_euclidean_division_equations; lia.
  - intros [Ht Hm]. exists (Z.to_nat (t / 5)). split.
    + rewrite Z2Nat.id by (Z.to_euclidean_division_equations; lia).
      Z.to_euclidean_division_equations; lia.
    + apply in_seq. destruct (Z.leb_spec n 0); [lia|].
      split; [lia|]. simpl.
      apply Z2Nat.inj_lt; Z.to_euclidean_division_equations; lia.
Qed.

Lemma range_length (n : Z) :
  Z.of_nat (List.length (range 0 n 5)) = Z.max 0 (Qceiling (inject_Z n / 5)).
Proof.
  unfold range. rewrite length_map, length_seq. unfold range_len.
  assert (E : Qceiling (inject_Z n / 5) = (n + 4) / 5).
  { unfold Qceiling, Qfloor, Qdiv, Qmult, Qinv, Qopp, inject_Z. simpl.
    Z.to_euclidean_division_equations; lia. }
  rewrite E. destruct (Z.leb_spec n 0).
  - simpl. Z.to_euclidean_division_equations; lia.
  - rewrite Z2Nat.id by (Z.to_euclidean_division_equations; lia).
    replace (n - 0 + 5 - 1) with (n + 4) by lia.
    Z.to_euclidean_division_equations; lia.
Qed.

Lemma int_of_float_le (q : Q) : 0 < int_of_float q -> (inject_Z (int_of_float q) <= q)%Q.
Proof.
  destruct q as [a b]. unfold int_of_float. simpl. intros H.
  assert (Ha : 0 <= a).
  { destruct (Z.lt_ge_cases a 0) as [Hneg|]; [| assumption].
    exfalso. pose proof (Z.quot_opp_l a (Z.pos b)) as Ho.
    assert (0 <= (- a) ÷ Z.pos b) by (apply Z.quot_pos; lia). lia. }
  rewrite Z.quot_div_nonneg by lia.
  apply (Qfloor_le (a # b)).
Qed.

Lemma extract_frames_offsets cap output_dir ts d :
  attempted_offsets (snd (extract_frames cap output_dir ts d)) = ts.
Proof.
  revert d. induction ts as [|t ts IH]; intros d; simpl; [reflexivity|].
  destruct (read_at cap (t * 1000)).
  - specialize (IH (dict_set d (frame_key t) (frame_path_of output_dir t))).
    destruct (extract_frames cap output_dir ts _) as [d' tr]. simpl in *.
    rewrite Z.div_mul by lia. f_equal. assumption.
  - specialize (IH d).
    destruct (extract_frames cap output_dir ts d) as [d' tr]. simpl in *.
    rewrite Z.div_mul by lia. f_equal. assumption.
Qed.

Lemma extract_frames_written cap output_dir ts d t frame :
  In t ts -> read_at cap (t * 1000) = Some frame ->
  In (frame_path_of output_dir t, frame)
     (written_files (snd (extract_frames cap output_dir ts d))).
Proof.
  revert d. induction ts as [|t0 ts IH]; intros d Hin Hread; simpl; [destruct Hin|].
  destruct Hin as [-> | Hin].
  - rewrite Hread.
    destruct (extract_frames cap output_dir ts _) as [d' tr]. simpl. auto.
  - destruct (read_at cap (t0 * 1000)).
    + specialize (IH (dict_set d (frame_key t0) (frame_path_of output_dir t0)) Hin Hread).
      destruct (extract_frames cap output_dir ts _) as [d' tr]. simpl in *. auto.
    + specialize (IH d Hin Hread).
      destruct (extract_frames cap output_dir ts d) as [d' tr]. simpl in *. auto.
Qed.

Lemma frame_key_inj (a b : Z) : frame_key a = frame_key b -> a = b.
Proof.
  unfold frame_key. intros H. apply app_inv_head in H. apply app_inv_tail in H.
  apply str_of_int_inj; assumption.
Qed.

Lemma extract_frames_keeps cap output_dir ts d t :
  dict_get d (frame_key t) = Some (frame_path_of output_dir t) ->
  dict_get (fst (extract_frames cap output_dir ts d)) (frame_key t)
  = Some (frame_path_of output_dir t).
Proof.
  revert d. induction ts as [|t0 ts IH]; intros d H; simpl; [assumption|].
  destruct (read_at cap (t0 * 1000)).
  - assert (H' : dict_get (dict_set d (frame_key t0) (frame_path_of output_dir t0))
                   (frame_key t) = Some (frame_path_of output_dir t)).
    { destruct (Z.eq_dec t0 t) as [->|Hne].
      - apply dict_get_set_same.
      - rewrite dict_get_set_other; [assumption|].
        intros E. apply frame_key_inj in E. contradiction. }
    specialize (IH _ H').
    destruct (extract_frames cap output_dir ts _) as [d' tr]. assumption.
  - specialize (IH _ H).
    destruct (extract_frames cap output_dir ts d) as [d' tr]. assumption.
Qed.

Lemma extract_frames_get cap output_dir ts d t frame :
  In t ts -> read_at cap (t * 1000) = Some frame ->
  dict_get (fst (extract_frames cap output_dir ts d)) (frame_key t)
  = Some (frame_path_of output_dir t).
Proof.
  revert d. induction ts as [|t0 ts IH]; intros d Hin Hread; [destruct Hin|].
  destruct (Z.eq_dec t0 t) as [->|Hne].
  - simpl. rewrite Hread.
    pose proof (extract_frames_keeps cap output_dir ts
                  (dict_set d (frame_key t) (frame_path_of output_dir t)) t
                  (dict_get_set_same _ _ _)) as K.
    destruct (extract_frames cap output_dir ts _) as [d' tr]. assumption.
  - destruct Hin as [E | Hin]; [contradiction|]. simpl.
    destruct (read_at cap (t0 * 1000)).
    + specialize (IH (dict_set d (frame_key t0) (frame_path_of output_dir t0)) Hin Hread).
      destruct (extract_frames cap output_dir ts _) as [d' tr]. assumption.
    + specialize (IH d Hin Hread).
      destruct (extract_frames cap output_dir ts d) as [d' tr]. assumption.
Qed.

Lemma is_inf_zero (q : Q) : (q == 0)%Q -> is_inf q = false.
Proof.
  intros H. unfold is_inf.
  destruct (Qle_bool (2 ^ 1024) (Qabs q)) eqn:E; [| reflexivity].
  apply Qle_bool_iff in E. rewrite H in E. exfalso.
  apply (Qle_not_lt _ _ E). vm_compute. reflexivity.
Qed.

(** What [process_video] does once the directory exists, the file opens,
    the frame rate is not zero and the duration is no infinity. *)
Lemma process_video_run cv video_path output_dir :
  fs_mkdir cv output_dir = None ->
  isOpened (cv2_VideoCapture cv video_path) = true ->
  ~ (CAP_PROP_FPS (cv2_VideoCapture cv video_path) == 0)%Q ->
  is_inf (duration_of (cv2_VideoCapture cv video_path)) = false ->
  let cap := cv2_VideoCapture cv video_path in
  let r := extract_frames cap output_dir
             (range 0 (int_of_float (duration_of cap)) 5) [] in
  process_video cv video_path output_dir
  = (Return (fst r),
     CallMkdir output_dir :: CallVideoCapture video_path :: snd r ++ [CallRelease]).
Proof.
  intros Hdir Hopen Hfps Hfin. unfold process_video. rewrite Hdir, Hopen. simpl.
  destruct (Qeq_bool (CAP_PROP_FPS (cv2_VideoCapture cv video_path)) 0) eqn:E.
  - apply Qeq_bool_iff in E. contradiction.
  - rewrite Hfin. destruct (extract_frames _ _ _ _). reflexivity.
Qed.

Lemma attempted_offsets_app tr1 tr2 :
  attempted_offsets (tr1 ++ tr2) = attempted_offsets tr1 ++ attempted_offsets tr2.
Proof.
  induction tr1 as [|c tr1 IH]; simpl; [reflexivity|].
  destruct c; simpl; rewrite ?IH; reflexivity.
Qed.

Lemma written_files_app tr1 tr2 :
  written_files (tr1 ++ tr2) = written_files tr1 ++ written_files tr2.
Proof.
  induction tr1 as [|c tr1 IH]; simpl; [reflexivity|].
  destruct c; simpl; rewrite ?IH; reflexivity.
Qed.

(** ** Loading files into a dictionary *)

Lemma fold_set_app {V} (ps qs : list (str * V)) (d : dict V) :
  fold_left (fun d kv => dict_set d (fst kv) (snd kv)) (ps ++ qs) d
  = fold_left (fun d kv => dict_set d (fst kv) (snd kv)) qs
      (fold_left (fun d kv => dict_set d (fst kv) (snd kv)) ps d).
Proof. apply fold_left_app. Qed.

Lemma fold_set_get_other {V} (ps : list (str * V)) (d : dict V) k :
  ~ In k (map fst ps) ->
  dict_get (fold_left (fun d kv => dict_set d (fst kv) (snd kv)) ps d) k
  = dict_get d k.
Proof.
  revert d. induction ps as [|[k' v'] ps IH]; intros d H; simpl in *; [reflexivity|].
  rewrite IH by tauto. apply dict_get_set_other. intros ->. tauto.
Qed.

Lemma fold_set_NoDup {V} (ps : list (str * V)) (d : dict V) :
  NoDup (keys d) ->
  NoDup (keys (fold_left (fun d kv => dict_set d (fst kv) (snd kv)) ps d)).
Proof.
  revert d. induction ps as [|[k v] ps IH]; intros d H; simpl; [assumption|].
  apply IH, keys_dict_set_NoDup, H.
Qed.

Lemma fold_set_fresh {V} (ps : list (str * V)) (d : dict V) :
  NoDup (map fst ps) -> (forall k, In k (map fst ps) -> ~ In k (keys d)) ->
  fold_left (fun d kv => dict_set d (fst kv) (snd kv)) ps d = d ++ ps.
Proof.
  revert d. induction ps as [|[k v] ps IH]; intros d Hnd Hfresh; simpl.
  - symmetry. apply List.app_nil_r.
  - inversion Hnd as [|? ? Hk Hnd']; subst.
    rewrite keys_dict_set_new by (apply Hfresh; simpl; auto).
    rewrite IH; [rewrite <- app_assoc; reflexivity | assumption |].
    intros k' Hk'. unfold keys. rewrite map_app, in_app_iff. simpl.
    intros [Hin | [<- | []]].
    + apply (Hfresh k'); simpl; auto.
    + contradiction.
Qed.

Lemma successes_app rs1 rs2 : successes (rs1 ++ rs2) = successes rs1 ++ successes rs2.
Proof. apply flat_map_app. Qed.

Lemma failure_lines_app label rs1 rs2 :
  failure_lines label (rs1 ++ rs2) = failure_lines label rs1 ++ failure_lines label rs2.
Proof. apply flat_map_app. Qed.

Lemma successes_names rs k :
  In k (map fst (successes rs)) <->
  exists p f, In (p, inr f) rs /\ Path_name p = k.
Proof.
  induction rs as [|[p [msg|f]] rs IH]; simpl.
  - split; [tauto | intros (p & f & [] & _)].
  - rewrite IH. split.
    + intros (p' & f' & Hin & Hn). exists p', f'. auto.
    + intros (p' & f' & [Heq | Hin] & Hn); [discriminate|]. exists p', f'. auto.
  - rewrite IH. split.
    + intros [<- | (p' & f' & Hin & Hn)]; [exists p, f; auto | exists p', f'; auto].
    + intros (p' & f' & [Heq | Hin] & Hn).
      * inversion Heq; subst. auto.
      * right. exists p', f'. auto.
Qed.

(** A loop that uploads each supported file of a list and stores the
    handle under the name of the file, printing the failures: what the
    three loaders of the source have in common. *)
Section Loader.

Context {W : Type} (E : Collab W) {A : Type}.
Variable to_path : A -> Path.
Variable good : A -> Prop.
Variable getd : state W -> dict File.
Variable label : str.
Variable body : A -> M (W := W) unit.

Hypothesis body_step : forall x s, good x ->
  exists s', body x s = (Return tt, s') /\
    (supported (to_path x) = false -> s' = s) /\
    (supported (to_path x) = true ->
     remote s' = snd (upload_file E (Path_str (to_path x)) (remote s)) /\
     getd s' = match fst (upload_file E (Path_str (to_path x)) (remote s)) with
               | inr f => dict_set (getd s) (Path_name (to_path x)) f
               | inl _ => getd s
               end /\
     stdout s' = stdout s ++
                 match fst (upload_file E (Path_str (to_path x)) (remote s)) with
                 | inl msg => [label ++ Path_name (to_path x) ++ py ": " ++ msg]
                 | inr _ => []
                 end).

Lemma for_each_loader (xs : list A) (s : state W) :
  Forall good xs ->
  let rs := upload_results E (map to_path xs) (remote s) in
  exists s', for_each xs body s = (Return tt, s') /\
    getd s' = fold_left (fun d kv => dict_set d (fst kv) (snd kv))
                (successes rs) (getd s) /\
    stdout s' = stdout s ++ failure_lines label rs.
Proof.
  revert s. induction xs as [|x xs IH]; intros s Hgood; simpl.
  - exists s. rewrite List.app_nil_r. auto.
  - inversion Hgood as [|? ? Hx Hxs]; subst.
    destruct (body_step s Hx) as (s1 & Hb & Hno & Hyes).
    unfold bind. rewrite Hb.
    destruct (supported (to_path x)) eqn:Hsup.
    + destruct (Hyes eq_refl) as (Hr & Hd & Ho).
      destruct (upload_file E (Path_str (to_path x)) (remote s)) as [r w] eqn:Hu.
      simpl in Hr, Hd, Ho.
      destruct (IH s1 Hxs) as (s' & Hrun & Hd' & Ho').
      exists s'. rewrite Hr in Hd', Ho'. split; [exact Hrun|].
      unfold successes, failure_lines in *. simpl.
      rewrite Hd', Ho', Hd, Ho. destruct r; simpl; rewrite <- ?app_assoc; auto.
    + rewrite (Hno eq_refl). apply IH. assumption.
Qed.

End Loader.

Lemma load_standard_step {W} (E : Collab W) (p : Path) (s : state W) :
  exists s', load_standard E p s = (Return tt, s') /\
    (supported p = false -> s' = s) /\
    (supported p = true ->
     remote s' = snd (upload_file E (Path_str p) (remote s)) /\
     building_standards s'
     = match fst (upload_file E (Path_str p) (remote s)) with
       | inr f => dict_set (building_standards s) (Path_name p) f
       | inl _ => building_standards s
       end /\
     stdout s' = stdout s ++
                 match fst (upload_file E (Path_str p) (remote s)) with
                 | inl msg => [py "Error loading standard " ++ Path_name p ++ py ": " ++ msg]
                 | inr _ => []
                 end).
Proof.
  unfold load_standard. destruct (supported p).
  - destruct (upload_file E (Path_str p) (remote s)) as [[msg|f] w]; simpl;
      eexists; (split; [reflexivity|]); (split; [discriminate|]); intros _; simpl;
      rewrite ?List.app_nil_r; auto.
  - exists s. split; [reflexivity|]. split; [auto | discriminate].
Qed.

(** [_load_standards] never raises; it leaves the dictionary built from the
    uploads that succeeded and one printed line for each that failed. *)
Lemma load_standards_run {W} (E : Collab W) (standards_dir : Path) (s : state W) :
  let rs := upload_results E (fs_rglob E standards_dir) (remote s) in
  exists s', _load_standards E standards_dir s = (Return tt, s') /\
    building_standards s'
    = fold_left (fun d kv => dict_set d (fst kv) (snd kv))
        (successes rs) (building_standards s) /\
    stdout s' = stdout s ++ failure_lines (py "Error loading standard ") rs.
Proof.
  pose proof (@for_each_loader W E Path (fun p => p) (fun _ => True)
                building_standards (py "Error loading standard ")
                (load_standard E)
                (fun x s _ => load_standard_step E x s)
                (fs_rglob E standards_dir) s) as H.
  rewrite map_id in H. apply H. apply Forall_forall. auto.
Qed.

(** ** What the methods leave unchanged *)

Section Preserve.

Context {W : Type} (E : Collab W).

(** A relation between the state before and after that every step of a
    method keeps. *)
Variable R : state W -> state W -> Prop.
Hypothesis R_refl : forall s, R s s.
Hypothesis R_trans : forall s1 s2 s3, R s1 s2 -> R s2 s3 -> R s1 s3.

Definition preserves {A} (m : M (W := W) A) : Prop :=
  forall s r s', m s = (r, s') -> R s s'.

Lemma preserves_ret {A} (a : A) : preserves (ret a).
Proof. intros s r s' H. inversion H. apply R_refl. Qed.

Lemma preserves_raise {A} (e : exn) : preserves (raise (A := A) e).
Proof. intros s r s' H. inversion H. apply R_refl. Qed.

Lemma preserves_get {A} (f : state W -> A) : preserves (get f).
Proof. intros s r s' H. inversion H. apply R_refl. Qed.

Lemma preserves_bind {A B} (m : M A) (k : A -> M B) :
  preserves m -> (forall a, preserves (k a)) -> preserves (bind m k).
Proof.
  intros Hm Hk s r s' H. unfold bind in H.
  destruct (m s) as [[a| e |] s1] eqn:Em.
  - apply R_trans with s1; [apply (Hm _ _ _ Em) | apply (Hk a _ _ _ H)].
  - inversion H; subst. apply (Hm _ _ _ Em).
  - inversion H; subst. apply (Hm _ _ _ Em).
Qed.

Lemma preserves_for_each {A} (xs : list A) (body : A -> M unit) :
  (forall x, preserves (body x)) -> preserves (for_each xs body).
Proof.
  intros Hb. induction xs as [|x xs IH]; simpl.
  - apply preserves_ret.
  - apply preserves_bind; [apply Hb | intros _; apply IH].
Qed.

Hypothesis R_print : forall line s, R s (snd (print line s)).
Hypothesis R_upload : forall path w s, R s (called (CallUpload path) w 0 s).
Hypothesis R_get_file : forall name w s, R s (called (CallGetFile name) w 0 s).
Hypothesis R_sleep : forall secs w s, R s (called (CallSleep secs) w secs s).

Lemma preserves_print line : preserves (print line).
Proof. intros s r s' H. inversion H. apply (R_print line s). Qed.

Lemma preserves_genai_upload_file path : preserves (genai_upload_file E path).
Proof.
  intros s r s' H. unfold genai_upload_file in H.
  destruct (upload_file E path (remote s)) as [[msg|f] w]; inversion H; apply R_upload.
Qed.

Lemma preserves_genai_get_file name : preserves (genai_get_file E name).
Proof.
  intros s r s' H. unfold genai_get_file in H.
  destruct (get_file E name (remote s)) as [[msg|f] w]; inversion H; apply R_get_file.
Qed.

Lemma preserves_time_sleep secs : preserves (time_sleep E secs).
Proof. intros s r s' H. inversion H. apply R_sleep. Qed.

Lemma preserves_wait_processing fuel video_file :
  preserves (wait_processing E fuel video_file).
Proof.
  revert video_file. induction fuel as [|fuel IH]; intros video_file; simpl.
  - destruct (str_eqb _ _).
    + intros s r s' H. inversion H. apply R_refl.
    + apply preserves_ret.
  - destruct (str_eqb _ _); [| apply preserves_ret].
    apply preserves_bind; [apply preserves_print | intros _].
    apply preserves_bind; [apply preserves_time_sleep | intros _].
    apply preserves_bind; [apply preserves_genai_get_file | intros f; apply IH].
Qed.

(** The same for the runs that do not return. *)
Definition preserves_failing {A} (m : M (W := W) A) : Prop :=
  forall s r s', m s = (r, s') -> (forall a, r <> Return a) -> R s s'.

Lemma failing_of_preserves {A} (m : M A) : preserves m -> preserves_failing m.
Proof. intros H s r s' Hm _. apply (H _ _ _ Hm). Qed.

Lemma failing_bind {A B} (m : M A) (k : A -> M B) :
  preserves m -> (forall a, preserves_failing (k a)) -> preserves_failing (bind m k).
Proof.
  intros Hm Hk s r s' H Hr. unfold bind in H.
  destruct (m s) as [[a| e |] s1] eqn:Em.
  - apply R_trans with s1; [apply (Hm _ _ _ Em) | apply (Hk a _ _ _ H Hr)].
  - inversion H; subst. apply (Hm _ _ _ Em).
  - inversion H; subst. apply (Hm _ _ _ Em).
Qed.

Lemma failing_set_user_data d : preserves_failing (set_user_data d).
Proof. intros s r s' H Hr. inversion H; subst. exfalso. apply (Hr tt). reflexivity. Qed.

Lemma failing_upload_video fuel video_path :
  preserves_failing (_upload_video E fuel video_path).
Proof.
  unfold _upload_video.
  apply failing_bind; [apply preserves_print | intros _].
  apply failing_bind; [apply preserves_genai_upload_file | intros f].
  apply failing_bind; [apply preserves_print | intros _].
  apply failing_bind; [apply preserves_wait_processing | intros f'].
  destruct (str_eqb _ _).
  - apply failing_of_preserves, preserves_raise.
  - apply failing_bind; [apply preserves_print | intros _].
    apply failing_bind; [apply preserves_get | intros d].
    apply failing_set_user_data.
Qed.

Hypothesis R_set_user_data : forall d s, R s (snd (set_user_data d s)).

Lemma preserves_set_user_data d : preserves (set_user_data d).
Proof. intros s r s' H. inversion H. apply (R_set_user_data d s). Qed.

Lemma preserves_upload_video fuel video_path :
  preserves (_upload_video E fuel video_path).
Proof.
  unfold _upload_video.
  apply preserves_bind; [apply preserves_print | intros _].
  apply preserves_bind; [apply preserves_genai_upload_file | intros f].
  apply preserves_bind; [apply preserves_print | intros _].
  apply preserves_bind; [apply preserves_wait_processing | intros f'].
  destruct (str_eqb _ _).
  - apply preserves_raise.
  - apply preserves_bind; [apply preserves_print | intros _].
    apply preserves_bind; [apply preserves_get | intros d].
    apply preserves_set_user_data.
Qed.

Lemma preserves_upload_one fuel path : preserves (upload_one E fuel path).
Proof.
  unfold upload_one. destruct (supported (mkPath path)).
  - intros s r s' H.
    destruct (upload_file E (Path_str (mkPath path)) (remote s)) as [[msg|f] w].
    + apply R_trans with (called (CallUpload (Path_str (mkPath path))) w 0 s);
        [apply R_upload | apply (preserves_print H)].
    + apply R_trans with (called (CallUpload (Path_str (mkPath path))) w 0 s);
        [apply R_upload | apply (preserves_set_user_data H)].
  - destruct (is_video (mkPath path)); [apply preserves_upload_video | apply preserves_ret].
Qed.

Lemma preserves_upload_user_media fuel media_paths :
  preserves (upload_user_media E fuel media_paths).
Proof. apply preserves_for_each. intros path. apply preserves_upload_one. Qed.

End Preserve.

Lemma for_each_app {W A} (xs ys : list A) (body : A -> M (W := W) unit) (s : state W) :
  for_each (xs ++ ys) body s
  = match for_each xs body s with
    | (Return _, s') => for_each ys body s'
    | (Raise e, s') => (Raise e, s')
    | (Running, s') => (Running, s')
    end.
Proof.
  revert s. induction xs as [|x xs IH]; intros s; simpl; [reflexivity|].
  unfold bind. destruct (body x s) as [[[]| e |] s1]; [apply IH | reflexivity | reflexivity].
Qed.

(** A method that does not return leaves the user's media as they were. *)
Lemma upload_video_failing_user_data {W} (E : Collab W) fuel video_path
    (s s' : state W) r :
  _upload_video E fuel video_path s = (r, s') -> (forall a, r <> Return a) ->
  user_data s' = user_data s.
Proof.
  apply (@failing_upload_video W E (fun s s' => user_data s' = user_data s));
    try reflexivity; intros; simpl; congruence.
Qed.

(** ** The user's media along a run *)

Lemma upload_one_step {W} (E : Collab W) (fuel : nat) (path : str) (s : state W) :
  supported (mkPath path) = true \/ is_video (mkPath path) = false ->
  exists s', upload_one E fuel path s = (Return tt, s') /\
    (supported (mkPath path) = false -> s' = s) /\
    (supported (mkPath path) = true ->
     remote s' = snd (upload_file E (Path_str (mkPath path)) (remote s)) /\
     user_data s'
     = match fst (upload_file E (Path_str (mkPath path)) (remote s)) with
       | inr f => dict_set (user_data s) (Path_name (mkPath path)) f
       | inl _ => user_data s
       end /\
     stdout s' = stdout s ++
                 match fst (upload_file E (Path_str (mkPath path)) (remote s)) with
                 | inl msg => [py "Error loading user media "
                               ++ Path_name (mkPath path) ++ py ": " ++ msg]
                 | inr _ => []
                 end).
Proof.
  intros Hplain. unfold upload_one. destruct (supported (mkPath path)) eqn:Hsup.
  - destruct (upload_file E (Path_str (mkPath path)) (remote s)) as [[msg|f] w]; simpl;
      eexists; (split; [reflexivity|]); (split; [discriminate|]); intros _; simpl;
      rewrite ?List.app_nil_r; auto.
  - destruct Hplain as [H|H]; [discriminate|]. rewrite H.
    exists s. split; [reflexivity|]. split; [auto | discriminate].
Qed.

Section Media.

Context {W : Type} (E : Collab W).

(** [_upload_video] waits for the handle, then fails or stores it. *)
Lemma upload_video_awaited (fuel : nat) (video_path : str) (s : state W) :
  _upload_video E fuel video_path s
  = match awaited E fuel video_path s with
    | (Return video_file, s1) =>
        if str_eqb (state_name (file_state video_file)) (py "FAILED") then
          (Raise (ValueError (state_name (file_state video_file))), s1)
        else
          (Return tt,
           snd (set_user_data
                  (dict_set (user_data s1) (Path_name (mkPath video_path)) video_file)
                  (snd (print (py "Video processing complete: " ++ file_uri video_file)
                          s1))))
    | (Raise e, s1) => (Raise e, s1)
    | (Running, s1) => (Running, s1)
    end.
Proof.
  unfold _upload_video, awaited, bind, print, genai_upload_file. cbn [fst snd remote].
  destruct (upload_file E video_path (remote s)) as [[msg|f] w]; [reflexivity|].
  match goal with
  | |- context [wait_processing E fuel f ?s0] =>
      destruct (wait_processing E fuel f s0) as [[f'| e |] s1]; try reflexivity
  end.
  destruct (str_eqb (state_name (file_state f')) (py "FAILED")); reflexivity.
Qed.

Lemma awaited_user_data (fuel : nat) (video_path : str) (s s1 : state W) r :
  awaited E fuel video_path s = (r, s1) -> user_data s1 = user_data s.
Proof.
  assert (H : preserves (fun s s' : state W => user_data s' = user_data s)
                (awaited E fuel video_path)).
  { unfold awaited.
    apply preserves_bind; try (intros; congruence).
    { apply preserves_print; intros; reflexivity. }
    intros _. apply preserves_bind; try (intros; congruence).
    { apply preserves_genai_upload_file; intros; reflexivity. }
    intros f. apply preserves_bind; try (intros; congruence).
    { apply preserves_print; intros; reflexivity. }
    intros _. apply preserves_wait_processing; try reflexivity; intros; congruence. }
  apply H.
Qed.

(** The lines of the loop are lines on the progress of the video. *)
Lemma wait_processing_lines (fuel : nat) (f : File) (s s1 : state W) r :
  wait_processing E fuel f s = (r, s1) ->
  exists lines, stdout s1 = stdout s ++ lines /\ forallb video_line lines = true.
Proof.
  revert f s. induction fuel as [|fuel IH]; intros f s; cbn [wait_processing];
    destruct (str_eqb (state_name (file_state f)) (py "PROCESSING"));
    try (intros H; inversion H; subst; exists []; rewrite List.app_nil_r;
         split; reflexivity).
  unfold bind, print, time_sleep, genai_get_file. cbn [fst snd remote called].
  destruct (get_file E (file_name f) _) as [[msg|f1] w].
  - intros H. inversion H; subst. cbn [stdout].
    exists [py "Waiting for video to be processed."]. split; reflexivity.
  - intros H. apply IH in H. destruct H as (lines & Hl & Hv).
    unfold called in Hl. cbn [stdout] in Hl.
    exists (py "Waiting for video to be processed." :: lines). split.
    + rewrite Hl, <- app_assoc. reflexivity.
    + cbn [forallb]. rewrite Hv. reflexivity.
Qed.

Lemma video_line_uri (label uri : str) :
  starts_with label (label ++ uri) = true.
Proof.
  induction label as [|c label IH]; [destruct uri; reflexivity|].
  cbn [app starts_with]. rewrite N.eqb_refl. exact IH.
Qed.

Lemma video_line_completed (uri : str) :
  video_line (py "Completed upload: " ++ uri) = true.
Proof.
  unfold video_line. rewrite (video_line_uri (py "Completed upload: ") uri).
  rewrite orb_true_r. reflexivity.
Qed.

Lemma video_line_complete (uri : str) :
  video_line (py "Video processing complete: " ++ uri) = true.
Proof.
  unfold video_line. rewrite (video_line_uri (py "Video processing complete: ") uri).
  rewrite !orb_true_r. reflexivity.
Qed.

Lemma awaited_lines (fuel : nat) (video_path : str) (s s1 : state W) r :
  awaited E fuel video_path s = (r, s1) ->
  exists lines, stdout s1 = stdout s ++ lines /\ forallb video_line lines = true.
Proof.
  unfold awaited, bind, print, genai_upload_file. cbn [fst snd remote].
  destruct (upload_file E video_path (remote s)) as [[msg|f] w].
  - intros H. inversion H; subst. cbn [stdout called].
    exists [py "Uploading video file..."]. split; reflexivity.
  - intros H. apply wait_processing_lines in H. destruct H as (lines & Hl & Hv).
    unfold called in Hl. cbn [stdout] in Hl.
    exists (py "Uploading video file..." :: (py "Completed upload: " ++ file_uri f)
            :: lines).
    split.
    + rewrite Hl, <- !app_assoc. reflexivity.
    + cbn [forallb]. rewrite Hv, video_line_completed. reflexivity.
Qed.

Lemma failure_line_plain (name msg : str) :
  video_line (py "Error loading user media " ++ name ++ py ": " ++ msg) = false.
Proof. reflexivity. Qed.

Lemma filter_video_lines (lines : list str) :
  forallb video_line lines = true ->
  filter (fun line => negb (video_line line)) lines = [].
Proof.
  induction lines as [|l lines IH]; [reflexivity|].
  cbn [forallb filter]. rewrite andb_true_iff. intros [Hl Hr].
  rewrite Hl. cbn [negb]. apply IH, Hr.
Qed.

Abbreviation set_all :=
  (fold_left (fun (d : dict File) kv => dict_set d (fst kv) (snd kv))).

(** The dictionary and the lines of a run of [upload_user_media], by the
    answers of the service. *)
Lemma upload_user_media_results (fuel : nat) (media_paths : list str) (s : state W) :
  let rs := media_results E fuel media_paths s in
  let s' := snd (upload_user_media E fuel media_paths s) in
  user_data s' = set_all (successes rs) (user_data s) /\
  exists lines,
    stdout s' = stdout s ++ lines /\
    filter (fun line => negb (video_line line)) lines
    = failure_lines (py "Error loading user media ") rs.
Proof.
  revert s. induction media_paths as [|path rest IH]; intros s.
  - cbn. split; [reflexivity|]. exists []. rewrite List.app_nil_r. split; reflexivity.
  - cbn [media_results]. unfold upload_user_media. cbn [for_each]. unfold bind.
    fold (upload_user_media E fuel rest).
    destruct (supported (mkPath path)) eqn:Hsup.
    + destruct (@upload_one_step W E fuel path s (or_introl Hsup))
        as (s1 & Hrun & _ & Hyes).
      destruct (Hyes Hsup) as (_ & Hd & Ho).
      rewrite Hrun. cbn [fst snd].
      destruct (IH s1) as (Hd' & lines & Ho' & Hf).
      cbv zeta. split.
      * rewrite Hd', Hd. unfold successes. cbn [flat_map fst snd].
        destruct (fst (upload_file E (Path_str (mkPath path)) (remote s)));
          reflexivity.
      * destruct (fst (upload_file E (Path_str (mkPath path)) (remote s)))
          as [msg|f] eqn:Hu.
        -- exists ((py "Error loading user media " ++ Path_name (mkPath path)
                    ++ py ": " ++ msg) :: lines).
           split; [rewrite Ho', Ho, <- app_assoc; reflexivity|].
           cbn [filter]. rewrite failure_line_plain. cbn [negb].
           unfold failure_lines. cbn [flat_map fst snd app].
           f_equal. exact Hf.
        -- exists lines. split; [rewrite Ho', Ho, List.app_nil_r; reflexivity|].
           exact Hf.
    + destruct (is_video (mkPath path)) eqn:Hvid.
      * assert (Hone : upload_one E fuel path s
                       = _upload_video E fuel (Path_str (mkPath path)) s).
        { unfold upload_one. rewrite Hsup, Hvid. reflexivity. }
        rewrite Hone, upload_video_awaited.
        destruct (awaited E fuel (Path_str (mkPath path)) s) as [[f| e |] s1] eqn:Ha;
          pose proof (awaited_user_data _ _ _ Ha) as Hd;
          destruct (awaited_lines _ _ _ Ha) as (lines1 & Ho & Hv);
          cbn [fst snd].
        -- destruct (str_eqb (state_name (file_state f)) (py "FAILED")).
           ++ cbn [fst snd]. split; [exact Hd|].
              exists lines1. split; [exact Ho | apply filter_video_lines, Hv].
           ++ cbn [fst snd].
              match goal with
              | |- context [upload_user_media E fuel rest ?s2] =>
                  destruct (IH s2) as (Hd' & lines & Ho' & Hf)
              end.
              cbv zeta. split.
              ** rewrite Hd'. unfold successes. cbn [flat_map fst snd app fold_left].
                 cbn [user_data set_user_data print snd]. rewrite Hd. reflexivity.
              ** exists (lines1 ++ (py "Video processing complete: " ++ file_uri f)
                         :: lines).
                 split.
                 --- rewrite Ho'. cbn [stdout set_user_data print snd].
                     rewrite Ho, <- !app_assoc. reflexivity.
                 --- rewrite filter_app, (filter_video_lines _ Hv). cbn [app filter].
                     rewrite video_line_complete. cbn [negb].
                     unfold failure_lines in *. cbn [flat_map fst snd app]. exact Hf.
        -- split; [exact Hd|].
           exists lines1. split; [exact Ho | apply filter_video_lines, Hv].
        -- split; [exact Hd|].
           exists lines1. split; [exact Ho | apply filter_video_lines, Hv].
      * assert (Hone : upload_one E fuel path s = (Return tt, s)).
        { unfold upload_one. rewrite Hsup, Hvid. reflexivity. }
        rewrite Hone. cbn [fst snd]. apply IH.
Qed.

(** Without a video among the media, the run returns, and prints nothing
    but the lines of the uploads that failed. *)
Lemma upload_user_media_plain (fuel : nat) (media_paths : list str) (s : state W) :
  Forall (fun path => supported (mkPath path) = true \/ is_video (mkPath path) = false)
    media_paths ->
  fst (upload_user_media E fuel media_paths s) = Return tt /\
  stdout (snd (upload_user_media E fuel media_paths s))
  = stdout s ++ failure_lines (py "Error loading user media ")
                  (media_results E fuel media_paths s).
Proof.
  revert s. induction media_paths as [|path rest IH]; intros s Hplain.
  - cbn. rewrite List.app_nil_r. split; reflexivity.
  - inversion Hplain as [|? ? Hp Hrest]; subst.
    cbn [media_results]. unfold upload_user_media. cbn [for_each]. unfold bind.
    fold (upload_user_media E fuel rest).
    destruct (@upload_one_step W E fuel path s Hp) as (s1 & Hrun & Hno & Hyes).
    rewrite Hrun. cbn [fst snd].
    destruct (IH s1 Hrest) as (Hr & Ho).
    split; [exact Hr|].
    destruct (supported (mkPath path)) eqn:Hsup.
    + destruct (Hyes eq_refl) as (_ & _ & Ho1).
      rewrite Ho, Ho1. unfold failure_lines. cbn [flat_map fst snd].
      destruct (fst (upload_file E (Path_str (mkPath path)) (remote s)));
        rewrite <- ?app_assoc; cbn [app]; rewrite ?List.app_nil_r; reflexivity.
    + destruct Hp as [Hp|Hp]; [discriminate|]. rewrite Hp.
      assert (Hs : s1 = s) by (apply Hno; reflexivity). subst s1. exact Ho.
Qed.

End Media.

(** ** The decoder always answers *)

Lemma skip_ws_le (s : str) : (List.length (skip_ws s) <= List.length s)%nat.
Proof.
  induction s as [|c s IH]; simpl; [lia|]. destruct (is_ws c); simpl; lia.
Qed.

Lemma take_digits_le (s ds r : str) :
  take_digits s = (ds, r) -> (List.length r <= List.length s)%nat.
Proof.
  revert ds r. induction s as [|c s IH]; intros ds r; simpl.
  - intros H; inversion H; simpl; lia.
  - destruct (is_digit c).
    + destruct (take_digits s) as [ds' r'] eqn:E. intros H; inversion H; subst.
      specialize (IH _ _ eq_refl). lia.
    + intros H; inversion H; subst. simpl. lia.
Qed.

Lemma add_char_Some c r x rest :
  add_char c r = Some (x, rest) ->
  exists x', r = Some (x', rest) /\ x = c :: x'.
Proof.
  destruct r as [[x' rest']|]; simpl; [| discriminate].
  intros H; inversion H; subst. eauto.
Qed.

Ltac break_match_hyp H :=
  match type of H with
  | context [match ?x with _ => _ end] => destruct x eqn:?
  | context [if ?x then _ else _] => destruct x eqn:?
  end.

Lemma scanstring_shorter_aux (n : nat) :
  forall s x r, (List.length s <= n)%nat ->
    scanstring s = Some (x, r) -> (List.length r < List.length s)%nat.
Proof.
  induction n as [|n IH]; intros s x r Hlen H.
  - destruct s; [discriminate | simpl in Hlen; lia].
  - destruct s as [|c s1]; [discriminate|]. simpl in H. simpl in Hlen.
    repeat (break_match_hyp H; try discriminate; subst);
      try (inversion H; subst; simpl; lia);
      apply add_char_Some in H; destruct H as (x' & H & _);
      apply IH in H; simpl in *; lia.
Qed.

Lemma scanstring_shorter s x r :
  scanstring s = Some (x, r) -> (List.length r < List.length s)%nat.
Proof. apply (scanstring_shorter_aux (n := List.length s)). lia. Qed.

Lemma starts_with_skipn (p s : str) :
  starts_with p s = true ->
  (List.length (skipn (List.length p) s) + List.length p = List.length s)%nat.
Proof.
  revert s. induction p as [|a p IH]; intros s; simpl.
  - intros _. lia.
  - destruct s as [|c s]; [discriminate|].
    rewrite andb_true_iff. intros [_ H]. simpl. specialize (IH s H). lia.
Qed.

Lemma match_integer_shorter s i r :
  match_integer s = Some (i, r) -> (List.length r < List.length s)%nat.
Proof.
  unfold match_integer.
  destruct s as [|c s']; [discriminate|].
  destruct (N.eqb c 45).
  - destruct s' as [|d s2]; [discriminate|].
    destruct (N.eqb d 48); [intros H; inversion H; simpl; lia|].
    destruct (is_digit d); [| discriminate].
    destruct (take_digits s2) as [ds r'] eqn:E. intros H; inversion H; subst.
    apply take_digits_le in E. simpl. lia.
  - destruct (N.eqb c 48); [intros H; inversion H; simpl; lia|].
    destruct (is_digit c); [| discriminate].
    destruct (take_digits s') as [ds r'] eqn:E. intros H; inversion H; subst.
    apply take_digits_le in E. simpl. lia.
Qed.

Lemma match_frac_le s f r :
  match_frac s = (f, r) -> (List.length r <= List.length s)%nat.
Proof.
  unfold match_frac. destruct s as [|p [|d s']]; try (intros H; inversion H; simpl; lia).
  destruct (N.eqb p 46 && is_digit d); [| intros H; inversion H; simpl; lia].
  destruct (take_digits s') as [ds r'] eqn:E. intros H; inversion H; subst.
  apply take_digits_le in E. simpl. lia.
Qed.

Lemma match_exp_le s e r :
  match_exp s = (e, r) -> (List.length r <= List.length s)%nat.
Proof.
  unfold match_exp. destruct s as [|a [|sg s']]; try (intros H; inversion H; simpl; lia).
  destruct (N.eqb a 101 || N.eqb a 69); [| intros H; inversion H; simpl; lia].
  destruct (is_digit sg).
  - destruct (take_digits s') as [ds r'] eqn:E. intros H; inversion H; subst.
    apply take_digits_le in E. simpl. lia.
  - destruct (N.eqb sg 43 || N.eqb sg 45); [| intros H; inversion H; simpl; lia].
    destruct s' as [|d s'']; [intros H; inversion H; simpl; lia|].
    destruct (is_digit d); [| intros H; inversion H; simpl; lia].
    destruct (take_digits s'') as [ds r'] eqn:E. intros H; inversion H; subst.
    apply take_digits_le in E. simpl. lia.
Qed.

Lemma scan_atom_shorter s v r :
  scan_atom s = Scanned v r -> (List.length r < List.length s)%nat.
Proof.
  unfold scan_atom.
  destruct (starts_with (py "null") s) eqn:E1.
  { intros H; inversion H; subst. apply starts_with_skipn in E1. simpl in E1. lia. }
  destruct (starts_with (py "true") s) eqn:E2.
  { intros H; inversion H; subst. apply starts_with_skipn in E2. simpl in E2. lia. }
  destruct (starts_with (py "false") s) eqn:E3.
  { intros H; inversion H; subst. apply starts_with_skipn in E3. simpl in E3. lia. }
  destruct (match_integer s) as [[i r0]|] eqn:Ei.
  - destruct (match_frac r0) as [f r1] eqn:Ef.
    destruct (match_exp r1) as [e r2] eqn:Ee.
    apply match_integer_shorter in Ei. apply match_frac_le in Ef.
    apply match_exp_le in Ee.
    destruct f; destruct e; intros H; inversion H; subst; lia.
  - destruct (starts_with (py "NaN") s) eqn:E4.
    { intros H; inversion H; subst. apply starts_with_skipn in E4. simpl in E4. lia. }
    destruct (starts_with (py "Infinity") s) eqn:E5.
    { intros H; inversion H; subst. apply starts_with_skipn in E5. simpl in E5. lia. }
    destruct (starts_with (py "-Infinity") s) eqn:E6.
    { intros H; inversion H; subst. apply starts_with_skipn in E6. simpl in E6. lia. }
    discriminate.
Qed.

Lemma skip_ws_cons_le s c r :
  skip_ws s = c :: r -> (S (List.length r) <= List.length s)%nat.
Proof. intros H. pose proof (skip_ws_le s) as L. rewrite H in L. exact L. Qed.

(** A scan consumes at least one character. *)
Lemma scan_shorter (fuel : nat) :
  (forall s v r, parse_value fuel s = Scanned v r -> (List.length r < List.length s)%nat) /\
  (forall s vs r, parse_items fuel s = Scanned vs r -> (List.length r < List.length s)%nat) /\
  (forall s ps r, parse_members fuel s = Scanned ps r -> (List.length r < List.length s)%nat).
Proof.
  induction fuel as [|fuel (IHv & IHa & IHo)].
  - repeat split; intros; discriminate.
  - repeat split.
    + intros s v r H. simpl in H.
      destruct s as [|c s1]; [discriminate|].
      destruct (N.eqb c 34).
      { destruct (scanstring s1) as [[x r']|] eqn:E; [| discriminate].
        inversion H; subst. apply scanstring_shorter in E. simpl. lia. }
      destruct (N.eqb c 123).
      { destruct (skip_ws s1) as [|c1 r1] eqn:E; [discriminate|].
        apply skip_ws_cons_le in E.
        destruct (N.eqb c1 125); [inversion H; subst; simpl; lia|].
        destruct (N.eqb c1 34); [| discriminate].
        destruct (parse_members fuel r1) as [ps r'| |] eqn:Eo; try discriminate.
        inversion H; subst. apply IHo in Eo. simpl. lia. }
      destruct (N.eqb c 91).
      { destruct (skip_ws s1) as [|c1 r1] eqn:E; [discriminate|].
        apply skip_ws_cons_le in E.
        destruct (N.eqb c1 93); [inversion H; subst; simpl; lia|].
        destruct (parse_items fuel (c1 :: r1)) as [vs r'| |] eqn:Ea; try discriminate.
        inversion H; subst. apply IHa in Ea. simpl in *. lia. }
      apply scan_atom_shorter in H. exact H.
    + intros s vs r H. simpl in H.
      destruct (parse_value fuel s) as [v r0| |] eqn:Ev; try discriminate.
      apply IHv in Ev.
      destruct (skip_ws r0) as [|c r1] eqn:E; [discriminate|].
      apply skip_ws_cons_le in E.
      destruct (N.eqb c 93); [inversion H; subst; lia|].
      destruct (N.eqb c 44); [| discriminate].
      destruct (parse_items fuel (skip_ws r1)) as [vs' r2| |] eqn:Ea; try discriminate.
      inversion H; subst. apply IHa in Ea. pose proof (skip_ws_le r1). lia.
    + intros s ps r H. simpl in H.
      destruct (scanstring s) as [[key r0]|] eqn:Ek; [| discriminate].
      apply scanstring_shorter in Ek.
      destruct (skip_ws r0) as [|c r1] eqn:E1; [discriminate|].
      apply skip_ws_cons_le in E1.
      destruct (N.eqb c 58); [| discriminate].
      destruct (parse_value fuel (skip_ws r1)) as [v r2| |] eqn:Ev; try discriminate.
      apply IHv in Ev. pose proof (skip_ws_le r1).
      destruct (skip_ws r2) as [|c2 r3] eqn:E2; [discriminate|].
      apply skip_ws_cons_le in E2.
      destruct (N.eqb c2 125); [inversion H; subst; lia|].
      destruct (N.eqb c2 44); [| discriminate].
      destruct (skip_ws r3) as [|q r4] eqn:E3; [discriminate|].
      apply skip_ws_cons_le in E3.
      destruct (N.eqb q 34); [| discriminate].
      destruct (parse_members fuel r4) as [ps' r5| |] eqn:Eo; try discriminate.
      inversion H; subst. apply IHo in Eo. lia.
Qed.

(** Twice the length of the text, and two, are steps enough. *)
Lemma scan_enough_fuel (fuel : nat) :
  (forall s, (2 * List.length s + 1 <= fuel)%nat -> parse_value fuel s <> OutOfFuel) /\
  (forall s, (2 * List.length s + 2 <= fuel)%nat -> parse_items fuel s <> OutOfFuel) /\
  (forall s, (2 * List.length s + 2 <= fuel)%nat -> parse_members fuel s <> OutOfFuel).
Proof.
  induction fuel as [|fuel (IHv & IHa & IHo)].
  - repeat split; intros; lia.
  - repeat split.
    + intros s Hf. simpl.
      destruct s as [|c s1]; [discriminate|]. simpl in Hf.
      destruct (N.eqb c 34).
      { destruct (scanstring s1) as [[x r']|]; discriminate. }
      destruct (N.eqb c 123).
      { destruct (skip_ws s1) as [|c1 r1] eqn:E; [discriminate|].
        apply skip_ws_cons_le in E.
        destruct (N.eqb c1 125); [discriminate|].
        destruct (N.eqb c1 34); [| discriminate].
        specialize (IHo r1). destruct (parse_members fuel r1); try discriminate.
        exfalso. apply IHo; [lia | reflexivity]. }
      destruct (N.eqb c 91).
      { destruct (skip_ws s1) as [|c1 r1] eqn:E; [discriminate|].
        apply skip_ws_cons_le in E.
        destruct (N.eqb c1 93); [discriminate|].
        specialize (IHa (c1 :: r1)).
        destruct (parse_items fuel (c1 :: r1)); try discriminate.
        exfalso. apply IHa; [simpl; lia | reflexivity]. }
      unfold scan_atom.
      repeat match goal with
             | |- context [if ?b then _ else _] => destruct b
             | |- context [match ?x with _ => _ end] => destruct x
             end; discriminate.
    + intros s Hf. simpl.
      pose proof (IHv s) as Hv. pose proof (proj1 (scan_shorter fuel) s) as Hs.
      destruct (parse_value fuel s) as [v r0| |]; [| discriminate | exfalso; apply Hv; [lia | reflexivity]].
      specialize (Hs _ _ eq_refl).
      destruct (skip_ws r0) as [|c r1] eqn:E; [discriminate|].
      apply skip_ws_cons_le in E.
      destruct (N.eqb c 93); [discriminate|].
      destruct (N.eqb c 44); [| discriminate].
      pose proof (IHa (skip_ws r1)) as Ha. pose proof (skip_ws_le r1).
      destruct (parse_items fuel (skip_ws r1)); try discriminate.
      exfalso. apply Ha; [lia | reflexivity].
    + intros s Hf. simpl.
      destruct (scanstring s) as [[key r0]|] eqn:Ek; [| discriminate].
      apply scanstring_shorter in Ek.
      destruct (skip_ws r0) as [|c r1] eqn:E1; [discriminate|].
      apply skip_ws_cons_le in E1.
      destruct (N.eqb c 58); [| discriminate].
      pose proof (IHv (skip_ws r1)) as Hv. pose proof (skip_ws_le r1).
      pose proof (proj1 (scan_shorter fuel) (skip_ws r1)) as Hs.
      destruct (parse_value fuel (skip_ws r1)) as [v r2| |];
        [| discriminate | exfalso; apply Hv; [lia | reflexivity]].
      specialize (Hs _ _ eq_refl).
      destruct (skip_ws r2) as [|c2 r3] eqn:E2; [discriminate|].
      apply skip_ws_cons_le in E2.
      destruct (N.eqb c2 125); [discriminate|].
      destruct (N.eqb c2 44); [| discriminate].
      destruct (skip_ws r3) as [|q r4] eqn:E3; [discriminate|].
      apply skip_ws_cons_le in E3.
      destruct (N.eqb q 34); [| discriminate].
      pose proof (IHo r4) as Ho.
      destruct (parse_members fuel r4); try discriminate.
      exfalso. apply Ho; [lia | reflexivity].
Qed.

Lemma parse_text_total (s : str) : parse_text s <> OutOfFuel.
Proof.
  unfold parse_text.
  pose proof (proj1 (scan_enough_fuel (fuel_for s)) (skip_ws s)) as H.
  pose proof (skip_ws_le s).
  destruct (parse_value (fuel_for s) (skip_ws s)) as [v r| |].
  - destruct (skip_ws r); discriminate.
  - discriminate.
  - exfalso. apply H; [unfold fuel_for; lia | reflexivity].
Qed.

(** ** Strings survive encoding and decoding *)

Lemma hexval_hexdigit (d : N) : (d < 16)%N -> hexval (hexdigit d) = Some d.
Proof.
  intros H.
  assert (E : In d [0; 1; 2; 3; 4; 5; 6; 7; 8; 9; 10; 11; 12; 13; 14; 15]%N).
  { simpl. lia. }
  simpl in E. repeat (destruct E as [<- | E]; [reflexivity|]). destruct E.
Qed.

Lemma hexval4_hex4 (n : N) :
  (n < 0x10000)%N ->
  match hex4 n with
  | [a; b; c; d] => hexval4 a b c d = Some n
  | _ => False
  end.
Proof.
  intros H. unfold hex4, hexval4.
  rewrite !hexval_hexdigit by (apply N.mod_upper_bound; discriminate).
  f_equal.
  pose proof (N.div_mod n 4096 ltac:(discriminate)).
  pose proof (N.div_mod (n mod 4096) 256 ltac:(discriminate)).
  pose proof (N.div_mod (n mod 256) 16 ltac:(discriminate)).
  assert (n / 4096 < 16)%N by (apply N.Div0.div_lt_upper_bound; lia).
  rewrite (N.mod_small (n / 4096) 16) by assumption.
  assert (E1 : (n / 256 mod 16 = n mod 4096 / 256)%N).
  { change 4096%N with (256 * 16)%N. rewrite N.Div0.mod_mul_r.
    rewrite N.mul_comm, N.div_add by discriminate.
    rewrite (N.div_small (n mod 256) 256) by (apply N.mod_upper_bound; discriminate).
    reflexivity. }
  assert (E2 : (n / 16 mod 16 = n mod 256 / 16)%N).
  { change 256%N with (16 * 16)%N. rewrite N.Div0.mod_mul_r.
    rewrite N.mul_comm, N.div_add by discriminate.
    rewrite (N.div_small (n mod 16) 16) by (apply N.mod_upper_bound; discriminate).
    reflexivity. }
  assert (E3 : (n mod 16 = n mod 256 mod 16)%N).
  { change 256%N with (16 * 16)%N. rewrite N.Div0.mod_mul_r.
    rewrite N.mul_comm, N.Div0.mod_add, N.Div0.mod_mod. reflexivity. }
  assert (E4 : (n mod 256 = n mod 4096 mod 256)%N).
  { change 4096%N with (256 * 16)%N. rewrite N.Div0.mod_mul_r.
    rewrite N.mul_comm, N.Div0.mod_add, N.Div0.mod_mod. reflexivity. }
  rewrite E1, E2, E3. lia.
Qed.

Lemma lor_pow2_small (a x k : N) :
  (x < 2 ^ k)%N -> N.lor (a * 2 ^ k) x = (a * 2 ^ k + x)%N.
Proof.
  intros Hx.
  assert (Hland : N.land (a * 2 ^ k) x = 0%N).
  { apply N.bits_inj. intros i. rewrite N.land_spec, N.bits_0.
    destruct (N.lt_ge_cases i k) as [Hi|Hi].
    - rewrite N.mul_pow2_bits_low by assumption. reflexivity.
    - replace (N.testbit x i) with false; [apply andb_false_r|].
      symmetry. rewrite <- (N.mod_small x (2 ^ k)) by assumption.
      apply N.mod_pow2_bits_high. assumption. }
  rewrite <- N.lxor_lor by assumption.
  symmetry. apply N.add_nocarry_lxor. assumption.
Qed.

Lemma land_0x3ff (n : N) : N.land n 0x3ff = (n mod 2 ^ 10)%N.
Proof. change 0x3ff%N with (N.ones 10). apply N.land_ones. Qed.

(** The surrogate pair that the encoder writes for a character above the
    basic plane is the pair that the decoder joins back. *)
Lemma surrogate_pair (c : N) :
  (0x10000 <= c)%N -> (c < 0x110000)%N ->
  let n := (c - 0x10000)%N in
  let s1 := N.lor 0xd800 (N.land (N.shiftr n 10) 0x3ff) in
  let s2 := N.lor 0xdc00 (N.land n 0x3ff) in
  (s1 < 0x10000)%N /\ (s2 < 0x10000)%N /\
  is_high_surrogate s1 = true /\ is_low_surrogate s2 = true /\
  join_surrogates s1 s2 = c.
Proof.
  intros Hlo Hhi n s1 s2.
  assert (Hn : (n < 2 ^ 20)%N) by (change (2 ^ 20)%N with 1048576%N; unfold n; lia).
  assert (Hq : (n / 2 ^ 10 < 2 ^ 10)%N).
  { apply N.Div0.div_lt_upper_bound. exact Hn. }
  assert (Hr : (n mod 2 ^ 10 < 2 ^ 10)%N) by (apply N.mod_upper_bound; discriminate).
  assert (E1 : s1 = (0xd800 + n / 2 ^ 10)%N).
  { unfold s1. rewrite land_0x3ff, N.shiftr_div_pow2, N.mod_small by assumption.
    change 0xd800%N with (54 * 2 ^ 10)%N. apply lor_pow2_small. assumption. }
  assert (E2 : s2 = (0xdc00 + n mod 2 ^ 10)%N).
  { unfold s2. rewrite land_0x3ff.
    change 0xdc00%N with (55 * 2 ^ 10)%N. apply lor_pow2_small. assumption. }
  clearbody s1 s2. clear Hn. change (2 ^ 10)%N with 1024%N in *.
  pose proof (N.le_0_l (n / 1024)). pose proof (N.le_0_l (n mod 1024)).
  split; [lia|]. split; [lia|].
  split; [unfold is_high_surrogate; apply andb_true_iff; split; apply N.leb_le; lia|].
  split; [unfold is_low_surrogate; apply andb_true_iff; split; apply N.leb_le; lia|].
  unfold join_surrogates. rewrite E1, E2.
  replace (0xd800 + n / 1024 - 0xd800)%N with (n / 1024)%N by lia.
  replace (0xdc00 + n mod 1024 - 0xdc00)%N with (n mod 1024)%N by lia.
  rewrite N.shiftl_mul_pow2. change (2 ^ 10)%N with 1024%N.
  change 1024%N with (2 ^ 10)%N at 2. rewrite lor_pow2_small by (change (2 ^ 10)%N with 1024%N; lia).
  change (2 ^ 10)%N with 1024%N.
  pose proof (N.div_mod n 1024 ltac:(discriminate)). unfold n in *. lia.
Qed.

(** *** The equations of [scanstring] *)

Lemma scanstring_plain (c : N) (T : str) :
  N.eqb c 34 = false -> N.eqb c 92 = false -> (c <? 32)%N = false ->
  scanstring (c :: T) = add_char c (scanstring T).
Proof. intros H1 H2 H3. simpl. rewrite H1, H2, H3. reflexivity. Qed.

Lemma scanstring_short (esc ch : N) (T : str) :
  N.eqb esc 117 = false -> BACKSLASH esc = Some ch ->
  scanstring (92%N :: esc :: T) = add_char ch (scanstring T).
Proof. intros H1 H2. simpl. rewrite H1, H2. reflexivity. Qed.

Lemma scanstring_u (a b c d uni : N) (T : str) :
  hexval4 a b c d = Some uni -> is_high_surrogate uni = false ->
  scanstring (92%N :: 117%N :: a :: b :: c :: d :: T) = add_char uni (scanstring T).
Proof.
  intros H1 H2.
  change (scanstring (92%N :: 117%N :: a :: b :: c :: d :: T))
    with (match hexval4 a b c d with
          | None => None
          | Some uni =>
              if is_high_surrogate uni then
                match T with
                | bs :: u :: x1 :: x2 :: x3 :: x4 :: s4 =>
                    if N.eqb bs 92 && N.eqb u 117 then
                      match hexval4 x1 x2 x3 x4 with
                      | None => None
                      | Some uni2 =>
                          if is_low_surrogate uni2
                          then add_char (join_surrogates uni uni2) (scanstring s4)
                          else add_char uni (scanstring T)
                      end
                    else add_char uni (scanstring T)
                | _ => add_char uni (scanstring T)
                end
              else add_char uni (scanstring T)
          end).
  rewrite H1, H2. reflexivity.
Qed.

(** What may follow a lone high surrogate: no escape of a low surrogate. *)
Definition lookahead_ok (T : str) : Prop :=
  forall x1 x2 x3 x4 s4,
    T = 92%N :: 117%N :: x1 :: x2 :: x3 :: x4 :: s4 ->
    exists uni2, hexval4 x1 x2 x3 x4 = Some uni2 /\ is_low_surrogate uni2 = false.

Lemma scanstring_u_high (a b c d uni : N) (T : str) :
  hexval4 a b c d = Some uni -> is_high_surrogate uni = true -> lookahead_ok T ->
  scanstring (92%N :: 117%N :: a :: b :: c :: d :: T) = add_char uni (scanstring T).
Proof.
  intros H1 H2 Hl.
  change (scanstring (92%N :: 117%N :: a :: b :: c :: d :: T))
    with (match hexval4 a b c d with
          | None => None
          | Some uni =>
              if is_high_surrogate uni then
                match T with
                | bs :: u :: x1 :: x2 :: x3 :: x4 :: s4 =>
                    if N.eqb bs 92 && N.eqb u 117 then
                      match hexval4 x1 x2 x3 x4 with
                      | None => None
                      | Some uni2 =>
                          if is_low_surrogate uni2
                          then add_char (join_surrogates uni uni2) (scanstring s4)
                          else add_char uni (scanstring T)
                      end
                    else add_char uni (scanstring T)
                | _ => add_char uni (scanstring T)
                end
              else add_char uni (scanstring T)
          end).
  rewrite H1, H2.
  destruct T as [|bs [|u [|x1 [|x2 [|x3 [|x4 s4]]]]]]; try reflexivity.
  destruct (N.eqb bs 92) eqn:Eb; [| reflexivity].
  destruct (N.eqb u 117) eqn:Eu; [| reflexivity].
  apply N.eqb_eq in Eb, Eu. subst bs u.
  destruct (Hl x1 x2 x3 x4 s4 eq_refl) as (uni2 & Hh & Hlow).
  simpl andb. cbv iota. rewrite Hh, Hlow. reflexivity.
Qed.

Lemma scanstring_pair (a b c d uni x1 x2 x3 x4 uni2 : N) (T : str) :
  hexval4 a b c d = Some uni -> is_high_surrogate uni = true ->
  hexval4 x1 x2 x3 x4 = Some uni2 -> is_low_surrogate uni2 = true ->
  scanstring (92%N :: 117%N :: a :: b :: c :: d
              :: 92%N :: 117%N :: x1 :: x2 :: x3 :: x4 :: T)
  = add_char (join_surrogates uni uni2) (scanstring T).
Proof.
  intros H1 H2 H3 H4.
  change (scanstring (92%N :: 117%N :: a :: b :: c :: d
                      :: 92%N :: 117%N :: x1 :: x2 :: x3 :: x4 :: T))
    with (match hexval4 a b c d with
          | None => None
          | Some uni =>
              if is_high_surrogate uni then
                match hexval4 x1 x2 x3 x4 with
                | None => None
                | Some uni2 =>
                    if is_low_surrogate uni2
                    then add_char (join_surrogates uni uni2) (scanstring T)
                    else add_char uni
                           (scanstring (92%N :: 117%N :: x1 :: x2 :: x3 :: x4 :: T))
                end
              else add_char uni
                     (scanstring (92%N :: 117%N :: x1 :: x2 :: x3 :: x4 :: T))
          end).
  rewrite H1, H2, H3, H4. reflexivity.
Qed.

Lemma high_not_low (c : N) : is_high_surrogate c = true -> is_low_surrogate c = false.
Proof.
  unfold is_high_surrogate, is_low_surrogate.
  rewrite andb_true_iff, !N.leb_le. intros [H1 H2].
  apply andb_false_iff. left. apply N.leb_gt. lia.
Qed.

Lemma quote_lookahead (rest : str) : lookahead_ok (34%N :: rest).
Proof. intros x1 x2 x3 x4 s4 H. discriminate. Qed.

Lemma hex4_lookahead (n : N) (T : str) :
  (n < 0x10000)%N -> is_low_surrogate n = false ->
  lookahead_ok (92%N :: 117%N :: hex4 n ++ T).
Proof.
  intros Hn Hlow x1 x2 x3 x4 s4. pose proof (@hexval4_hex4 n Hn) as Hh.
  destruct (hex4 n) as [|a [|b [|c [|d [|e l]]]]]; try contradiction.
  cbn [app]. intros H. inversion H; subst.
  exists n. split; assumption.
Qed.

Lemma escape_lookahead (c : N) (T : str) :
  (c < 0x110000)%N -> is_low_surrogate c = false -> lookahead_ok (escape_char c ++ T).
Proof.
  intros Hc Hlow. unfold escape_char.
  destruct (N.eqb c 34); [intros x1 x2 x3 x4 s4; discriminate|].
  destruct (N.eqb c 92) eqn:E92; [intros x1 x2 x3 x4 s4; discriminate|].
  destruct (N.eqb c 10); [intros x1 x2 x3 x4 s4; discriminate|].
  destruct (N.eqb c 13); [intros x1 x2 x3 x4 s4; discriminate|].
  destruct (N.eqb c 9); [intros x1 x2 x3 x4 s4; discriminate|].
  destruct (N.eqb c 12); [intros x1 x2 x3 x4 s4; discriminate|].
  destruct (N.eqb c 8); [intros x1 x2 x3 x4 s4; discriminate|].
  destruct ((32 <=? c) && (c <=? 126))%N eqn:Ep.
  { intros x1 x2 x3 x4 s4 H. inversion H; subst. discriminate E92. }
  destruct (c <? 0x10000)%N eqn:Eb.
  - apply N.ltb_lt in Eb. apply (@hex4_lookahead c T Eb Hlow).
  - apply N.ltb_ge in Eb.
    destruct (@surrogate_pair c Eb Hc) as (H1 & _ & Hhigh & _ & _).
    cbv zeta in H1, Hhigh |- *.
    change (lookahead_ok
              (92%N :: 117%N
               :: hex4 (N.lor 55296 (N.land (N.shiftr (c - 65536) 10) 1023))
               ++ (92%N :: 117%N :: hex4 (N.lor 56320 (N.land (c - 65536) 1023)))
               ++ T)).
    apply (@hex4_lookahead _ _ H1 (@high_not_low _ Hhigh)).
Qed.

Lemma scanstring_escape_char (c : N) (T : str) :
  (c < 0x110000)%N -> (is_high_surrogate c = true -> lookahead_ok T) ->
  scanstring (escape_char c ++ T) = add_char c (scanstring T).
Proof.
  intros Hc Hl. unfold escape_char.
  destruct (N.eqb c 34) eqn:E34; [apply N.eqb_eq in E34; subst; reflexivity|].
  destruct (N.eqb c 92) eqn:E92; [apply N.eqb_eq in E92; subst; reflexivity|].
  destruct (N.eqb c 10) eqn:E10; [apply N.eqb_eq in E10; subst; reflexivity|].
  destruct (N.eqb c 13) eqn:E13; [apply N.eqb_eq in E13; subst; reflexivity|].
  destruct (N.eqb c 9) eqn:E9; [apply N.eqb_eq in E9; subst; reflexivity|].
  destruct (N.eqb c 12) eqn:E12; [apply N.eqb_eq in E12; subst; reflexivity|].
  destruct (N.eqb c 8) eqn:E8; [apply N.eqb_eq in E8; subst; reflexivity|].
  destruct ((32 <=? c) && (c <=? 126))%N eqn:Ep.
  { apply andb_true_iff in Ep. destruct Ep as [Ep _]. apply N.leb_le in Ep.
    apply scanstring_plain; try assumption. apply N.ltb_ge. assumption. }
  destruct (c <? 0x10000)%N eqn:Eb.
  - apply N.ltb_lt in Eb. pose proof (@hexval4_hex4 c Eb) as Hh.
    unfold hex4 in *. cbn [app].
    destruct (is_high_surrogate c) eqn:Eh.
    + apply scanstring_u_high; auto.
    + apply scanstring_u; assumption.
  - apply N.ltb_ge in Eb.
    destruct (@surrogate_pair c Eb Hc) as (H1 & H2 & Hhigh & Hlow & Hjoin).
    cbv zeta. cbv zeta in H1, H2, Hhigh, Hlow, Hjoin.
    pose proof (@hexval4_hex4 _ H1) as Hh1. pose proof (@hexval4_hex4 _ H2) as Hh2.
    unfold hex4 in *. cbn [app].
    rewrite (@scanstring_pair _ _ _ _ _ _ _ _ _ _ T Hh1 Hhigh Hh2 Hlow), Hjoin.
    reflexivity.
Qed.

(** The decoder reads back the string that the encoder wrote. *)
Lemma scanstring_escaped (s rest : str) :
  str_ok s = true ->
  scanstring (flat_map escape_char s ++ 34%N :: rest) = Some (s, rest).
Proof.
  induction s as [|c s IH]; intros Hok.
  - reflexivity.
  - cbn [str_ok] in Hok. apply andb_true_iff in Hok. destruct Hok as [Hok Hs].
    apply andb_true_iff in Hok. destruct Hok as [Hc Hpair].
    apply N.ltb_lt in Hc. apply negb_true_iff in Hpair.
    cbn [flat_map]. rewrite <- app_assoc.
    rewrite scanstring_escape_char; [rewrite (IH Hs); reflexivity | assumption |].
    intros Hhigh. rewrite Hhigh in Hpair. simpl in Hpair.
    destruct s as [|c' s'].
    + apply quote_lookahead.
    + cbn [flat_map]. rewrite <- app_assoc. apply escape_lookahead; [| assumption].
      cbn [str_ok] in Hs. apply andb_true_iff in Hs. destruct Hs as [Hs _].
      apply andb_true_iff in Hs. destruct Hs as [Hc' _]. apply N.ltb_lt. assumption.
Qed.

(** ** More steps do not change an answer *)

Lemma scan_mono (fuel : nat) :
  (forall s res, parse_value fuel s = res -> res <> OutOfFuel ->
     forall fuel', (fuel <= fuel')%nat -> parse_value fuel' s = res) /\
  (forall s res, parse_items fuel s = res -> res <> OutOfFuel ->
     forall fuel', (fuel <= fuel')%nat -> parse_items fuel' s = res) /\
  (forall s res, parse_members fuel s = res -> res <> OutOfFuel ->
     forall fuel', (fuel <= fuel')%nat -> parse_members fuel' s = res).
Proof.
  induction fuel as [|fuel (IHv & IHa & IHo)].
  - repeat split; intros s res H Hne; simpl in H; subst res; congruence.
  - repeat split; intros s res H Hne fuel' Hle;
      (destruct fuel' as [|fuel'']; [lia|]);
      assert (Hle' : (fuel <= fuel'')%nat) by lia;
      simpl in H |- *.
    + destruct s as [|c s1]; [exact H|].
      destruct (N.eqb c 34); [exact H|].
      destruct (N.eqb c 123).
      { destruct (skip_ws s1) as [|c1 r1]; [exact H|].
        destruct (N.eqb c1 125); [exact H|].
        destruct (N.eqb c1 34); [| exact H].
        destruct (parse_members fuel r1) as [ps r| |] eqn:Eo.
        - rewrite (IHo _ _ Eo ltac:(discriminate) fuel'' Hle'). exact H.
        - rewrite (IHo _ _ Eo ltac:(discriminate) fuel'' Hle'). exact H.
        - subst res. congruence. }
      destruct (N.eqb c 91); [| exact H].
      destruct (skip_ws s1) as [|c1 r1]; [exact H|].
      destruct (N.eqb c1 93); [exact H|].
      destruct (parse_items fuel (c1 :: r1)) as [vs r| |] eqn:Ea.
      * rewrite (IHa _ _ Ea ltac:(discriminate) fuel'' Hle'). exact H.
      * rewrite (IHa _ _ Ea ltac:(discriminate) fuel'' Hle'). exact H.
      * subst res. congruence.
    + destruct (parse_value fuel s) as [v r0| |] eqn:Ev.
      * rewrite (IHv _ _ Ev ltac:(discriminate) fuel'' Hle').
        destruct (skip_ws r0) as [|c r1]; [exact H|].
        destruct (N.eqb c 93); [exact H|].
        destruct (N.eqb c 44); [| exact H].
        destruct (parse_items fuel (skip_ws r1)) as [vs r2| |] eqn:Ea.
        -- rewrite (IHa _ _ Ea ltac:(discriminate) fuel'' Hle'). exact H.
        -- rewrite (IHa _ _ Ea ltac:(discriminate) fuel'' Hle'). exact H.
        -- subst res. congruence.
      * rewrite (IHv _ _ Ev ltac:(discriminate) fuel'' Hle'). exact H.
      * subst res. congruence.
    + destruct (scanstring s) as [[key r0]|]; [| exact H].
      destruct (skip_ws r0) as [|c r1]; [exact H|].
      destruct (N.eqb c 58); [| exact H].
      destruct (parse_value fuel (skip_ws r1)) as [v r2| |] eqn:Ev.
      * rewrite (IHv _ _ Ev ltac:(discriminate) fuel'' Hle').
        destruct (skip_ws r2) as [|c2 r3]; [exact H|].
        destruct (N.eqb c2 125); [exact H|].
        destruct (N.eqb c2 44); [| exact H].
        destruct (skip_ws r3) as [|q r4]; [exact H|].
        destruct (N.eqb q 34); [| exact H].
        destruct (parse_members fuel r4) as [ps r5| |] eqn:Eo.
        -- rewrite (IHo _ _ Eo ltac:(discriminate) fuel'' Hle'). exact H.
        -- rewrite (IHo _ _ Eo ltac:(discriminate) fuel'' Hle'). exact H.
        -- subst res. congruence.
      * rewrite (IHv _ _ Ev ltac:(discriminate) fuel'' Hle'). exact H.
      * subst res. congruence.
Qed.

(** A value scanned within some number of steps is the value that
    [parse_text] scans. *)
Lemma parse_text_of_value (fuel : nat) (s : str) (v : json) :
  parse_value fuel s = Scanned v [] -> skip_ws s = s -> parse_text s = Scanned v [].
Proof.
  intros H Hws. unfold parse_text. rewrite Hws.
  pose proof (proj1 (scan_enough_fuel (fuel_for s)) s) as Htotal.
  destruct (parse_value (fuel_for s) s) as [v' r'| |] eqn:E.
  - pose proof (proj1 (scan_mono fuel) _ _ H ltac:(discriminate)
                  (Nat.max fuel (fuel_for s)) (Nat.le_max_l _ _)) as H1.
    pose proof (proj1 (scan_mono (fuel_for s)) _ _ E ltac:(discriminate)
                  (Nat.max fuel (fuel_for s)) (Nat.le_max_r _ _)) as H2.
    rewrite H1 in H2. inversion H2; subst. reflexivity.
  - pose proof (proj1 (scan_mono fuel) _ _ H ltac:(discriminate)
                  (Nat.max fuel (fuel_for s)) (Nat.le_max_l _ _)) as H1.
    pose proof (proj1 (scan_mono (fuel_for s)) _ _ E ltac:(discriminate)
                  (Nat.max fuel (fuel_for s)) (Nat.le_max_r _ _)) as H2.
    rewrite H1 in H2. discriminate.
  - exfalso. apply Htotal; [unfold fuel_for; lia | reflexivity].
Qed.

(** ** The decoder within the limits of the interpreter *)

Lemma suffix_refl (s : str) : suffix s s.
Proof. exists []. reflexivity. Qed.

Lemma suffix_trans (r s t : str) : suffix r s -> suffix s t -> suffix r t.
Proof. intros [p ->] [q ->]. exists (q ++ p). apply app_assoc. Qed.

Lemma suffix_cons (c : N) (r s : str) : suffix r s -> suffix r (c :: s).
Proof. intros [p ->]. exists (c :: p). reflexivity. Qed.

Lemma suffix_app (p r : str) : suffix r (p ++ r).
Proof. exists p. reflexivity. Qed.

Lemma suffix_skip_ws (s : str) : suffix (skip_ws s) s.
Proof.
  induction s as [|c s IH]; simpl; [apply suffix_refl|].
  destruct (is_ws c); [apply suffix_cons, IH | apply suffix_refl].
Qed.

Lemma suffix_skip_ws_cons (s : str) c r : skip_ws s = c :: r -> suffix r s.
Proof.
  intros E. apply suffix_trans with (s := c :: r).
  - apply suffix_cons, suffix_refl.
  - rewrite <- E. apply suffix_skip_ws.
Qed.

Lemma suffix_skipn (n : nat) (s : str) : suffix (skipn n s) s.
Proof. exists (firstn n s). symmetry. apply firstn_skipn. Qed.

Lemma take_digits_app_rest (s ds r : str) : take_digits s = (ds, r) -> s = ds ++ r.
Proof.
  revert ds r. induction s as [|c s IH]; intros ds r; simpl.
  - intros H; inversion H; reflexivity.
  - destruct (is_digit c).
    + destruct (take_digits s) as [ds' r'] eqn:E. intros H; inversion H; subst.
      simpl. f_equal. apply IH. reflexivity.
    + intros H; inversion H; subst. reflexivity.
Qed.

Lemma suffix_take_digits (s ds r : str) : take_digits s = (ds, r) -> suffix r s.
Proof. intros H. exists ds. apply take_digits_app_rest, H. Qed.

Lemma suffix_scanstring_aux (n : nat) :
  forall s x r, (List.length s <= n)%nat -> scanstring s = Some (x, r) -> suffix r s.
Proof.
  induction n as [|n IH]; intros s x r Hlen H.
  - destruct s; [discriminate | simpl in Hlen; lia].
  - destruct s as [|c s1]; [discriminate|]. simpl in H. simpl in Hlen.
    repeat (break_match_hyp H; try discriminate; subst);
      try (inversion H; subst; apply suffix_cons, suffix_refl);
      apply add_char_Some in H; destruct H as (x' & H & _);
      (apply IH in H; [| simpl in *; lia]);
      repeat first [exact H | apply suffix_cons].
Qed.

Lemma suffix_scanstring s x r : scanstring s = Some (x, r) -> suffix r s.
Proof. apply (suffix_scanstring_aux (n := List.length s)). lia. Qed.

Lemma suffix_match_integer s i r : match_integer s = Some (i, r) -> suffix r s.
Proof.
  unfold match_integer.
  destruct s as [|c s']; [discriminate|].
  destruct (N.eqb c 45).
  - destruct s' as [|d s2]; [discriminate|].
    destruct (N.eqb d 48); [intros H; inversion H; do 2 apply suffix_cons; apply suffix_refl|].
    destruct (is_digit d); [| discriminate].
    destruct (take_digits s2) as [ds r'] eqn:E. intros H; inversion H; subst.
    do 2 apply suffix_cons. exact (suffix_take_digits _ E).
  - destruct (N.eqb c 48); [intros H; inversion H; apply suffix_cons, suffix_refl|].
    destruct (is_digit c); [| discriminate].
    destruct (take_digits s') as [ds r'] eqn:E. intros H; inversion H; subst.
    apply suffix_cons. exact (suffix_take_digits _ E).
Qed.

Lemma suffix_match_frac s f r : match_frac s = (f, r) -> suffix r s.
Proof.
  unfold match_frac.
  destruct s as [|p [|d s']]; try (intros H; inversion H; apply suffix_refl).
  destruct (N.eqb p 46 && is_digit d); [| intros H; inversion H; apply suffix_refl].
  destruct (take_digits s') as [ds r'] eqn:E. intros H; inversion H; subst.
  do 2 apply suffix_cons. exact (suffix_take_digits _ E).
Qed.

Lemma suffix_match_exp s e r : match_exp s = (e, r) -> suffix r s.
Proof.
  unfold match_exp.
  destruct s as [|a [|sg s']]; try (intros H; inversion H; apply suffix_refl).
  destruct (N.eqb a 101 || N.eqb a 69); [| intros H; inversion H; apply suffix_refl].
  destruct (is_digit sg).
  - destruct (take_digits s') as [ds r'] eqn:E. intros H; inversion H; subst.
    do 2 apply suffix_cons. exact (suffix_take_digits _ E).
  - destruct (N.eqb sg 43 || N.eqb sg 45); [| intros H; inversion H; apply suffix_refl].
    destruct s' as [|d s'']; [intros H; inversion H; apply suffix_refl|].
    destruct (is_digit d); [| intros H; inversion H; apply suffix_refl].
    destruct (take_digits s'') as [ds r'] eqn:E. intros H; inversion H; subst.
    do 3 apply suffix_cons. exact (suffix_take_digits _ E).
Qed.

Lemma suffix_scan_atom s v r : scan_atom s = Scanned v r -> suffix r s.
Proof.
  unfold scan_atom.
  destruct (starts_with (py "null") s);
    [intros H; injection H as _ <-; exact (suffix_skipn 4 s)|].
  destruct (starts_with (py "true") s);
    [intros H; injection H as _ <-; exact (suffix_skipn 4 s)|].
  destruct (starts_with (py "false") s);
    [intros H; injection H as _ <-; exact (suffix_skipn 5 s)|].
  destruct (match_integer s) as [[i r0]|] eqn:Ei.
  - apply suffix_match_integer in Ei.
    destruct (match_frac r0) as [f r1] eqn:Ef. apply suffix_match_frac in Ef.
    destruct (match_exp r1) as [e r2] eqn:Ee. apply suffix_match_exp in Ee.
    assert (Hr2 : suffix r2 s) by (eapply suffix_trans; [| eapply suffix_trans]; eassumption).
    destruct f; destruct e; intros H; inversion H; subst; exact Hr2.
  - destruct (starts_with (py "NaN") s);
      [intros H; injection H as _ <-; exact (suffix_skipn 3 s)|].
    destruct (starts_with (py "Infinity") s);
      [intros H; injection H as _ <-; exact (suffix_skipn 8 s)|].
    destruct (starts_with (py "-Infinity") s); [| discriminate].
    intros H; injection H as _ <-; exact (suffix_skipn 9 s).
Qed.

(** What is left after a value was read is the end of what was there. *)
Lemma parse_suffix (fuel : nat) :
  (forall s v r, parse_value fuel s = Scanned v r -> suffix r s) /\
  (forall s vs r, parse_items fuel s = Scanned vs r -> suffix r s) /\
  (forall s ps r, parse_members fuel s = Scanned ps r -> suffix r s).
Proof.
  induction fuel as [|fuel (IHv & IHa & IHo)].
  - repeat split; intros; discriminate.
  - repeat split.
    + intros s v r H. simpl in H.
      destruct s as [|c s1]; [discriminate|].
      destruct (N.eqb c 34).
      { destruct (scanstring s1) as [[x r']|] eqn:E; [| discriminate].
        inversion H; subst. apply suffix_cons. exact (suffix_scanstring _ E). }
      destruct (N.eqb c 123).
      { destruct (skip_ws s1) as [|c1 r1] eqn:E; [discriminate|].
        apply suffix_skip_ws_cons in E.
        destruct (N.eqb c1 125); [inversion H; subst; apply suffix_cons, E|].
        destruct (N.eqb c1 34); [| discriminate].
        destruct (parse_members fuel r1) as [ps r'| |] eqn:Eo; try discriminate.
        inversion H; subst. apply IHo in Eo.
        apply suffix_cons. eapply suffix_trans; eassumption. }
      destruct (N.eqb c 91).
      { destruct (skip_ws s1) as [|c1 r1] eqn:E; [discriminate|].
        pose proof (suffix_skip_ws s1) as Hs. rewrite E in Hs.
        destruct (N.eqb c1 93).
        { inversion H; subst. apply suffix_cons.
          eapply suffix_trans; [apply suffix_cons, suffix_refl | exact Hs]. }
        destruct (parse_items fuel (c1 :: r1)) as [vs r'| |] eqn:Ea; try discriminate.
        inversion H; subst. apply IHa in Ea.
        apply suffix_cons. eapply suffix_trans; eassumption. }
      apply suffix_scan_atom in H. exact H.
    + intros s vs r H. simpl in H.
      destruct (parse_value fuel s) as [v r0| |] eqn:Ev; try discriminate.
      apply IHv in Ev.
      destruct (skip_ws r0) as [|c r1] eqn:E; [discriminate|].
      apply suffix_skip_ws_cons in E.
      destruct (N.eqb c 93); [inversion H; subst; eapply suffix_trans; eassumption|].
      destruct (N.eqb c 44); [| discriminate].
      destruct (parse_items fuel (skip_ws r1)) as [vs' r2| |] eqn:Ea; try discriminate.
      inversion H; subst. apply IHa in Ea. pose proof (suffix_skip_ws r1).
      repeat (eapply suffix_trans; [eassumption|]). apply suffix_refl.
    + intros s ps r H. simpl in H.
      destruct (scanstring s) as [[key r0]|] eqn:Ek; [| discriminate].
      apply suffix_scanstring in Ek.
      destruct (skip_ws r0) as [|c r1] eqn:E1; [discriminate|].
      apply suffix_skip_ws_cons in E1.
      destruct (N.eqb c 58); [| discriminate].
      destruct (parse_value fuel (skip_ws r1)) as [v r2| |] eqn:Ev; try discriminate.
      apply IHv in Ev. pose proof (suffix_skip_ws r1).
      destruct (skip_ws r2) as [|c2 r3] eqn:E2; [discriminate|].
      apply suffix_skip_ws_cons in E2.
      destruct (N.eqb c2 125).
      { inversion H; subst. repeat (eapply suffix_trans; [eassumption|]). apply suffix_refl. }
      destruct (N.eqb c2 44); [| discriminate].
      destruct (skip_ws r3) as [|q r4] eqn:E3; [discriminate|].
      apply suffix_skip_ws_cons in E3.
      destruct (N.eqb q 34); [| discriminate].
      destruct (parse_members fuel r4) as [ps' r5| |] eqn:Eo; try discriminate.
      inversion H; subst. apply IHo in Eo.
      repeat (eapply suffix_trans; [eassumption|]). apply suffix_refl.
Qed.

(** *** Brackets and runs of digits *)

Lemma opens_app (p r : str) : opens (p ++ r) = (opens p + opens r)%nat.
Proof. unfold opens. rewrite filter_app, length_app. reflexivity. Qed.

Lemma opens_suffix (r s : str) : suffix r s -> (opens r <= opens s)%nat.
Proof. intros [p ->]. rewrite opens_app. lia. Qed.

Lemma opens_open (c : N) (s : str) :
  N.eqb c 91 || N.eqb c 123 = true -> opens (c :: s) = S (opens s).
Proof. intros H. unfold opens. simpl. rewrite H. reflexivity. Qed.

Lemma longest_run_suffix (r s : str) : suffix r s -> (longest_run r <= longest_run s)%nat.
Proof.
  intros [p ->]. induction p as [|c p IH]; [apply Nat.le_refl|].
  cbn [app longest_run]. lia.
Qed.

Lemma longest_run_head (s : str) :
  (List.length (fst (take_digits s)) <= longest_run s)%nat.
Proof. destruct s as [|c s]; [apply Nat.le_refl|]. cbn [longest_run]. lia. Qed.

Section Limited.

Variable L : Limits.


(** The digits of an integer of a text are a run of digits of the text. *)
Lemma digit_count_run (s integer r : str) :
  match_integer s = Some (integer, r) -> (digit_count integer <= longest_run s)%nat.
Proof.
  unfold match_integer.
  destruct s as [|c s']; [discriminate|].
  assert (Hrun : forall d s2 (ds : str),
             is_digit d = true ->
             (List.length ds <= List.length (fst (take_digits s2)))%nat ->
             (S (List.length ds) <= longest_run (d :: s2))%nat).
  { intros d s2 ds Hd Hds.
    pose proof (longest_run_head (d :: s2)) as Hh. cbn [take_digits] in Hh.
    rewrite Hd in Hh. destruct (take_digits s2) as [ds' r']. simpl in *. lia. }
  destruct (N.eqb c 45) eqn:Ec.
  - destruct s' as [|d s2]; [discriminate|].
    pose proof (longest_run_suffix (suffix_cons c (suffix_refl (d :: s2)))) as Hc.
    destruct (N.eqb d 48) eqn:E0.
    + intros H; injection H as <- <-.
      apply N.eqb_eq in E0. subst d.
      pose proof (Hrun 48%N s2 [] eq_refl ltac:(simpl; lia)) as Hd.
      exact (Nat.le_trans _ _ _ Hd Hc).
    + destruct (is_digit d) eqn:Ed; [| discriminate].
      destruct (take_digits s2) as [ds r'] eqn:E. intros H; injection H as <- <-.
      pose proof (Hrun d s2 ds Ed ltac:(rewrite E; simpl; lia)) as Hd.
      exact (Nat.le_trans _ _ _ Hd Hc).
  - destruct (N.eqb c 48) eqn:E0.
    + intros H; injection H as <- <-. cbn [app digit_count]. rewrite Ec.
      apply N.eqb_eq in E0. subst c.
      exact (Hrun 48%N s' [] eq_refl ltac:(simpl; lia)).
    + destruct (is_digit c) eqn:Ed; [| discriminate].
      destruct (take_digits s') as [ds r'] eqn:E. intros H; injection H as <- <-.
      cbn [app digit_count]. rewrite Ec.
      exact (Hrun c s' ds Ed ltac:(rewrite E; simpl; lia)).
Qed.

Lemma integer_at_run (s integer : str) :
  integer_at s = Some integer -> (digit_count integer <= longest_run s)%nat.
Proof.
  unfold integer_at.
  destruct (match_integer s) as [[i r]|] eqn:E; [| discriminate].
  destruct (match_frac r) as [f r1]. destruct (match_exp r1) as [e r2].
  destruct f; [| discriminate]. destruct e; [| discriminate].
  intros H; inversion H; subst. exact (digit_count_run _ E).
Qed.

(** A number is read as the grammar has it, or is an integer of too many
    digits. *)
Lemma scan_number_cases (s : str) :
  match scan_number L s with
  | Value v r => scan_atom s = Scanned v r
  | DecodeError => scan_atom s = Invalid
  | Unfinished => False
  | TooDeep _ => False
  | TooLong n => exceeds L n = true /\ (n <= longest_run s)%nat
  end.
Proof.
  unfold scan_number.
  destruct (scan_atom s) as [v r| |] eqn:E; try reflexivity.
  - destruct v; try reflexivity.
    destruct (integer_at s) as [integer|] eqn:Ei; [| reflexivity].
    destruct (exceeds L (digit_count integer)) eqn:Ex; [| reflexivity].
    split; [exact Ex | exact (integer_at_run _ Ei)].
  - unfold scan_atom in E.
    repeat match type of E with
           | context [if ?b then _ else _] => destruct b
           | context [match ?x with _ => _ end] => destruct x
           end; discriminate.
Qed.

(** What the decoder does with a text, by the grammar: it reads the value
    that the grammar gives the text, and rejects a text that the grammar
    rejects; where it meets a limit, the text has brackets or digits for
    it. *)
Definition agrees {A} (d : nat) (s : str) (res : result A) (parsed : scan A) : Prop :=
  match res with
  | Value v r => parsed = Scanned v r
  | DecodeError => parsed = Invalid
  | Unfinished => parsed = OutOfFuel
  | TooDeep _ => (d < opens s)%nat
  | TooLong n => exceeds L n = true /\ (n <= longest_run s)%nat
  end.

Ltac bounds :=
  repeat match goal with
         | H : suffix _ _ |- _ =>
             pose proof (opens_suffix H); pose proof (longest_run_suffix H); clear H
         end.

Ltac limit_reached H :=
  unfold agrees in H |- *; bounds;
  first [ rewrite H; reflexivity
        | lia
        | match type of H with
          | _ /\ _ => destruct H as [H ?]; split; [exact H | cbn [longest_run] in *; lia]
          end ].

Lemma scan_agrees (fuel : nat) :
  (forall d s, agrees d s (scan_once L fuel d s) (parse_value fuel s)) /\
  (forall d s, agrees d s (scan_array L fuel d s) (parse_items fuel s)) /\
  (forall d s, agrees d s (scan_object L fuel d s) (parse_members fuel s)).
Proof.
  induction fuel as [|fuel (IHv & IHa & IHo)].
  - repeat split; intros; reflexivity.
  - repeat split.
    + intros d s. cbn [scan_once parse_value].
      destruct s as [|c s1]; [reflexivity|].
      destruct (N.eqb c 34).
      { destruct (scanstring s1) as [[x r']|]; reflexivity. }
      destruct (N.eqb c 123) eqn:E123.
      { assert (Hopen : opens (c :: s1) = S (opens s1))
          by (apply opens_open; rewrite E123; apply orb_true_r).
        destruct d as [|d']; [unfold agrees; lia|].
        destruct (skip_ws s1) as [|c1 r1] eqn:E; [reflexivity|].
        apply suffix_skip_ws_cons in E.
        destruct (N.eqb c1 125); [reflexivity|].
        destruct (N.eqb c1 34); [| reflexivity].
        pose proof (IHo d' r1) as Hi.
        destruct (scan_object L fuel d' r1) as [ps r| |o|k|]; limit_reached Hi. }
      destruct (N.eqb c 91) eqn:E91.
      { assert (Hopen : opens (c :: s1) = S (opens s1))
          by (apply opens_open; rewrite E91; reflexivity).
        destruct d as [|d']; [unfold agrees; lia|].
        destruct (skip_ws s1) as [|c1 r1] eqn:E; [reflexivity|].
        pose proof (suffix_skip_ws s1) as Hs. rewrite E in Hs.
        destruct (N.eqb c1 93); [reflexivity|].
        pose proof (IHa d' (c1 :: r1)) as Hi.
        destruct (scan_array L fuel d' (c1 :: r1)) as [vs r| |o|k|]; limit_reached Hi. }
      pose proof (scan_number_cases (c :: s1)) as Hn.
      destruct (scan_number L (c :: s1)) as [v r| |o|k|]; unfold agrees;
        first [exact Hn | contradiction].
    + intros d s. cbn [scan_array parse_items].
      pose proof (IHv d s) as Hv. pose proof (proj1 (parse_suffix fuel) s) as Hsv.
      destruct (scan_once L fuel d s) as [v r0| |o|k|];
        try (limit_reached Hv).
      unfold agrees in Hv. rewrite Hv. specialize (Hsv _ _ Hv).
      destruct (skip_ws r0) as [|c r1] eqn:E; [reflexivity|].
      apply suffix_skip_ws_cons in E.
      destruct (N.eqb c 93); [reflexivity|].
      destruct (N.eqb c 44); [| reflexivity].
      pose proof (IHa d (skip_ws r1)) as Hi. pose proof (suffix_skip_ws r1).
      destruct (scan_array L fuel d (skip_ws r1)) as [vs r2| |o|k|]; limit_reached Hi.
    + intros d s. cbn [scan_object parse_members].
      destruct (scanstring s) as [[key r0]|] eqn:Ek; [| reflexivity].
      apply suffix_scanstring in Ek.
      destruct (skip_ws r0) as [|c r1] eqn:E1; [reflexivity|].
      apply suffix_skip_ws_cons in E1.
      destruct (N.eqb c 58); [| reflexivity].
      pose proof (IHv d (skip_ws r1)) as Hv. pose proof (suffix_skip_ws r1).
      pose proof (proj1 (parse_suffix fuel) (skip_ws r1)) as Hsv.
      destruct (scan_once L fuel d (skip_ws r1)) as [v r2| |o|k|];
        try (limit_reached Hv).
      unfold agrees in Hv. rewrite Hv. specialize (Hsv _ _ Hv).
      destruct (skip_ws r2) as [|c2 r3] eqn:E2; [reflexivity|].
      apply suffix_skip_ws_cons in E2.
      destruct (N.eqb c2 125); [reflexivity|].
      destruct (N.eqb c2 44); [| reflexivity].
      destruct (skip_ws r3) as [|q r4] eqn:E3; [reflexivity|].
      apply suffix_skip_ws_cons in E3.
      destruct (N.eqb q 34); [| reflexivity].
      pose proof (IHo d r4) as Hi.
      destruct (scan_object L fuel d r4) as [ps r5| |o|k|]; limit_reached Hi.
Qed.

(** More steps do not change what the decoder does. *)
Ltac same_at IH E H Hle :=
  first [ rewrite (IH _ _ _ E ltac:(discriminate) _ Hle); exact H
        | subst; congruence ].

Lemma scan_steps (fuel : nat) :
  (forall d s res, scan_once L fuel d s = res -> res <> Unfinished ->
     forall fuel', (fuel <= fuel')%nat -> scan_once L fuel' d s = res) /\
  (forall d s res, scan_array L fuel d s = res -> res <> Unfinished ->
     forall fuel', (fuel <= fuel')%nat -> scan_array L fuel' d s = res) /\
  (forall d s res, scan_object L fuel d s = res -> res <> Unfinished ->
     forall fuel', (fuel <= fuel')%nat -> scan_object L fuel' d s = res).
Proof.
  induction fuel as [|fuel (IHv & IHa & IHo)].
  - repeat split; intros d s res H Hne; simpl in H; subst res; congruence.
  - repeat split; intros d s res H Hne fuel' Hle;
      (destruct fuel' as [|fuel'']; [lia|]);
      assert (Hle' : (fuel <= fuel'')%nat) by lia.
    + cbn [scan_once] in H |- *.
      destruct s as [|c s1]; [exact H|].
      destruct (N.eqb c 34); [exact H|].
      destruct (N.eqb c 123).
      { destruct d as [|d']; [exact H|].
        destruct (skip_ws s1) as [|c1 r1]; [exact H|].
        destruct (N.eqb c1 125); [exact H|].
        destruct (N.eqb c1 34); [| exact H].
        destruct (scan_object L fuel d' r1) as [ps r| |o|k|] eqn:Eo;
          same_at IHo Eo H Hle'. }
      destruct (N.eqb c 91); [| exact H].
      destruct d as [|d']; [exact H|].
      destruct (skip_ws s1) as [|c1 r1]; [exact H|].
      destruct (N.eqb c1 93); [exact H|].
      destruct (scan_array L fuel d' (c1 :: r1)) as [vs r| |o|k|] eqn:Ea;
        same_at IHa Ea H Hle'.
    + cbn [scan_array] in H |- *.
      destruct (scan_once L fuel d s) as [v r0| |o|k|] eqn:Ev;
        try (same_at IHv Ev H Hle').
      rewrite (IHv _ _ _ Ev ltac:(discriminate) _ Hle').
      destruct (skip_ws r0) as [|c r1]; [exact H|].
      destruct (N.eqb c 93); [exact H|].
      destruct (N.eqb c 44); [| exact H].
      destruct (scan_array L fuel d (skip_ws r1)) as [vs r2| |o|k|] eqn:Ea;
        same_at IHa Ea H Hle'.
    + cbn [scan_object] in H |- *.
      destruct (scanstring s) as [[key r0]|]; [| exact H].
      destruct (skip_ws r0) as [|c r1]; [exact H|].
      destruct (N.eqb c 58); [| exact H].
      destruct (scan_once L fuel d (skip_ws r1)) as [v r2| |o|k|] eqn:Ev;
        try (same_at IHv Ev H Hle').
      rewrite (IHv _ _ _ Ev ltac:(discriminate) _ Hle').
      destruct (skip_ws r2) as [|c2 r3]; [exact H|].
      destruct (N.eqb c2 125); [exact H|].
      destruct (N.eqb c2 44); [| exact H].
      destruct (skip_ws r3) as [|q r4]; [exact H|].
      destruct (N.eqb q 34); [| exact H].
      destruct (scan_object L fuel d r4) as [ps r5| |o|k|] eqn:Eo;
        same_at IHo Eo H Hle'.
Qed.

(** [decode] by the grammar. *)
Lemma decode_agrees (s : str) : agrees (max_depth L) s (decode L s) (parse_text s).
Proof.
  unfold decode, parse_text.
  pose proof (proj1 (scan_agrees (fuel_for s)) (max_depth L) (skip_ws s)) as H.
  pose proof (suffix_skip_ws s) as Hs.
  destruct (scan_once L (fuel_for s) (max_depth L) (skip_ws s)) as [v r| |o|k|];
    unfold agrees in H |- *.
  - rewrite H. destruct (skip_ws r); reflexivity.
  - rewrite H. reflexivity.
  - bounds. lia.
  - bounds. destruct H as [H ?]. split; [exact H | lia].
  - rewrite H. reflexivity.
Qed.

(** The decoder always answers. *)
Lemma decode_total (s : str) : decode L s <> Unfinished.
Proof.
  intros E. pose proof (decode_agrees s) as H. rewrite E in H.
  exact (@parse_text_total s H).
Qed.

(** [json.loads] returns the value that the grammar gives the text, or
    raises: [JSONDecodeError] for a text that is no JSON, [RecursionError]
    for a text of more opening brackets than the decoder may enter,
    [ValueError] for a text with a run of digits that [int] refuses. *)
Lemma loads_cases (s : str) :
  match loads L s with
  | Return v => parse_text s = Scanned v []
  | Raise e =>
      (e = JSONDecodeError s /\ parse_text s = Invalid)
      \/ (exists o, e = RecursionError (recursion_message o)
                    /\ (max_depth L < opens s)%nat)
      \/ (exists k, e = ValueError (digits_message L k)
                    /\ exceeds L k = true /\ (k <= longest_run s)%nat)
  | Running => False
  end.
Proof.
  unfold loads. pose proof (decode_agrees s) as H. pose proof (@decode_total s) as Ht.
  destruct (decode L s) as [v r| |o|k|] eqn:E; unfold agrees in H.
  - unfold decode in E.
    destruct (scan_once L (fuel_for s) (max_depth L) (skip_ws s)); try discriminate.
    destruct (skip_ws rest); [| discriminate]. inversion E; subst. exact H.
  - left. split; [reflexivity | exact H].
  - right. left. exists o. split; [reflexivity | exact H].
  - right. right. exists k. split; [reflexivity | exact H].
  - congruence.
Qed.


(** [json.loads] returns or raises. *)
Lemma loads_total (s : str) : loads L s <> Running.
Proof. pose proof (loads_cases s) as H. intros E. rewrite E in H. exact H. Qed.

End Limited.

(** ** Integers survive encoding and decoding *)

Lemma py_String (a : ascii) (s : string) : py (String a s) = N_of_ascii a :: py s.
Proof. reflexivity. Qed.

Definition digits (u : Decimal.uint) : str := py (NilEmpty.string_of_uint u).

Lemma digits_are_digits (u : Decimal.uint) : forallb is_digit (digits u) = true.
Proof. induction u; simpl; try reflexivity; assumption. Qed.

Lemma take_digits_app (ds rest : str) :
  forallb is_digit ds = true -> number_end rest = true ->
  take_digits (ds ++ rest) = (ds, rest).
Proof.
  intros Hds Hrest. induction ds as [|c ds IH]; simpl in *.
  - destruct rest as [|c rest]; [reflexivity|]. simpl in Hrest |- *.
    destruct (is_digit c); [discriminate | reflexivity].
  - apply andb_true_iff in Hds. destruct Hds as [Hc Hds].
    rewrite Hc, (IH Hds). reflexivity.
Qed.

Lemma fold_digits (u : Decimal.uint) (acc : positive) :
  fold_left (fun a c => 10 * a + (Z.of_N c - 48)) (digits u) (Z.pos acc)
  = Z.pos (Pos.of_uint_acc u acc).
Proof.
  revert acc. unfold digits.
  induction u as [|u IH|u IH|u IH|u IH|u IH|u IH|u IH|u IH|u IH|u IH]; intros acc;
    [reflexivity | ..];
    cbn [NilEmpty.string_of_uint]; rewrite py_String; cbn [fold_left Pos.of_uint_acc];
    rewrite <- IH; f_equal;
    cbv [N_of_ascii N_of_digits Z.of_N]; simpl N.add; simpl N.mul; lia.
Qed.

Lemma nzhead_not_D0 (u u0 : Decimal.uint) : Decimal.nzhead u <> Decimal.D0 u0.
Proof. induction u; simpl; try discriminate; assumption. Qed.

(** The numeral of a positive number: a digit other than [0], then digits. *)
Lemma to_uint_digits (p : positive) :
  exists c ds,
    digits (Pos.to_uint p) = c :: ds /\
    is_digit c = true /\ N.eqb c 48 = false /\ N.eqb c 45 = false /\
    forallb is_digit ds = true /\
    nat_of_digits (c :: ds) = Z.pos p.
Proof.
  pose proof (DecimalPos.Unsigned.of_to p) as Hof.
  pose proof (DecimalPos.Unsigned.to_of (Pos.to_uint p)) as Hto.
  rewrite Hof in Hto. simpl in Hto.
  pose proof (Unsigned.to_uint_nonnil p) as Hnil.
  pose proof (digits_are_digits (Pos.to_uint p)) as Hd.
  unfold nat_of_digits.
  destruct (Pos.to_uint p) as [|u|u|u|u|u|u|u|u|u|u] eqn:E; [congruence | ..].
  { exfalso. unfold Decimal.unorm in Hto.
    destruct (Decimal.nzhead (Decimal.D0 u)) eqn:En; try discriminate.
    - simpl in En. inversion Hto; subst. simpl in Hof. discriminate.
    - apply nzhead_not_D0 in En. exact En. }
  all: unfold digits in *; cbn [NilEmpty.string_of_uint] in *;
    rewrite py_String in *; cbn [forallb] in Hd;
    apply andb_true_iff in Hd; destruct Hd as [Hc Hd];
    eexists; eexists; (split; [reflexivity|]);
    (split; [exact Hc|]); (split; [reflexivity|]); (split; [reflexivity|]);
    (split; [exact Hd|]);
    cbn [fold_left]; simpl Z.add;
    rewrite (fold_digits u); simpl in Hof; inversion Hof; reflexivity.
Qed.

Lemma match_frac_none (rest : str) : number_end rest = true -> match_frac rest = ([], rest).
Proof.
  destruct rest as [|c [|d rest]]; try reflexivity. simpl.
  intros H. destruct (N.eqb c 46); [| reflexivity].
  rewrite !andb_true_iff in H. destruct H as [[[_ H] _] _]. discriminate.
Qed.

Lemma match_exp_none (rest : str) : number_end rest = true -> match_exp rest = ([], rest).
Proof.
  destruct rest as [|c [|d rest]]; try reflexivity. simpl.
  intros H. rewrite !andb_true_iff, !negb_true_iff in H.
  destruct H as [[[_ _] H1] H2]. rewrite H1, H2. reflexivity.
Qed.

Lemma match_integer_numeral (z : Z) (rest : str) :
  number_end rest = true ->
  match_integer (str_of_int z ++ rest) = Some (str_of_int z, rest) /\
  int_of_literal (str_of_int z) = z.
Proof.
  intros Hrest. destruct z as [|p|p].
  - split; reflexivity.
  - destruct (to_uint_digits p) as (c & ds & E & Hc & H0 & Hm & Hds & Hv).
    assert (Es : str_of_int (Z.pos p) = c :: ds).
    { unfold str_of_int. simpl. unfold digits in E.
      destruct (Pos.to_uint p) eqn:Eu; try exact E.
      exfalso. apply (Unsigned.to_uint_nonnil p Eu). }
    rewrite Es. split.
    + unfold match_integer. cbn [app]. rewrite Hm, H0, Hc.
      rewrite (take_digits_app _ _ Hds Hrest). reflexivity.
    + unfold int_of_literal. rewrite Hm. exact Hv.
  - destruct (to_uint_digits p) as (c & ds & E & Hc & H0 & Hm & Hds & Hv).
    assert (Es : str_of_int (Z.neg p) = 45%N :: c :: ds).
    { unfold str_of_int. simpl. rewrite py_String. f_equal. unfold digits in E.
      destruct (Pos.to_uint p) eqn:Eu; try exact E.
      exfalso. apply (Unsigned.to_uint_nonnil p Eu). }
    rewrite Es. split.
    + unfold match_integer. cbn [app]. cbn [N.eqb Pos.eqb]. cbv iota.
      rewrite H0, Hc. rewrite (take_digits_app _ _ Hds Hrest). reflexivity.
    + unfold int_of_literal. cbn [N.eqb Pos.eqb]. cbv iota. rewrite Hv. reflexivity.
Qed.

(** The first character of a numeral. *)
Lemma str_of_int_head (z : Z) :
  exists c t, str_of_int z = c :: t /\ numeral_char c = true.
Proof.
  pose proof (str_of_int_chars z) as H. pose proof (str_of_int_nonempty z) as Hne.
  destruct (str_of_int z) as [|c t]; [congruence|].
  simpl in H. apply andb_true_iff in H. exists c, t. tauto.
Qed.

Lemma scan_atom_int (z : Z) (rest : str) :
  number_end rest = true ->
  scan_atom (str_of_int z ++ rest) = Scanned (JInt z) rest.
Proof.
  intros Hrest. destruct (match_integer_numeral z rest Hrest) as [Hm Hv].
  destruct (str_of_int_head z) as (c & t & Es & Hc).
  unfold scan_atom.
  assert (Hn : forall p x, N.eqb p c = false -> starts_with (p :: x) (str_of_int z ++ rest) = false).
  { intros p x Hp. rewrite Es. simpl. rewrite Hp. reflexivity. }
  unfold numeral_char in Hc.
  assert (H110 : N.eqb 110 c = false).
  { destruct (N.eqb_spec 110 c); [subst; discriminate | reflexivity]. }
  assert (H116 : N.eqb 116 c = false).
  { destruct (N.eqb_spec 116 c); [subst; discriminate | reflexivity]. }
  assert (H102 : N.eqb 102 c = false).
  { destruct (N.eqb_spec 102 c); [subst; discriminate | reflexivity]. }
  change (py "null") with (110%N :: py "ull").
  change (py "true") with (116%N :: py "rue").
  change (py "false") with (102%N :: py "alse").
  rewrite (Hn _ _ H110), (Hn _ _ H116), (Hn _ _ H102), Hm.
  rewrite (match_frac_none _ Hrest), (match_exp_none _ Hrest), Hv. reflexivity.
Qed.

Lemma integer_at_numeral (z : Z) (rest : str) :
  number_end rest = true -> integer_at (str_of_int z ++ rest) = Some (str_of_int z).
Proof.
  intros Hrest. destruct (match_integer_numeral z rest Hrest) as [Hm _].
  unfold integer_at.
  rewrite Hm, (match_frac_none _ Hrest), (match_exp_none _ Hrest). reflexivity.
Qed.

(** The decoder reads a numeral that [int] accepts. *)
Lemma scan_number_int (L : Limits) (z : Z) (rest : str) :
  number_end rest = true -> exceeds L (digit_count (str_of_int z)) = false ->
  scan_number L (str_of_int z ++ rest) = Value (JInt z) rest.
Proof.
  intros Hrest Hz. unfold scan_number.
  rewrite (scan_atom_int z rest Hrest), (integer_at_numeral z rest Hrest), Hz.
  reflexivity.
Qed.

(** ** Values survive encoding and decoding *)

Section JsonInduction.

Variable P : json -> Prop.
Hypothesis HNull : P JNull.
Hypothesis HBool : forall b, P (JBool b).
Hypothesis HInt : forall z, P (JInt z).
Hypothesis HFloat : forall literal, P (JFloat literal).
Hypothesis HStr : forall s, P (JStr s).
Hypothesis HArr : forall items, Forall P items -> P (JArr items).
Hypothesis HObj : forall members, Forall (fun kv => P (snd kv)) members -> P (JObj members).

Fixpoint json_induction (v : json) : P v :=
  match v with
  | JNull => HNull
  | JBool b => HBool b
  | JInt z => HInt z
  | JFloat literal => HFloat literal
  | JStr s => HStr s
  | JArr items =>
      HArr ((fix go (l : list json) : Forall P l :=
               match l with
               | [] => Forall_nil P
               | x :: l' => Forall_cons x (json_induction x) (go l')
               end) items)
  | JObj members =>
      HObj ((fix go (l : list (str * json)) : Forall (fun kv => P (snd kv)) l :=
               match l with
               | [] => Forall_nil _
               | (k, x) :: l' =>
                   Forall_cons (P := fun kv => P (snd kv)) (k, x)
                     (json_induction x) (go l')
               end) members)
  end.

End JsonInduction.

Lemma nodupb_NoDup (ks : list str) : nodupb ks = true -> NoDup ks.
Proof.
  induction ks as [|k ks IH]; simpl; [constructor|].
  rewrite andb_true_iff, negb_true_iff. intros [Hk Hks].
  constructor; [| apply IH; assumption].
  intros Hin. apply str_in_In in Hin. congruence.
Qed.

Lemma dict_of_pairs_distinct {V} (ps : list (str * V)) :
  nodupb (keys ps) = true -> dict_of_pairs ps = ps.
Proof.
  intros H. unfold dict_of_pairs.
  rewrite fold_set_fresh; [reflexivity | apply nodupb_NoDup; exact H |].
  intros k _ [].
Qed.

(** *** The equations of the decoder *)

Section Equations.

Variable L : Limits.

Lemma scan_once_string fuel d s x r :
  scanstring s = Some (x, r) -> scan_once L (S fuel) d (34%N :: s) = Value (JStr x) r.
Proof. intros H. simpl. rewrite H. reflexivity. Qed.

Lemma scan_once_atom fuel d c t :
  N.eqb c 34 = false -> N.eqb c 123 = false -> N.eqb c 91 = false ->
  scan_once L (S fuel) d (c :: t) = scan_number L (c :: t).
Proof. intros H1 H2 H3. cbn [scan_once]. rewrite H1, H2, H3. reflexivity. Qed.

Lemma scan_once_array fuel d s1 c1 r1 vs r :
  skip_ws s1 = c1 :: r1 -> N.eqb c1 93 = false ->
  scan_array L fuel d (c1 :: r1) = Value vs r ->
  scan_once L (S fuel) (S d) (91%N :: s1) = Value (JArr vs) r.
Proof. intros H1 H2 H3. cbn [scan_once N.eqb Pos.eqb]. rewrite H1, H2, H3. reflexivity. Qed.

Lemma scan_once_object fuel d s1 r1 ps r :
  skip_ws s1 = 34%N :: r1 -> scan_object L fuel d r1 = Value ps r ->
  scan_once L (S fuel) (S d) (123%N :: s1) = Value (JObj (dict_of_pairs ps)) r.
Proof.
  intros H1 H2. cbn [scan_once N.eqb Pos.eqb]. rewrite H1. cbn [N.eqb Pos.eqb].
  rewrite H2. reflexivity.
Qed.

Lemma scan_array_last fuel d s v r r1 :
  scan_once L fuel d s = Value v r -> skip_ws r = 93%N :: r1 ->
  scan_array L (S fuel) d s = Value [v] r1.
Proof. intros H1 H2. cbn [scan_array]. rewrite H1, H2. reflexivity. Qed.

Lemma scan_array_more fuel d s v r r1 vs r2 :
  scan_once L fuel d s = Value v r -> skip_ws r = 44%N :: r1 ->
  scan_array L fuel d (skip_ws r1) = Value vs r2 ->
  scan_array L (S fuel) d s = Value (v :: vs) r2.
Proof.
  intros H1 H2 H3. cbn [scan_array]. rewrite H1, H2. cbn [N.eqb Pos.eqb].
  rewrite H3. reflexivity.
Qed.

Lemma scan_object_last fuel d s key r r1 v r2 r3 :
  scanstring s = Some (key, r) -> skip_ws r = 58%N :: r1 ->
  scan_once L fuel d (skip_ws r1) = Value v r2 -> skip_ws r2 = 125%N :: r3 ->
  scan_object L (S fuel) d s = Value [(key, v)] r3.
Proof.
  intros H1 H2 H3 H4. cbn [scan_object]. rewrite H1, H2. cbn [N.eqb Pos.eqb].
  rewrite H3, H4. reflexivity.
Qed.

Lemma scan_object_more fuel d s key r r1 v r2 r3 r4 ps r5 :
  scanstring s = Some (key, r) -> skip_ws r = 58%N :: r1 ->
  scan_once L fuel d (skip_ws r1) = Value v r2 -> skip_ws r2 = 44%N :: r3 ->
  skip_ws r3 = 34%N :: r4 -> scan_object L fuel d r4 = Value ps r5 ->
  scan_object L (S fuel) d s = Value ((key, v) :: ps) r5.
Proof.
  intros H1 H2 H3 H4 H5 H6. cbn [scan_object]. rewrite H1, H2. cbn [N.eqb Pos.eqb].
  rewrite H3, H4. cbn [N.eqb Pos.eqb]. rewrite H5. cbn [N.eqb Pos.eqb].
  rewrite H6. reflexivity.
Qed.

End Equations.

(** *** Depth and integers of the items of a value *)

Lemma depth_items (items : list json) (d : nat) :
  (depth (JArr items) <= S d)%nat -> Forall (fun x => (depth x <= d)%nat) items.
Proof.
  cbn [depth]. intros H. apply le_S_n in H.
  induction items as [|x items IH]; [constructor|].
  cbn [fold_right] in H. constructor; [lia | apply IH; lia].
Qed.

Lemma depth_members (members : dict json) (d : nat) :
  (depth (JObj members) <= S d)%nat ->
  Forall (fun kv => (depth (snd kv) <= d)%nat) members.
Proof.
  cbn [depth]. intros H. apply le_S_n in H.
  induction members as [|kv members IH]; [constructor|].
  cbn [fold_right] in H. constructor; [lia | apply IH; lia].
Qed.

Lemma accepted_items (L : Limits) (items : list json) :
  accepted L (JArr items) = true -> Forall (fun x => accepted L x = true) items.
Proof.
  unfold accepted. cbn [integers].
  induction items as [|x items IH]; [constructor|].
  cbn [flat_map]. rewrite forallb_app, andb_true_iff. intros [Hx Hr].
  constructor; [exact Hx | apply IH, Hr].
Qed.

Lemma accepted_members (L : Limits) (members : dict json) :
  accepted L (JObj members) = true ->
  Forall (fun kv => accepted L (snd kv) = true) members.
Proof.
  unfold accepted. cbn [integers].
  induction members as [|kv members IH]; [constructor|].
  cbn [flat_map]. rewrite forallb_app, andb_true_iff. intros [Hx Hr].
  constructor; [exact Hx | apply IH, Hr].
Qed.

Lemma skip_ws_head c t : is_ws c = false -> skip_ws (c :: t) = c :: t.
Proof. intros H. simpl. rewrite H. reflexivity. Qed.

Lemma skip_ws_spaces k t : skip_ws (repeat 32%N k ++ t) = skip_ws t.
Proof. induction k as [|k IH]; simpl; [reflexivity | exact IH]. Qed.

Lemma skip_ws_newline_indent n level t :
  skip_ws (newline_indent n level ++ t) = skip_ws t.
Proof. unfold newline_indent. simpl. apply skip_ws_spaces. Qed.

Lemma numeral_char_plain (c : N) :
  numeral_char c = true ->
  is_ws c = false /\ N.eqb c 93 = false /\ N.eqb c 34 = false
  /\ N.eqb c 123 = false /\ N.eqb c 91 = false.
Proof.
  unfold numeral_char, is_ws. intros H.
  repeat match goal with
         | |- context [N.eqb c ?k] =>
             destruct (N.eqb_spec c k); [subst; discriminate H|]
         end.
  repeat split.
Qed.

Section RoundTrip.

Variable L : Limits.
Variable float_repr : str -> str.
Variable n : nat.

Abbreviation enc := (iterencode float_repr n).

(** The encoding of a value begins with a character that is no white
    space and closes no array. *)
Lemma encode_head (v : json) (level : nat) :
  json_ok v = true ->
  exists c t, enc level v = c :: t /\ is_ws c = false /\ N.eqb c 93 = false.
Proof.
  destruct v as [| [|] | z | l | s | [|x items] | [|kv members]]; simpl; intros H;
    try discriminate;
    try (eexists; eexists; split; [reflexivity | split; reflexivity]).
  destruct (str_of_int_head z) as (c & t & E & Hc).
  exists c, t. destruct (numeral_char_plain c Hc) as (H1 & H2 & _). auto.
Qed.

Lemma skip_ws_encode (v : json) (level : nat) (t : str) :
  json_ok v = true -> skip_ws (enc level v ++ t) = enc level v ++ t.
Proof.
  intros H. destruct (encode_head v level H) as (c & u & E & Hws & _).
  rewrite E. cbn [app]. apply skip_ws_head. exact Hws.
Qed.

(** A value is decoded from its encoding, whatever follows it. *)
Definition scans (v : json) : Prop :=
  json_ok v = true ->
  forall d level rest fuel,
    (size v <= fuel)%nat -> (depth v <= d)%nat -> accepted L v = true ->
    number_end rest = true ->
    scan_once L fuel d (enc level v ++ rest) = Value v rest.

Lemma join_cons_app (sep e : str) (es : list str) (t : str) :
  exists u, join sep (e :: es) ++ t = e ++ u.
Proof.
  destruct es as [|e' es].
  - exists t. reflexivity.
  - exists (sep ++ join sep (e' :: es) ++ t).
    change (join sep (e :: e' :: es)) with (e ++ sep ++ join sep (e' :: es)).
    rewrite <- !app_assoc. reflexivity.
Qed.

Lemma scan_array_encoded (items : list json) :
  Forall scans items -> forallb json_ok items = true -> items <> [] ->
  forall d level rest fuel,
    (List.length items + list_sum (map size items) <= fuel)%nat ->
    Forall (fun x => (depth x <= d)%nat) items ->
    Forall (fun x => accepted L x = true) items ->
    scan_array L fuel d
      (join (py "," ++ newline_indent n (S level)) (map (enc (S level)) items)
       ++ newline_indent n level ++ py "]" ++ rest)
    = Value items rest.
Proof.
  induction items as [|v vs IH];
    intros HP Hok Hne d level rest fuel Hfuel Hdepth Hints; [congruence|].
  inversion HP as [|? ? Hv Hvs]; subst.
  inversion Hdepth as [|? ? Hdv Hdvs]; subst.
  inversion Hints as [|? ? Hiv Hivs]; subst.
  cbn [forallb] in Hok. apply andb_true_iff in Hok. destruct Hok as [Hokv Hokvs].
  simpl in Hfuel.
  destruct fuel as [|fuel]; [lia|].
  destruct vs as [|v' vs'].
  - cbn [map join].
    apply scan_array_last with (r := newline_indent n level ++ py "]" ++ rest).
    + apply Hv; [assumption | simpl in Hfuel; lia | assumption | assumption | reflexivity].
    + rewrite skip_ws_newline_indent. reflexivity.
  - change (join (py "," ++ newline_indent n (S level))
              (map (enc (S level)) (v :: v' :: vs')))
      with (enc (S level) v ++ (py "," ++ newline_indent n (S level))
            ++ join (py "," ++ newline_indent n (S level))
                 (map (enc (S level)) (v' :: vs'))).
    rewrite <- !app_assoc.
    apply scan_array_more
      with (r := py "," ++ newline_indent n (S level)
                 ++ join (py "," ++ newline_indent n (S level))
                      (map (enc (S level)) (v' :: vs'))
                 ++ newline_indent n level ++ py "]" ++ rest)
           (r1 := newline_indent n (S level)
                  ++ join (py "," ++ newline_indent n (S level))
                       (map (enc (S level)) (v' :: vs'))
                  ++ newline_indent n level ++ py "]" ++ rest).
    + apply Hv; [assumption | lia | assumption | assumption | reflexivity].
    + reflexivity.
    + rewrite skip_ws_newline_indent.
      assert (Hhead : skip_ws
                (join (py "," ++ newline_indent n (S level))
                   (map (enc (S level)) (v' :: vs'))
                 ++ newline_indent n level ++ py "]" ++ rest)
              = join (py "," ++ newline_indent n (S level))
                  (map (enc (S level)) (v' :: vs'))
                ++ newline_indent n level ++ py "]" ++ rest).
      { cbn [map].
        destruct (join_cons_app (py "," ++ newline_indent n (S level))
                    (enc (S level) v') (map (enc (S level)) vs')
                    (newline_indent n level ++ py "]" ++ rest)) as (u & Eu).
        rewrite Eu. apply skip_ws_encode.
        cbn [forallb] in Hokvs. apply andb_true_iff in Hokvs. tauto. }
      rewrite Hhead.
      apply IH; [assumption | assumption | discriminate | | assumption | assumption].
      simpl in Hfuel |- *. lia.
Qed.

Lemma scan_object_encoded (members : dict json) :
  Forall (fun kv => scans (snd kv)) members ->
  forallb (fun kv => str_ok (fst kv) && json_ok (snd kv)) members = true ->
  members <> [] ->
  forall d level rest fuel,
    (List.length members + list_sum (map (fun kv => size (snd kv)) members)
     <= fuel)%nat ->
    Forall (fun kv => (depth (snd kv) <= d)%nat) members ->
    Forall (fun kv => accepted L (snd kv) = true) members ->
    exists T,
      join (py "," ++ newline_indent n (S level))
        (map (fun kv => encode_basestring_ascii (fst kv) ++ py ": "
                        ++ enc (S level) (snd kv)) members)
      ++ newline_indent n level ++ py "}" ++ rest
      = 34%N :: T /\
      scan_object L fuel d T = Value members rest.
Proof.
  induction members as [|[k v] ms IH];
    intros HP Hok Hne d level rest fuel Hfuel Hdepth Hints; [congruence|].
  inversion HP as [|? ? Hv Hms]; subst. cbn [snd] in Hv.
  inversion Hdepth as [|? ? Hdv Hdms]; subst. cbn [snd] in Hdv.
  inversion Hints as [|? ? Hiv Hims]; subst. cbn [snd] in Hiv.
  cbn [forallb fst snd] in Hok. apply andb_true_iff in Hok.
  destruct Hok as [Hokkv Hokms]. apply andb_true_iff in Hokkv.
  destruct Hokkv as [Hokk Hokv].
  simpl in Hfuel.
  destruct fuel as [|fuel]; [lia|].
  destruct ms as [|[k' v'] ms'].
  - exists (flat_map escape_char k
            ++ 34%N :: 58%N :: 32%N
               :: enc (S level) v ++ newline_indent n level ++ py "}" ++ rest).
    split.
    + cbn [map join fst snd]. unfold encode_basestring_ascii.
      cbn [app]. rewrite <- !app_assoc. reflexivity.
    + apply scan_object_last
        with (r := 58%N :: 32%N :: enc (S level) v
                   ++ newline_indent n level ++ py "}" ++ rest)
             (r1 := 32%N :: enc (S level) v
                    ++ newline_indent n level ++ py "}" ++ rest)
             (r2 := newline_indent n level ++ py "}" ++ rest).
      * apply scanstring_escaped. exact Hokk.
      * reflexivity.
      * change (skip_ws (32%N :: enc (S level) v
                         ++ newline_indent n level ++ py "}" ++ rest))
          with (skip_ws (enc (S level) v
                         ++ newline_indent n level ++ py "}" ++ rest)).
        rewrite skip_ws_encode by assumption.
        apply Hv; [assumption | lia | assumption | assumption | reflexivity].
      * rewrite skip_ws_newline_indent. reflexivity.
  - destruct (IH Hms Hokms ltac:(discriminate) d level rest fuel
                ltac:(simpl in Hfuel |- *; lia) Hdms Hims) as (T' & ET' & HT').
    change (map (fun kv => encode_basestring_ascii (fst kv) ++ py ": "
                           ++ enc (S level) (snd kv)) ((k, v) :: (k', v') :: ms'))
      with ((encode_basestring_ascii k ++ py ": " ++ enc (S level) v)
            :: map (fun kv => encode_basestring_ascii (fst kv) ++ py ": "
                              ++ enc (S level) (snd kv)) ((k', v') :: ms')).
    set (J := map (fun kv => encode_basestring_ascii (fst kv) ++ py ": "
                             ++ enc (S level) (snd kv)) ((k', v') :: ms')) in *.
    assert (EJ : exists e es, J = e :: es) by (eexists; eexists; reflexivity).
    destruct EJ as (e & es & EJ). rewrite EJ in *.
    change (join (py "," ++ newline_indent n (S level))
              ((encode_basestring_ascii k ++ py ": " ++ enc (S level) v) :: e :: es))
      with ((encode_basestring_ascii k ++ py ": " ++ enc (S level) v)
            ++ (py "," ++ newline_indent n (S level))
            ++ join (py "," ++ newline_indent n (S level)) (e :: es)).
    exists (flat_map escape_char k
            ++ 34%N :: 58%N :: 32%N
               :: enc (S level) v ++ 44%N :: newline_indent n (S level) ++ 34%N :: T').
    split.
    + unfold encode_basestring_ascii. rewrite <- !app_assoc. cbn [app].
      rewrite <- !app_assoc. cbn [app]. rewrite <- ET'. reflexivity.
    + apply scan_object_more
        with (r := 58%N :: 32%N :: enc (S level) v
                   ++ 44%N :: newline_indent n (S level) ++ 34%N :: T')
             (r1 := 32%N :: enc (S level) v
                    ++ 44%N :: newline_indent n (S level) ++ 34%N :: T')
             (r2 := 44%N :: newline_indent n (S level) ++ 34%N :: T')
             (r3 := newline_indent n (S level) ++ 34%N :: T')
             (r4 := T').
      * apply scanstring_escaped. exact Hokk.
      * reflexivity.
      * change (skip_ws (32%N :: enc (S level) v
                         ++ 44%N :: newline_indent n (S level) ++ 34%N :: T'))
          with (skip_ws (enc (S level) v
                         ++ 44%N :: newline_indent n (S level) ++ 34%N :: T')).
        rewrite skip_ws_encode by assumption.
        apply Hv; [assumption | lia | assumption | assumption | reflexivity].
      * reflexivity.
      * rewrite skip_ws_newline_indent. reflexivity.
      * exact HT'.
Qed.

Theorem scan_encoded (v : json) : scans v.
Proof.
  induction v as [| b | z | literal | s | items IH | members IH] using json_induction;
    intros Hok d level rest fuel Hfuel Hdepth Hints Hrest;
    (destruct fuel as [|fuel]; [simpl in Hfuel; lia|]).
  - reflexivity.
  - destruct b; reflexivity.
  - destruct (str_of_int_head z) as (c & t & E & Hc).
    destruct (numeral_char_plain c Hc) as (_ & _ & H34 & H123 & H91).
    cbn [iterencode]. rewrite E. cbn [app].
    rewrite scan_once_atom by assumption.
    change (c :: t ++ rest) with ((c :: t) ++ rest). rewrite <- E.
    apply scan_number_int; [exact Hrest|].
    unfold accepted in Hints. cbn [integers forallb] in Hints.
    rewrite andb_true_r, negb_true_iff in Hints. exact Hints.
  - discriminate.
  - cbn [iterencode]. unfold encode_basestring_ascii. cbn [app].
    apply scan_once_string. rewrite <- app_assoc. apply scanstring_escaped. exact Hok.
  - destruct d as [|d]; [cbn [depth] in Hdepth; lia|].
    destruct items as [|x items]; [reflexivity|].
    cbn [json_ok] in Hok. cbn [size] in Hfuel.
    change (enc level (JArr (x :: items)))
      with (py "[" ++ newline_indent n (S level)
            ++ join (py "," ++ newline_indent n (S level))
                 (map (enc (S level)) (x :: items))
            ++ newline_indent n level ++ py "]").
    rewrite <- !app_assoc. change (py "[") with [91%N]. cbn [app].
    assert (Hitems := @scan_array_encoded (x :: items) IH Hok ltac:(discriminate)
                        d level rest fuel ltac:(lia)
                        (depth_items Hdepth) (@accepted_items L _ Hints)).
    destruct (join_cons_app (py "," ++ newline_indent n (S level))
                (enc (S level) x) (map (enc (S level)) items)
                (newline_indent n level ++ py "]" ++ rest)) as (u & Eu).
    destruct (encode_head x (S level)) as (c & t & Ec & Hws & H93).
    { cbn [forallb] in Hok. apply andb_true_iff in Hok. tauto. }
    cbn [map] in Hitems |- *. rewrite Eu, Ec in Hitems |- *. cbn [app] in Hitems |- *.
    apply scan_once_array with (c1 := c) (r1 := t ++ u).
    + rewrite skip_ws_newline_indent. apply skip_ws_head. exact Hws.
    + exact H93.
    + exact Hitems.
  - destruct d as [|d]; [cbn [depth] in Hdepth; lia|].
    destruct members as [|kv members]; [reflexivity|].
    cbn [json_ok] in Hok. apply andb_true_iff in Hok. destruct Hok as [Hok Hnd].
    cbn [size] in Hfuel.
    change (enc level (JObj (kv :: members)))
      with (py "{" ++ newline_indent n (S level)
            ++ join (py "," ++ newline_indent n (S level))
                 (map (fun kv => encode_basestring_ascii (fst kv) ++ py ": "
                                 ++ enc (S level) (snd kv)) (kv :: members))
            ++ newline_indent n level ++ py "}").
    rewrite <- !app_assoc.
    destruct (@scan_object_encoded (kv :: members) IH Hok ltac:(discriminate)
                d level rest fuel ltac:(lia)
                (depth_members Hdepth) (@accepted_members L _ Hints)) as (T & ET & HT).
    rewrite ET.
    change (py "{" ++ newline_indent n (S level) ++ 34%N :: T)
      with (123%N :: (newline_indent n (S level) ++ 34%N :: T)).
    rewrite <- (@dict_of_pairs_distinct json (kv :: members) Hnd).
    apply scan_once_object with (r1 := T).
    + rewrite skip_ws_newline_indent. reflexivity.
    + exact HT.
Qed.

End RoundTrip.

(** *** Decoding an encoded value *)

(** [decode] reads a value from its encoding, when the value is nested no
    deeper than the decoder may go and [int] accepts its integers. *)
Lemma decode_dumps (L : Limits) (float_repr : str -> str) (n : nat) (v : json) :
  json_ok v = true -> fits L v = true ->
  decode L (dumps float_repr n v) = Value v [].
Proof.
  intros Hok Hfits. unfold fits in Hfits.
  apply andb_true_iff in Hfits. destruct Hfits as [Hdepth Hints].
  apply Nat.leb_le in Hdepth.
  unfold decode, dumps.
  set (s := iterencode float_repr n 0 v).
  assert (Hws : skip_ws s = s).
  { unfold s. rewrite <- (List.app_nil_r (iterencode float_repr n 0 v)).
    apply skip_ws_encode. exact Hok. }
  rewrite Hws.
  assert (Hv : scan_once L (size v) (max_depth L) s = Value v []).
  { unfold s. rewrite <- (List.app_nil_r (iterencode float_repr n 0 v)).
    apply (@scan_encoded L float_repr n v Hok (max_depth L) 0%nat [] (size v));
      [lia | exact Hdepth | exact Hints | reflexivity]. }
  pose proof (proj1 (scan_steps L (size v)) _ _ _ Hv ltac:(discriminate)
                (Nat.max (size v) (fuel_for s)) (Nat.le_max_l _ _)) as H1.
  destruct (scan_once L (fuel_for s) (max_depth L) s) as [v' r'| |o|k|] eqn:E.
  - pose proof (proj1 (scan_steps L (fuel_for s)) _ _ _ E ltac:(discriminate)
                  (Nat.max (size v) (fuel_for s)) (Nat.le_max_r _ _)) as H2.
    rewrite H1 in H2. inversion H2; subst. reflexivity.
  - pose proof (proj1 (scan_steps L (fuel_for s)) _ _ _ E ltac:(discriminate)
                  (Nat.max (size v) (fuel_for s)) (Nat.le_max_r _ _)) as H2.
    rewrite H1 in H2. discriminate.
  - pose proof (proj1 (scan_steps L (fuel_for s)) _ _ _ E ltac:(discriminate)
                  (Nat.max (size v) (fuel_for s)) (Nat.le_max_r _ _)) as H2.
    rewrite H1 in H2. discriminate.
  - pose proof (proj1 (scan_steps L (fuel_for s)) _ _ _ E ltac:(discriminate)
                  (Nat.max (size v) (fuel_for s)) (Nat.le_max_r _ _)) as H2.
    rewrite H1 in H2. discriminate.
  - exfalso.
    pose proof (proj1 (scan_agrees L (fuel_for s)) (max_depth L) s) as Ha.
    rewrite E in Ha. unfold agrees in Ha.
    apply (proj1 (scan_enough_fuel (fuel_for s)) s); [unfold fuel_for; lia | exact Ha].
Qed.

(** [json.loads(json.dumps(v, indent=n))] is [v], for a value without
    floats whose strings and keys are well formed, within the limits of
    the interpreter. *)
Lemma loads_dumps (L : Limits) (float_repr : str -> str) (n : nat) (v : json) :
  json_ok v = true -> fits L v = true -> loads L (dumps float_repr n v) = Return v.
Proof.
  intros Hok Hfits. unfold loads. rewrite (@decode_dumps L float_repr n v Hok Hfits).
  reflexivity.
Qed.

(** Where [int] has no limit, it accepts every integer. *)
Lemma accepted_no_limit (d : nat) (v : json) :
  accepted {| max_depth := d; int_max_str_digits := 0 |} v = true.
Proof.
  unfold accepted. apply forallb_forall. intros z _.
  unfold exceeds. cbn [int_max_str_digits]. rewrite andb_false_r. reflexivity.
Qed.

(** The encoding of a value is a JSON text, and a text of that value. *)
Lemma parse_dumps (float_repr : str -> str) (n : nat) (v : json) :
  json_ok v = true -> parse_text (dumps float_repr n v) = Scanned v [].
Proof.
  intros Hok.
  pose (L := {| max_depth := depth v; int_max_str_digits := 0 |}).
  assert (Hfits : fits L v = true).
  { unfold fits. apply andb_true_iff. split.
    - apply Nat.leb_le. apply Nat.le_refl.
    - exact (accepted_no_limit (depth v) v). }
  pose proof (decode_agrees L (dumps float_repr n v)) as H.
  rewrite (@decode_dumps L float_repr n v Hok Hfits) in H. exact H.
Qed.

Lemma process_video_returns cv video_path output_dir frame_paths tr :
  process_video cv video_path output_dir = (Return frame_paths, tr) ->
  let cap := cv2_VideoCapture cv video_path in
  let r := extract_frames cap output_dir
             (range 0 (int_of_float (duration_of cap)) 5) [] in
  frame_paths = fst r /\
  tr = CallMkdir output_dir :: CallVideoCapture video_path :: snd r ++ [CallRelease].
Proof.
  unfold process_video.
  destruct (fs_mkdir cv output_dir); [discriminate|].
  destruct (isOpened (cv2_VideoCapture cv video_path)); simpl; [|discriminate].
  destruct (Qeq_bool _ 0); [discriminate|].
  destruct (is_inf _); [discriminate|].
  destruct (extract_frames _ _ _ _) as [d tr']. simpl.
  intros H. inversion H. auto.
Qed.

(** C2 (as amended).  For every sampling offset [t] at which the decoder
    yields a frame, the frame is written to the image file
    [frame_<t>.jpg] directly under the output directory, and the frame is
    returned to the caller under the key [video_<t>s], whose value is the
    path of that file. *)
Theorem process_video_frame_file cv video_path output_dir frame_paths tr t frame :
  process_video cv video_path output_dir = (Return frame_paths, tr) ->
  In t (attempted_offsets tr) ->
  read_at (cv2_VideoCapture cv video_path) (t * 1000) = Some frame ->
  let frame_path :=
    Path_str (Path_div (mkPath output_dir)
                (py "frame_" ++ str_of_int t ++ py ".jpg")) in
  In (frame_path, frame) (written_files tr) /\
  parts (mkPath frame_path)
  = parts (mkPath output_dir) ++ [py "frame_" ++ str_of_int t ++ py ".jpg"] /\
  Path_name (mkPath frame_path) = py "frame_" ++ str_of_int t ++ py ".jpg" /\
  dict_get frame_paths (py "video_" ++ str_of_int t ++ py "s") = Some frame_path.
Proof.
  intros Hrun Hin Hread frame_path.
  apply process_video_returns in Hrun. destruct Hrun as [-> ->].
  simpl in Hin. rewrite attempted_offsets_app, extract_frames_offsets in Hin.
  simpl in Hin. rewrite List.app_nil_r in Hin.
  repeat split.
  - simpl. rewrite written_files_app. apply in_or_app. left.
    apply (extract_frames_written _ _ _ _ _ Hin Hread).
  - apply frame_path_parts.
  - apply frame_path_name.
  - apply (extract_frames_get _ _ _ _ _ Hin Hread).
Qed.

Lemma process_video_frame_file_witness :
  exists frame_paths tr,
    process_video (Scenario.cv_of Scenario.cap_12s) (py "walk.mp4")
      (py "extracted_frames") = (Return frame_paths, tr) /\
    In 5 (attempted_offsets tr) /\
    read_at Scenario.cap_12s (5 * 1000) = Some [5000%N] /\
    In (py "extracted_frames/frame_5.jpg", [5000%N]) (written_files tr) /\
    dict_get frame_paths (py "video_5s") = Some (py "extracted_frames/frame_5.jpg").
Proof.
  eexists. eexists.
  assert (Hrun : process_video (Scenario.cv_of Scenario.cap_12s) (py "walk.mp4")
                   (py "extracted_frames") = (Return _, _))
    by (vm_compute; reflexivity).
  assert (Hin : In 5 (attempted_offsets
                        (snd (process_video (Scenario.cv_of Scenario.cap_12s)
                                (py "walk.mp4") (py "extracted_frames")))))
    by (vm_compute; auto).
  rewrite Hrun in Hin. simpl snd in Hin.
  assert (Hread : read_at Scenario.cap_12s (5 * 1000) = Some [5000%N])
    by reflexivity.
  destruct (process_video_frame_file (Scenario.cv_of Scenario.cap_12s)
              (py "walk.mp4") (py "extracted_frames") 5 Hrun Hin Hread)
    as (Hw & _ & _ & Hget).
  split; [exact Hrun|]. split; [exact Hin|]. split; [exact Hread|].
  split; [exact Hw | exact Hget].
Defined.

(** C2, the claim as stated, fails: in a 12-second video the frame at
    offset 5 is decoded, yet no file named [frame_5] is written (the file is
    [frame_5.jpg]) and the returned map has no key [frame_5] (the key is
    [video_5s]). *)
Lemma process_video_frame_id_counterexample :
  let cv := Scenario.cv_of Scenario.cap_12s in
  let r := process_video cv (py "walk.mp4") (py "extracted_frames") in
  exists frame_paths,
    fst r = Return frame_paths /\
    In 5 (attempted_offsets (snd r)) /\
    read_at (cv2_VideoCapture cv (py "walk.mp4")) (5 * 1000) = Some [5000%N] /\
    map (fun w => Path_name (mkPath (fst w))) (written_files (snd r))
    = [py "frame_0.jpg"; py "frame_5.jpg"; py "frame_10.jpg"] /\
    keys frame_paths = [py "video_0s"; py "video_5s"; py "video_10s"] /\
    dict_get frame_paths (py "frame_5") = None.
Proof.
  intros cv r. eexists.
  split; [vm_compute; reflexivity|]. split; [vm_compute; auto|].
  split; [reflexivity|]. split; [vm_compute; reflexivity|].
  split; vm_compute; reflexivity.
Qed.

(** C3 (as amended).  The interval is fixed at 5 seconds.  For a video of
    duration [D], the frame count divided by the frame rate as the code
    divides them (two floats, the quotient rounded to the nearest double),
    sampling attempts extraction at exactly the offsets 0, 5, 10, ...
    strictly below [int(D)], the duration truncated to whole seconds: the
    attempts are [ceil(int(D) / 5)] in number (none when [D < 1]), and no
    attempted offset is greater than or equal to [D].  When the quotient is
    an infinity, [int(D)] raises OverflowError and nothing is attempted. *)
Theorem process_video_offsets cv video_path output_dir :
  fs_mkdir cv output_dir = None ->
  isOpened (cv2_VideoCapture cv video_path) = true ->
  ~ (CAP_PROP_FPS (cv2_VideoCapture cv video_path) == 0)%Q ->
  let cap := cv2_VideoCapture cv video_path in
  let D := float_div (inject_Z (int_of_float (CAP_PROP_FRAME_COUNT cap)))
             (CAP_PROP_FPS cap) in
  let attempts := attempted_offsets (snd (process_video cv video_path output_dir)) in
  (is_inf D = false ->
   attempts = range 0 (int_of_float D) 5 /\
   (forall t, In t attempts <-> 0 <= t < int_of_float D /\ t mod 5 = 0) /\
   Z.of_nat (List.length attempts)
   = Z.max 0 (Qceiling (inject_Z (int_of_float D) / 5)) /\
   (forall t, In t attempts -> (inject_Z t < D)%Q)) /\
  (is_inf D = true ->
   attempts = [] /\
   fst (process_video cv video_path output_dir)
   = Raise (OverflowError (py "cannot convert float infinity to integer"))).
Proof.
  intros Hdir Hopen Hfps cap D attempts. split.
  - intros Hfin.
    assert (E : attempts = range 0 (int_of_float D) 5).
    { unfold attempts. rewrite (process_video_run _ _ _ Hdir Hopen Hfps Hfin). simpl.
      rewrite attempted_offsets_app, extract_frames_offsets. simpl.
      apply List.app_nil_r. }
    rewrite E. split; [reflexivity|]. split; [intros t; apply range_In|].
    split; [apply range_length|].
    intros t Ht. apply range_In in Ht. destruct Ht as [[H0 Hlt] _].
    apply Qlt_le_trans with (inject_Z (int_of_float D)).
    + rewrite <- Zlt_Qlt. assumption.
    + apply int_of_float_le. lia.
  - intros Hinf. unfold attempts, process_video. rewrite Hdir, Hopen. simpl.
    destruct (Qeq_bool (CAP_PROP_FPS (cv2_VideoCapture cv video_path)) 0) eqn:E.
    { apply Qeq_bool_iff in E. contradiction. }
    change (duration_of (cv2_VideoCapture cv video_path)) with D.
    rewrite Hinf. split; reflexivity.
Qed.

(** A video of 144000 frames at 24000/1001 frames per second, the rate
    being the double nearest to that number: the quotient of the two is
    just below 6006, the quotient of the two floats is 6006.0, and the code
    samples 1202 offsets, the last of them 6005. *)
Lemma process_video_offsets_witness :
  let cv := Scenario.cv_of Scenario.cap_ntsc in
  let cap := Scenario.cap_ntsc in
  let attempts :=
    attempted_offsets (snd (process_video cv (py "walk.mp4") (py "extracted_frames"))) in
  (inject_Z (int_of_float (CAP_PROP_FRAME_COUNT cap)) / CAP_PROP_FPS cap < 6006)%Q /\
  (float_div (inject_Z (int_of_float (CAP_PROP_FRAME_COUNT cap))) (CAP_PROP_FPS cap)
   == 6006)%Q /\
  attempts = range 0 6006 5 /\
  List.length attempts = 1202%nat /\
  In 6005 attempts.
Proof.
  intros cv cap attempts.
  assert (Hfps : ~ (CAP_PROP_FPS (cv2_VideoCapture cv (py "walk.mp4")) == 0)%Q)
    by (intros H; vm_compute in H; discriminate).
  destruct (process_video_offsets cv (py "walk.mp4") (py "extracted_frames")
              eq_refl eq_refl Hfps) as [Hfin _].
  specialize (Hfin ltac:(vm_compute; reflexivity)).
  destruct Hfin as (Hrange & Hin & _ & _).
  assert (Hint : int_of_float
                   (float_div (inject_Z (int_of_float (CAP_PROP_FRAME_COUNT cap)))
                      (CAP_PROP_FPS cap)) = 6006) by (vm_compute; reflexivity).
  change (cv2_VideoCapture cv (py "walk.mp4")) with cap in Hrange, Hin.
  rewrite Hint in Hrange, Hin. fold attempts in Hrange, Hin.
  split; [vm_compute; reflexivity|]. split; [vm_compute; reflexivity|].
  split; [exact Hrange|]. split.
  - rewrite Hrange. vm_compute. reflexivity.
  - apply (proj2 (Hin 6005)). split; [lia | reflexivity].
Defined.

(** C3, the claim as stated, fails: a video of 10.5 seconds is sampled at
    offsets 0 and 5 only, two attempts where [ceil(10.5 / 5)] is three, and
    offset 10, which is below the duration, is not attempted. *)
Lemma process_video_offsets_counterexample :
  let cap := Scenario.cap_10s5 in
  let attempts :=
    attempted_offsets
      (snd (process_video (Scenario.cv_of cap) (py "walk.mp4") (py "extracted_frames"))) in
  (duration_of cap == 21 # 2)%Q /\
  attempts = [0; 5] /\
  Qceiling (duration_of cap / 5) = 3 /\
  (inject_Z 10 < duration_of cap)%Q /\
  ~ In 10 attempts.
Proof.
  intros cap attempts.
  split; [vm_compute; reflexivity|]. split; [vm_compute; reflexivity|].
  split; [vm_compute; reflexivity|]. split; [vm_compute; reflexivity|].
  vm_compute. intros [H|[H|[]]]; discriminate.
Qed.

(** C7 (as amended).  Frame sampling raises an error (a [ValueError] that
    names the file) when the video file cannot be opened, and returns no
    frame map then.  A video that opens with zero duration raises nothing:
    the empty frame map is returned. *)
Theorem process_video_unopened_or_empty cv video_path output_dir :
  fs_mkdir cv output_dir = None ->
  (isOpened (cv2_VideoCapture cv video_path) = false ->
   fst (process_video cv video_path output_dir)
   = Raise (ValueError (py "Could not open video file: " ++ video_path))) /\
  (isOpened (cv2_VideoCapture cv video_path) = true ->
   ~ (CAP_PROP_FPS (cv2_VideoCapture cv video_path) == 0)%Q ->
   (duration_of (cv2_VideoCapture cv video_path) == 0)%Q ->
   fst (process_video cv video_path output_dir) = Return []).
Proof.
  intros Hdir. split.
  - intros Hopen. unfold process_video. rewrite Hdir, Hopen. reflexivity.
  - intros Hopen Hfps Hzero.
    rewrite (process_video_run _ _ _ Hdir Hopen Hfps (is_inf_zero Hzero)). simpl.
    assert (E : int_of_float (duration_of (cv2_VideoCapture cv video_path)) = 0).
    { destruct (duration_of (cv2_VideoCapture cv video_path)) as [a b].
      unfold Qeq in Hzero. simpl in Hzero. unfold int_of_float. simpl.
      assert (a = 0) by lia. subst. apply Z.quot_0_l. lia. }
    rewrite E. reflexivity.
Qed.

Lemma process_video_unopened_or_empty_witness :
  fst (process_video (Scenario.cv_of Scenario.cap_closed) (py "walk.mp4")
         (py "extracted_frames"))
  = Raise (ValueError (py "Could not open video file: walk.mp4")) /\
  fst (process_video (Scenario.cv_of Scenario.cap_empty) (py "walk.mp4")
         (py "extracted_frames"))
  = Return [].
Proof.
  split.
  - exact (proj1 (process_video_unopened_or_empty
                    (Scenario.cv_of Scenario.cap_closed) (py "walk.mp4")
                    (py "extracted_frames") eq_refl) eq_refl).
  - refine (proj2 (process_video_unopened_or_empty
                     (Scenario.cv_of Scenario.cap_empty) (py "walk.mp4")
                     (py "extracted_frames") eq_refl) eq_refl _ _).
    + intros H; vm_compute in H; discriminate.
    + reflexivity.
Defined.

(** C7, the claim as stated, fails: a video that opens and has zero
    duration makes [process_video] return the empty frame map, not fail. *)
Lemma process_video_zero_duration_counterexample :
  let cap := Scenario.cap_empty in
  isOpened cap = true /\
  (duration_of cap == 0)%Q /\
  fst (process_video (Scenario.cv_of cap) (py "walk.mp4") (py "extracted_frames"))
  = Return [].
Proof.
  intros cap. split; [reflexivity|].
  split; vm_compute; reflexivity.
Qed.

(** C8 (as amended).  During the loading of the reference standards, an
    upload that fails is printed and only omits its file: for any files
    whose successfully uploaded ones have pairwise distinct names,
    [_load_standards] does not raise and leaves a corpus that holds exactly
    the successfully uploaded files, under their names and in the order of
    enumeration; five files of which one fails to upload leave a corpus of
    the other four. *)
Theorem load_standards_partial_failure {W} (E : Collab W) (standards_dir : Path)
    (s : state W) :
  building_standards s = [] ->
  NoDup (map fst (successes (upload_results E (fs_rglob E standards_dir) (remote s)))) ->
  exists s',
    _load_standards E standards_dir s = (Return tt, s') /\
    building_standards s'
    = successes (upload_results E (fs_rglob E standards_dir) (remote s)) /\
    stdout s'
    = stdout s ++ failure_lines (py "Error loading standard ")
                    (upload_results E (fs_rglob E standards_dir) (remote s)).
Proof.
  intros Hempty Hnd.
  destruct (load_standards_run E standards_dir s) as (s' & Hrun & Hd & Ho).
  exists s'. split; [exact Hrun|]. split; [| exact Ho].
  rewrite Hd, Hempty. rewrite fold_set_fresh; [reflexivity | assumption |].
  intros k _ [].
Qed.

Lemma load_standards_partial_failure_witness :
  exists s',
    _load_standards Scenario.five_standards (mkPath (py "standards")) (new_state 0%nat 0)
    = (Return tt, s') /\
    keys (building_standards s')
    = [py "electrical.pdf"; py "plumbing.pdf"; py "fire.txt"; py "hvac.pdf"] /\
    stdout s' = [py "Error loading standard roofing.docx: upload failed"].
Proof.
  assert (Hnd : NoDup (map fst (successes
                  (upload_results Scenario.five_standards
                     (fs_rglob Scenario.five_standards (mkPath (py "standards")))
                     (remote (new_state 0%nat 0)))))).
  { vm_compute. repeat constructor; simpl; intuition discriminate. }
  destruct (load_standards_partial_failure Scenario.five_standards
              (mkPath (py "standards")) (new_state 0%nat 0) eq_refl Hnd)
    as (s' & Hrun & Hd & Ho).
  exists s'. split; [exact Hrun|]. rewrite Hd, Ho. split; reflexivity.
Defined.

(** C8, the claim as stated, fails: of three reference files, two of the
    same name in different folders upload and the third fails; loading does
    not raise, yet the corpus holds one file, not the two that were
    uploaded. *)
Lemma load_standards_same_name_counterexample :
  let E := Scenario.same_name_standards in
  let rs := upload_results E (fs_rglob E (mkPath (py "standards"))) 0%nat in
  exists s',
    _load_standards E (mkPath (py "standards")) (new_state 0%nat 0) = (Return tt, s') /\
    map (fun kv => file_name (snd kv)) (successes rs)
    = [py "files/standards/2019/code.pdf"; py "files/standards/2023/code.pdf"] /\
    map (fun kv => (fst kv, file_name (snd kv))) (building_standards s')
    = [(py "code.pdf", py "files/standards/2023/code.pdf")].
Proof.
  eexists. split; [vm_compute; reflexivity|]. split; reflexivity.
Qed.

Definition str_eq_dec : forall a b : str, {a = b} + {a <> b} := list_eq_dec N.eq_dec.

(** The dictionary after two uploads of the same name. *)
Lemma fold_set_same_name (d : dict File) r1 p1 f1 r2 p2 f2 r3 :
  Path_name p1 = Path_name p2 ->
  (forall p f, In (p, inr f) r3 -> Path_name p <> Path_name p2) ->
  NoDup (keys d) ->
  let d' := fold_left (fun d kv => dict_set d (fst kv) (snd kv))
              (successes (r1 ++ (p1, inr f1) :: r2 ++ (p2, inr f2) :: r3)) d in
  dict_get d' (Path_name p2) = Some f2 /\
  count_occ str_eq_dec (keys d') (Path_name p2) = 1%nat.
Proof.
  intros Hname Hlast Hnd d'. split.
  - unfold d'.
    replace (r1 ++ (p1, inr f1) :: r2 ++ (p2, inr f2) :: r3)
      with ((r1 ++ (p1, inr f1) :: r2) ++ [(p2, inr f2)] ++ r3)
      by (rewrite <- !app_assoc; reflexivity).
    rewrite !successes_app, !fold_set_app.
    rewrite fold_set_get_other.
    + simpl. apply dict_get_set_same.
    + intros Hin. apply successes_names in Hin. destruct Hin as (p & f & Hin & Hn).
      apply (Hlast p f Hin Hn).
  - apply NoDup_count_occ'.
    + apply fold_set_NoDup. assumption.
    + destruct (in_dec str_eq_dec (Path_name p2) (keys d')) as [Hin|Hnin]; [assumption|].
      exfalso. apply dict_get_None_keys in Hnin.
      assert (H : dict_get d' (Path_name p2) = Some f2).
      { unfold d'.
        replace (r1 ++ (p1, inr f1) :: r2 ++ (p2, inr f2) :: r3)
          with ((r1 ++ (p1, inr f1) :: r2) ++ [(p2, inr f2)] ++ r3)
          by (rewrite <- !app_assoc; reflexivity).
        rewrite !successes_app, !fold_set_app.
        rewrite fold_set_get_other.
        - simpl. apply dict_get_set_same.
        - intros Hin. apply successes_names in Hin. destruct Hin as (p & f & Hin & Hn).
          apply (Hlast p f Hin Hn). }
      congruence.
Qed.

Lemma failure_lines_two label r1 p1 (f1 : File) r2 p2 (f2 : File) r3 :
  failure_lines label (r1 ++ (p1, inr f1) :: r2 ++ (p2, inr f2) :: r3)
  = failure_lines label r1 ++ failure_lines label r2 ++ failure_lines label r3.
Proof.
  rewrite failure_lines_app. simpl. rewrite failure_lines_app. reflexivity.
Qed.

(** C10.  The dictionaries of reference standards and of user media are
    keyed by the bare file name.  When two files of the same name are both
    uploaded, in the standards tree or among the user's media, the
    dictionary ends with exactly one entry under that name, the handle of
    the later one (later files of that name apart), and nothing is printed
    for the replacement: the only lines printed are those of the uploads
    that failed and, among the user's media, those on the progress of the
    videos.  Among the user's media the two files may be documents, images
    or videos, in any list of media, the video and its frames that app.py
    sends among them: a video is stored under the name of its path once
    the service has processed it, and the dictionary is as said whether
    the run returns or a later video ends it.  Without a video in the list
    the run returns. *)
Theorem same_name_upload_replaces {W} (E : Collab W) r1 p1 f1 r2 p2 f2 r3 (s : state W) :
  Path_name p1 = Path_name p2 ->
  (forall p f, In (p, inr f) r3 -> Path_name p <> Path_name p2) ->
  (forall standards_dir,
     upload_results E (fs_rglob E standards_dir) (remote s)
     = r1 ++ (p1, inr f1) :: r2 ++ (p2, inr f2) :: r3 ->
     NoDup (keys (building_standards s)) ->
     exists s',
       _load_standards E standards_dir s = (Return tt, s') /\
       dict_get (building_standards s') (Path_name p2) = Some f2 /\
       count_occ str_eq_dec (keys (building_standards s')) (Path_name p2) = 1%nat /\
       stdout s' = stdout s
                   ++ failure_lines (py "Error loading standard ") r1
                   ++ failure_lines (py "Error loading standard ") r2
                   ++ failure_lines (py "Error loading standard ") r3) /\
  (forall fuel media_paths,
     media_results E fuel media_paths s
     = r1 ++ (p1, inr f1) :: r2 ++ (p2, inr f2) :: r3 ->
     NoDup (keys (user_data s)) ->
     exists r s' lines,
       upload_user_media E fuel media_paths s = (r, s') /\
       dict_get (user_data s') (Path_name p2) = Some f2 /\
       count_occ str_eq_dec (keys (user_data s')) (Path_name p2) = 1%nat /\
       stdout s' = stdout s ++ lines /\
       filter (fun line => negb (video_line line)) lines
       = failure_lines (py "Error loading user media ") r1
         ++ failure_lines (py "Error loading user media ") r2
         ++ failure_lines (py "Error loading user media ") r3 /\
       (Forall (fun path => supported (mkPath path) = true
                            \/ is_video (mkPath path) = false) media_paths ->
        r = Return tt /\
        lines = failure_lines (py "Error loading user media ") r1
                ++ failure_lines (py "Error loading user media ") r2
                ++ failure_lines (py "Error loading user media ") r3)).
Proof.
  intros Hname Hlast. split.
  - intros standards_dir Hrs Hnd.
    destruct (load_standards_run E standards_dir s) as (s' & Hrun & Hd & Ho).
    rewrite Hrs in Hd, Ho. rewrite failure_lines_two in Ho.
    destruct (fold_set_same_name (building_standards s) r1 p1 f1 r2 p2 f2 r3
                Hname Hlast Hnd) as [Hget Hcount].
    exists s'. rewrite Hd. auto.
  - intros fuel media_paths Hrs Hnd.
    destruct (upload_user_media_results E fuel media_paths s)
      as (Hd & lines & Ho & Hf).
    rewrite Hrs in Hd, Hf. rewrite failure_lines_two in Hf.
    destruct (fold_set_same_name (user_data s) r1 p1 f1 r2 p2 f2 r3
                Hname Hlast Hnd) as [Hget Hcount].
    exists (fst (upload_user_media E fuel media_paths s)),
      (snd (upload_user_media E fuel media_paths s)), lines.
    split; [apply surjective_pairing|].
    rewrite Hd. split; [exact Hget|]. split; [exact Hcount|].
    split; [exact Ho|]. split; [exact Hf|].
    intros Hplain.
    destruct (upload_user_media_plain E fuel s Hplain) as (Hr & Hout).
    split; [exact Hr|].
    rewrite Hrs, failure_lines_two, Ho in Hout.
    apply app_inv_head in Hout. exact Hout.
Qed.

Lemma same_name_upload_replaces_witness :
  let E := Scenario.same_name_standards in
  let media := [py "standards/2019/code.pdf"; py "standards/2023/code.pdf";
                py "standards/notes.txt"] in
  let later := Scenario.uploaded (py "standards/2023/code.pdf") ACTIVE in
  let V := Cases.ready_at_third in
  let batch := [py "/tmp/a/walk.mp4"; py "extracted_frames/frame_0.jpg";
                py "/tmp/b/walk.mp4"; py "extracted_frames/frame_5.jpg"] in
  let later_video := Scenario.uploaded (py "/tmp/b/walk.mp4") ACTIVE in
  (exists s1 s2,
     _load_standards E (mkPath (py "standards")) (new_state 0%nat 0) = (Return tt, s1) /\
     dict_get (building_standards s1) (py "code.pdf") = Some later /\
     count_occ str_eq_dec (keys (building_standards s1)) (py "code.pdf") = 1%nat /\
     stdout s1 = [py "Error loading standard notes.txt: upload failed"] /\
     upload_user_media E 0 media (new_state 0%nat 0) = (Return tt, s2) /\
     dict_get (user_data s2) (py "code.pdf") = Some later /\
     count_occ str_eq_dec (keys (user_data s2)) (py "code.pdf") = 1%nat /\
     stdout s2 = [py "Error loading user media notes.txt: upload failed"]) /\
  (exists s3,
     upload_user_media V 5 batch (new_state 0%nat 0) = (Return tt, s3) /\
     dict_get (user_data s3) (py "walk.mp4") = Some later_video /\
     count_occ str_eq_dec (keys (user_data s3)) (py "walk.mp4") = 1%nat /\
     filter (fun line => negb (video_line line)) (stdout s3) = []).
Proof.
  intros E media later V batch later_video. split.
  - pose (p1 := mkPath (py "standards/2019/code.pdf")).
    pose (p2 := mkPath (py "standards/2023/code.pdf")).
    pose (r3 := [(mkPath (py "standards/notes.txt"),
                  @inl str File (py "upload failed"))]).
    assert (Hlast : forall p f, In (p, inr f) r3 -> Path_name p <> Path_name p2).
    { intros p f [H|[]]. discriminate. }
    destruct (same_name_upload_replaces E []
                p1 (Scenario.uploaded (py "standards/2019/code.pdf") ACTIVE) []
                p2 later r3 (new_state 0%nat 0) eq_refl Hlast) as [Hstd Hmedia].
    destruct (Hstd (mkPath (py "standards")) eq_refl (NoDup_nil _))
      as (s1 & Hrun1 & Hget1 & Hcount1 & Hout1).
    assert (Hplain : Forall (fun path => supported (mkPath path) = true
                                         \/ is_video (mkPath path) = false) media).
    { repeat constructor. }
    destruct (Hmedia 0%nat media eq_refl (NoDup_nil _))
      as (r & s2 & lines & Hrun2 & Hget2 & Hcount2 & Hout2 & _ & Hret).
    destruct (Hret Hplain) as [Hr Hlines]. subst r lines.
    exists s1, s2.
    exact (conj Hrun1 (conj Hget1 (conj Hcount1 (conj Hout1
             (conj Hrun2 (conj Hget2 (conj Hcount2 Hout2))))))).
  - pose (p1 := mkPath (py "/tmp/a/walk.mp4")).
    pose (p2 := mkPath (py "/tmp/b/walk.mp4")).
    pose (f1 := {| file_name := py "files//tmp/a/walk.mp4";
                   file_uri := py "https://files//tmp/a/walk.mp4";
                   file_state := ACTIVE |}).
    pose (r2 := [(mkPath (py "extracted_frames/frame_0.jpg"),
                  @inr str File
                    (Scenario.uploaded (py "extracted_frames/frame_0.jpg") ACTIVE))]).
    pose (r3 := [(mkPath (py "extracted_frames/frame_5.jpg"),
                  @inr str File
                    (Scenario.uploaded (py "extracted_frames/frame_5.jpg") ACTIVE))]).
    assert (Hlast : forall p f, In (p, inr f) r3 -> Path_name p <> Path_name p2).
    { intros p f [H|[]]. inversion H; subst. discriminate. }
    destruct (same_name_upload_replaces V [] p1 f1 r2 p2 later_video r3
                (new_state 0%nat 0) eq_refl Hlast) as [_ Hmedia].
    destruct (Hmedia 5%nat batch ltac:(vm_compute; reflexivity) (NoDup_nil _))
      as (r & s3 & lines & Hrun & Hget & Hcount & Hout & Hf & _).
    assert (Hr : r = Return tt).
    { change r with (fst (r, s3)). rewrite <- Hrun. vm_compute. reflexivity. }
    subst r. exists s3.
    split; [exact Hrun|]. split; [exact Hget|]. split; [exact Hcount|].
    rewrite Hout. exact Hf.
Defined.

(** ** The upload of a video *)

(** [_upload_video] raises [ValueError("FAILED")] when the upload is
    accepted and the last state the service reports is [FAILED]. *)
Lemma upload_video_failed {W} (E : Collab W) fuel video_path (s : state W) f w f' s2 :
  upload_file E video_path (remote s) = (inr f, w) ->
  wait_processing E fuel f
    (snd (print (py "Completed upload: " ++ file_uri f)
            (called (CallUpload video_path) w 0
               (snd (print (py "Uploading video file...") s)))))
  = (Return f', s2) ->
  file_state f' = FAILED ->
  _upload_video E fuel video_path s = (Raise (ValueError (py "FAILED")), s2).
Proof.
  intros Hup Hwait Hfailed. unfold _upload_video, bind, genai_upload_file.
  simpl. rewrite Hup. simpl in *. rewrite Hwait, Hfailed. reflexivity.
Qed.

(** C4 (as amended).  When the remote service reports a processing failure
    for an uploaded video, [_upload_video] raises [ValueError("FAILED")] and
    the error leaves [upload_user_media] at once: the media listed after
    that video are not uploaded, the failed video is not stored, and the
    entries stored for the media listed before it remain as they were. *)
Theorem upload_user_media_failed_video {W} (E : Collab W) fuel pre v post
    (s s1 s2 : state W) :
  upload_user_media E fuel pre s = (Return tt, s1) ->
  supported (mkPath v) = false ->
  is_video (mkPath v) = true ->
  _upload_video E fuel (Path_str (mkPath v)) s1
  = (Raise (ValueError (py "FAILED")), s2) ->
  upload_user_media E fuel (pre ++ v :: post) s
  = (Raise (ValueError (py "FAILED")), s2) /\
  user_data s2 = user_data s1.
Proof.
  intros Hpre Hsup Hvid Hfail. split.
  - unfold upload_user_media in *. rewrite for_each_app, Hpre. simpl.
    unfold bind, upload_one. rewrite Hsup, Hvid, Hfail. reflexivity.
  - apply (upload_video_failing_user_data _ _ _ _ Hfail). discriminate.
Qed.

Lemma upload_user_media_failed_video_witness :
  let E := Scenario.failing_video in
  exists s1 s2,
    upload_user_media E 5 [py "site/plan.pdf"] (new_state 0%nat 0) = (Return tt, s1) /\
    _upload_video E 5 (py "walk.mp4") s1 = (Raise (ValueError (py "FAILED")), s2) /\
    upload_user_media E 5
      ([py "site/plan.pdf"] ++ py "walk.mp4" :: [py "frame_0.jpg"; py "frame_5.jpg"])
      (new_state 0%nat 0)
    = (Raise (ValueError (py "FAILED")), s2) /\
    keys (user_data s2) = [py "plan.pdf"].
Proof.
  intros E.
  pose (s1 := snd (upload_user_media E 5 [py "site/plan.pdf"] (new_state 0%nat 0))).
  pose (s2 := snd (_upload_video E 5 (py "walk.mp4") s1)).
  exists s1, s2.
  assert (Hpre : upload_user_media E 5 [py "site/plan.pdf"] (new_state 0%nat 0)
                 = (Return tt, s1)) by (vm_compute; reflexivity).
  assert (Hfail : _upload_video E 5 (Path_str (mkPath (py "walk.mp4"))) s1
                  = (Raise (ValueError (py "FAILED")), s2))
    by (vm_compute; reflexivity).
  destruct (@upload_user_media_failed_video nat E 5 [py "site/plan.pdf"]
              (py "walk.mp4") [py "frame_0.jpg"; py "frame_5.jpg"]
              (new_state 0%nat 0) s1 s2 Hpre eq_refl eq_refl Hfail)
    as [Hrun Hdata].
  split; [exact Hpre|]. split; [exact Hfail|]. split; [exact Hrun|].
  rewrite Hdata. reflexivity.
Defined.

(** C4, the claim as stated, fails: the service reports the video of a batch
    as failed; [upload_user_media] raises, the two frames listed after the
    video are never uploaded, and nothing is stored. *)
Lemma upload_user_media_failed_video_counterexample :
  let E := Scenario.failing_video in
  let r := upload_user_media E 5 [py "walk.mp4"; py "frame_0.jpg"; py "frame_5.jpg"]
             (new_state 0%nat 0) in
  fst r = Raise (ValueError (py "FAILED")) /\
  calls (snd r)
  = [CallUpload (py "walk.mp4");
     CallSleep 10; CallGetFile (py "files/walk.mp4");
     CallSleep 10; CallGetFile (py "files/walk.mp4")] /\
  user_data (snd r) = [].
Proof. repeat split. Qed.

(** ** The wait for the remote processing *)

(** A wait that ends within some number of rounds ends the same way
    within any larger number. *)
Lemma wait_processing_fuel_mono {W} (E : Collab W) fuel fuel' video_file
    (s s' : state W) r :
  wait_processing E fuel video_file s = (r, s') -> r <> Running ->
  (fuel <= fuel')%nat ->
  wait_processing E fuel' video_file s = (r, s').
Proof.
  revert fuel' video_file s. induction fuel as [|fuel IH]; intros fuel' f s H Hr Hle.
  - simpl in H. destruct fuel' as [|fuel']; [exact H|]. simpl.
    destruct (str_eqb _ _); [inversion H; subst; congruence | exact H].
  - destruct fuel' as [|fuel']; [lia|]. simpl in *.
    destruct (str_eqb _ _); [| exact H].
    unfold bind in *. simpl in *.
    destruct (genai_get_file E (file_name f) _) as [[f1| e |] s1]; try exact H.
    apply IH; [exact H | exact Hr | lia].
Qed.

Lemma processing_name : str_eqb (state_name PROCESSING) (py "PROCESSING") = true.
Proof. reflexivity. Qed.

Lemma wait_processing_running {W} (E : Collab W) :
  (forall name w, exists f w',
      get_file E name w = (inr f, w') /\ file_state f = PROCESSING) ->
  forall fuel video_file (s : state W),
    file_state video_file = PROCESSING ->
    exists s',
      wait_processing E fuel video_file s = (Running, s') /\
      now s' = now s + 10 * Z.of_nat fuel /\
      user_data s' = user_data s.
Proof.
  intros Hproc. induction fuel as [|fuel IH]; intros f s Hf;
    cbn [wait_processing]; rewrite Hf, processing_name.
  - exists s. split; [reflexivity|]. split; [simpl; lia | reflexivity].
  - unfold bind, genai_get_file. cbn [print time_sleep fst snd called remote].
    destruct (Hproc (file_name f) (sleep E 10 (remote s))) as (f1 & w1 & Hget & Hf1).
    rewrite Hget.
    destruct (IH f1 (called (CallGetFile (file_name f)) w1 0
                       (called (CallSleep 10) (sleep E 10 (remote s)) 10
                          (snd (print (py "Waiting for video to be processed.") s))))
                Hf1) as (s' & Hrun & Hnow & Hdata).
    exists s'. split; [exact Hrun|]. split.
    + rewrite Hnow. cbn [now called print snd]. rewrite Nat2Z.inj_succ. lia.
    + rewrite Hdata. reflexivity.
Qed.

Lemma upload_video_running {W} (E : Collab W) video_path (s : state W) f w :
  upload_file E video_path (remote s) = (inr f, w) ->
  file_state f = PROCESSING ->
  (forall name w, exists f' w',
      get_file E name w = (inr f', w') /\ file_state f' = PROCESSING) ->
  forall rounds, exists s',
    _upload_video E rounds video_path s = (Running, s') /\
    now s' = now s + 10 * Z.of_nat rounds /\
    user_data s' = user_data s.
Proof.
  intros Hup Hf Hproc rounds.
  destruct (wait_processing_running E Hproc rounds f
              (snd (print (py "Completed upload: " ++ file_uri f)
                      (called (CallUpload video_path) w 0
                         (snd (print (py "Uploading video file...") s))))) Hf)
    as (s' & Hrun & Hnow & Hdata).
  exists s'. split; [| split].
  - unfold _upload_video, bind, genai_upload_file.
    cbn [print fst snd remote]. rewrite Hup.
    cbn [print fst snd remote] in Hrun |- *. rewrite Hrun. reflexivity.
  - rewrite Hnow. cbn [now called print snd]. lia.
  - rewrite Hdata. reflexivity.
Qed.

(** C5 (as amended).  The wait of [_upload_video] has no bound: while the
    remote status is PROCESSING it sleeps 10 seconds and polls again, with
    no maximal wait and no [TimeoutError].  If the service reports
    PROCESSING at every poll, then whatever the number of rounds, the method
    is still in its loop after them, having slept 10 seconds in each, and
    the user's media are as before. *)
Theorem upload_video_waits_unbounded {W} (E : Collab W) video_path (s : state W) f w :
  upload_file E video_path (remote s) = (inr f, w) ->
  file_state f = PROCESSING ->
  (forall name w, exists f' w',
      get_file E name w = (inr f', w') /\ file_state f' = PROCESSING) ->
  forall rounds, exists s',
    _upload_video E rounds video_path s = (Running, s') /\
    now s' = now s + 10 * Z.of_nat rounds /\
    user_data s' = user_data s.
Proof. exact (@upload_video_running W E video_path s f w). Qed.

Lemma upload_video_waits_unbounded_witness :
  exists s',
    _upload_video Scenario.always_processing 360 (py "walk.mp4") (new_state 0%nat 0)
    = (Running, s') /\
    now s' = 3600 /\
    user_data s' = [].
Proof.
  assert (Hproc : forall name w, exists f' w',
             get_file Scenario.always_processing name w = (inr f', w')
             /\ file_state f' = PROCESSING).
  { intros name w. eexists. eexists. split; reflexivity. }
  exact (@upload_video_waits_unbounded nat Scenario.always_processing
           (py "walk.mp4") (new_state 0%nat 0)
           (Scenario.uploaded (py "walk.mp4") PROCESSING) 0%nat
           eq_refl eq_refl Hproc 360%nat).
Defined.

(** C5, the claim as stated, fails: with a service that keeps reporting
    PROCESSING the wait is still going on after an hour, without a
    [TimeoutError], and no number of rounds ends it. *)
Lemma upload_video_timeout_counterexample :
  let E := Scenario.always_processing in
  let r := _upload_video E 360 (py "walk.mp4") (new_state 0%nat 0) in
  fst r = Running /\
  now (snd r) = 3600 /\
  ~ (exists rounds e s',
        _upload_video E rounds (py "walk.mp4") (new_state 0%nat 0) = (Raise e, s')).
Proof.
  split; [vm_compute; reflexivity|]. split; [vm_compute; reflexivity|].
  intros (rounds & e & s' & H).
  assert (Hproc : forall name w, exists f' w',
             get_file Scenario.always_processing name w = (inr f', w')
             /\ file_state f' = PROCESSING).
  { intros name w. eexists. eexists. split; reflexivity. }
  destruct (@upload_video_running nat Scenario.always_processing
              (py "walk.mp4") (new_state 0%nat 0)
              (Scenario.uploaded (py "walk.mp4") PROCESSING) 0%nat
              eq_refl eq_refl Hproc rounds) as (s1 & Hrun & _).
  rewrite Hrun in H. discriminate.
Qed.

(** ** The cached reference corpus *)

Lemma cache_creations_app cs1 cs2 :
  cache_creations (cs1 ++ cs2) = (cache_creations cs1 + cache_creations cs2)%nat.
Proof. unfold cache_creations. rewrite filter_app, length_app. reflexivity. Qed.

(** The cache entry, the model bound to it, and the number of entries
    created so far. *)
Definition same_cache {W} (s s' : state W) : Prop :=
  cache s' = cache s /\ model s' = model s /\
  cache_creations (calls s') = cache_creations (calls s).

Lemma same_cache_refl {W} (s : state W) : same_cache s s.
Proof. repeat split. Qed.

Lemma same_cache_trans {W} (s1 s2 s3 : state W) :
  same_cache s1 s2 -> same_cache s2 s3 -> same_cache s1 s3.
Proof. unfold same_cache. intros (-> & -> & ->) (-> & -> & ->). auto. Qed.

Lemma same_cache_called {W} (c : call) (w : W) dt (s : state W) :
  cache_creations [c] = 0%nat -> same_cache s (called c w dt s).
Proof.
  intros Hc. repeat split. simpl. rewrite cache_creations_app, Hc. lia.
Qed.

Lemma run_op_same_cache {W} (E : Collab W) (o : op) (s : state W) :
  same_cache s (run_op E o s).
Proof.
  destruct o as [secs | fuel media_paths |]; simpl.
  - repeat split.
  - destruct (upload_user_media E fuel media_paths s) as [r s'] eqn:H.
    refine (@preserves_upload_user_media W E same_cache same_cache_refl
              same_cache_trans _ _ _ _ _ fuel media_paths s r s' H);
      intros; try (apply same_cache_called; reflexivity); repeat split.
  - unfold generate_report. destruct (model s) as [m|]; [| apply same_cache_refl].
    destruct (send_message E m _ _ (remote s)) as [[msg|text] w]; simpl;
      apply same_cache_called; reflexivity.
Qed.

Lemma run_session_same_cache {W} (E : Collab W) (ops : list op) (s : state W) :
  same_cache s (run_session E ops s).
Proof.
  revert s. induction ops as [|o ops IH]; intros s; simpl.
  - apply same_cache_refl.
  - apply same_cache_trans with (run_op E o s); [apply run_op_same_cache | apply IH].
Qed.

(** The clock and the number of cache entries created, which the loading
    of the reference documents leaves as they are. *)
Definition same_clock {W} (s s' : state W) : Prop :=
  now s' = now s /\ cache_creations (calls s') = cache_creations (calls s).

Lemma same_clock_called {W} (c : call) (w : W) (s : state W) :
  cache_creations [c] = 0%nat -> same_clock s (called c w 0 s).
Proof.
  intros Hc. split; simpl; [lia | rewrite cache_creations_app, Hc; lia].
Qed.

Lemma cache_creations_upload path : cache_creations [CallUpload path] = 0%nat.
Proof. reflexivity. Qed.

Lemma load_standard_same_clock {W} (E : Collab W) p (s : state W) r (s' : state W) :
  load_standard E p s = (r, s') -> same_clock s s'.
Proof.
  unfold load_standard. destruct (supported p).
  - destruct (upload_file E (Path_str p) (remote s)) as [[msg|f] w];
      intros H; inversion H; subst; split; simpl;
      rewrite ?cache_creations_app, ?cache_creations_upload; lia.
  - intros H; inversion H; split; reflexivity.
Qed.

Lemma load_example_same_clock {W} (E : Collab W) p (s : state W) r (s' : state W) :
  load_example E p s = (r, s') -> same_clock s s'.
Proof.
  unfold load_example. destruct (supported p); [| intros H; inversion H; split; reflexivity].
  destruct (str_in _ _); [| intros H; inversion H; split; reflexivity].
  destruct (upload_file E (Path_str p) (remote s)) as [[msg|f] w].
  - intros H; inversion H; subst; split; simpl;
      rewrite ?cache_creations_app, ?cache_creations_upload; lia.
  - destruct (str_eqb _ _); intros H; inversion H; subst; split; simpl;
      rewrite ?cache_creations_app, ?cache_creations_upload; lia.
Qed.

Lemma for_each_same_clock {W A} (body : A -> M (W := W) unit) :
  (forall x s r s', body x s = (r, s') -> same_clock s s') ->
  forall xs s r s', for_each xs body s = (r, s') -> same_clock s s'.
Proof.
  intros Hb xs.
  assert (Hrefl : forall s : state W, same_clock s s) by (split; reflexivity).
  assert (Htrans : forall s1 s2 s3 : state W,
             same_clock s1 s2 -> same_clock s2 s3 -> same_clock s1 s3).
  { unfold same_clock. intros s1 s2 s3 [-> ->] [-> ->]. auto. }
  exact (@preserves_for_each W same_clock Hrefl Htrans A xs body Hb).
Qed.

(** What a successful initialisation leaves: one cache entry, created at
    the time of the initialisation with a time to live of 60 minutes, and
    the model bound to it. *)
Lemma init_cache {W} (E : Collab W) standards_dir examples_dir (w : W) t s0 :
  init E standards_dir examples_dir w t = (Return tt, s0) ->
  exists c,
    cache s0 = Some c /\
    (exists m, model s0 = Some m /\ cached_content m = c) /\
    cc_ttl c = 60 * 60 /\
    cc_create_time c = t /\
    now s0 = t /\
    cache_creations (calls s0) = 1%nat.
Proof.
  unfold init, _initialize_model, bind.
  destruct (_load_standards E (mkPath standards_dir) (new_state w t))
    as [[[]| e |] s1] eqn:H1; try discriminate.
  destruct (_load_examples E (mkPath examples_dir) s1) as [[[]| e |] s2] eqn:H2;
    try discriminate.
  apply (@for_each_same_clock W Path (load_standard E)
           (@load_standard_same_clock W E)) in H1.
  apply (@for_each_same_clock W Path (load_example E)
           (@load_example_same_clock W E)) in H2.
  destruct H1 as [Hn1 Hc1]. destruct H2 as [Hn2 Hc2].
  unfold get, CachedContent_create.
  destruct (cache_create E _ (remote s2)) as [[msg|] w']; [discriminate|].
  unfold set_cache_model. intros H. inversion H; subst s0; clear H. simpl.
  eexists. split; [reflexivity|]. split; [eexists; split; reflexivity|].
  split; [reflexivity|]. simpl in *. split; [congruence|]. split; [lia|].
  rewrite cache_creations_app, Hc2, Hc1. reflexivity.
Qed.

(** C6 (as amended).  The cache entry is created once, when the inspector
    is initialised, with a time to live of 60 minutes.  Every later
    operation of the session, at whatever time, leaves that same entry in
    place, with the same creation time, and the model bound to it; no
    operation checks the expiry and none creates a new entry. *)
Theorem cache_created_once {W} (E : Collab W) standards_dir examples_dir (w : W) t s0
    (ops : list op) :
  init E standards_dir examples_dir w t = (Return tt, s0) ->
  exists c,
    cache s0 = Some c /\
    cc_ttl c = 60 * 60 /\
    cc_create_time c = t /\
    cache (run_session E ops s0) = Some c /\
    (exists m, model (run_session E ops s0) = Some m /\ cached_content m = c) /\
    cache_creations (calls (run_session E ops s0)) = 1%nat.
Proof.
  intros Hinit.
  destruct (init_cache E standards_dir examples_dir w t Hinit)
    as (c & Hc & Hm & Httl & Htime & _ & Hn).
  destruct (run_session_same_cache E ops s0) as (Hc' & Hm' & Hn').
  exists c. rewrite Hc', Hm', Hn'. auto 10.
Qed.

Lemma cache_created_once_witness :
  let E := Scenario.five_standards in
  let ops := [UploadUserMedia 5 [py "site/plan.pdf"]; Idle 4000; GenerateReport] in
  exists s0 c,
    init E (py "standards") (py "examples") 0%nat 100 = (Return tt, s0) /\
    cache s0 = Some c /\
    cc_ttl c = 60 * 60 /\
    cc_create_time c = 100 /\
    cache (run_session E ops s0) = Some c /\
    cache_creations (calls (run_session E ops s0)) = 1%nat.
Proof.
  intros E ops.
  pose (s0 := snd (init E (py "standards") (py "examples") 0%nat 100)).
  assert (Hinit : init E (py "standards") (py "examples") 0%nat 100 = (Return tt, s0))
    by (vm_compute; reflexivity).
  destruct (@cache_created_once nat E (py "standards") (py "examples") 0%nat 100 s0
              ops Hinit) as (c & Hc & Httl & Htime & Hc' & _ & Hn).
  exists s0, c.
  exact (conj Hinit (conj Hc (conj Httl (conj Htime (conj Hc' Hn))))).
Defined.

(** C6, the claim as stated, fails: an inspector initialised at time 100
    is asked for a report at time 3701, after the 60 minutes have elapsed;
    the request goes out with the entry created at time 100, the inspector
    still holds that entry, and no second entry was ever created. *)
Lemma cache_not_rebuilt_counterexample :
  let E := Scenario.five_standards in
  let r := init E (py "standards") (py "examples") 0%nat 100 in
  let s := run_session E [GenerateReport; Idle 3601; GenerateReport] (snd r) in
  fst r = Return tt /\
  option_map cc_create_time (cache (snd r)) = Some 100 /\
  option_map cc_ttl (cache (snd r)) = Some 3600 /\
  now s = 3701 /\
  option_map cc_create_time (cache s) = Some 100 /\
  match last (calls s) (CallSleep 0) with
  | CallSendMessage m _ _ => cc_create_time (cached_content m) = 100
  | _ => False
  end /\
  cache_creations (calls s) = 1%nat.
Proof. vm_compute. repeat split. Qed.

(** ** Report synthesis *)

Lemma generate_report_run {W} (E : Collab W) (s : state W) m text w :
  model s = Some m ->
  send_message E m (report_content (user_data s)) report_request (remote s)
  = (inr text, w) ->
  fst (generate_report E s) = loads (interpreter E) text.
Proof.
  intros Hm Hsend. unfold generate_report. rewrite Hm, Hsend. reflexivity.
Qed.



(** A response of a thousand arrays, one inside the other, is JSON; where
    the decoder may enter 950 of them, [generate_report] raises the
    [RecursionError] of the interpreter and returns no report. *)
Lemma generate_report_deep_response :
  let text := repeat 91%N 1000 ++ repeat 93%N 1000 in
  let E := Scenario.answering text in
  (exists v, parse_text text = Scanned v []) /\
  fst (generate_report E (Scenario.session_12s E))
  = Raise (RecursionError
             (py "maximum recursion depth exceeded while decoding a JSON array from a unicode string")).
Proof.
  split.
  - eexists. vm_compute. reflexivity.
  - vm_compute. reflexivity.
Qed.

(** A response that is an integer of 4301 digits is JSON; where the limit
    of [int] is 4300 digits, [generate_report] raises the [ValueError] of
    [int] and returns no report.  A text of that many digits that is no
    JSON raises it too, before the decoder finds the fault. *)
Lemma generate_report_long_integer :
  let text := repeat 49%N 4301 in
  let E := Scenario.answering text in
  let E' := Scenario.answering (text ++ py " is no JSON") in
  let message :=
    py "Exceeds the limit (4300 digits) for integer string conversion: value has 4301 digits; use sys.set_int_max_str_digits() to increase the limit" in
  (exists v, parse_text text = Scanned v []) /\
  fst (generate_report E (Scenario.session_12s E)) = Raise (ValueError message) /\
  parse_text (text ++ py " is no JSON") = Invalid /\
  fst (generate_report E' (Scenario.session_12s E')) = Raise (ValueError message).
Proof.
  split; [eexists; vm_compute; reflexivity|].
  split; [vm_compute; reflexivity|].
  split; vm_compute; reflexivity.
Qed.


(** ** The structured-data export *)

Lemma json_ok_strings (xs : list str) :
  (forall s, In s xs -> str_ok s = true) ->
  json_ok (Report.json_of_strings xs) = true.
Proof.
  intros H. unfold Report.json_of_strings. cbn [json_ok].
  induction xs as [|x xs IH]; [reflexivity|].
  cbn [map forallb json_ok]. rewrite (H x (or_introl eq_refl)). simpl.
  apply IH. intros s Hs. apply H. right. exact Hs.
Qed.

Lemma json_ok_optional (x : option str) :
  (forall s, In s (optional_string x) -> str_ok s = true) ->
  json_ok (Report.json_of_optional x) = true.
Proof.
  destruct x as [s|]; simpl; [| reflexivity]. intros H. apply H. auto.
Qed.

Lemma json_ok_map {A} (f : A -> json) (xs : list A) :
  (forall x, In x xs -> json_ok (f x) = true) -> forallb json_ok (map f xs) = true.
Proof.
  intros H. induction xs as [|x xs IH]; [reflexivity|].
  cbn [map forallb]. rewrite (H x (or_introl eq_refl)). simpl.
  apply IH. intros y Hy. apply H. right. exact Hy.
Qed.

Lemma json_ok_finding (f : Report.Finding) :
  (forall s, In s (finding_strings f) -> str_ok s = true) ->
  json_ok (Report.json_of_finding f) = true.
Proof.
  intros H. unfold finding_strings in H.
  assert (H1 : str_ok (Report.area f) = true) by (apply H; simpl; auto).
  assert (H2 : str_ok (Report.condition f) = true) by (apply H; simpl; auto).
  assert (H3 : json_ok (Report.json_of_strings (Report.issuesFound f)) = true).
  { apply json_ok_strings. intros s Hs. apply H. simpl. rewrite !in_app_iff. tauto. }
  assert (H4 : json_ok (Report.json_of_optional (Report.mediaReference f)) = true).
  { apply json_ok_optional. intros s Hs. apply H. simpl. rewrite !in_app_iff. tauto. }
  assert (H5 : json_ok (Report.json_of_optional (Report.timestamp f)) = true).
  { apply json_ok_optional. intros s Hs. apply H. simpl. rewrite !in_app_iff. tauto. }
  assert (H6 : json_ok (Report.json_of_optional (Report.referenceDoc f)) = true).
  { apply json_ok_optional. intros s Hs. apply H. simpl. rewrite !in_app_iff. tauto. }
  assert (H7 : json_ok (Report.json_of_optional (Report.referenceSection f)) = true).
  { apply json_ok_optional. intros s Hs. apply H. simpl. rewrite !in_app_iff. tauto. }
  assert (H8 : json_ok (Report.json_of_optional (Report.recommendation f)) = true).
  { apply json_ok_optional. intros s Hs. apply H. simpl. rewrite !in_app_iff. tauto. }
  assert (H9 : str_ok (Report.status_name (Report.complianceStatus f)) = true).
  { destruct (Report.complianceStatus f); reflexivity. }
  unfold Report.json_of_finding.
  cbn [json_ok forallb fst snd]. cbn [json_ok] in H3.
  rewrite H1, H2, H3, H4, H5, H6, H7, H8, H9. reflexivity.
Qed.

Lemma json_ok_entry (e : Report.ScheduleEntry) :
  (forall s, In s (Report.frequency e :: Report.tasks e) -> str_ok s = true) ->
  json_ok (Report.json_of_entry e) = true.
Proof.
  intros H.
  assert (H1 : str_ok (Report.frequency e) = true) by (apply H; simpl; auto).
  assert (H2 : json_ok (Report.json_of_strings (Report.tasks e)) = true).
  { apply json_ok_strings. intros s Hs. apply H. simpl. auto. }
  unfold Report.json_of_entry. cbn [json_ok forallb fst snd]. cbn [json_ok] in H2.
  rewrite H1, H2. reflexivity.
Qed.

(** The dictionary of a report whose strings are well formed is a value
    that the round trip applies to. *)
Lemma json_ok_report (r : Report.Report) :
  report_ok r = true -> json_ok (Report.json_of_report r) = true.
Proof.
  unfold report_ok. rewrite forallb_forall. unfold report_strings. intros H.
  assert (Hf : forallb json_ok (map Report.json_of_finding (Report.detailedInspection r))
               = true).
  { apply json_ok_map. intros f Hin. apply json_ok_finding. intros s Hs.
    apply H. rewrite in_app_iff. left. apply in_flat_map. exists f. auto. }
  assert (H1 : str_ok (Report.overallCondition (Report.executiveSummary r)) = true).
  { apply H. rewrite in_app_iff. right. simpl. auto. }
  assert (H2 : json_ok (Report.json_of_strings
                          (Report.criticalIssues (Report.executiveSummary r))) = true).
  { apply json_ok_strings. intros s Hs. apply H. rewrite in_app_iff. right.
    simpl. rewrite !in_app_iff. tauto. }
  assert (H3 : json_ok (Report.json_of_strings
                          (Report.recommendedActions (Report.executiveSummary r))) = true).
  { apply json_ok_strings. intros s Hs. apply H. rewrite in_app_iff. right.
    simpl. rewrite !in_app_iff. tauto. }
  assert (H4 : json_ok (Report.json_of_strings
                          (Report.recurringIssues (Report.maintenanceNotes r))) = true).
  { apply json_ok_strings. intros s Hs. apply H. rewrite in_app_iff. right.
    simpl. rewrite !in_app_iff. tauto. }
  assert (H5 : json_ok (Report.json_of_strings
                          (Report.preventiveRecommendations (Report.maintenanceNotes r)))
               = true).
  { apply json_ok_strings. intros s Hs. apply H. rewrite in_app_iff. right.
    simpl. rewrite !in_app_iff. tauto. }
  assert (H6 : forallb json_ok (map Report.json_of_entry
                                  (Report.maintenanceSchedule (Report.maintenanceNotes r)))
               = true).
  { apply json_ok_map. intros e Hin. apply json_ok_entry. intros s Hs.
    apply H. rewrite in_app_iff. right. right. rewrite !in_app_iff.
    right. right. right. right. left. apply in_flat_map. exists e. auto. }
  assert (H7 : json_ok (Report.json_of_strings
                          (Report.costConsiderations (Report.maintenanceNotes r))) = true).
  { apply json_ok_strings. intros s Hs. apply H. rewrite in_app_iff. right.
    simpl. rewrite !in_app_iff. tauto. }
  unfold Report.json_of_report, Report.json_of_summary, Report.json_of_notes.
  cbn [json_ok forallb fst snd]. cbn [json_ok] in H2, H3, H4, H5, H7.
  rewrite Hf, H1, H2, H3, H4, H5, H6, H7. reflexivity.
Qed.

(** The dictionary of a report is nested five deep at most, and has no
    integers. *)
Lemma depth_map {A} (f : A -> json) (xs : list A) (d : nat) :
  (forall x, (depth (f x) <= d)%nat) -> (depth (JArr (map f xs)) <= S d)%nat.
Proof.
  intros H. cbn [depth]. apply le_n_S.
  induction xs as [|x xs IH]; cbn [map fold_right]; [lia|].
  specialize (H x). lia.
Qed.

Lemma integers_map {A} (f : A -> json) (xs : list A) :
  (forall x, integers (f x) = []) -> integers (JArr (map f xs)) = [].
Proof.
  intros H. cbn [integers].
  induction xs as [|x xs IH]; cbn [map flat_map]; [reflexivity|].
  rewrite (H x), IH. reflexivity.
Qed.

Lemma depth_strings (xs : list str) : (depth (Report.json_of_strings xs) <= 1)%nat.
Proof. apply depth_map. intros x. apply Nat.le_refl. Qed.

Lemma depth_optional (x : option str) : depth (Report.json_of_optional x) = 0%nat.
Proof. destruct x; reflexivity. Qed.

Lemma integers_strings (xs : list str) : integers (Report.json_of_strings xs) = [].
Proof. apply integers_map. reflexivity. Qed.

Lemma integers_optional (x : option str) : integers (Report.json_of_optional x) = [].
Proof. destruct x; reflexivity. Qed.

Lemma depth_finding (f : Report.Finding) : (depth (Report.json_of_finding f) <= 2)%nat.
Proof.
  unfold Report.json_of_finding. cbn [depth fold_right snd].
  rewrite !depth_optional. pose proof (depth_strings (Report.issuesFound f)). lia.
Qed.

Lemma integers_finding (f : Report.Finding) : integers (Report.json_of_finding f) = [].
Proof.
  unfold Report.json_of_finding. cbn [integers flat_map snd].
  rewrite !integers_optional, integers_strings. reflexivity.
Qed.

Lemma depth_entry (e : Report.ScheduleEntry) : (depth (Report.json_of_entry e) <= 2)%nat.
Proof.
  unfold Report.json_of_entry. cbn [depth fold_right snd].
  pose proof (depth_strings (Report.tasks e)). lia.
Qed.

Lemma integers_entry (e : Report.ScheduleEntry) : integers (Report.json_of_entry e) = [].
Proof.
  unfold Report.json_of_entry. cbn [integers flat_map snd].
  rewrite integers_strings. reflexivity.
Qed.

Lemma report_fits (L : Limits) (r : Report.Report) :
  (5 <= max_depth L)%nat -> fits L (Report.json_of_report r) = true.
Proof.
  intros HL. unfold fits. apply andb_true_iff. split.
  - apply Nat.leb_le.
    unfold Report.json_of_report, Report.json_of_summary, Report.json_of_notes.
    cbn [depth fold_right snd].
    pose proof (depth_map Report.json_of_finding (Report.detailedInspection r)
                  depth_finding) as H1.
    pose proof (depth_map Report.json_of_entry
                  (Report.maintenanceSchedule (Report.maintenanceNotes r))
                  depth_entry) as H2.
    pose proof (depth_strings (Report.criticalIssues (Report.executiveSummary r))).
    pose proof (depth_strings (Report.recommendedActions (Report.executiveSummary r))).
    pose proof (depth_strings (Report.recurringIssues (Report.maintenanceNotes r))).
    pose proof (depth_strings
                  (Report.preventiveRecommendations (Report.maintenanceNotes r))).
    pose proof (depth_strings (Report.costConsiderations (Report.maintenanceNotes r))).
    cbn [depth] in *. lia.
  - unfold accepted.
    assert (Hi : integers (Report.json_of_report r) = []).
    { unfold Report.json_of_report, Report.json_of_summary, Report.json_of_notes.
      cbn [integers flat_map snd].
      pose proof (integers_map Report.json_of_finding (Report.detailedInspection r)
                    integers_finding) as H1.
      pose proof (integers_map Report.json_of_entry
                    (Report.maintenanceSchedule (Report.maintenanceNotes r))
                    integers_entry) as H2.
      cbn [integers] in H1, H2. rewrite H1, H2, !integers_strings. reflexivity. }
    rewrite Hi. reflexivity.
Qed.

(** C9.  For every report whose strings are well formed (code points of
    Unicode, no low surrogate right after a high surrogate, as in every
    string decoded from a text without surrogates), the structured-data
    export, parsed again, is the dictionary of the report itself: nothing
    is lost and nothing is changed.  The export is a JSON text of that
    dictionary, and [json.loads] returns the dictionary from it wherever
    the interpreter lets the decoder enter the five arrays and objects,
    one inside the other, that a report has; a report has no integers for
    [int] to refuse. *)
Theorem structured_data_round_trip (float_repr : str -> str) (r : Report.Report) :
  report_ok r = true ->
  parse_text (toStructuredData float_repr (Report.json_of_report r))
  = Scanned (Report.json_of_report r) [] /\
  forall L : Limits,
    (5 <= max_depth L)%nat ->
    loads L (toStructuredData float_repr (Report.json_of_report r))
    = Return (Report.json_of_report r).
Proof.
  intros Hok. unfold toStructuredData. split.
  - apply parse_dumps, json_ok_report, Hok.
  - intros L HL. apply loads_dumps; [apply json_ok_report, Hok | apply report_fits, HL].
Qed.

Lemma structured_data_round_trip_witness :
  report_ok Scenario.sample_report = true /\
  parse_text (toStructuredData (fun literal => literal)
                (Report.json_of_report Scenario.sample_report))
  = Scanned (Report.json_of_report Scenario.sample_report) [] /\
  loads Scenario.cpython
    (toStructuredData (fun literal => literal)
       (Report.json_of_report Scenario.sample_report))
  = Return (Report.json_of_report Scenario.sample_report).
Proof.
  split; [reflexivity|].
  destruct (@structured_data_round_trip (fun literal => literal)
              Scenario.sample_report eq_refl) as [Hparse Hloads].
  split; [exact Hparse|].
  apply Hloads. vm_compute. lia.
Defined.

(** * Further properties of [process_video] *)

Lemma NoDup_map_injective {A B} (f : A -> B) (l : list A) :
  (forall x y, f x = f y -> x = y) -> NoDup l -> NoDup (map f l).
Proof.
  intros Hinj. induction 1 as [|x l Hx Hnd IH]; simpl; constructor; [|assumption].
  rewrite in_map_iff. intros (y & Hy & Hin). apply Hinj in Hy. subst. contradiction.
Qed.

Lemma range_NoDup (n : Z) : NoDup (range 0 n 5).
Proof.
  unfold range. apply NoDup_map_injective; [intros; lia | apply seq_NoDup].
Qed.

Lemma frame_entry_keys output_dir (ts : list Z) :
  map fst (map (frame_entry output_dir) ts) = map frame_key ts.
Proof. rewrite map_map. reflexivity. Qed.

(** The loop adds one entry for each offset that decodes, in the order of
    the offsets, and writes the file of each. *)
Lemma extract_frames_result cap output_dir ts d :
  NoDup ts -> (forall t, In t ts -> ~ In (frame_key t) (keys d)) ->
  fst (extract_frames cap output_dir ts d)
  = d ++ map (frame_entry output_dir) (filter (decodes cap) ts)
  /\ written_files (snd (extract_frames cap output_dir ts d))
     = flat_map (frame_file cap output_dir) ts.
Proof.
  revert d. induction ts as [|t ts IH]; intros d Hnd Hfresh; simpl.
  - rewrite List.app_nil_r. split; reflexivity.
  - inversion Hnd as [|? ? Hnot Hnd']; subst.
    unfold decodes, frame_file. destruct (read_at cap (t * 1000)) as [frame|] eqn:Hr.
    + destruct (extract_frames cap output_dir ts
                  (dict_set d (frame_key t) (frame_path_of output_dir t)))
        as [d' tr] eqn:Hx.
      assert (Hnew : ~ In (frame_key t) (keys d)) by (apply Hfresh; left; reflexivity).
      destruct (IH (dict_set d (frame_key t) (frame_path_of output_dir t)) Hnd') as [H1 H2].
      { intros t' Hin Hk. apply In_keys_dict_set in Hk. destruct Hk as [Hk|Hk].
        - apply frame_key_inj in Hk. subst. contradiction.
        - apply (Hfresh t'); [right; assumption | assumption]. }
      rewrite Hx in H1, H2. simpl in *. split.
      * rewrite H1. clear - Hnew.
        assert (Hset : dict_set d (frame_key t) (frame_path_of output_dir t)
                       = d ++ [frame_entry output_dir t]).
        { induction d as [|[k v] d IHd]; simpl; [reflexivity|].
          destruct (str_eqb k (frame_key t)) eqn:Ek.
          - apply str_eqb_eq in Ek. exfalso. apply Hnew. left. assumption.
          - f_equal. apply IHd. intros Hin. apply Hnew. right. assumption. }
        rewrite Hset, <- app_assoc. reflexivity.
      * f_equal. assumption.
    + destruct (extract_frames cap output_dir ts d) as [d' tr] eqn:Hx.
      destruct (IH d Hnd') as [H1 H2].
      { intros t' Hin. apply Hfresh. right. assumption. }
      rewrite Hx in H1, H2. simpl in *. split; assumption.
Qed.

Lemma frame_file_paths cap output_dir (ts : list Z) :
  map fst (flat_map (frame_file cap output_dir) ts)
  = map snd (map (frame_entry output_dir) (filter (decodes cap) ts)).
Proof.
  induction ts as [|t ts IH]; simpl; [reflexivity|].
  unfold frame_file at 1, decodes at 1.
  destruct (read_at cap (t * 1000)); simpl; [f_equal|]; assumption.
Qed.

Lemma process_video_entries cv video_path output_dir frame_paths tr :
  process_video cv video_path output_dir = (Return frame_paths, tr) ->
  let cap := cv2_VideoCapture cv video_path in
  let offsets := range 0 (int_of_float (duration_of cap)) 5 in
  frame_paths = map (frame_entry output_dir) (filter (decodes cap) offsets)
  /\ map fst (written_files tr) = values frame_paths.
Proof.
  intros H cap offsets. unfold process_video in H.
  destruct (fs_mkdir cv output_dir); [discriminate|].
  fold cap in H. destruct (isOpened cap); simpl in H; [|discriminate].
  destruct (Qeq_bool (CAP_PROP_FPS cap) 0); [discriminate|].
  destruct (is_inf (duration_of cap)); [discriminate|].
  fold offsets in H.
  destruct (@extract_frames_result cap output_dir offsets [] (range_NoDup _)) as [H1 H2].
  { intros t _ []. }
  destruct (extract_frames cap output_dir offsets []) as [d tr'] eqn:Hx.
  simpl in H1, H2. inversion H; subst. split; [reflexivity|].
  simpl. rewrite written_files_app, H2. simpl. rewrite List.app_nil_r.
  apply frame_file_paths.
Qed.

(** X1.  When [process_video] returns, its result holds one entry for each
    sampled offset at which the decoder yielded a frame, in increasing order
    of the offsets, and none for an offset whose read failed; the files
    written are exactly the paths returned. *)
Theorem process_video_returns_decoded cv video_path output_dir frame_paths tr :
  process_video cv video_path output_dir = (Return frame_paths, tr) ->
  let cap := cv2_VideoCapture cv video_path in
  let offsets := range 0 (int_of_float (duration_of cap)) 5 in
  frame_paths = map (frame_entry output_dir) (filter (decodes cap) offsets)
  /\ map fst (written_files tr) = values frame_paths.
Proof. exact (@process_video_entries cv video_path output_dir frame_paths tr). Qed.

Lemma process_video_returns_decoded_witness :
  let cv := Scenario.cv_of Cases.cap_gaps in
  exists frame_paths tr,
    process_video cv (py "walk.mp4") (py "extracted_frames") = (Return frame_paths, tr)
    /\ frame_paths
       = [(py "video_0s", py "extracted_frames/frame_0.jpg");
          (py "video_10s", py "extracted_frames/frame_10.jpg");
          (py "video_20s", py "extracted_frames/frame_20.jpg")]
    /\ map fst (written_files tr) = values frame_paths.
Proof.
  intros cv.
  pose (r := process_video cv (py "walk.mp4") (py "extracted_frames")).
  assert (Hr : r = (fst r, snd r)) by (destruct r; reflexivity).
  assert (Hf : fst r = Return
            [(py "video_0s", py "extracted_frames/frame_0.jpg");
             (py "video_10s", py "extracted_frames/frame_10.jpg");
             (py "video_20s", py "extracted_frames/frame_20.jpg")])
    by (vm_compute; reflexivity).
  rewrite Hf in Hr.
  exists [(py "video_0s", py "extracted_frames/frame_0.jpg");
          (py "video_10s", py "extracted_frames/frame_10.jpg");
          (py "video_20s", py "extracted_frames/frame_20.jpg")], (snd r).
  split; [exact Hr|]. split; [reflexivity|].
  exact (proj2 (process_video_returns_decoded cv (py "walk.mp4") (py "extracted_frames") Hr)).
Defined.

(** X2.  The capture is released exactly when [process_video] returns: no
    path that raises reaches [cap.release()].  With a file that opens and a
    frame rate of zero the division raises ZeroDivisionError, after the
    capture was opened. *)
Theorem process_video_release cv video_path output_dir :
  let r := process_video cv video_path output_dir in
  (In CallRelease (snd r) <-> exists frame_paths, fst r = Return frame_paths)
  /\ (fs_mkdir cv output_dir = None ->
      isOpened (cv2_VideoCapture cv video_path) = true ->
      (CAP_PROP_FPS (cv2_VideoCapture cv video_path) == 0)%Q ->
      r = (Raise ZeroDivisionError,
           [CallMkdir output_dir; CallVideoCapture video_path])).
Proof.
  assert (Hno : forall cap ts d,
             ~ In CallRelease (snd (extract_frames cap output_dir ts d))).
  { intros cap ts. induction ts as [|t ts IH]; intros d; simpl; [tauto|].
    destruct (read_at cap (t * 1000)).
    - specialize (IH (dict_set d (frame_key t) (frame_path_of output_dir t))).
      destruct (extract_frames cap output_dir ts _); simpl in *.
      intros [|[|[|]]]; try discriminate; tauto.
    - specialize (IH d). destruct (extract_frames cap output_dir ts d); simpl in *.
      intros [|[|]]; try discriminate; tauto. }
  unfold process_video. cbv zeta. split.
  - destruct (fs_mkdir cv output_dir); cbn [fst snd].
    { split; [intros [|[]]; discriminate | intros [? ?]; discriminate]. }
    destruct (isOpened (cv2_VideoCapture cv video_path)); cbn [fst snd negb].
    2:{ split; [intros [|[|[]]]; discriminate | intros [? ?]; discriminate]. }
    destruct (Qeq_bool (CAP_PROP_FPS (cv2_VideoCapture cv video_path)) 0); cbn [fst snd].
    { split; [intros [|[|[]]]; discriminate | intros [? ?]; discriminate]. }
    destruct (is_inf (duration_of (cv2_VideoCapture cv video_path))); cbn [fst snd].
    { split; [intros [|[|[]]]; discriminate | intros [? ?]; discriminate]. }
    pose proof (Hno (cv2_VideoCapture cv video_path)
                  (range 0 (int_of_float (duration_of (cv2_VideoCapture cv video_path))) 5)
                  []) as Hnone.
    destruct (extract_frames _ _ _ _) as [d tr] eqn:Hx; cbn [fst snd] in *.
    split; [intros _; eexists; reflexivity|]. intros _. right. right.
    apply in_or_app. right. left. reflexivity.
  - intros Hm Ho Hq. rewrite Hm, Ho. cbn [negb].
    apply Qeq_bool_iff in Hq. rewrite Hq. reflexivity.
Qed.

Lemma process_video_release_witness :
  let cv := Scenario.cv_of Cases.cap_no_rate in
  process_video cv (py "still.mp4") (py "extracted_frames")
  = (Raise ZeroDivisionError,
     [CallMkdir (py "extracted_frames"); CallVideoCapture (py "still.mp4")]).
Proof.
  intros cv.
  apply (proj2 (process_video_release cv (py "still.mp4") (py "extracted_frames")));
    reflexivity.
Defined.

(** * Further properties of [upload_user_media] and of the ingestion *)

Lemma upload_paths_app cs1 cs2 :
  upload_paths (cs1 ++ cs2) = upload_paths cs1 ++ upload_paths cs2.
Proof. apply flat_map_app. Qed.

(** Waiting for a video uploads nothing. *)
Lemma wait_processing_upload_paths {W} (E : Collab W) fuel f (s s' : state W) r :
  wait_processing E fuel f s = (r, s') ->
  upload_paths (calls s') = upload_paths (calls s).
Proof.
  apply (@preserves_wait_processing W E
           (fun s s' => upload_paths (calls s') = upload_paths (calls s)));
    try reflexivity; intros; simpl; try congruence;
    rewrite upload_paths_app; simpl; apply List.app_nil_r.
Qed.

(** Whatever comes of it, [_upload_video] makes one upload, of its path. *)
Lemma upload_video_upload_paths {W} (E : Collab W) fuel path (s s' : state W) r :
  _upload_video E fuel path s = (r, s') ->
  upload_paths (calls s') = upload_paths (calls s) ++ [path].
Proof.
  unfold _upload_video, bind, print, genai_upload_file. simpl.
  destruct (upload_file E path (remote s)) as [[msg|f] w]; simpl.
  { intros H. inversion H; subst. simpl. apply upload_paths_app. }
  match goal with
  | |- context [wait_processing E fuel f ?s0] =>
      destruct (wait_processing E fuel f s0) as [[f'| e |] s1] eqn:Hw;
      apply wait_processing_upload_paths in Hw; simpl in Hw;
      rewrite upload_paths_app in Hw; simpl in Hw
  end.
  - destruct (str_eqb _ _); unfold raise, get, set_user_data; simpl;
      intros H; inversion H; subst; simpl; assumption.
  - intros H; inversion H; subst; assumption.
  - intros H; inversion H; subst; assumption.
Qed.

Lemma upload_one_upload_paths {W} (E : Collab W) fuel path (s s' : state W) r :
  upload_one E fuel path s = (r, s') ->
  upload_paths (calls s')
  = upload_paths (calls s)
    ++ (if uploadable path then [Path_str (mkPath path)] else []).
Proof.
  unfold upload_one, uploadable.
  destruct (supported (mkPath path)); simpl.
  - destruct (upload_file E _ (remote s)) as [[msg|f] w]; simpl;
      intros H; inversion H; subst; simpl; apply upload_paths_app.
  - destruct (is_video (mkPath path)).
    + apply upload_video_upload_paths.
    + intros H. inversion H; subst. symmetry. apply List.app_nil_r.
Qed.

Lemma upload_user_media_calls {W} (E : Collab W) fuel media_paths
    (s s' : state W) :
  upload_user_media E fuel media_paths s = (Return tt, s') ->
  upload_paths (calls s')
  = upload_paths (calls s)
    ++ map (fun path => Path_str (mkPath path)) (filter uploadable media_paths).
Proof.
  unfold upload_user_media. revert s.
  induction media_paths as [|path rest IH]; intros s; simpl.
  - intros H. inversion H; subst. symmetry. apply List.app_nil_r.
  - unfold bind. destruct (upload_one E fuel path s) as [[[]| e |] s1] eqn:H1;
      try discriminate.
    intros H. apply IH in H. rewrite H.
    rewrite (upload_one_upload_paths _ _ _ _ H1), <- app_assoc.
    destruct (uploadable path); reflexivity.
Qed.

(** X3.  When [upload_user_media] returns, it has made one upload for each
    listed path whose extension is a supported one or a video one, in the
    order of the list and of the normalised path, and none for any other
    path. *)
Theorem upload_user_media_upload_paths {W} (E : Collab W) fuel media_paths
    (s s' : state W) :
  upload_user_media E fuel media_paths s = (Return tt, s') ->
  upload_paths (calls s')
  = upload_paths (calls s)
    ++ map (fun path => Path_str (mkPath path)) (filter uploadable media_paths).
Proof. exact (@upload_user_media_calls W E fuel media_paths s s'). Qed.

Lemma upload_user_media_upload_paths_witness :
  let E := Scenario.service [] [] (fun _ => ACTIVE) (py "{}") in
  let s := new_state 0%nat 0 in
  upload_paths
    (calls (snd (upload_user_media E 1
                   [py "/tmp/./walk.MP4"; py "notes.xlsx"; py "roof.PNG"; py "archive"] s)))
  = [py "/tmp/walk.MP4"; py "roof.PNG"].
Proof.
  intros E s.
  pose (s' := snd (upload_user_media E 1
                   [py "/tmp/./walk.MP4"; py "notes.xlsx"; py "roof.PNG"; py "archive"] s)).
  assert (H : upload_user_media E 1
                [py "/tmp/./walk.MP4"; py "notes.xlsx"; py "roof.PNG"; py "archive"] s
              = (Return tt, s')) by (vm_compute; reflexivity).
  exact (upload_user_media_upload_paths E 1 _ s H).
Defined.

(** ** The frames of a video are supported uploads *)

Lemma rfind_app (c : N) (x y : str) :
  rfind c (x ++ y)
  = match rfind c y with
    | Some i => Some (List.length x + i)%nat
    | None => rfind c x
    end.
Proof.
  induction x as [|a x IH]; simpl.
  - destruct (rfind c y); reflexivity.
  - rewrite IH. destruct (rfind c y); reflexivity.
Qed.

Lemma frame_path_suffix (output_dir : str) (t : Z) :
  Path_suffix (mkPath (frame_path_of output_dir t)) = py ".jpg".
Proof.
  unfold Path_suffix. rewrite frame_path_name. unfold frame_filename.
  rewrite app_assoc, rfind_app.
  change (rfind dot (py ".jpg")) with (Some 0%nat).
  cbv iota beta. rewrite Nat.add_0_r.
  assert (Hlen : (0 < List.length (py "frame_" ++ str_of_int t))%nat).
  { rewrite length_app. change (List.length (py "frame_")) with 6%nat. lia. }
  assert (H1 : (0 <? List.length (py "frame_" ++ str_of_int t))%nat = true)
    by (apply Nat.ltb_lt; exact Hlen).
  assert (H2 : (List.length (py "frame_" ++ str_of_int t)
                <? List.length ((py "frame_" ++ str_of_int t) ++ py ".jpg") - 1)%nat = true).
  { apply Nat.ltb_lt. rewrite (length_app _ (py ".jpg")).
    change (List.length (py ".jpg")) with 4%nat. lia. }
  rewrite H1, H2. simpl andb.
  rewrite skipn_app, skipn_all, Nat.sub_diag. reflexivity.
Qed.

Lemma frame_path_supported (output_dir : str) (t : Z) :
  supported (mkPath (frame_path_of output_dir t)) = true.
Proof. unfold supported. rewrite frame_path_suffix. reflexivity. Qed.

Lemma root_mkPath_Path_str (p : Path) :
  parts p <> [] -> forallb good_part (parts p) = true ->
  (root p = [] \/ root p = [slash] \/ root p = [slash; slash]) ->
  root (mkPath (Path_str p)) = root p.
Proof.
  destruct p as [r ps]. simpl. intros Hne Hgood Hroot.
  assert (Hstr : Path_str {| root := r; parts := ps |} = r ++ join [slash] ps).
  { unfold Path_str; simpl. destruct r; destruct ps; try reflexivity; congruence. }
  rewrite Hstr.
  destruct ps as [|p1 ps]; [congruence|]. simpl in Hgood.
  apply andb_true_iff in Hgood. destruct Hgood as [Hp1 _].
  unfold good_part, is_part, slash_free in Hp1.
  destruct p1 as [|c p1]; [discriminate|]. simpl in Hp1.
  destruct (N.eqb c slash) eqn:Ec; [discriminate|].
  match goal with
  | |- parse_root (r ++ ?j) = r => assert (Hj : exists rest, j = c :: rest)
  end.
  { destruct ps; simpl; eexists; reflexivity. }
  destruct Hj as [rest Hj]. rewrite Hj.
  destruct Hroot as [-> | [-> | ->]]; simpl.
  - destruct rest as [|b [|c0 rest]]; rewrite Ec; reflexivity.
  - destruct rest as [|b rest]; simpl; rewrite Ec; reflexivity.
  - rewrite Ec. reflexivity.
Qed.

(** A frame path is the normal form of a path: reading it gives it back. *)
Lemma frame_path_normal (output_dir : str) (t : Z) :
  Path_str (mkPath (frame_path_of output_dir t)) = frame_path_of output_dir t.
Proof.
  assert (Hfile : filter is_part (split_slash (frame_filename t)) = [frame_filename t]).
  { rewrite (split_slash_free _ (frame_filename_free t)). reflexivity. }
  assert (Hdiv : Path_div (mkPath output_dir) (frame_filename t)
                 = {| root := parse_root output_dir;
                      parts := parts (mkPath output_dir) ++ [frame_filename t] |}).
  { unfold Path_div. rewrite frame_filename_relative, Hfile. reflexivity. }
  unfold frame_path_of. rewrite Hdiv.
  set (p := {| root := parse_root output_dir;
               parts := parts (mkPath output_dir) ++ [frame_filename t] |}).
  assert (Hne : parts p <> []).
  { simpl. destruct (filter is_part (split_slash output_dir)); discriminate. }
  assert (Hgood : forallb good_part (parts p) = true).
  { simpl parts. rewrite forallb_app. apply andb_true_iff. split.
    - apply mkPath_parts_good.
    - simpl. unfold good_part. rewrite frame_filename_free. reflexivity. }
  assert (Hroot : root p = [] \/ root p = [slash] \/ root p = [slash; slash])
    by apply parse_root_cases.
  assert (Hp : mkPath (Path_str p) = p).
  { pose proof (parts_mkPath_Path_str p Hne Hgood Hroot) as Hparts.
    pose proof (root_mkPath_Path_str p Hne Hgood Hroot) as Hr.
    destruct (mkPath (Path_str p)) as [r' ps']. simpl in Hparts, Hr.
    subst. reflexivity. }
  rewrite Hp. reflexivity.
Qed.

Lemma frame_paths_uploadable output_dir (ts : list Z) :
  filter uploadable (map snd (map (frame_entry output_dir) ts))
  = map snd (map (frame_entry output_dir) ts).
Proof.
  induction ts as [|t ts IH]; simpl; [reflexivity|].
  unfold uploadable at 1. rewrite frame_path_supported. simpl. f_equal. exact IH.
Qed.

Lemma frame_paths_normal output_dir (ts : list Z) :
  map (fun path => Path_str (mkPath path)) (map snd (map (frame_entry output_dir) ts))
  = map snd (map (frame_entry output_dir) ts).
Proof.
  induction ts as [|t ts IH]; simpl; [reflexivity|].
  rewrite frame_path_normal. f_equal. exact IH.
Qed.

(** X4.  In the ingestion of the app, when it returns: the uploads made are
    the video and then every frame that [process_video] returned, each once,
    in the order of the offsets; each frame goes up as a supported image (not
    as a video, and none is skipped), under the name frame_<t>.jpg of its
    file. *)
Theorem ingest_video_uploads_frames {W} (cv : Cv2) (E : Collab W) fuel video_path
    (s s' : state W) frame_paths :
  is_video (mkPath video_path) = true ->
  ingest_video cv E fuel video_path s = (Return frame_paths, s') ->
  let cap := cv2_VideoCapture cv video_path in
  let decoded := filter (decodes cap) (range 0 (int_of_float (duration_of cap)) 5) in
  upload_paths (calls s')
  = upload_paths (calls s) ++ Path_str (mkPath video_path) :: values frame_paths
  /\ Forall (fun path => supported (mkPath path) = true) (values frame_paths)
  /\ map (fun path => Path_name (mkPath path)) (values frame_paths)
     = map frame_filename decoded.
Proof.
  intros Hvideo H cap decoded. unfold ingest_video in H.
  destruct (process_video cv video_path (py "extracted_frames")) as [r tr] eqn:Hp.
  simpl in H. destruct r as [fp| e |]; try discriminate.
  destruct (upload_user_media E fuel (video_path :: values fp) s)
    as [[[]| e |] s1] eqn:Hu; try discriminate.
  inversion H; subst. clear H.
  destruct (@process_video_entries _ _ _ _ _ Hp) as [Hfp _].
  fold cap in Hfp. fold decoded in Hfp.
  apply (@upload_user_media_calls W E) in Hu.
  split; [|split].
  - rewrite Hu. f_equal. simpl filter. unfold uploadable at 1.
    rewrite Hvideo, orb_true_r. simpl. f_equal.
    unfold values. rewrite Hfp, frame_paths_uploadable. apply frame_paths_normal.
  - unfold values. rewrite Hfp. clear. induction decoded as [|t ts IH]; simpl;
      constructor; [apply frame_path_supported | exact IH].
  - unfold values. rewrite Hfp. clear. induction decoded as [|t ts IH]; simpl;
      [reflexivity|]. rewrite frame_path_name. f_equal. exact IH.
Qed.

Lemma ingest_video_uploads_frames_witness :
  let cv := Scenario.cv_of Cases.cap_gaps in
  let E := Scenario.service [] [] (fun _ => ACTIVE) (py "{}") in
  let r := ingest_video cv E 1 (py "/tmp/walk.mp4") (new_state 0%nat 0) in
  upload_paths (calls (snd r))
  = [py "/tmp/walk.mp4"; py "extracted_frames/frame_0.jpg";
     py "extracted_frames/frame_10.jpg"; py "extracted_frames/frame_20.jpg"]
  /\ keys (user_data (snd r))
     = [py "walk.mp4"; py "frame_0.jpg"; py "frame_10.jpg"; py "frame_20.jpg"].
Proof.
  intros cv E r.
  pose (fp := [(py "video_0s", py "extracted_frames/frame_0.jpg");
               (py "video_10s", py "extracted_frames/frame_10.jpg");
               (py "video_20s", py "extracted_frames/frame_20.jpg")]).
  assert (H : ingest_video cv E 1 (py "/tmp/walk.mp4") (new_state 0%nat 0)
              = (Return fp, snd r)) by (vm_compute; reflexivity).
  assert (Hv : is_video (mkPath (py "/tmp/walk.mp4")) = true) by reflexivity.
  split.
  - exact (proj1 (@ingest_video_uploads_frames nat cv E 1 (py "/tmp/walk.mp4") _ _ _ Hv H)).
  - vm_compute. reflexivity.
Defined.

(** * Further properties of the loaders and of [__init__] *)

Lemma for_each_load_standard {W} (E : Collab W) (files : list Path) (s : state W) :
  exists s', for_each files (load_standard E) s = (Return tt, s') /\
    upload_paths (calls s')
    = upload_paths (calls s) ++ map Path_str (filter supported files) /\
    remote s' = remote_after E (filter supported files) (remote s) /\
    example1 s' = example1 s /\ example2 s' = example2 s /\
    user_data s' = user_data s /\ cache s' = cache s /\ model s' = model s.
Proof.
  revert s. induction files as [|p files IH]; intros s; simpl.
  - exists s. rewrite List.app_nil_r. repeat split; reflexivity.
  - unfold bind, load_standard at 1. destruct (supported p) eqn:Hs; simpl.
    + destruct (upload_file E (Path_str p) (remote s)) as [[msg|f] w] eqn:Hu; simpl;
        match goal with
        | |- context [for_each files _ ?s1] =>
            destruct (IH s1) as (s' & Hrun & Hc & Hw & H1 & H2 & H3 & H4 & H5)
        end;
        exists s'; simpl in *; rewrite Hrun, Hc, upload_paths_app, <- app_assoc;
        (split; [reflexivity|]); (split; [reflexivity|]);
        (split; [assumption|]); auto.
    + destruct (IH s) as (s' & Hrun & Hc & Hw & H1 & H2 & H3 & H4 & H5).
      exists s'. rewrite Hrun. auto 10.
Qed.

(** X5.  [_load_standards] never raises; it uploads the files of the tree
    whose extension is a supported one, each once, in the order of the
    enumeration, and no other file; it touches neither the examples nor the
    user's media. *)
Theorem load_standards_uploads_supported {W} (E : Collab W) (standards_dir : Path)
    (s : state W) :
  exists s', _load_standards E standards_dir s = (Return tt, s') /\
    upload_paths (calls s')
    = upload_paths (calls s)
      ++ map Path_str (filter supported (fs_rglob E standards_dir)) /\
    example1 s' = example1 s /\ example2 s' = example2 s /\
    user_data s' = user_data s.
Proof.
  destruct (for_each_load_standard E (fs_rglob E standards_dir) s)
    as (s' & Hrun & Hc & _ & H1 & H2 & H3 & _).
  exists s'. auto.
Qed.

Lemma load_example_skip {W} (E : Collab W) (p : Path) (s : state W) :
  recognised p = false -> load_example E p s = (Return tt, s).
Proof.
  unfold recognised, subfolder, load_example. intros H.
  destruct (supported p); [|reflexivity]. cbn [andb] in H. rewrite H. reflexivity.
Qed.

Lemma load_example_step {W} (E : Collab W) (p : Path) (s : state W) :
  recognised p = true ->
  load_example E p s
  = match upload_file E (Path_str p) (remote s) with
    | (inr uploaded_file, w) =>
        let s' := called (CallUpload (Path_str p)) w 0 s in
        if str_eqb (subfolder p) (py "example1") then
          set_example1 (dict_set (example1 s) (Path_name p) uploaded_file) s'
        else
          set_example2 (dict_set (example2 s) (Path_name p) uploaded_file) s'
    | (inl msg, w) =>
        print (py "Error loading example " ++ Path_name p ++ py ": " ++ msg)
          (called (CallUpload (Path_str p)) w 0 s)
    end.
Proof.
  unfold recognised, subfolder, load_example. intros H.
  apply andb_true_iff in H. destruct H as [Hs Hin]. rewrite Hs, Hin. reflexivity.
Qed.

Lemma recognised_folder (p : Path) :
  recognised p = true ->
  str_eqb (subfolder p) (py "example1") = false ->
  str_eqb (subfolder p) (py "example2") = true.
Proof.
  unfold recognised. intros H E1. apply andb_true_iff in H. destruct H as [_ Hin].
  simpl in Hin. rewrite E1 in Hin. simpl in Hin. rewrite orb_false_r in Hin. exact Hin.
Qed.

Lemma successes_filter_inl g p msg rest :
  successes (filter g ((p, inl msg) :: rest)) = successes (filter g rest).
Proof. simpl. destruct (g (p, inl msg)); reflexivity. Qed.

Lemma successes_filter_inr g p f rest :
  successes (filter g ((p, inr f) :: rest))
  = if g (p, inr f) then (Path_name p, f) :: successes (filter g rest)
    else successes (filter g rest).
Proof. simpl. destruct (g (p, inr f)); reflexivity. Qed.

Lemma for_each_load_example {W} (E : Collab W) (files : list Path) (s : state W) :
  let rs := uploads_of E (filter recognised files) (remote s) in
  exists s', for_each files (load_example E) s = (Return tt, s') /\
    example1 s'
    = fold_left (fun d kv => dict_set d (fst kv) (snd kv))
        (successes (filter (in_folder (py "example1")) rs)) (example1 s) /\
    example2 s'
    = fold_left (fun d kv => dict_set d (fst kv) (snd kv))
        (successes (filter (in_folder (py "example2")) rs)) (example2 s) /\
    upload_paths (calls s')
    = upload_paths (calls s) ++ map Path_str (filter recognised files) /\
    stdout s' = stdout s ++ failure_lines (py "Error loading example ") rs /\
    remote s' = remote_after E (filter recognised files) (remote s) /\
    building_standards s' = building_standards s /\
    user_data s' = user_data s /\ cache s' = cache s /\ model s' = model s.
Proof.
  cbv zeta. revert s. induction files as [|p files IH]; intros s.
  - exists s. simpl. rewrite !List.app_nil_r. repeat split; reflexivity.
  - cbn [for_each filter]. unfold bind. destruct (recognised p) eqn:Hrec.
    2:{ rewrite (load_example_skip E p s Hrec).
        destruct (IH s) as (s' & Hrun & H). exists s'. rewrite Hrun.
        split; [reflexivity | exact H]. }
    rewrite (load_example_step E p s Hrec).
    cbn [uploads_of remote_after map].
    destruct (upload_file E (Path_str p) (remote s)) as [[msg|f] w] eqn:Hu;
      cbn [snd fst].
    + set (s1 := snd (print (py "Error loading example " ++ Path_name p ++ py ": " ++ msg)
                        (called (CallUpload (Path_str p)) w 0 s))).
      change (print (py "Error loading example " ++ Path_name p ++ py ": " ++ msg)
                (called (CallUpload (Path_str p)) w 0 s)) with (Return tt, s1).
      destruct (IH s1) as (s' & Hrun & H1 & H2 & Hc & Ho & Hw & H3 & H4 & H5 & H6).
      exists s'. rewrite Hrun, H1, H2, Hc, Ho, Hw, H3, H4, H5, H6.
      rewrite !successes_filter_inl.
      split; [reflexivity|]. split; [reflexivity|]. split; [reflexivity|].
      split; [|split; [|repeat split]].
      * change (calls s1) with (calls s ++ [CallUpload (Path_str p)]).
        rewrite upload_paths_app, <- app_assoc. reflexivity.
      * change (stdout s1)
          with (stdout s ++ [py "Error loading example " ++ Path_name p ++ py ": " ++ msg]).
        rewrite <- app_assoc. reflexivity.
    + unfold called. cbv zeta.
      destruct (str_eqb (subfolder p) (py "example1")) eqn:E1.
      * assert (E2 : str_eqb (subfolder p) (py "example2") = false).
        { apply str_eqb_eq in E1. rewrite E1. reflexivity. }
        match goal with
        | |- context [set_example1 ?d ?s0] =>
            set (s1 := snd (set_example1 d s0));
            change (set_example1 d s0) with (Return tt, s1)
        end.
        destruct (IH s1) as (s' & Hrun & H1 & H2 & Hc & Ho & Hw & H3 & H4 & H5 & H6).
        exists s'. rewrite Hrun, H1, H2, Hc, Ho, Hw, H3, H4, H5, H6.
        rewrite !successes_filter_inr. unfold in_folder. cbn [fst].
        rewrite E1, E2.
        split; [reflexivity|]. split; [reflexivity|]. split; [reflexivity|].
        split; [|repeat split].
        change (calls s1) with (calls s ++ [CallUpload (Path_str p)]).
        rewrite upload_paths_app, <- app_assoc. reflexivity.
      * pose proof (recognised_folder p Hrec E1) as E2.
        match goal with
        | |- context [set_example2 ?d ?s0] =>
            set (s1 := snd (set_example2 d s0));
            change (set_example2 d s0) with (Return tt, s1)
        end.
        destruct (IH s1) as (s' & Hrun & H1 & H2 & Hc & Ho & Hw & H3 & H4 & H5 & H6).
        exists s'. rewrite Hrun, H1, H2, Hc, Ho, Hw, H3, H4, H5, H6.
        rewrite !successes_filter_inr. unfold in_folder. cbn [fst].
        rewrite E1, E2.
        split; [reflexivity|]. split; [reflexivity|]. split; [reflexivity|].
        split; [|repeat split].
        change (calls s1) with (calls s ++ [CallUpload (Path_str p)]).
        rewrite upload_paths_app, <- app_assoc. reflexivity.
Qed.

(** X6.  [_load_examples] never raises.  It uploads the supported files
    that lie directly in a folder named example1 or example2, and no other
    file; each upload that succeeds is stored under the name of the file in
    the dictionary of its folder, each failure is printed; the building
    standards and the user's media are not touched. *)
Theorem load_examples_by_folder {W} (E : Collab W) (examples_dir : Path) (s : state W) :
  let files := filter recognised (fs_rglob E examples_dir) in
  let rs := uploads_of E files (remote s) in
  exists s', _load_examples E examples_dir s = (Return tt, s') /\
    example1 s'
    = fold_left (fun d kv => dict_set d (fst kv) (snd kv))
        (successes (filter (in_folder (py "example1")) rs)) (example1 s) /\
    example2 s'
    = fold_left (fun d kv => dict_set d (fst kv) (snd kv))
        (successes (filter (in_folder (py "example2")) rs)) (example2 s) /\
    upload_paths (calls s') = upload_paths (calls s) ++ map Path_str files /\
    stdout s' = stdout s ++ failure_lines (py "Error loading example ") rs /\
    building_standards s' = building_standards s /\
    user_data s' = user_data s.
Proof.
  intros files rs.
  destruct (for_each_load_example E (fs_rglob E examples_dir) s)
    as (s' & Hrun & H1 & H2 & Hc & Ho & _ & H3 & H4 & _).
  exists s'. auto 10.
Qed.

Lemma load_examples_by_folder_witness :
  let E := Cases.examples_tree in
  exists s',
    _load_examples E (mkPath (py "examples")) (new_state 0%nat 0) = (Return tt, s') /\
    keys (example1 s') = [py "report.pdf"] /\
    keys (example2 s') = [py "photo.JPG"] /\
    upload_paths (calls s')
    = [py "examples/example1/report.pdf"; py "examples/example2/photo.JPG";
       py "examples/example1/broken.docx"] /\
    List.length (stdout s') = 1%nat.
Proof.
  intros E.
  destruct (load_examples_by_folder E (mkPath (py "examples")) (new_state 0%nat 0))
    as (s' & Hrun & H1 & H2 & Hc & Ho & _).
  exists s'. split; [exact Hrun|].
  rewrite H1, H2, Hc, Ho. vm_compute. repeat split.
Defined.

(** X7.  [__init__] fails only when the creation of the cache fails: the
    two loaders always return, whatever uploads failed.  When the creation
    succeeds the inspector holds a cache entry whose contents are the
    handles of the building standards, in the order of the dictionary, and
    a model bound to that entry; when it fails, the exception leaves
    [__init__] and neither [cache] nor [model] is set. *)
Theorem init_fails_only_with_cache {W} (E : Collab W) standards_dir examples_dir
    (w : W) t :
  exists s1,
    bind (_load_standards E (mkPath standards_dir))
         (fun _ => _load_examples E (mkPath examples_dir)) (new_state w t)
    = (Return tt, s1) /\
    match cache_create E (values (building_standards s1)) (remote s1) with
    | (None, _) =>
        exists s0 c,
          init E standards_dir examples_dir w t = (Return tt, s0) /\
          cache s0 = Some c /\
          cc_contents c = values (building_standards s0) /\
          model s0 = Some {| cached_content := c;
                             max_output_tokens := 8192;
                             response_mime_type := py "application/json" |} /\
          building_standards s0 = building_standards s1 /\
          example1 s0 = example1 s1 /\ example2 s0 = example2 s1
    | (Some msg, _) =>
        exists s0,
          init E standards_dir examples_dir w t = (Raise (Exception msg), s0) /\
          cache s0 = None /\ model s0 = None
    end.
Proof.
  unfold init, _initialize_model, _load_standards, _load_examples.
  destruct (for_each_load_standard E (fs_rglob E (mkPath standards_dir)) (new_state w t))
    as (sa & Hrun_a & _ & _ & _ & _ & _ & Hca & Hma).
  destruct (for_each_load_example E (fs_rglob E (mkPath examples_dir)) sa)
    as (s1 & Hrun_b & _ & _ & _ & _ & _ & _ & _ & Hcb & Hmb).
  exists s1. unfold bind at 1. rewrite Hrun_a. split; [exact Hrun_b|].
  unfold bind, get, CachedContent_create, set_cache_model.
  rewrite Hrun_a, Hrun_b. cbn [fst snd].
  destruct (cache_create E (values (building_standards s1)) (remote s1))
    as [[msg|] w'] eqn:Hcc.
  - eexists. split; [reflexivity|]. cbn [cache model called].
    rewrite Hcb, Hca, Hmb, Hma. split; reflexivity.
  - eexists. eexists. split; [reflexivity|]. cbn. repeat split.
Qed.

(** * Further properties of [_upload_video] *)

Lemma not_processing (st : FileState) :
  str_eqb (state_name st) (py "PROCESSING") = false -> st <> PROCESSING.
Proof. intros H ->. discriminate. Qed.

Lemma not_failed (st : FileState) :
  str_eqb (state_name st) (py "FAILED") = false -> st <> FAILED.
Proof. intros H ->. discriminate. Qed.

(** The loop ends only on a state that is not PROCESSING. *)
Lemma wait_processing_returns {W} (E : Collab W) fuel f (s s' : state W) f' :
  wait_processing E fuel f s = (Return f', s') -> file_state f' <> PROCESSING.
Proof.
  revert f s. induction fuel as [|fuel IH]; intros f s; simpl;
    destruct (str_eqb (state_name (file_state f)) (py "PROCESSING")) eqn:Hp;
    try discriminate;
    try (intros H; inversion H; subst; apply not_processing; assumption).
  unfold bind, print, time_sleep, genai_get_file. cbn [fst snd remote called].
  destruct (get_file E (file_name f) _) as [[msg|f1] w]; [discriminate|].
  apply IH.
Qed.

Lemma wait_processing_user_data {W} (E : Collab W) fuel f (s s' : state W) r :
  wait_processing E fuel f s = (r, s') -> user_data s' = user_data s.
Proof.
  apply (@preserves_wait_processing W E (fun s s' => user_data s' = user_data s));
    try reflexivity; intros; simpl; congruence.
Qed.

Lemma upload_video_returns {W} (E : Collab W) fuel video_path (s s' : state W) :
  _upload_video E fuel video_path s = (Return tt, s') ->
  exists video_file,
    user_data s' = dict_set (user_data s) (Path_name (mkPath video_path)) video_file /\
    file_state video_file <> PROCESSING /\
    file_state video_file <> FAILED /\
    In (CallUpload video_path) (calls s').
Proof.
  unfold _upload_video, bind, print, genai_upload_file. cbn [fst snd remote].
  destruct (upload_file E video_path (remote s)) as [[msg|f] w]; [discriminate|].
  match goal with
  | |- context [wait_processing E fuel f ?s0] =>
      destruct (wait_processing E fuel f s0) as [[f'| e |] s1] eqn:Hw; try discriminate;
      pose proof (wait_processing_returns _ _ _ _ Hw) as Hready;
      pose proof (wait_processing_user_data _ _ _ _ Hw) as Hdata;
      pose proof (wait_processing_upload_paths _ _ _ _ Hw) as Hcalls
  end.
  destruct (str_eqb (state_name (file_state f')) (py "FAILED")) eqn:Hf;
    unfold raise, get, set_user_data; [discriminate|].
  intros H. inversion H; subst. clear H. exists f'. cbn [user_data calls].
  cbn [user_data called] in Hdata. rewrite Hdata.
  split; [reflexivity|]. split; [assumption|]. split; [apply not_failed; assumption|].
  cbn [calls called] in Hcalls. rewrite upload_paths_app in Hcalls. simpl in Hcalls.
  assert (Hin : In video_path (upload_paths (calls s1))).
  { rewrite Hcalls. apply in_or_app. right. left. reflexivity. }
  unfold upload_paths in Hin. apply in_flat_map in Hin.
  destruct Hin as (c & Hc & Hin). destruct c; simpl in Hin; try contradiction.
  destruct Hin as [->|[]]. exact Hc.
Qed.

(** X8.  When [_upload_video] returns, the entry it stored under the file
    name of the video is the last handle the service gave, and its state is
    neither PROCESSING nor FAILED; the other entries of [user_data] are as
    they were. *)
Theorem upload_video_stores_ready {W} (E : Collab W) fuel video_path (s s' : state W) :
  _upload_video E fuel video_path s = (Return tt, s') ->
  exists video_file,
    user_data s' = dict_set (user_data s) (Path_name (mkPath video_path)) video_file /\
    file_state video_file <> PROCESSING /\
    file_state video_file <> FAILED /\
    In (CallUpload video_path) (calls s').
Proof. exact (@upload_video_returns W E fuel video_path s s'). Qed.

Lemma upload_video_stores_ready_witness :
  let E := Cases.ready_at_third in
  exists s' video_file,
    _upload_video E 5 (py "/tmp/walk.mp4") (new_state 0%nat 0) = (Return tt, s') /\
    user_data s' = [(py "walk.mp4", video_file)] /\
    file_state video_file = ACTIVE /\
    now s' = 30.
Proof.
  intros E.
  pose (s' := snd (_upload_video E 5 (py "/tmp/walk.mp4") (new_state 0%nat 0))).
  assert (H : _upload_video E 5 (py "/tmp/walk.mp4") (new_state 0%nat 0)
              = (Return tt, s')) by (vm_compute; reflexivity).
  destruct (upload_video_stores_ready E 5 (py "/tmp/walk.mp4") (new_state 0%nat 0) H)
    as (f & Hd & _).
  exists s', f. split; [exact H|]. split; [exact Hd|].
  assert (Hf : user_data s' = [(py "walk.mp4", Scenario.uploaded (py "/tmp/walk.mp4") ACTIVE)])
    by (vm_compute; reflexivity).
  rewrite Hf in Hd. inversion Hd. split; reflexivity.
Defined.

(** The rounds of the loop: each one sleeps 10 seconds and then polls
    once. *)
Lemma wait_processing_rounds {W} (E : Collab W) fuel f (s s' : state W) r :
  wait_processing E fuel f s = (r, s') ->
  exists k, (k <= fuel)%nat /\
    now s' = now s + 10 * Z.of_nat k /\
    sleeps (calls s') = sleeps (calls s) ++ repeat 10 k /\
    polls (calls s') = (polls (calls s) + k)%nat.
Proof.
  revert f s. induction fuel as [|fuel IH]; intros f s; cbn [wait_processing];
    destruct (str_eqb (state_name (file_state f)) (py "PROCESSING")) eqn:Hp;
    try (intros H; inversion H; subst; exists 0%nat; simpl;
         rewrite List.app_nil_r; repeat split; lia).
  unfold bind, print, time_sleep, genai_get_file. cbn [fst snd remote called].
  destruct (get_file E (file_name f) _) as [[msg|f1] w] eqn:Hg.
  - intros H. inversion H; subst. exists 1%nat. clear IH. cbn [now calls called].
    unfold sleeps, polls. rewrite !flat_map_app, !filter_app, !length_app. simpl.
    rewrite List.app_nil_r. repeat split; lia.
  - intros H. apply IH in H. destruct H as (k & Hk & Hn & Hs & Hpl).
    exists (S k). cbn [now calls called] in Hn, Hs, Hpl.
    unfold sleeps, polls in *.
    rewrite !flat_map_app, !filter_app, !length_app in *. simpl in Hs, Hpl.
    rewrite List.app_nil_r in Hs. rewrite <- app_assoc in Hs.
    split; [lia|]. split; [lia|]. split; [exact Hs | lia].
Qed.

(** X9.  Whatever comes of [_upload_video], the time it has taken on the
    clock is 10 seconds for each poll of the state of the video: it has
    slept 10 seconds exactly once before each call of [get_file], and never
    otherwise. *)
Theorem upload_video_polls_every_10s {W} (E : Collab W) fuel video_path
    (s s' : state W) r :
  _upload_video E fuel video_path s = (r, s') ->
  exists k, (k <= fuel)%nat /\
    now s' = now s + 10 * Z.of_nat k /\
    sleeps (calls s') = sleeps (calls s) ++ repeat 10 k /\
    polls (calls s') = (polls (calls s) + k)%nat.
Proof.
  unfold _upload_video, bind, print, genai_upload_file. cbn [fst snd remote].
  destruct (upload_file E video_path (remote s)) as [[msg|f] w].
  { intros H. inversion H; subst. exists 0%nat. cbn [now calls called].
    unfold sleeps, polls. rewrite !flat_map_app, !filter_app, !length_app. simpl.
    rewrite List.app_nil_r. repeat split; lia. }
  match goal with
  | |- context [wait_processing E fuel f ?s0] =>
      destruct (wait_processing E fuel f s0) as [[f'| e |] s1] eqn:Hw;
      apply wait_processing_rounds in Hw; destruct Hw as (k & Hk & Hn & Hs & Hpl);
      cbn [now calls called] in Hn, Hs, Hpl;
      unfold sleeps, polls in Hs, Hpl;
      rewrite !flat_map_app in Hs; rewrite !filter_app, !length_app in Hpl;
      simpl in Hs, Hpl; rewrite List.app_nil_r in Hs
  end.
  - destruct (str_eqb (state_name (file_state f')) (py "FAILED"));
      unfold raise, get, set_user_data; intros H; inversion H; subst;
      exists k; cbn [now calls called]; (split; [lia|]); (split; [lia|]);
      (split; [exact Hs | unfold polls; lia]).
  - intros H; inversion H; subst. exists k.
    split; [lia|]. split; [lia|]. split; [exact Hs | unfold polls; lia].
  - intros H; inversion H; subst. exists k.
    split; [lia|]. split; [lia|]. split; [exact Hs | unfold polls; lia].
Qed.

Lemma upload_video_polls_every_10s_witness :
  let E := Cases.ready_at_third in
  let r := _upload_video E 5 (py "/tmp/walk.mp4") (new_state 0%nat 100) in
  exists k,
    now (snd r) = 100 + 10 * Z.of_nat k /\
    sleeps (calls (snd r)) = repeat 10 k /\
    polls (calls (snd r)) = k /\
    k = 3%nat.
Proof.
  intros E r.
  destruct (@upload_video_polls_every_10s nat E 5 (py "/tmp/walk.mp4")
              (new_state 0%nat 100) (snd r) (fst r))
    as (k & _ & Hn & Hs & Hp).
  { exact (surjective_pairing r). }
  exists k. split; [exact Hn|]. split; [exact Hs|]. split; [exact Hp|].
  assert (H3 : polls (calls (snd r)) = 3%nat) by (vm_compute; reflexivity).
  rewrite H3 in Hp. simpl in Hp. symmetry. exact Hp.
Defined.

(** * Properties of a session *)

Lemma analysis_calls_app cs1 cs2 :
  analysis_calls (cs1 ++ cs2) = (analysis_calls cs1 + analysis_calls cs2)%nat.
Proof. unfold analysis_calls. rewrite filter_app, length_app. reflexivity. Qed.

Lemma upload_user_media_same_analysis {W} (E : Collab W) fuel media_paths
    (s s' : state W) r :
  upload_user_media E fuel media_paths s = (r, s') -> same_analysis s s'.
Proof.
  apply (@preserves_upload_user_media W E same_analysis).
  - intros s0. split; reflexivity.
  - unfold same_analysis. intros s1 s2 s3 [-> ->] [-> ->]. split; reflexivity.
  - intros line s0. split; reflexivity.
  - intros path w s0. split; [reflexivity|]. simpl. unfold analysis_calls.
    rewrite filter_app, length_app. simpl. lia.
  - intros name w s0. split; [reflexivity|]. simpl. unfold analysis_calls.
    rewrite filter_app, length_app. simpl. lia.
  - intros secs w s0. split; [reflexivity|]. simpl. unfold analysis_calls.
    rewrite filter_app, length_app. simpl. lia.
  - intros d s0. split; reflexivity.
Qed.

Lemma generate_report_calls {W} (E : Collab W) (s : state W) m :
  model s = Some m ->
  calls (snd (generate_report E s))
  = calls s ++ [CallSendMessage m (report_content (user_data s)) report_request]
  /\ model (snd (generate_report E s)) = Some m
  /\ user_data (snd (generate_report E s)) = user_data s.
Proof.
  intros Hm. unfold generate_report. rewrite Hm.
  destruct (send_message E m _ report_request (remote s)) as [[msg|text] w];
    simpl; auto.
Qed.

Lemma run_op_analysis {W} (E : Collab W) (o : op) (s : state W) m :
  model s = Some m ->
  model (run_op E o s) = Some m
  /\ analysis_calls (calls (run_op E o s))
     = (analysis_calls (calls s) + report_requests [o])%nat.
Proof.
  intros Hm. destruct o as [secs | fuel media_paths |].
  - split; [exact Hm|]. unfold report_requests. simpl. lia.
  - unfold run_op.
    destruct (upload_user_media E fuel media_paths s) as [r s'] eqn:Hu.
    destruct (upload_user_media_same_analysis _ _ _ _ Hu) as [Hm' Hc].
    cbn [snd]. rewrite Hm', Hc. split; [exact Hm|]. unfold report_requests. simpl. lia.
  - destruct (generate_report_calls E s Hm) as (Hc & Hm' & _).
    unfold run_op. rewrite Hc, analysis_calls_app. split; [exact Hm'|]. reflexivity.
Qed.

(** X10.  In a session of an inspector that holds a model, each call of
    [generate_report] makes exactly one call to the analysis service,
    whatever the service answers and whatever was asked before, and no other
    operation makes one: a report is never taken from an earlier answer. *)
Theorem one_analysis_call_per_report {W} (E : Collab W) (ops : list op)
    (s : state W) m :
  model s = Some m ->
  analysis_calls (calls (run_session E ops s))
  = (analysis_calls (calls s) + report_requests ops)%nat.
Proof.
  revert s. unfold run_session.
  induction ops as [|o ops IH]; intros s Hm; cbn [fold_left].
  - unfold report_requests. simpl. lia.
  - destruct (run_op_analysis E o s Hm) as [Hm' Hc].
    rewrite (IH (run_op E o s) Hm'), Hc.
    change (o :: ops) with ([o] ++ ops).
    unfold report_requests. rewrite filter_app, length_app. lia.
Qed.

Lemma one_analysis_call_per_report_witness :
  let E := Scenario.five_standards in
  let s0 := snd (init E (py "standards") (py "examples") 0%nat 100) in
  analysis_calls
    (calls (run_session E
              [GenerateReport; UploadUserMedia 5 [py "site/plan.pdf"]; Idle 60;
               GenerateReport; GenerateReport] s0))
  = 3%nat.
Proof.
  intros E s0.
  destruct (model s0) as [m|] eqn:Hm; [| vm_compute in Hm; discriminate].
  rewrite (one_analysis_call_per_report E
             [GenerateReport; UploadUserMedia 5 [py "site/plan.pdf"]; Idle 60;
              GenerateReport; GenerateReport] s0 Hm).
  vm_compute. reflexivity.
Defined.

(** ** The user's media are kept *)

Lemma upload_video_keeps_keys {W} (E : Collab W) fuel path (s s' : state W) r k :
  _upload_video E fuel path s = (r, s') ->
  In k (keys (user_data s)) -> In k (keys (user_data s')).
Proof.
  intros H Hk. destruct r as [[]| e |].
  - destruct (upload_video_returns _ _ _ _ H) as (f & Hd & _).
    rewrite Hd. apply In_keys_dict_set. right. exact Hk.
  - rewrite (upload_video_failing_user_data _ _ _ _ H); [exact Hk | discriminate].
  - rewrite (upload_video_failing_user_data _ _ _ _ H); [exact Hk | discriminate].
Qed.

Lemma upload_one_keeps_keys {W} (E : Collab W) fuel path (s s' : state W) r k :
  upload_one E fuel path s = (r, s') ->
  In k (keys (user_data s)) -> In k (keys (user_data s')).
Proof.
  unfold upload_one. destruct (supported (mkPath path)).
  - destruct (upload_file E _ (remote s)) as [[msg|f] w];
      intros H Hk; inversion H; subst; simpl; [exact Hk|].
    apply In_keys_dict_set. right. exact Hk.
  - destruct (is_video (mkPath path)).
    + apply upload_video_keeps_keys.
    + intros H Hk. inversion H; subst. exact Hk.
Qed.

Lemma upload_user_media_keeps_keys {W} (E : Collab W) fuel media_paths
    (s s' : state W) r k :
  upload_user_media E fuel media_paths s = (r, s') ->
  In k (keys (user_data s)) -> In k (keys (user_data s')).
Proof.
  unfold upload_user_media. revert s.
  induction media_paths as [|path rest IH]; intros s; simpl.
  - intros H Hk. inversion H; subst. exact Hk.
  - unfold bind. destruct (upload_one E fuel path s) as [[[]| e |] s1] eqn:H1;
      intros H Hk; pose proof (upload_one_keeps_keys _ _ _ _ k H1 Hk) as Hk1.
    + exact (IH s1 H Hk1).
    + inversion H; subst. exact Hk1.
    + inversion H; subst. exact Hk1.
Qed.

Lemma run_session_keeps {W} (E : Collab W) (ops : list op) (s : state W) m k :
  model s = Some m -> In k (keys (user_data s)) ->
  model (run_session E ops s) = Some m
  /\ In k (keys (user_data (run_session E ops s))).
Proof.
  revert s. unfold run_session.
  induction ops as [|o ops IH]; intros s Hm Hk; simpl; [split; assumption|].
  destruct o as [secs | fuel media_paths |]; simpl.
  - apply IH; assumption.
  - destruct (upload_user_media E fuel media_paths s) as [r s'] eqn:Hu. simpl.
    destruct (upload_user_media_same_analysis _ _ _ _ Hu) as [Hm' _].
    apply IH; [rewrite Hm'; exact Hm |].
    exact (upload_user_media_keeps_keys _ _ _ _ k Hu Hk).
  - destruct (generate_report_calls E s Hm) as (_ & Hm' & Hd).
    apply IH; [exact Hm' | rewrite Hd; exact Hk].
Qed.

Lemma report_content_lists (d : dict File) k :
  In k (keys d) ->
  exists doc, dict_get d k = Some doc
    /\ In (Text (py "User Document: " ++ k)) (report_content d)
    /\ In (Doc doc) (report_content d).
Proof.
  unfold report_content. intros Hk.
  destruct (dict_get d k) as [doc|] eqn:Hg.
  2:{ apply dict_get_None_keys in Hg. contradiction. }
  exists doc. split; [reflexivity|].
  assert (Hin : In (k, doc) d).
  { clear Hk. induction d as [|[k' v'] d IH]; simpl in Hg; [discriminate|].
    destruct (str_eqb k' k) eqn:Ek.
    - apply str_eqb_eq in Ek. inversion Hg; subst. left. reflexivity.
    - right. apply IH. exact Hg. }
  split; right; right; apply in_flat_map; exists (k, doc);
    (split; [exact Hin|]); simpl; auto.
Qed.

(** X11.  No operation of a session removes an entry from [user_data]:
    once a medium is stored under a name, every later request for a report
    lists that name, with the handle stored under it at that time, whatever
    was uploaded or asked in between. *)
Theorem user_media_stay_in_requests {W} (E : Collab W) (ops : list op)
    (s : state W) m k :
  model s = Some m -> In k (keys (user_data s)) ->
  let s1 := run_session E ops s in
  exists history doc,
    calls (run_op E GenerateReport s1)
    = calls s1 ++ [CallSendMessage m history report_request]
    /\ dict_get (user_data s1) k = Some doc
    /\ In (Text (py "User Document: " ++ k)) history
    /\ In (Doc doc) history.
Proof.
  intros Hm Hk s1.
  destruct (run_session_keeps E ops s k Hm Hk) as [Hm1 Hk1]. fold s1 in Hm1, Hk1.
  destruct (generate_report_calls E s1 Hm1) as (Hc & _ & _).
  destruct (@report_content_lists (user_data s1) k Hk1) as (doc & Hg & Ht & Hd).
  exists (report_content (user_data s1)), doc. simpl run_op.
  split; [exact Hc|]. split; [exact Hg|]. split; assumption.
Qed.

Lemma user_media_stay_in_requests_witness :
  let E := Scenario.five_standards in
  let s0 := run_session E [UploadUserMedia 5 [py "site/plan.pdf"]]
              (snd (init E (py "standards") (py "examples") 0%nat 100)) in
  let ops := [GenerateReport; UploadUserMedia 5 [py "site/roof.jpg"]; Idle 60] in
  exists m history,
    model s0 = Some m /\
    calls (run_op E GenerateReport (run_session E ops s0))
    = calls (run_session E ops s0) ++ [CallSendMessage m history report_request] /\
    In (Text (py "User Document: plan.pdf")) history.
Proof.
  intros E s0 ops.
  destruct (model s0) as [m|] eqn:Hm; [| vm_compute in Hm; discriminate].
  assert (Hk : In (py "plan.pdf") (keys (user_data s0))) by (vm_compute; auto).
  destruct (@user_media_stay_in_requests nat E ops s0 m (py "plan.pdf") Hm Hk)
    as (history & doc & Hc & _ & Ht & _).
  exists m, history. split; [reflexivity|]. split; [exact Hc | exact Ht].
Defined.

(** * What the decoder builds from a text of scalar values *)

(** One step of [scanstring]: the closing quote, or one character of the
    string, read from a plain character, a short escape, a [\uXXXX] escape
    or a pair of them. *)
Definition lone (ch : N) (T : str) : Prop :=
  is_high_surrogate ch = true ->
  forall x1 x2 x3 x4 s4 uni2,
    T = 92%N :: 117%N :: x1 :: x2 :: x3 :: x4 :: s4 ->
    hexval4 x1 x2 x3 x4 = Some uni2 -> is_low_surrogate uni2 = false.

Definition string_step (s : str) (ch : N) (T : str) : Prop :=
  (s = ch :: T /\ N.eqb ch 34 = false /\ N.eqb ch 92 = false)
  \/ (exists esc, s = 92%N :: esc :: T /\ BACKSLASH esc = Some ch)
  \/ (exists a b c d,
        s = 92%N :: 117%N :: a :: b :: c :: d :: T
        /\ hexval4 a b c d = Some ch /\ lone ch T)
  \/ (exists a b c d x1 x2 x3 x4 uni uni2,
        s = 92%N :: 117%N :: a :: b :: c :: d
            :: 92%N :: 117%N :: x1 :: x2 :: x3 :: x4 :: T
        /\ hexval4 a b c d = Some uni /\ hexval4 x1 x2 x3 x4 = Some uni2
        /\ is_high_surrogate uni = true /\ is_low_surrogate uni2 = true
        /\ ch = join_surrogates uni uni2).

Ltac eqb_subst :=
  repeat match goal with
         | H : (_ =? _)%N = true |- _ => apply N.eqb_eq in H; subst
         | H : _ && _ = true |- _ => apply andb_true_iff in H; destruct H
         end.

Ltac lone_tac :=
  let Hh := fresh in
  let HT := fresh in
  let Hx := fresh in
  intros Hh ? ? ? ? ? ? HT Hx;
  first [ congruence
        | discriminate HT
        | inversion HT; subst; simpl in *; congruence ].

Lemma scanstring_step (s x r : str) :
  scanstring s = Some (x, r) ->
  (x = [] /\ s = 34%N :: r)
  \/ exists ch T x', x = ch :: x' /\ scanstring T = Some (x', r) /\ string_step s ch T.
Proof.
  intros H. destruct s as [|c s1]; [discriminate|]. simpl in H.
  repeat (break_match_hyp H; try discriminate; subst); eqb_subst;
    try (left; inversion H; subst; split; reflexivity);
    right; apply add_char_Some in H; destruct H as (x' & H & ->);
    do 3 eexists; (split; [reflexivity|]); (split; [exact H|]); unfold string_step;
    first
      [ left; repeat split; assumption
      | right; left; eexists; split; [reflexivity | assumption]
      | right; right; left; do 4 eexists;
        split; [reflexivity | split; [eassumption | lone_tac]]
      | right; right; right; do 10 eexists;
        split; [reflexivity|]; repeat split; eassumption ].
Qed.

Lemma hexval_lt (c v : N) : hexval c = Some v -> (v < 16)%N.
Proof.
  unfold hexval.
  destruct ((48 <=? c) && (c <=? 57))%N eqn:E1.
  { apply andb_true_iff in E1. destruct E1 as [A B].
    apply N.leb_le in A. apply N.leb_le in B. intros H; inversion H. lia. }
  destruct ((97 <=? c) && (c <=? 102))%N eqn:E2.
  { apply andb_true_iff in E2. destruct E2 as [A B].
    apply N.leb_le in A. apply N.leb_le in B. intros H; inversion H. lia. }
  destruct ((65 <=? c) && (c <=? 70))%N eqn:E3; [| discriminate].
  apply andb_true_iff in E3. destruct E3 as [A B].
  apply N.leb_le in A. apply N.leb_le in B. intros H; inversion H. lia.
Qed.

Lemma hexval4_lt (a b c d n : N) : hexval4 a b c d = Some n -> (n < 0x10000)%N.
Proof.
  unfold hexval4.
  destruct (hexval a) as [x|] eqn:Ha; [| discriminate].
  destruct (hexval b) as [y|] eqn:Hb; [| discriminate].
  destruct (hexval c) as [z|] eqn:Hc; [| discriminate].
  destruct (hexval d) as [w|] eqn:Hd; [| discriminate].
  apply hexval_lt in Ha, Hb, Hc, Hd. intros H; inversion H. lia.
Qed.

Lemma BACKSLASH_lt (esc ch : N) : BACKSLASH esc = Some ch -> (ch < 128)%N.
Proof.
  unfold BACKSLASH.
  repeat match goal with
         | |- context [if ?b then _ else _] => destruct b
         end; intros H; inversion H; lia.
Qed.

Lemma small_is_scalar_like (c : N) :
  (c < 0xd800)%N ->
  (c <? 0x110000)%N = true /\ is_high_surrogate c = false /\ is_low_surrogate c = false.
Proof.
  intros H. unfold is_high_surrogate, is_low_surrogate. repeat split.
  - apply N.ltb_lt. lia.
  - apply andb_false_iff. left. apply N.leb_gt. lia.
  - apply andb_false_iff. left. apply N.leb_gt. lia.
Qed.

Lemma join_surrogates_range (uni uni2 : N) :
  is_high_surrogate uni = true -> is_low_surrogate uni2 = true ->
  (0x10000 <= join_surrogates uni uni2 < 0x110000)%N.
Proof.
  unfold is_high_surrogate, is_low_surrogate, join_surrogates.
  rewrite !andb_true_iff, !N.leb_le. intros [A B] [C D].
  rewrite N.shiftl_mul_pow2.
  rewrite lor_pow2_small by (change (2 ^ 10)%N with 1024%N; lia).
  change (2 ^ 10)%N with 1024%N. lia.
Qed.

Lemma big_not_surrogate (c : N) :
  (0x10000 <= c)%N -> is_high_surrogate c = false /\ is_low_surrogate c = false.
Proof.
  intros H. unfold is_high_surrogate, is_low_surrogate.
  split; apply andb_false_iff; right; apply N.leb_gt; lia.
Qed.

Lemma str_ok_cons (c : N) (s : str) :
  str_ok (c :: s)
  = (c <? 0x110000)%N && negb (is_high_surrogate c && head_low s) && str_ok s.
Proof. destruct s; reflexivity. Qed.

Lemma text_ok_app (p r : str) : text_ok (p ++ r) = true -> text_ok r = true.
Proof. unfold text_ok. rewrite forallb_app, andb_true_iff. tauto. Qed.

Lemma is_scalar_spec (c : N) :
  is_scalar c = true ->
  (c <? 0x110000)%N = true /\ is_high_surrogate c = false /\ is_low_surrogate c = false.
Proof.
  unfold is_scalar. rewrite !andb_true_iff, !negb_true_iff. tauto.
Qed.

(** The string of a text of scalar values: a high surrogate in it is not
    followed by a low one, since the scanner would have joined the two. *)
Lemma scanstring_ok_aux (n : nat) :
  forall s x r, (List.length s <= n)%nat -> text_ok s = true ->
    scanstring s = Some (x, r) ->
    str_ok x = true /\ text_ok r = true
    /\ (head_low x = true ->
        exists a b c d T c0 x',
          x = c0 :: x' /\ s = 92%N :: 117%N :: a :: b :: c :: d :: T
          /\ hexval4 a b c d = Some c0).
Proof.
  induction n as [|n IH]; intros s x r Hlen Htext H.
  - destruct s; [discriminate | simpl in Hlen; lia].
  - destruct (scanstring_step _ H) as [[-> ->] | (ch & T & x' & -> & HT & Hstep)].
    + split; [reflexivity|]. split; [| discriminate].
      apply (text_ok_app [34%N]). exact Htext.
    + destruct Hstep as [(-> & H34 & H92)
                        | [(esc & -> & Hesc)
                        | [(a & b & c & d & -> & Hhex & Hlone)
                        | (a & b & c & d & x1 & x2 & x3 & x4 & uni & uni2
                           & -> & Hhex & Hhex2 & Hhigh & Hlow & ->)]]].
      * simpl in Hlen. pose proof Htext as Htext'.
        unfold text_ok in Htext'. simpl in Htext'.
        apply andb_true_iff in Htext'. destruct Htext' as [Hc HtT].
        destruct (is_scalar_spec _ Hc) as (Hc1 & Hc2 & Hc3).
        destruct (IH T x' r ltac:(lia) HtT HT) as (Hx' & Hr & _).
        rewrite str_ok_cons, Hc1, Hc2, Hx'. split; [reflexivity|].
        split; [exact Hr|]. simpl. rewrite Hc3. discriminate.
      * simpl in Hlen.
        assert (HtT : text_ok T = true) by (apply (text_ok_app [92%N; esc]); exact Htext).
        destruct (IH T x' r ltac:(lia) HtT HT) as (Hx' & Hr & _).
        pose proof (BACKSLASH_lt _ Hesc) as Hlt.
        destruct (@small_is_scalar_like ch ltac:(lia)) as (Hc1 & Hc2 & Hc3).
        rewrite str_ok_cons, Hc1, Hc2, Hx'. split; [reflexivity|].
        split; [exact Hr|]. simpl. rewrite Hc3. discriminate.
      * simpl in Hlen.
        assert (HtT : text_ok T = true)
          by (apply (text_ok_app [92%N; 117%N; a; b; c; d]); exact Htext).
        destruct (IH T x' r ltac:(lia) HtT HT) as (Hx' & Hr & Hfirst).
        pose proof (hexval4_lt _ _ _ _ Hhex) as Hlt.
        assert (Hc1 : (ch <? 0x110000)%N = true) by (apply N.ltb_lt; lia).
        rewrite str_ok_cons, Hc1, Hx'.
        split; [| split; [exact Hr |]].
        -- destruct (is_high_surrogate ch) eqn:Hh; [| reflexivity].
           destruct (head_low x') eqn:Hl; [| reflexivity].
           destruct (Hfirst eq_refl)
             as (a' & b' & c' & d' & T' & c0 & x'' & -> & -> & Hhex').
           simpl in Hl. rewrite (Hlone Hh _ _ _ _ _ _ eq_refl Hhex') in Hl. discriminate.
        -- intros _. exists a, b, c, d, T, ch, x'. repeat split. exact Hhex.
      * simpl in Hlen.
        assert (HtT : text_ok T = true)
          by (apply (text_ok_app [92%N; 117%N; a; b; c; d; 92%N; 117%N; x1; x2; x3; x4]);
              exact Htext).
        destruct (IH T x' r ltac:(lia) HtT HT) as (Hx' & Hr & _).
        destruct (join_surrogates_range _ _ Hhigh Hlow) as [Hge Hlt].
        destruct (@big_not_surrogate _ Hge) as [Hc2 Hc3].
        assert (Hc1 : (join_surrogates uni uni2 <? 0x110000)%N = true)
          by (apply N.ltb_lt; exact Hlt).
        rewrite str_ok_cons, Hc1, Hc2, Hx'. split; [reflexivity|].
        split; [exact Hr|]. simpl. rewrite Hc3. discriminate.
Qed.

Lemma scanstring_ok (s x r : str) :
  text_ok s = true -> scanstring s = Some (x, r) ->
  str_ok x = true /\ text_ok r = true.
Proof.
  intros Ht H.
  destruct (@scanstring_ok_aux (List.length s) s x r (le_n _) Ht H) as (A & B & _).
  split; assumption.
Qed.

Lemma text_ok_skip_ws (s : str) : text_ok s = true -> text_ok (skip_ws s) = true.
Proof.
  induction s as [|c s IH]; simpl; [auto|].
  destruct (is_ws c); [| auto].
  unfold text_ok in *. simpl. rewrite andb_true_iff. intros [_ H]. apply IH, H.
Qed.

Lemma text_ok_tail (c : N) (s : str) : text_ok (c :: s) = true -> text_ok s = true.
Proof. apply (text_ok_app [c]). Qed.

Lemma text_ok_skip_ws_cons (s : str) c r :
  text_ok s = true -> skip_ws s = c :: r -> text_ok r = true.
Proof.
  intros H E. apply text_ok_skip_ws in H. rewrite E in H. exact (text_ok_tail _ _ H).
Qed.

Lemma text_ok_skipn (n : nat) (s : str) : text_ok s = true -> text_ok (skipn n s) = true.
Proof.
  intros H. apply (text_ok_app (firstn n s)). rewrite firstn_skipn. exact H.
Qed.

Lemma take_digits_split (s ds r : str) : take_digits s = (ds, r) -> s = ds ++ r.
Proof.
  revert ds r. induction s as [|c s IH]; intros ds r; simpl.
  - intros H; inversion H; reflexivity.
  - destruct (is_digit c).
    + destruct (take_digits s) as [ds' r'] eqn:E. intros H; inversion H; subst.
      simpl. f_equal. apply IH. reflexivity.
    + intros H; inversion H; subst. reflexivity.
Qed.

Lemma match_integer_split s i r : match_integer s = Some (i, r) -> s = i ++ r.
Proof.
  unfold match_integer.
  destruct s as [|c s']; [discriminate|].
  destruct (N.eqb c 45) eqn:Ec.
  - apply N.eqb_eq in Ec. subst.
    destruct s' as [|d s2]; [discriminate|].
    destruct (N.eqb d 48); [intros H; inversion H; reflexivity|].
    destruct (is_digit d); [| discriminate].
    destruct (take_digits s2) as [ds r'] eqn:E. intros H; inversion H; subst.
    apply take_digits_split in E. subst. reflexivity.
  - destruct (N.eqb c 48); [intros H; inversion H; reflexivity|].
    destruct (is_digit c); [| discriminate].
    destruct (take_digits s') as [ds r'] eqn:E. intros H; inversion H; subst.
    apply take_digits_split in E. subst. reflexivity.
Qed.

Lemma match_frac_split s f r : match_frac s = (f, r) -> s = f ++ r.
Proof.
  unfold match_frac. destruct s as [|p [|d s']]; try (intros H; inversion H; reflexivity).
  destruct (N.eqb p 46 && is_digit d); [| intros H; inversion H; reflexivity].
  destruct (take_digits s') as [ds r'] eqn:E. intros H; inversion H; subst.
  apply take_digits_split in E. subst. reflexivity.
Qed.

Lemma match_exp_split s e r : match_exp s = (e, r) -> s = e ++ r.
Proof.
  unfold match_exp. destruct s as [|a [|sg s']]; try (intros H; inversion H; reflexivity).
  destruct (N.eqb a 101 || N.eqb a 69); [| intros H; inversion H; reflexivity].
  destruct (is_digit sg).
  - destruct (take_digits s') as [ds r'] eqn:E. intros H; inversion H; subst.
    apply take_digits_split in E. subst. reflexivity.
  - destruct (N.eqb sg 43 || N.eqb sg 45); [| intros H; inversion H; reflexivity].
    destruct s' as [|d s'']; [intros H; inversion H; reflexivity|].
    destruct (is_digit d); [| intros H; inversion H; reflexivity].
    destruct (take_digits s'') as [ds r'] eqn:E. intros H; inversion H; subst.
    apply take_digits_split in E. subst. reflexivity.
Qed.

Lemma scan_atom_ok s v r :
  text_ok s = true -> scan_atom s = Scanned v r ->
  strings_ok v = true /\ text_ok r = true.
Proof.
  intros Ht. unfold scan_atom.
  destruct (starts_with (py "null") s).
  { intros H; inversion H; subst. split; [reflexivity | exact (@text_ok_skipn 4 s Ht)]. }
  destruct (starts_with (py "true") s).
  { intros H; inversion H; subst. split; [reflexivity | exact (@text_ok_skipn 4 s Ht)]. }
  destruct (starts_with (py "false") s).
  { intros H; inversion H; subst. split; [reflexivity | exact (@text_ok_skipn 5 s Ht)]. }
  destruct (match_integer s) as [[i r0]|] eqn:Ei.
  - apply match_integer_split in Ei.
    destruct (match_frac r0) as [f r1] eqn:Ef. apply match_frac_split in Ef.
    destruct (match_exp r1) as [e r2] eqn:Ee. apply match_exp_split in Ee.
    assert (Hr2 : text_ok r2 = true).
    { subst s r0 r1. apply text_ok_app in Ht. apply text_ok_app in Ht.
      apply text_ok_app in Ht. exact Ht. }
    destruct f; destruct e; intros H; inversion H; subst r; subst v;
      (split; [reflexivity | exact Hr2]).
  - destruct (starts_with (py "NaN") s).
    { intros H; inversion H; subst. split; [reflexivity | exact (@text_ok_skipn 3 s Ht)]. }
    destruct (starts_with (py "Infinity") s).
    { intros H; inversion H; subst. split; [reflexivity | exact (@text_ok_skipn 8 s Ht)]. }
    destruct (starts_with (py "-Infinity") s); [| discriminate].
    intros H; inversion H; subst. split; [reflexivity | exact (@text_ok_skipn 9 s Ht)].
Qed.

Lemma NoDup_nodupb (ks : list str) : NoDup ks -> nodupb ks = true.
Proof.
  induction 1 as [|k ks Hk Hnd IH]; simpl; [reflexivity|].
  rewrite IH, andb_true_r. apply negb_true_iff.
  destruct (str_in k ks) eqn:E; [| reflexivity].
  apply str_in_In in E. contradiction.
Qed.

Lemma dict_set_forallb {V} (Q : str * V -> bool) (d : dict V) k v :
  forallb Q d = true -> Q (k, v) = true -> forallb Q (dict_set d k v) = true.
Proof.
  intros Hd Hkv. induction d as [|[k' v'] d IH]; simpl in *.
  - rewrite Hkv. reflexivity.
  - apply andb_true_iff in Hd. destruct Hd as [H1 H2].
    destruct (str_eqb k' k) eqn:E; simpl.
    + apply str_eqb_eq in E. subst. rewrite Hkv, H2. reflexivity.
    + rewrite H1, (IH H2). reflexivity.
Qed.

Lemma dict_of_pairs_forallb {V} (Q : str * V -> bool) (ps : list (str * V)) :
  forallb Q ps = true -> forallb Q (dict_of_pairs ps) = true.
Proof.
  unfold dict_of_pairs.
  assert (G : forall d, forallb Q d = true -> forallb Q ps = true ->
              forallb Q (fold_left (fun d kv => dict_set d (fst kv) (snd kv)) ps d) = true).
  { induction ps as [|[k v] ps IH]; intros d Hd Hps; simpl in *; [exact Hd|].
    apply andb_true_iff in Hps. destruct Hps as [H1 H2].
    apply IH; [apply dict_set_forallb; assumption | exact H2]. }
  intros H. apply G; [reflexivity | exact H].
Qed.

Lemma dict_of_pairs_nodupb {V} (ps : list (str * V)) :
  nodupb (keys (dict_of_pairs ps)) = true.
Proof. apply NoDup_nodupb. unfold dict_of_pairs. apply fold_set_NoDup. constructor. Qed.

(** The values scanned from a text of scalar values. *)
Lemma scan_strings_ok (fuel : nat) :
  (forall s v r, text_ok s = true -> parse_value fuel s = Scanned v r ->
     strings_ok v = true /\ text_ok r = true) /\
  (forall s vs r, text_ok s = true -> parse_items fuel s = Scanned vs r ->
     forallb strings_ok vs = true /\ text_ok r = true) /\
  (forall s ps r, text_ok s = true -> parse_members fuel s = Scanned ps r ->
     forallb (fun kv => str_ok (fst kv) && strings_ok (snd kv)) ps = true
     /\ text_ok r = true).
Proof.
  induction fuel as [|fuel (IHv & IHa & IHo)].
  - repeat split; intros; discriminate.
  - split; [| split].
    + intros s v r Ht H. simpl in H.
      destruct s as [|c s1]; [discriminate|].
      pose proof (text_ok_tail _ _ Ht) as Ht1.
      destruct (N.eqb c 34).
      { destruct (scanstring s1) as [[x r']|] eqn:E; [| discriminate].
        inversion H; subst. exact (scanstring_ok _ Ht1 E). }
      destruct (N.eqb c 123).
      { destruct (skip_ws s1) as [|c1 r1] eqn:E; [discriminate|].
        pose proof (text_ok_skip_ws_cons _ Ht1 E) as Hr1.
        destruct (N.eqb c1 125); [inversion H; subst; split; [reflexivity | exact Hr1]|].
        destruct (N.eqb c1 34); [| discriminate].
        destruct (parse_members fuel r1) as [ps r'| |] eqn:Eo; try discriminate.
        inversion H; subst. destruct (IHo _ _ _ Hr1 Eo) as [Hps Hr].
        split; [| exact Hr]. cbn [strings_ok].
        rewrite dict_of_pairs_forallb by exact Hps.
        rewrite dict_of_pairs_nodupb. reflexivity. }
      destruct (N.eqb c 91).
      { destruct (skip_ws s1) as [|c1 r1] eqn:E; [discriminate|].
        assert (Hc1 : text_ok (c1 :: r1) = true)
          by (rewrite <- E; apply text_ok_skip_ws, Ht1).
        destruct (N.eqb c1 93);
          [inversion H; subst; split; [reflexivity | exact (text_ok_tail _ _ Hc1)]|].
        destruct (parse_items fuel (c1 :: r1)) as [vs r'| |] eqn:Ea; try discriminate.
        inversion H; subst. exact (IHa _ _ _ Hc1 Ea). }
      exact (scan_atom_ok _ Ht H).
    + intros s vs r Ht H. simpl in H.
      destruct (parse_value fuel s) as [v r0| |] eqn:Ev; try discriminate.
      destruct (IHv _ _ _ Ht Ev) as [Hv Hr0].
      destruct (skip_ws r0) as [|c r1] eqn:E; [discriminate|].
      pose proof (text_ok_skip_ws_cons _ Hr0 E) as Hr1.
      destruct (N.eqb c 93).
      { inversion H; subst. simpl. rewrite Hv. split; [reflexivity | exact Hr1]. }
      destruct (N.eqb c 44); [| discriminate].
      destruct (parse_items fuel (skip_ws r1)) as [vs' r2| |] eqn:Ea; try discriminate.
      inversion H; subst.
      destruct (IHa _ _ _ (text_ok_skip_ws _ Hr1) Ea) as [Hvs Hr2].
      simpl. rewrite Hv, Hvs. split; [reflexivity | exact Hr2].
    + intros s ps r Ht H. simpl in H.
      destruct (scanstring s) as [[key r0]|] eqn:Ek; [| discriminate].
      destruct (scanstring_ok _ Ht Ek) as [Hkey Hr0].
      destruct (skip_ws r0) as [|c r1] eqn:E1; [discriminate|].
      pose proof (text_ok_skip_ws_cons _ Hr0 E1) as Hr1.
      destruct (N.eqb c 58); [| discriminate].
      destruct (parse_value fuel (skip_ws r1)) as [v r2| |] eqn:Ev; try discriminate.
      destruct (IHv _ _ _ (text_ok_skip_ws _ Hr1) Ev) as [Hv Hr2].
      destruct (skip_ws r2) as [|c2 r3] eqn:E2; [discriminate|].
      pose proof (text_ok_skip_ws_cons _ Hr2 E2) as Hr3.
      destruct (N.eqb c2 125).
      { inversion H; subst. simpl. rewrite Hkey, Hv. split; [reflexivity | exact Hr3]. }
      destruct (N.eqb c2 44); [| discriminate].
      destruct (skip_ws r3) as [|q r4] eqn:E3; [discriminate|].
      pose proof (text_ok_skip_ws_cons _ Hr3 E3) as Hr4.
      destruct (N.eqb q 34); [| discriminate].
      destruct (parse_members fuel r4) as [ps' r5| |] eqn:Eo; try discriminate.
      inversion H; subst. destruct (IHo _ _ _ Hr4 Eo) as [Hps Hr5].
      simpl. rewrite Hkey, Hv, Hps. split; [reflexivity | exact Hr5].
Qed.

Lemma parse_text_strings_ok (text : str) (v : json) (r : str) :
  text_ok text = true -> parse_text text = Scanned v r -> strings_ok v = true.
Proof.
  intros Ht. unfold parse_text.
  destruct (parse_value (fuel_for text) (skip_ws text)) as [obj r0| |] eqn:E;
    try discriminate.
  destruct (proj1 (scan_strings_ok (fuel_for text)) _ _ _ (text_ok_skip_ws _ Ht) E)
    as [Hv _].
  destruct (skip_ws r0); [| discriminate]. intros H; inversion H; subst. exact Hv.
Qed.

Lemma loads_strings_ok (L : Limits) (text : str) (v : json) :
  text_ok text = true -> loads L text = Return v -> strings_ok v = true.
Proof.
  intros Ht Hl. pose proof (loads_cases L text) as H. rewrite Hl in H.
  exact (parse_text_strings_ok _ Ht H).
Qed.

Lemma json_ok_of (v : json) :
  strings_ok v = true -> float_free v = true -> json_ok v = true.
Proof.
  induction v as [| b | z | literal | s | items IH | members IH] using json_induction;
    cbn [strings_ok float_free json_ok]; try (intros; reflexivity); try discriminate.
  - auto.
  - induction IH as [|x items Hx _ IHitems]; simpl; [reflexivity|].
    rewrite !andb_true_iff. intros [A B] [C D]. split; auto.
  - rewrite !andb_true_iff. intros [Hs Hn] Hf. split; [| exact Hn].
    clear Hn. induction IH as [|[k x] members Hx _ IHm]; simpl in *; [reflexivity|].
    rewrite !andb_true_iff in *. destruct Hs as [[A B] C]. destruct Hf as [D F].
    repeat split; auto.
Qed.

Lemma loads_json_ok (L : Limits) (text : str) (report : json) :
  text_ok text = true -> loads L text = Return report -> float_free report = true ->
  json_ok report = true.
Proof.
  intros Ht Hl Hf. apply json_ok_of; [exact (loads_strings_ok _ _ Ht Hl) | exact Hf].
Qed.

(** X12.  The report that [generate_report] returns can be exported and
    read back: when the text of the response holds Unicode scalar values
    only (no lone surrogate) and the report parsed from it holds no float,
    the text that the app offers for download, [json.dumps(report,
    indent=4)], is a JSON text of that same report, and [json.loads]
    returns the report from it in every interpreter whose limits the
    report fits. *)
Theorem exported_report_reparses {W} (E : Collab W) (float_repr : str -> str)
    (s : state W) m text w report :
  model s = Some m ->
  send_message E m (report_content (user_data s)) report_request (remote s)
  = (inr text, w) ->
  text_ok text = true ->
  fst (generate_report E s) = Return report ->
  float_free report = true ->
  parse_text (toStructuredData float_repr report) = Scanned report [] /\
  forall L : Limits,
    fits L report = true ->
    loads L (toStructuredData float_repr report) = Return report.
Proof.
  intros Hm Hsend Ht Hr Hf.
  rewrite (generate_report_run E s Hm Hsend) in Hr.
  pose proof (loads_json_ok _ _ Ht Hr Hf) as Hok.
  unfold toStructuredData. split.
  - apply parse_dumps, Hok.
  - intros L HL. apply loads_dumps; assumption.
Qed.

Lemma exported_report_reparses_witness :
  let E := Scenario.answering Cases.response_escaped in
  let s := Scenario.session_12s E in
  exists report,
    fst (generate_report E s) = Return report /\
    loads Scenario.cpython (toStructuredData (fun literal => literal) report)
    = Return report.
Proof.
  intros E s.
  destruct (model s) as [m|] eqn:Hm; [| vm_compute in Hm; discriminate].
  assert (Hsend : send_message E m (report_content (user_data s)) report_request (remote s)
                  = (inr Cases.response_escaped, remote s)) by reflexivity.
  pose proof (generate_report_run E s Hm Hsend) as Hrun.
  let v := eval vm_compute in (loads Scenario.cpython Cases.response_escaped) in
  match v with Return ?x => pose (report := x) end.
  assert (Hl : loads (interpreter E) Cases.response_escaped = Return report)
    by (vm_compute; reflexivity).
  rewrite Hl in Hrun.
  assert (Hf : float_free report = true) by (vm_compute; reflexivity).
  exists report. split; [exact Hrun|].
  apply (@exported_report_reparses nat E (fun literal => literal) s m
           Cases.response_escaped (remote s) report Hm Hsend
           ltac:(vm_compute; reflexivity) Hrun Hf).
  vm_compute. reflexivity.
Defined.

(** * Properties of the Word report *)

Import Word.

Lemma bind_inr {A B} (m : R A) (k : A -> R B) printed b :
  bind m k = (printed, inr b) ->
  exists p1 a p2, m = (p1, inr a) /\ k a = (p2, inr b) /\ printed = p1 ++ p2.
Proof.
  unfold bind. destruct m as [p1 [e|a]]; [discriminate|].
  destruct (k a) as [p2 r] eqn:Hk. intros H. inversion H; subst.
  exists p1, a, p2. auto.
Qed.

Lemma lift_inr {A} (x : error + A) printed a :
  lift x = (printed, inr a) -> x = inr a /\ printed = [].
Proof. unfold lift. intros H. inversion H; subst. auto. Qed.

Lemma ret_inr {A} (a b : A) printed : ret a = (printed, inr b) -> a = b /\ printed = [].
Proof. unfold ret. intros H. inversion H; subst. auto. Qed.

Lemma accept_inr (L : Library) text printed u :
  accept L text = (printed, inr u) -> rejects L text = None /\ printed = [].
Proof.
  unfold accept. destruct (rejects L text); [discriminate|].
  intros H. inversion H. auto.
Qed.

(** Take a result apart, one call at a time. *)
Ltac invert_run H :=
  repeat match type of H with
         | bind _ _ = (_, inr _) =>
             let p1 := fresh "p" in
             let a := fresh "a" in
             let p2 := fresh "p" in
             let H1 := fresh "H" in
             let Hp := fresh "Hp" in
             apply bind_inr in H; destruct H as (p1 & a & p2 & H1 & H & Hp);
             first [ apply lift_inr in H1; destruct H1 as [H1 ?]
                   | apply accept_inr in H1; destruct H1 as [H1 ?]
                   | idtac ];
             subst
         end.

Lemma for_blocks_Forall (P : Block -> Prop) (items : list json)
    (body : json -> R (list Block)) printed bs :
  (forall x p b, In x items -> body x = (p, inr b) -> Forall P b) ->
  for_blocks items body = (printed, inr bs) -> Forall P bs.
Proof.
  revert printed bs. induction items as [|x rest IH]; intros printed bs Hbody H.
  - simpl in H. apply ret_inr in H. destruct H as [<- _]. constructor.
  - simpl in H. invert_run H. apply ret_inr in H. destruct H as [<- _].
    apply Forall_app. split.
    + eapply Hbody; [left; reflexivity | eassumption].
    + eapply IH; [| eassumption]. intros y q b Hy. apply Hbody. right. exact Hy.
Qed.

Lemma add_bullet_inr (L : Library) text printed bs :
  add_bullet L text = (printed, inr bs) ->
  bs = [Paragraph (Some text) (Some (py "List Bullet")) false []].
Proof.
  unfold add_bullet. intros H. invert_run H. apply ret_inr in H. destruct H as [<- _].
  reflexivity.
Qed.

Lemma add_heading_inr (L : Library) text level printed bs :
  add_heading L text level = (printed, inr bs) -> bs = [Heading text level false].
Proof.
  unfold add_heading. intros H. invert_run H. apply ret_inr in H. destruct H as [<- _].
  reflexivity.
Qed.

Lemma bullets_Forall (L : Library) (P : Block -> Prop) (items : list json) printed bs :
  (forall text, P (Paragraph (Some text) (Some (py "List Bullet")) false [])) ->
  for_blocks items (add_bullet L) = (printed, inr bs) -> Forall P bs.
Proof.
  intros HP. apply for_blocks_Forall. intros x q b _ H.
  apply add_bullet_inr in H. subst. constructor; [apply HP | constructor].
Qed.


Lemma startswith_inr (v : json) prefix b :
  startswith v prefix = inr b -> exists s, v = JStr s /\ starts_with prefix s = b.
Proof.
  destruct v; simpl; try discriminate. intros H. inversion H. eauto.
Qed.

Lemma plain_ok text : colour_ok (plain text).
Proof. exact I. Qed.

Lemma bold_ok text : colour_ok (bold text).
Proof. exact I. Qed.

Lemma bullet_ok (L : Library) text :
  block_ok L (Paragraph (Some text) (Some (py "List Bullet")) false []).
Proof. constructor. Qed.

Lemma image_of_blocks (L : Library) finding area printed bs :
  image_of L finding area = (printed, inr bs) -> Forall (block_ok L) bs.
Proof.
  unfold image_of. intros H. invert_run H.
  destruct (truthy L a); [| apply ret_inr in H; destruct H as [<- _]; constructor].
  invert_run H. apply startswith_inr in H1. destruct H1 as (ref & -> & Hsw).
  destruct a0; [| apply ret_inr in H; destruct H as [<- _]; constructor].
  simpl format in H.
  destruct (path_exists L (os_path_join (py "extracted_frames") ref)) eqn:Hex;
    [| apply ret_inr in H; destruct H as [<- _]; constructor].
  invert_run H. unfold add_image in H.
  assert (Hpic : block_ok L (Picture (os_path_join (py "extracted_frames") ref) 4)).
  { split; [| reflexivity]. exists ref. auto. }
  destruct (add_picture L _).
  { inversion H; subst. constructor. }
  destruct (rejects L _).
  { inversion H; subst. constructor; [exact Hpic | constructor]. }
  apply ret_inr in H. destruct H as [<- _].
  constructor; [exact Hpic|]. constructor; [constructor|].
  constructor; [constructor | constructor].
Qed.

Lemma optional_bullets_blocks (L : Library) (v : json) (title : str) level printed bs :
  (if truthy L v then
     bind (lift (iter v)) (fun items =>
       bind (for_blocks items (add_bullet L)) (fun bullets =>
         ret (Heading title level false :: bullets)))
   else ret []) = (printed, inr bs) ->
  Forall (block_ok L) bs.
Proof.
  destruct (truthy L v); intros H;
    [| apply ret_inr in H; destruct H as [<- _]; constructor].
  invert_run H. apply ret_inr in H. destruct H as [<- _].
  constructor; [exact I|].
  eapply bullets_Forall; [| eassumption]. intros text. apply bullet_ok.
Qed.

Ltac part_ok :=
  match goal with
  | H : add_heading _ _ _ = (_, inr ?x) |- Forall _ ?x =>
      apply add_heading_inr in H; subst; repeat constructor
  | H : image_of _ _ _ = (_, inr ?x) |- Forall _ ?x =>
      eapply image_of_blocks; exact H
  | H : for_blocks _ (add_bullet _) = (_, inr ?x) |- Forall _ ?x =>
      eapply bullets_Forall; [intros; apply bullet_ok | exact H]
  | H : (if truthy _ _ then bind (lift (iter _)) _ else _) = (_, inr ?x)
    |- Forall _ ?x =>
      eapply optional_bullets_blocks; exact H
  | H : (if ?c then _ else ret []) = (_, inr ?x) |- Forall _ ?x =>
      destruct c; [invert_run H |];
      apply ret_inr in H; destruct H as [<- _]; repeat constructor
  | |- Forall _ (_ :: _) => repeat constructor
  | |- Forall _ [] => constructor
  end.

Lemma render_finding_blocks (L : Library) finding printed bs :
  render_finding L finding = (printed, inr bs) -> Forall (block_ok L) bs.
Proof.
  unfold render_finding. intros H. invert_run H.
  apply ret_inr in H. destruct H as [<- _].
  repeat (apply Forall_app; split); part_ok.
Qed.

Lemma executive_summary_blocks (L : Library) report_data printed bs :
  _add_executive_summary L report_data = (printed, inr bs) -> Forall (block_ok L) bs.
Proof.
  unfold _add_executive_summary. intros H. invert_run H.
  apply ret_inr in H. destruct H as [<- _].
  repeat (apply Forall_app; split); try part_ok.
  eapply for_blocks_Forall; [| eassumption].
  intros x q b _ Hb. cbv beta in Hb. invert_run Hb.
  apply ret_inr in Hb. destruct Hb as [<- _].
  repeat constructor.
Qed.

Lemma detailed_findings_blocks (L : Library) report_data printed bs :
  _add_detailed_findings L report_data = (printed, inr bs) -> Forall (block_ok L) bs.
Proof.
  unfold _add_detailed_findings. intros H. invert_run H.
  apply ret_inr in H. destruct H as [<- _].
  constructor; [exact I|].
  eapply for_blocks_Forall; [| eassumption].
  intros x q b _ Hb. eapply render_finding_blocks. exact Hb.
Qed.

Lemma render_schedule_blocks (L : Library) schedule printed bs :
  render_schedule L schedule = (printed, inr bs) -> Forall (block_ok L) bs.
Proof.
  unfold render_schedule. intros H. invert_run H.
  apply ret_inr in H. destruct H as [<- _].
  apply Forall_app; split; part_ok.
Qed.

Lemma maintenance_schedule_blocks (L : Library) report_data printed bs :
  _add_maintenance_schedule L report_data = (printed, inr bs) ->
  Forall (block_ok L) bs.
Proof.
  unfold _add_maintenance_schedule. intros H. invert_run H.
  apply ret_inr in H. destruct H as [<- _].
  constructor; [exact I|]. apply Forall_app; split; try part_ok.
  eapply for_blocks_Forall; [| eassumption].
  intros x q b _ Hb. eapply render_schedule_blocks. exact Hb.
Qed.

(** Every block of a saved document is as [block_ok] has it. *)
Lemma document_blocks (L : Library) report_data output_path printed doc :
  generate_word_report L report_data output_path = (printed, inr doc) ->
  Forall (block_ok L) (body doc).
Proof.
  unfold generate_word_report. intros H. invert_run H.
  destruct (save L output_path); [discriminate|].
  apply ret_inr in H. destruct H as [<- _]. simpl body.
  repeat (apply Forall_app; split).
  - match goal with
    | H : inr _ = inr ?x |- Forall _ ?x => inversion H; subst
    end.
    repeat constructor.
  - eapply executive_summary_blocks; eassumption.
  - eapply detailed_findings_blocks; eassumption.
  - eapply maintenance_schedule_blocks; eassumption.
Qed.

(** X13.  In a Word report that was saved, every picture is a file that
    exists (when it was looked for) at the path extracted_frames/<name>,
    for a name that begins with frame_, with a width of 4 inches: the
    folder is the fixed one, whatever folder the frames were written to. *)
Theorem word_report_pictures (L : Library) report_data output_path printed doc :
  generate_word_report L report_data output_path = (printed, inr doc) ->
  forall path, In path (pictures (body doc)) ->
    exists name,
      starts_with (py "frame_") name = true /\
      path = py "extracted_frames/" ++ name /\
      path_exists L path = true.
Proof.
  intros H path Hin. apply document_blocks in H.
  unfold pictures in Hin. apply in_flat_map in Hin. destruct Hin as (b & Hb & Hin).
  rewrite Forall_forall in H. specialize (H b Hb).
  destruct b; simpl in Hin; try contradiction. destruct Hin as [<- | []].
  destruct H as [(ref & Hsw & Hpath & Hex) _].
  exists ref. split; [exact Hsw|]. split; [| exact Hex].
  rewrite Hpath. destruct ref as [|c ref]; [discriminate|].
  change (starts_with (py "frame_") (c :: ref))
    with (N.eqb 102 c && starts_with (py "rame_") ref) in Hsw.
  apply andb_true_iff in Hsw. destruct Hsw as [Hc _].
  apply N.eqb_eq in Hc. subst c. reflexivity.
Qed.

(** X14.  In a Word report that was saved, the only text that carries a
    colour is the compliance status of a finding: red when the status is
    the string Non-compliant, green for any other value.  Each other
    coloured run is a red run without text: the text of a critical issue
    is bold and has no colour. *)
Theorem word_report_colours (L : Library) report_data output_path printed doc :
  generate_word_report L report_data output_path = (printed, inr doc) ->
  forall b run c, In b (body doc) -> In run (runs_of b) -> run_color run = Some c ->
    match run_text run with
    | None => c = red
    | Some status =>
        run_bold run = false /\
        c = (if eq_literal status (py "Non-compliant") then red else green)
    end.
Proof.
  intros H b run c Hb Hrun Hc. apply document_blocks in H.
  rewrite Forall_forall in H. specialize (H b Hb).
  destruct b; simpl in Hrun; try contradiction.
  simpl in H. rewrite Forall_forall in H. specialize (H run Hrun).
  unfold colour_ok in H. rewrite Hc in H. exact H.
Qed.

Lemma word_report_pictures_witness :
  let L := WordCases.library [py "extracted_frames/frame_5.jpg"] in
  exists doc,
    generate_word_report L WordCases.report (py "inspection_report.docx")
    = ([], inr doc) /\
    pictures (body doc) = [py "extracted_frames/frame_5.jpg"] /\
    forall path, In path (pictures (body doc)) ->
      exists name,
        starts_with (py "frame_") name = true /\
        path = py "extracted_frames/" ++ name /\
        path_exists L path = true.
Proof.
  intros L.
  pose (r := generate_word_report L WordCases.report (py "inspection_report.docx")).
  let v := eval vm_compute in r in
  match v with (_, inr ?d) => pose (doc := d) end.
  assert (H : generate_word_report L WordCases.report (py "inspection_report.docx")
              = ([], inr doc)) by (vm_compute; reflexivity).
  exists doc. split; [exact H|]. split; [vm_compute; reflexivity|].
  exact (word_report_pictures L WordCases.report (py "inspection_report.docx") H).
Defined.

Lemma word_report_colours_witness :
  let L := WordCases.library [] in
  exists doc,
    generate_word_report L WordCases.report (py "inspection_report.docx")
    = ([], inr doc) /\
    forall b run c, In b (body doc) -> In run (runs_of b) -> run_color run = Some c ->
      match run_text run with
      | None => c = red
      | Some status =>
          run_bold run = false /\
          c = (if eq_literal status (py "Non-compliant") then red else green)
      end.
Proof.
  intros L.
  pose (r := generate_word_report L WordCases.report (py "inspection_report.docx")).
  let v := eval vm_compute in r in
  match v with (_, inr ?d) => pose (doc := d) end.
  assert (H : generate_word_report L WordCases.report (py "inspection_report.docx")
              = ([], inr doc)) by (vm_compute; reflexivity).
  exists doc. split; [exact H|].
  exact (word_report_colours L WordCases.report (py "inspection_report.docx") H).
Defined.

(** ** The frames of [process_video] in the Word report *)

Lemma frame_filename_head (t : Z) :
  exists rest, frame_filename t = 102%N :: rest
    /\ starts_with (py "frame_") (frame_filename t) = true.
Proof.
  unfold frame_filename. eexists. split; reflexivity.
Qed.

(** The path at which the renderer looks for a frame by its file name is
    the path at which [process_video] wrote it into the default folder. *)
Lemma os_path_join_frame (t : Z) :
  os_path_join (py "extracted_frames") (frame_filename t)
  = frame_path_of (py "extracted_frames") t.
Proof.
  unfold frame_path_of, Path_div. rewrite frame_filename_relative.
  rewrite (split_slash_free _ (frame_filename_free t)).
  change (filter is_part [frame_filename t]) with [frame_filename t].
  destruct (frame_filename_head t) as (rest & Hn & _). rewrite Hn. reflexivity.
Qed.

Lemma accept_none (L : Library) text :
  rejects L text = None -> accept L text = ([], inr tt).
Proof. unfold accept. intros ->. reflexivity. Qed.

(** X15.  A frame that [process_video] returned for the default folder is
    found by the renderer under the name of its file: a finding whose
    mediaReference is that name gets the picture of the file that was
    written, with a caption and a blank paragraph, provided that the file
    is still there and that the library takes it. *)
Theorem extracted_frame_is_embedded (L : Library) (cv : Cv2) video_path
    frame_paths tr key path (d : dict json) (area : json) :
  process_video cv video_path (py "extracted_frames") = (Return frame_paths, tr) ->
  In (key, path) frame_paths ->
  dict_get d (py "mediaReference") = Some (JStr (Path_name (mkPath path))) ->
  path_exists L path = true ->
  add_picture L path = None ->
  (forall text, rejects L text = None) ->
  In path (map fst (written_files tr)) /\
  exists caption,
    image_of L (JObj d) area
    = ([], inr [ Picture path 4;
                 Paragraph (Some (JStr caption)) (Some (py "Caption")) false [];
                 Paragraph None None false [] ]).
Proof.
  intros Hp Hin Hd Hex Hpic Hrej.
  destruct (@process_video_entries _ _ _ _ _ Hp) as [Hfp Hw].
  assert (Hvals : In path (values frame_paths)).
  { unfold values. apply in_map_iff. exists (key, path). auto. }
  split; [rewrite Hw; exact Hvals|].
  rewrite Hfp in Hin. apply in_map_iff in Hin. destruct Hin as (t & Ht & _).
  unfold frame_entry in Ht. inversion Ht; subst key path. clear Ht.
  rewrite frame_path_name in Hd.
  destruct (frame_filename_head t) as (rest & Hn & Hsw).
  unfold image_of, get. rewrite Hd. unfold lift at 1. unfold bind at 1.
  assert (Htruth : truthy L (JStr (frame_filename t)) = true) by (rewrite Hn; reflexivity).
  rewrite Htruth. unfold startswith. rewrite Hsw. unfold lift at 1. unfold bind at 1.
  change (format L (JStr (frame_filename t))) with (frame_filename t).
  cbv zeta. rewrite os_path_join_frame, Hex.
  destruct (dict_get d (py "timestamp")) as [ts|];
    unfold lift, bind, add_image; rewrite Hpic, Hrej; eexists; reflexivity.
Qed.

Lemma extracted_frame_is_embedded_witness :
  let L := WordCases.library [py "extracted_frames/frame_10.jpg"] in
  let cv := Scenario.cv_of Cases.cap_gaps in
  let finding := JObj [(py "area", JStr (py "Roof"));
                       (py "mediaReference", JStr (py "frame_10.jpg"))] in
  exists caption,
    image_of L finding (JStr (py "Roof"))
    = ([], inr [ Picture (py "extracted_frames/frame_10.jpg") 4;
                 Paragraph (Some (JStr caption)) (Some (py "Caption")) false [];
                 Paragraph None None false [] ]).
Proof.
  intros L cv finding.
  pose (r := process_video cv (py "walk.mp4") (py "extracted_frames")).
  assert (Hf : fst r = Return
            [(py "video_0s", py "extracted_frames/frame_0.jpg");
             (py "video_10s", py "extracted_frames/frame_10.jpg");
             (py "video_20s", py "extracted_frames/frame_20.jpg")])
    by (vm_compute; reflexivity).
  pose proof (surjective_pairing r) as Hr. rewrite Hf in Hr.
  refine (proj2 (@extracted_frame_is_embedded L cv (py "walk.mp4") _ (snd r)
                   (py "video_10s") (py "extracted_frames/frame_10.jpg")
                   [(py "area", JStr (py "Roof"));
                    (py "mediaReference", JStr (py "frame_10.jpg"))]
                   (JStr (py "Roof")) Hr _ _ _ _ _)).
  - right. left. reflexivity.
  - reflexivity.
  - reflexivity.
  - reflexivity.
  - intros text. reflexivity.
Defined.

(** ** Reports of the schema of the prompt *)

Definition returns {A} (m : R A) : Prop := exists printed a, m = (printed, inr a).

Lemma returns_bind {A B} (m : R A) (k : A -> R B) printed a :
  m = (printed, inr a) -> returns (k a) -> returns (bind m k).
Proof.
  intros Hm (p2 & b & Hk). exists (printed ++ p2), b.
  unfold bind. rewrite Hm, Hk. reflexivity.
Qed.

Lemma returns_bind_any {A B} (m : R A) (k : A -> R B) :
  returns m -> (forall a, returns (k a)) -> returns (bind m k).
Proof.
  intros (p1 & a & Hm) Hk. eapply returns_bind; [exact Hm | apply Hk].
Qed.

Lemma returns_ret {A} (a : A) : returns (ret a).
Proof. exists [], a. reflexivity. Qed.

Lemma returns_for_blocks (items : list json) (body : json -> R (list Block)) :
  (forall x, In x items -> returns (body x)) -> returns (for_blocks items body).
Proof.
  induction items as [|x rest IH]; intros H; simpl.
  - apply returns_ret.
  - apply returns_bind_any; [apply H; left; reflexivity | intros bs].
    apply returns_bind_any; [apply IH; intros y Hy; apply H; right; exact Hy | intros bs'].
    apply returns_ret.
Qed.

Section Accepting.

Variable L : Library.
Hypothesis accepts : forall text, rejects L text = None.

Lemma returns_accept text : returns (accept L text).
Proof. exists [], tt. apply accept_none, accepts. Qed.

Lemma returns_add_bullet text : returns (add_bullet L text).
Proof.
  unfold add_bullet. apply returns_bind_any; [apply returns_accept | intros _].
  apply returns_ret.
Qed.

Lemma returns_add_heading text level : returns (add_heading L text level).
Proof.
  unfold add_heading. apply returns_bind_any; [apply returns_accept | intros _].
  apply returns_ret.
Qed.

Lemma returns_bullets (items : list json) : returns (for_blocks items (add_bullet L)).
Proof. apply returns_for_blocks. intros x _. apply returns_add_bullet. Qed.

(** A list of strings, empty or not, gives its bullets. *)
Lemma returns_optional_bullets (xs : list str) (title : str) (level : nat) :
  returns (if truthy L (Report.json_of_strings xs) then
             bind (lift (iter (Report.json_of_strings xs))) (fun items =>
               bind (for_blocks items (add_bullet L)) (fun bullets =>
                 ret (Heading title level false :: bullets)))
           else ret []).
Proof.
  destruct (truthy L (Report.json_of_strings xs)); [| apply returns_ret].
  eapply returns_bind; [reflexivity|].
  apply returns_bind_any; [apply returns_bullets | intros bs]. apply returns_ret.
Qed.

Lemma returns_add_image frame_path area timestamp :
  returns (add_image L frame_path area timestamp).
Proof.
  unfold add_image. destruct (add_picture L frame_path).
  { eexists. eexists. reflexivity. }
  rewrite accepts. apply returns_ret.
Qed.

Lemma returns_image_of (f : Report.Finding) (area : json) :
  returns (image_of L (Report.json_of_finding f) area).
Proof.
  unfold image_of. eapply returns_bind; [reflexivity|].
  destruct (Report.mediaReference f) as [ref|]; simpl Report.json_of_optional;
    [| apply returns_ret].
  destruct (truthy L (JStr ref)); [| apply returns_ret].
  eapply returns_bind; [reflexivity|].
  destruct (starts_with (py "frame_") ref); [| apply returns_ret].
  destruct (path_exists L _); [| apply returns_ret].
  eapply returns_bind; [reflexivity|]. apply returns_add_image.
Qed.

Lemma returns_render_finding (f : Report.Finding) :
  returns (render_finding L (Report.json_of_finding f)).
Proof.
  unfold render_finding.
  eapply returns_bind; [reflexivity|].
  eapply returns_bind; [reflexivity|].
  apply returns_bind_any; [apply returns_add_heading | intros heading].
  apply returns_bind_any; [apply returns_image_of | intros image].
  eapply returns_bind; [reflexivity|].
  apply returns_bind_any; [apply returns_accept | intros _].
  eapply returns_bind; [reflexivity|].
  apply returns_bind_any; [apply returns_optional_bullets | intros issue_blocks].
  eapply returns_bind; [reflexivity|].
  eapply returns_bind; [reflexivity|].
  apply returns_bind_any.
  { destruct (_ && _); [| apply returns_ret].
    apply returns_bind_any; [apply returns_accept | intros _]. apply returns_ret. }
  intros reference_blocks.
  eapply returns_bind; [reflexivity|].
  apply returns_bind_any.
  { destruct (truthy L _); [| apply returns_ret].
    apply returns_bind_any; [apply returns_accept | intros _]. apply returns_ret. }
  intros recommendation_blocks. apply returns_ret.
Qed.

Lemma returns_render_schedule (e : Report.ScheduleEntry) :
  returns (render_schedule L (Report.json_of_entry e)).
Proof.
  unfold render_schedule.
  eapply returns_bind; [reflexivity|].
  apply returns_bind_any; [apply returns_add_heading | intros heading].
  eapply returns_bind; [reflexivity|].
  eapply returns_bind; [reflexivity|].
  apply returns_bind_any; [apply returns_bullets | intros bullets].
  apply returns_ret.
Qed.

Lemma returns_executive_summary (r : Report.Report) :
  returns (_add_executive_summary L (Report.json_of_report r)).
Proof.
  unfold _add_executive_summary.
  eapply returns_bind; [reflexivity|].
  eapply returns_bind; [reflexivity|].
  apply returns_bind_any; [apply returns_accept | intros _].
  eapply returns_bind; [reflexivity|].
  eapply returns_bind; [reflexivity|].
  eapply returns_bind; [reflexivity|].
  apply returns_bind_any.
  { apply returns_for_blocks. intros x _.
    apply returns_bind_any; [apply returns_accept | intros _]. apply returns_ret. }
  intros critical_blocks.
  eapply returns_bind; [reflexivity|].
  eapply returns_bind; [reflexivity|].
  eapply returns_bind; [reflexivity|].
  apply returns_bind_any; [apply returns_bullets | intros action_blocks].
  apply returns_ret.
Qed.

Lemma returns_detailed_findings (r : Report.Report) :
  returns (_add_detailed_findings L (Report.json_of_report r)).
Proof.
  unfold _add_detailed_findings.
  eapply returns_bind; [reflexivity|].
  eapply returns_bind; [reflexivity|].
  apply returns_bind_any; [| intros blocks; apply returns_ret].
  apply returns_for_blocks. intros x Hx.
  apply in_map_iff in Hx. destruct Hx as (f & <- & _).
  apply returns_render_finding.
Qed.

Lemma returns_maintenance_schedule (r : Report.Report) :
  returns (_add_maintenance_schedule L (Report.json_of_report r)).
Proof.
  unfold _add_maintenance_schedule.
  eapply returns_bind; [reflexivity|].
  eapply returns_bind; [reflexivity|].
  eapply returns_bind; [reflexivity|].
  apply returns_bind_any.
  { apply returns_for_blocks. intros x Hx.
    apply in_map_iff in Hx. destruct Hx as (e & <- & _).
    apply returns_render_schedule. }
  intros schedule_blocks.
  eapply returns_bind; [reflexivity|].
  eapply returns_bind; [reflexivity|].
  apply returns_bind_any; [apply returns_optional_bullets | intros cost_blocks].
  apply returns_ret.
Qed.

Lemma returns_generate_word_report (r : Report.Report) (output_path : str) :
  save L output_path = None ->
  returns (generate_word_report L (Report.json_of_report r) output_path).
Proof.
  intros Hsave. unfold generate_word_report.
  eapply returns_bind; [reflexivity|].
  apply returns_bind_any; [apply returns_executive_summary | intros summary].
  apply returns_bind_any; [apply returns_detailed_findings | intros findings].
  apply returns_bind_any; [apply returns_maintenance_schedule | intros maintenance].
  rewrite Hsave. apply returns_ret.
Qed.

End Accepting.

(** X16.  A report of the schema of the prompt is rendered: for every
    Report, whatever its strings and whichever of its optional fields are
    null, [generate_word_report] raises no KeyError, TypeError or
    AttributeError and saves a document, provided that the library takes
    the texts and that the save succeeds; a picture that cannot be added
    is printed and does not prevent it. *)
Theorem schema_report_is_rendered (L : Library) (r : Report.Report) (output_path : str) :
  (forall text, rejects L text = None) ->
  save L output_path = None ->
  exists printed doc,
    generate_word_report L (Report.json_of_report r) output_path
    = (printed, inr doc).
Proof.
  intros Hacc Hsave. exact (returns_generate_word_report L Hacc r output_path Hsave).
Qed.

Lemma schema_report_is_rendered_witness :
  exists printed doc,
    generate_word_report (WordCases.library []) WordCases.report (py "report.docx")
    = (printed, inr doc).
Proof.
  apply (schema_report_is_rendered (WordCases.library []) Scenario.sample_report
           (py "report.docx")).
  - intros text. reflexivity.
  - reflexivity.
Defined.

(** ** What the Word export asks of a report *)

Lemma for_blocks_each (items : list json) (body : json -> R (list Block)) printed bs :
  for_blocks items body = (printed, inr bs) ->
  forall x, In x items -> exists p b, body x = (p, inr b).
Proof.
  revert printed bs. induction items as [|y rest IH]; intros printed bs H x Hx.
  - destruct Hx.
  - simpl in H. invert_run H. destruct Hx as [<- | Hx]; [eauto|].
    eapply IH; eassumption.
Qed.

(** X17.  A Word report is saved only for a report that has the three
    sections executiveSummary, detailedInspection and maintenanceNotes,
    whose detailedInspection can be iterated, and each of whose findings
    has the keys area, condition and complianceStatus: a report that lacks
    any of them ends the rendering with an exception before anything is
    saved. *)
Theorem word_report_requirements (L : Library) report_data output_path printed doc :
  generate_word_report L report_data output_path = (printed, inr doc) ->
  exists summary detailed notes findings,
    getitem report_data (py "executiveSummary") = inr summary /\
    getitem report_data (py "detailedInspection") = inr detailed /\
    getitem report_data (py "maintenanceNotes") = inr notes /\
    iter detailed = inr findings /\
    forall finding, In finding findings ->
      exists area condition status,
        getitem finding (py "area") = inr area /\
        getitem finding (py "condition") = inr condition /\
        getitem finding (py "complianceStatus") = inr status.
Proof.
  unfold generate_word_report. intros H. invert_run H. clear H.
  match goal with
  | H : _add_executive_summary _ _ = _ |- _ =>
      unfold _add_executive_summary in H; invert_run H; clear H
  end.
  match goal with
  | H : _add_maintenance_schedule _ _ = _ |- _ =>
      unfold _add_maintenance_schedule in H; invert_run H; clear H
  end.
  match goal with
  | H : _add_detailed_findings _ _ = _ |- _ =>
      unfold _add_detailed_findings in H; invert_run H; clear H
  end.
  match goal with
  | Hs : getitem report_data (py "executiveSummary") = inr ?s,
    Hd : getitem report_data (py "detailedInspection") = inr ?d,
    Hn : getitem report_data (py "maintenanceNotes") = inr ?n,
    Hi : iter ?d = inr ?fs,
    Hf : for_blocks ?fs (render_finding L) = _ |- _ =>
      exists s, d, n, fs; repeat (split; [assumption|]);
      intros finding Hin;
      destruct (for_blocks_each _ _ Hf finding Hin) as (q & b & Hb);
      unfold render_finding in Hb; invert_run Hb; eauto 10
  end.
Qed.

Lemma word_report_requirements_witness :
  let L := WordCases.library [] in
  exists summary,
    getitem WordCases.report (py "executiveSummary") = inr summary.
Proof.
  intros L.
  pose (r := generate_word_report L WordCases.report (py "inspection_report.docx")).
  let v := eval vm_compute in r in
  match v with (_, inr ?d) => pose (doc := d) end.
  assert (H : generate_word_report L WordCases.report (py "inspection_report.docx")
              = ([], inr doc)) by (vm_compute; reflexivity).
  destruct (word_report_requirements L WordCases.report (py "inspection_report.docx") H)
    as (summary & _ & _ & _ & Hs & _).
  exists summary. exact Hs.
Defined.
